(* ===== verification/_CoqProject ===== *)
-Q . S2P
Prelude.v
Text.v
Protocol.v
Config.v
State.v
StateProps.v
Backoff.v
Supervisor.v
Identity.v
Spool.v
SpoolProps.v
Uplink.v
UplinkProps.v
Capture.v
Encode.v
Pipeline.v
PipelineProps.v
Utf8.v
Pkce.v
Auth.v
Heartbeat.v
Widget.v
Agent.v
AgentProps.v
Ipc.v
Der.v
Files.v
DeviceKey.v
Csr.v
Update.v
ConfigSync.v
SpoolKey.v
Enroll.v
EnrollProps.v
Service.v
ServiceProps.v
Telemetry.v
TelemetryProps.v
Api.v
LiveSource.v
Position.v
IpcClient.v
Credential.v
Socket.v
Startup.v
StartupProps.v
Cng.v
Scm.v
Launcher.v
Float.v
Resample.v
Endpoint.v
Vad.v
Replay.v
Desktop.v
Session.v
PipeHost.v
Shell.v
Activation.v
Main.v
GoWire.v
Gateway.v
GatewayProps.v
Delivery.v
Coded.v
DeliveryRuns.v
Watermark.v
Loopback.v
Http.v
GatewayEnroll.v
EnrollExchange.v
EnrollRuns.v
LocalHeap.v
