(* ===== verification/Prelude.v ===== *)
(** * MagickSentinel: a verification library

    The program (src/client, four Rust crates) records both sides of an agent's
    telephone calls on a Windows desktop and uploads them. In the order the audio
    travels: a [CaptureSource] is read by the pipeline, which marks foreign audio,
    feeds voice activity to the call detector, encodes one-second Opus segments and
    spools those of an open call to an encrypted table; the uplink drains the table
    over a WebSocket, deleting what the gateway acknowledges; the agent's loop
    advances all of it on one tick, under an identity gate, with a heartbeat and a
    widget; a SYSTEM service relaunches the agent and serves it configuration over
    a pipe. At the other end a gateway (src/server/gateway, Go) stores the segments,
    acknowledges them, and enrolls machines; the parts of it a segment or an enrollment
    passes through are modelled too, and composed with the client.

    ** Files, in dependency order, and the code they model

    - Prelude.v: Rust's [Result] and [?], the state-and-error monad, record update,
      machine integers, byte strings, orders; the tactics [ints], [bool_hyps],
      [lens] and the hint databases.
    - Text.v, Utf8.v: the [str] operations the code uses, over byte strings.
    - Protocol.v: sentinel-core/src/protocol.rs, the media record codec, segment
      packing and control messages.
    - Config.v: sentinel-core/src/config.rs and events.rs.
    - State.v, StateProps.v: sentinel-core/src/state.rs, the call detector.
    - Backoff.v: sentinel-core/src/backoff.rs.
    - Supervisor.v: sentinel-service/src/supervisor.rs, the watchdog.
    - Identity.v: sentinel-agent/src/identity.rs, the gate.
    - Spool.v, SpoolProps.v: sentinel-core/src/spool.rs, the tables as finite maps
      and one definition per statement sequence.
    - Uplink.v, UplinkProps.v: sentinel-agent/src/uplink (mod.rs, resume.rs,
      transport.rs).
    - Capture.v: sentinel-capture/src (lib.rs, source.rs, foreign.rs, device.rs,
      tier.rs) and the service's copy of the tier rule.
    - Encode.v: sentinel-agent/src/encode.rs, framing into segments.
    - Pipeline.v, PipelineProps.v: sentinel-agent/src/pipeline.rs.
    - Pkce.v: sentinel-agent/src/auth/pkce.rs and the request lines of loopback.rs.
    - Auth.v: sentinel-agent/src/auth/mod.rs and store.rs.
    - Heartbeat.v: sentinel-agent/src/heartbeat.rs, the API types of api.rs, and what the
      answer to a heartbeat does to the events it carried.
    - Widget.v: sentinel-agent/src/widget/mod.rs and position.rs.
    - Agent.v, AgentProps.v: sentinel-agent/src/agent.rs, the tick.
    - Ipc.v: sentinel-service/src/ipc/codec.rs, the connection loop of
      windows/pipe.rs and the request handler of main.rs.
    - Der.v, Csr.v: sentinel-service/src/der.rs and csr.rs, with a strict reader of
      the same encodings to prove them against.
    - Files.v: the calls of std::fs the service makes, on a disk whose operations can
      fail at any point.
    - DeviceKey.v: sentinel-service/src/devicekey (mod.rs, software.rs).
    - Update.v: sentinel-service/src/update.rs and crashdump.rs.
    - ConfigSync.v: sentinel-service/src/config_sync.rs.
    - SpoolKey.v: sentinel-service/src/spoolkey.rs.
    - Enroll.v, EnrollProps.v: sentinel-service/src/device.rs and enroll.rs.
    - Service.v, ServiceProps.v: the loop of sentinel-service/src/main.rs, the facts
      and settings of windows/machine.rs, the events of windows/scm.rs and the answers
      of http.rs.
    - Telemetry.v, TelemetryProps.v: sentinel-service/src/telemetry.
    - Api.v: sentinel-agent/src/api.rs.
    - LiveSource.v: sentinel-agent/src/windows/capture_source.rs, the packet loop of
      process_loopback.rs and the process lookup of session.rs.
    - Position.v: sentinel-agent/src/widget/position.rs.
    - IpcClient.v: sentinel-agent/src/ipc.rs and [load_config] of main.rs.
    - Credential.v: sentinel-agent/src/device.rs.
    - Socket.v: [WsTransport] of sentinel-agent/src/uplink/transport.rs and the
      socket factory of main.rs.
    - Startup.v, StartupProps.v: [run] of sentinel-agent/src/main.rs.
    - Cng.v: sentinel-service/src/devicekey/cng.rs, the key in the platform store.
    - Scm.v: sentinel-service/src/windows/scm.rs and recovery.rs, the control handler
      interleaved with the service thread.
    - Launcher.v: sentinel-service/src/windows/launcher.rs.
    - Float.v: binary32 and binary64 arithmetic, on Corelib's [SpecFloat].
    - Resample.v, Vad.v: sentinel-capture/src/resample.rs and vad.rs.
    - Endpoint.v: sentinel-capture/src/windows/endpoint_loopback.rs.
    - Replay.v: sentinel-capture/src/replay.rs.
    - Desktop.v: the credential vault of sentinel-agent/src/auth/store.rs, the system
      browser of auth/browser.rs, the mutex of instance.rs.
    - Session.v: sentinel-capture/src/windows (session.rs, notification.rs, os.rs) and
      the service's reader of the Windows build.
    - PipeHost.v: [serve] of sentinel-service/src/windows/pipe.rs, with its threads.
    - Shell.v: sentinel-agent/src/widget/webview2.rs and the headless widget.
    - Activation.v: opening process_loopback.rs's stream, and both kinds of stream of
      capture_source.rs as one engine.
    - Main.v: [main] of both programs and the DPAPI wrapper of spoolkey.rs.
    - GoWire.v: server/gateway/internal/wire/wire.go, the gateway's codec, and that it is
      the client's.
    - Gateway.v, GatewayProps.v: the gateway's ingest, internal/ingest (session.go,
      sink.go, ws.go) with the object names of internal/blob; the sink's database and
      object store as finite maps whose every call can fail.
    - Delivery.v: spool, uplink, heartbeats, restarts, connection and gateway as one system
      of steps.
    - Coded.v, DeliveryRuns.v: parameters, a scheduler and concrete runs of that system.
    - Watermark.v: what a session's watermark means, over the handlers of Gateway.v.
    - Loopback.v: sentinel-agent/src/auth/loopback.rs on its sockets and its clock.
    - Http.v: sentinel-service/src/http.rs and the telemetry thread over it.
    - GatewayEnroll.v: internal/api/enroll.go, internal/ca/ca.go and the queries of
      internal/store/admin.go with the SQL functions they call (src/db/migrations).
    - EnrollExchange.v, EnrollRuns.v: the service's enrollment and the gateway's together.
    - LocalHeap.v: the buffers Windows allocates for store.rs, spoolkey.rs and pipe.rs.

    A Rust struct is a [Record] with the source's fields (prefixed where two structs
    share a name), an enum an [Inductive]; a [&mut self] method takes the state and
    returns it; a method that can fail returns a [result] and keeps the mutations
    made before the failure. A panic, or a loop whose fuel ran out, is [None].

    ** Interfaces

    Traits and third-party code are type classes, and the components that use them
    are proved against the class: [Transport] and [TransportFactory] (WebSocket),
    [ControlJson] and [IpcJson] (serde_json), [Opus], [VadOps], [CaptureSource],
    [TokenStore] with [TokenStoreLaws], [TokenEndpoint], [BrowserLauncher],
    [Entropy], [OffsetDateTime], [SentinelApi], [WidgetShell]; [DeviceKey] (CNG or a
    file), [P256], [KeyWrapper] (DPAPI), [OsRng], [EnrollTransport], [PolicyFetch],
    [FileJson], [Ureq] and [HttpPost] (the agent's and the service's HTTP), [JsonBody],
    [GoJson] (encoding/json; [JsonAgrees] says that serde_json reads what it writes, and
    the other way round), [WsNet] and [WsSocket] (tungstenite, rustls),
    [AudioEngine] (WASAPI), [NCrypt], [ProcessApi], [ScDatabase], [Libm] (the C library's
    functions on floats), [CredVault], [Dpapi], [Mutexes], [Win32]. What a proof needs of one is a class of laws beside it
    ([DeviceKeyLaws], [FileJsonLaws], [KeyWrapperLaws], [IpcJsonLaws], [NCryptLaws],
    [ProcessApiLaws], [CredVaultLaws], [MutexesLaws], [AudioEngineLaws]). ULIDs,
    wall-clock times, the random draw of the backoff, SHA-256, base64 and RFC 3339 are
    arguments. The concrete runs at the end of a file instantiate them, and the modelled
    implementations are instances: [http_api], [http_token_endpoint], [live_source],
    [ws_transport], [wss_factory], [software_DeviceKey], [plaintext_wrapper],
    [cng_DeviceKey], [vad_ops], [replay_source], [credential_manager_store],
    [dpapi_machine_scope], [windows_engine], [headless_shell]; where an interface has laws
    the implementation's are proved ([cng_DeviceKeyLaws], [credential_manager_laws],
    [dpapi_machine_scope_laws], [windows_engine_laws]).

    ** What the theorems show

    - Codec: [decode_all] accepts exactly what [encode_into] builds; segments pack
      and unpack; truncation is reported.
    - Detector: every run refines a call protocol (start, wrap, end bracketed); what
      starts, wraps and ends a call, and that a quiet call ends.
    - Spool: segments are conserved, lost only by an ack or with a report; caps hold
      after every push; ack marks never fall; [take_pending] is the first unacked.
    - Uplink: what goes on the wire decodes to the unsent rows that fit a media record
      (a payload over 65535 bytes is never sent); nothing is deleted
      but on the server's word; nothing is sent twice on a connection; reconnects
      are paced; resuming re-sends exactly what neither side vouches for.
    - Capture and pipeline: foreign audio is marked and counted, only pinned devices
      are opened, segments are whole seconds, stamped by their own channel's samples,
      only audio of an open call is spooled, detector and pipeline agree on whether a call is open.
    - Agent: a tick the gate forbids captures nothing; revocation stops capture and every
      upload but that of a sign-out; sign-out stops capture; every client event the agent
      was told of is acknowledged or queued, once. [agent_never_records]
      follows from the gate never being told about the headset.
    - Sign-in: only a callback with our own state is redeemed; refresh is scheduled
      before expiry; signed out stays out; callbacks survive URL encoding.
    - Watchdog, backoff, pipe: the first due session is launched, crash loops back
      off, every request on the pipe is answered once whatever the chunking, and the
      agent starts on the configuration the service holds.
    - Enrollment: the signing request reads back under RFC 2986; the token is spent
      only with a reason and kept until it bought a certificate; whichever disk
      operation fails, an identity record is backed by its certificate; a check always
      ends in an outcome; and the certificate and chain of the gateway's response are what
      both of the agent's TLS clients present, with the key the request was for.
    - Start-up: problems of the credential are reported in order; without the spool key
      nothing is ever recorded; the ingest socket carries the token only over TLS or to
      the loopback interface, and the certificate when it is given one; token requests decode to the grant.
    - Service: a session gets an agent only when it has none running; the cached policy is the one
      on disk; only permitted attributes leave as telemetry; every record and
      every drop report is in a batch taken, in a batch thrown away because its post
      failed, or still held; updates, crash dumps and staged names.
    - Live audio: the adapter hands out the engine's samples in order, none lost, all of
      them 16-bit; the endpoint stream is one resampled signal however it is cut into
      reads that succeed; the resampler stitches its buffers exactly (both for device
      rates two to sixteen times the output's, a whole number of times); the voice detector is its
      definition over the whole history of frames; a replayed recording plays in order.
    - Platform key: whichever NCrypt call fails, no key is left that is not sealed.
    - Concurrency: under any interleaving the service's passes are the loop's on the
      events delivered, and a stop is acted on; the pipe's connections serialise, and
      every pipe instance is owned once; one agent runs per session; launching an agent
      leaks no handle.
    - Sign-in wait: on real sockets the wait is the one over request lines, cut at its
      deadline; how late it can return; what the browser is told.
    - Secrets: the blocks DPAPI allocates are given back, as zeros; the credential that
      CredReadW allocates is given back once, holding only what DPAPI had encrypted.
    - Gateway: its codec is the client's, down to the record and the offset its errors
      name; a session's watermark is the longest run of what it stored, above what the
      database had acknowledged; every ack and resume it writes names only segments whose row and
      object are stored, over any interleaving of connections, frames, ticks and failures.
    - Putting the programs together: no segment is unaccounted for, over any run of the
      client against the gateway on connections that lose and cut (it is in the spool,
      stored, or counted in an event that was delivered or waits to be); the exceptions,
      events that die with the process or with a refused heartbeat, are counted apart, and
      DeliveryRuns.v has a run of each; a token buys at most one certificate, and a machine
      that reports itself enrolled is the one the gateway registered; the tier the service
      hands out is the one the capture crate detects; a dragged widget stays on the work
      area.

    ** Fuel and bounds

    [decode_loop], [unpack_loop], [push_loop], [evict_loop], [pump_frames] and the
    text loops take fuel no smaller than the data they consume, and the theorems
    show it is enough (each turn consumes at least a byte or a row). [read_incoming]
    takes the number of messages a socket may deliver in one pass, which the source
    does not bound; its result is an [option] and the theorems about a pass start
    from a pass that returned. Integers are [Z] with saturation and wrap-around
    written out where the source has them; quantities that only grow by one step per
    event (sequence numbers, counters) are left unbounded, except where a theorem
    says otherwise.

    The disk of Files.v carries the faults its next operations meet, so a theorem about
    any disk is a theorem about any pattern of failures. [top_up] takes as many rounds
    as samples are wanted, [collapse_dots] as many as the name is long; both are shown
    to be enough. The service loop and the agent's loop are run over finite lists of
    inputs of any length.

    The resampler's loop has fuel for every output its history can hold at its two
    rates, and [resampler_stitches] shows that it returns, for source rates that are
    multiples of the output's; the panic of [drain] is [None]. [absorb] has fuel for every
    number the gateway holds ahead of its watermark, and [watermark_is_the_contiguous_prefix]
    needs it to be enough; [wire_DecodeLoop] as much as its message has bytes.
    Interleavings (Scm.v, PipeHost.v, Main.v, GatewayProps.v, Delivery.v, EnrollExchange.v)
    are step relations whose steps are the atomic actions of each thread or program: in
    Delivery.v a pass of the client is two steps, sending and reading, with any turns of
    the gateway between; in EnrollExchange.v a handler is the statements of the
    database and the signing between them. The wait of Loopback.v runs over the finitely
    many turns in which something happens.

    ** Not modelled

    WebView2 (the source has no controller yet); the SQL engine and its encryption; TLS,
    WebSocket and HTTP libraries; the C library's functions on floats; tracing output and
    its subscribers; of the gateway the portal's API, authentication, loading the CA and
    publishing the outbox; the workers and the portal. The libraries are met through the
    interfaces above; of the two databases the statements are modelled, not the engines. *)

From Stdlib Require Export ZArith Lia.
From Stdlib.Strings Require Import Byte.
From Stdlib.Strings Require Export Ascii.
From stdpp Require Export base gmap list strings sorting numbers option pretty.

#[global] Open Scope Z_scope.

Declare Scope sentinel_scope.
Delimit Scope sentinel_scope with sentinel.
#[global] Open Scope sentinel_scope.

(** ** Rust [Result] *)

Inductive result (A E : Type) : Type :=
| Ok (a : A)
| Err (e : E).
Arguments Ok {A E} a.
Arguments Err {A E} e.

Definition res_bind {A B E} (r : result A E) (f : A -> result B E) : result B E :=
  match r with Ok a => f a | Err e => Err e end.
Definition res_map {A B E} (f : A -> B) (r : result A E) : result B E :=
  match r with Ok a => Ok (f a) | Err e => Err e end.
Definition map_err {A E F} (f : E -> F) (r : result A E) : result A F :=
  match r with Ok a => Ok a | Err e => Err (f e) end.
Definition res_ok {A E} (r : result A E) : option A :=
  match r with Ok a => Some a | Err _ => None end.
Definition is_ok {A E} (r : result A E) : bool :=
  match r with Ok _ => true | Err _ => false end.
Definition ok_or {A E} (o : option A) (e : E) : result A E :=
  match o with Some a => Ok a | None => Err e end.

(** [let? x := e in k] is Rust's [let x = e?; k]. *)
Notation "'let?' x ':=' e 'in' k" := (res_bind e (fun x => k))
  (at level 10, x pattern, e at level 200, k at level 200) : sentinel_scope.

Lemma res_bind_Ok {A B E} (r : result A E) (f : A -> result B E) b :
  res_bind r f = Ok b <-> exists a, r = Ok a /\ f a = Ok b.
Proof. destruct r; simpl; split; [by eauto|by intros (?&[= ->]&?)|done|by intros (?&[=]&?)]. Qed.

(** A stateful computation that can fail: Rust's [&mut self] methods returning a
    [Result]. The state is kept on failure, as the mutations before a [?] are. *)
Definition ret {S E A} (a : A) : S -> S * result A E := fun s => (s, Ok a).
Definition bindM {S E A B} (m : S -> S * result A E) (k : A -> S -> S * result B E)
    : S -> S * result B E := fun s =>
  let '(s', r) := m s in
  match r with Ok a => k a s' | Err e => (s', Err e) end.
Notation "'let!' x ':=' m 'in' k" := (bindM m (fun x => k))
  (at level 10, x pattern, m at level 200, k at level 200) : sentinel_scope.

(** ** Functional record update

    [r <| f := v |>] is the Rust assignment [r.f = v] in state-passing style. A
    record opts in with a [Rebuild] instance (its eta expansion); the setter of
    each field is derived from it. *)

Class Rebuild (R : Type) := rebuild : R -> R.
Class Setter {R T : Type} (proj : R -> T) := upd : (T -> T) -> R -> R.

Ltac derive_setter :=
  match goal with
  | |- @Setter ?R ?T ?proj =>
    let b := eval hnf in (rebuild (R:=R)) in
    let p := eval pattern proj in b in
    match p with
    | ?g proj =>
      let t := constr:(fun (f : T -> T) => g (fun r : R => f (proj r))) in
      let t := eval cbv beta in t in exact t
    end
  end.
#[export] Hint Extern 1 (Setter _) => derive_setter : typeclass_instances.
Arguments upd {_ _} _ {_} _ _ /.

Notation "r <| f := v |>" := (upd f (fun _ => v) r)
  (at level 1, left associativity, f at level 10, v at level 200,
   format "r  <| f  :=  v |>") : sentinel_scope.

(** ** Machine integers

    A [w]-bit integer is a [Z] kept in range; wrap-around and saturation are
    written out where the source has them. *)

Definition u8_max : Z := 255.
Definition u16_max : Z := 65535.
Definition u32_max : Z := 4294967295.
Definition u64_max : Z := 18446744073709551615.
Definition i64_max : Z := 9223372036854775807.
Definition i64_min : Z := -9223372036854775808.

(** [a.saturating_sub(b)] on an unsigned type. *)
Definition sat_sub (a b : Z) : Z := Z.max 0 (a - b).
(** [a.saturating_add(b)] on an unsigned type with maximum [m]. *)
Definition sat_add (m a b : Z) : Z := Z.min m (a + b).
(** [a.saturating_mul(b)] on an unsigned type with maximum [m]. *)
Definition sat_mul (m a b : Z) : Z := Z.min m (a * b).
(** Wrapping conversions [as u16], [as u32], [as u64]. *)
Definition wrap16 (z : Z) : Z := z mod 2 ^ 16.
Definition wrap32 (z : Z) : Z := z mod 2 ^ 32.
Definition wrap64 (z : Z) : Z := z mod 2 ^ 64.
(** [z as i64] for a [u64]. *)
Definition as_i64 (z : Z) : Z :=
  if z mod 2 ^ 64 <=? i64_max then z mod 2 ^ 64 else z mod 2 ^ 64 - 2 ^ 64.
(** [z.clamp(lo, hi)]. *)
Definition clamp (z lo hi : Z) : Z := Z.min (Z.max z lo) hi.

Definition in_u32 (z : Z) : Prop := 0 <= z <= u32_max.
Definition in_u64 (z : Z) : Prop := 0 <= z <= u64_max.
Definition in_i64 (z : Z) : Prop := i64_min <= z <= i64_max.

Ltac ints :=
  unfold in_u32, in_u64, in_i64, sat_sub, sat_add, sat_mul, clamp, u8_max,
    u16_max, u32_max, u64_max, i64_max, i64_min in *.

Lemma as_i64_small z : 0 <= z <= i64_max -> as_i64 z = z.
Proof.
  intros H. unfold as_i64. rewrite Z.mod_small by (ints; lia).
  destruct (Z.leb_spec z i64_max); lia.
Qed.

Lemma wrap64_as_i64 z : 0 <= z <= u64_max -> wrap64 (as_i64 z) = z.
Proof.
  intros H. unfold as_i64, wrap64. rewrite (Z.mod_small z) by (ints; lia).
  destruct (Z.leb_spec z i64_max).
  - apply Z.mod_small; ints; lia.
  - replace (z - 2 ^ 64) with (z + (-1) * 2 ^ 64) by lia.
    rewrite Z.mod_add by lia. apply Z.mod_small; ints; lia.
Qed.

(** ** Slices and vectors *)

(** [v.len()] as a [usize]. *)
Abbreviation len l := (Z.of_nat (length l)).

(** [&v[a..b]] for in-range bounds. *)
Definition slice {A} (a b : nat) (l : list A) : list A := take (b - a) (drop a l).

Lemma slice_mid {A} a b (p m s : list A) :
  length p = a -> (a + length m)%nat = b -> slice a b (p ++ m ++ s) = m.
Proof.
  intros <- <-. unfold slice. rewrite drop_app_length.
  replace (length p + length m - length p)%nat with (length m) by lia.
  apply take_app_length.
Qed.

Lemma slice_app {A} a b c (l : list A) :
  (a <= b <= c)%nat -> slice a b l ++ slice b c l = slice a c l.
Proof.
  intros. unfold slice.
  replace (drop b l) with (drop (b - a) (drop a l)) by (rewrite drop_drop; f_equal; lia).
  rewrite <- (take_drop (b - a) (take (c - a) (drop a l))).
  rewrite take_take, Nat.min_l by lia. f_equal.
  rewrite take_drop_commute. do 2 f_equal. lia.
Qed.

Lemma slice_drop {A} a b (l : list A) :
  (a <= b)%nat -> slice a b l ++ drop b l = drop a l.
Proof.
  intros. unfold slice.
  replace (drop b l) with (drop (b - a) (drop a l)) by (rewrite drop_drop; f_equal; lia).
  apply take_drop.
Qed.

Lemma length_slice {A} a b (l : list A) :
  (a <= b <= length l)%nat -> length (slice a b l) = (b - a)%nat.
Proof. intros. unfold slice. rewrite length_take, length_drop. lia. Qed.

(** ** Bytes *)

Abbreviation u8 := Byte.byte.

Definition b2z (b : u8) : Z := Z.of_N (Byte.to_N b).
Definition z2b (z : Z) : u8 :=
  match Byte.of_N (Z.to_N (z mod 256)) with Some b => b | None => x00 end.

#[export] Instance byte_eq_dec : EqDecision u8 := Byte.byte_eq_dec.

Lemma b2z_range b : 0 <= b2z b < 256.
Proof. unfold b2z. pose proof (Byte.to_N_bounded b). lia. Qed.

Lemma z2b_b2z b : z2b (b2z b) = b.
Proof.
  unfold z2b, b2z. pose proof (Byte.to_N_bounded b).
  rewrite Z.mod_small, N2Z.id, Byte.of_to_N by lia. done.
Qed.

Lemma b2z_z2b_mod z : b2z (z2b z) = z mod 256.
Proof.
  unfold z2b, b2z. pose proof (Z.mod_pos_bound z 256 ltac:(lia)).
  destruct (Byte.of_N _) eqn:E.
  - apply Byte.to_of_N in E. rewrite E. lia.
  - apply Byte.of_N_None_iff in E. lia.
Qed.

Lemma b2z_z2b z : 0 <= z < 256 -> b2z (z2b z) = z.
Proof. intros. rewrite b2z_z2b_mod. apply Z.mod_small. lia. Qed.

#[export] Instance b2z_inj : Inj (=) (=) b2z.
Proof. intros a b E. rewrite <- (z2b_b2z a), <- (z2b_b2z b), E. done. Qed.

(** [x.to_le_bytes()] for an [n]-byte integer, and [from_le_bytes]. *)
Fixpoint to_le_bytes (n : nat) (z : Z) : list u8 :=
  match n with
  | O => []
  | S n' => z2b z :: to_le_bytes n' (z / 256)
  end.

Fixpoint from_le_bytes (l : list u8) : Z :=
  match l with
  | [] => 0
  | b :: l' => b2z b + 256 * from_le_bytes l'
  end.

(** [to_be_bytes] and [from_be_bytes]. *)
Definition to_be_bytes (n : nat) (z : Z) : list u8 := reverse (to_le_bytes n z).
Definition from_be_bytes (l : list u8) : Z := from_le_bytes (reverse l).

Lemma length_to_le_bytes n z : length (to_le_bytes n z) = n.
Proof. revert z; induction n as [|n IH]; intros z; simpl; [done|]. by rewrite IH. Qed.

Lemma from_le_bytes_range l : 0 <= from_le_bytes l < 256 ^ len l.
Proof.
  induction l as [|b l IH]; [simpl; lia|].
  pose proof (b2z_range b). cbn [from_le_bytes length].
  rewrite Nat2Z.inj_succ, Z.pow_succ_r by lia. lia.
Qed.

Lemma from_to_le_bytes n z :
  0 <= z < 256 ^ Z.of_nat n -> from_le_bytes (to_le_bytes n z) = z.
Proof.
  revert z; induction n as [|n IH]; intros z Hz.
  - simpl in *. change (256 ^ 0) with 1 in Hz. lia.
  - rewrite Nat2Z.inj_succ, Z.pow_succ_r in Hz by lia.
    cbn [to_le_bytes from_le_bytes]. rewrite b2z_z2b_mod, IH.
    + pose proof (Z.div_mod z 256 ltac:(lia)). lia.
    + split; [apply Z.div_pos; lia|]. apply Z.div_lt_upper_bound; lia.
Qed.

Lemma to_from_le_bytes l : to_le_bytes (length l) (from_le_bytes l) = l.
Proof.
  induction l as [|b l IH]; [done|]. pose proof (b2z_range b).
  cbn [length to_le_bytes from_le_bytes]. f_equal.
  - apply (inj b2z). rewrite b2z_z2b_mod.
    rewrite (Z.mul_comm 256), Z.mod_add by lia. apply Z.mod_small; lia.
  - rewrite (Z.mul_comm 256), Z.div_add by lia.
    rewrite Z.div_small by lia. exact IH.
Qed.

Lemma to_from_le_bytes' n l : length l = n -> to_le_bytes n (from_le_bytes l) = l.
Proof. intros <-. apply to_from_le_bytes. Qed.

(** ** Automation for lengths *)

(** Lengths of lists built by the codecs. *)
Create Rewrite HintDb lens.
#[export] Hint Rewrite @length_app @length_take @length_drop @length_reverse
  length_to_le_bytes @length_fmap : lens.
Ltac lens := autorewrite with lens in *; cbn [length] in *; lia.

(** Ranges of bytes and little-endian values. *)
Create HintDb ranges.
#[export] Hint Resolve b2z_range from_le_bytes_range : ranges.

(** ** Boolean hypotheses *)

Ltac bool_hyps :=
  repeat match goal with
  | H : _ && _ = true |- _ => apply andb_true_iff in H as [? ?]
  | H : _ || _ = false |- _ => apply orb_false_iff in H as [? ?]
  | H : negb _ = true |- _ => apply negb_true_iff in H
  | H : negb _ = false |- _ => apply negb_false_iff in H
  | H : (_ <=? _) = true |- _ => apply Z.leb_le in H
  | H : (_ <=? _) = false |- _ => apply Z.leb_gt in H
  | H : (_ <? _) = true |- _ => apply Z.ltb_lt in H
  | H : (_ <? _) = false |- _ => apply Z.ltb_ge in H
  | H : (_ =? _) = true |- _ => apply Z.eqb_eq in H
  | H : (_ =? _) = false |- _ => apply Z.eqb_neq in H
  | H : bool_decide _ = true |- _ => apply bool_decide_eq_true in H
  | H : bool_decide _ = false |- _ => apply bool_decide_eq_false in H
  end.

(** ** Orders for [ORDER BY] and [BTreeMap] iteration *)

(** Lexicographic product of two preorders. *)
Definition lexp {A B} (R : relation A) (S : relation B) : relation (A * B) :=
  fun x y => R x.1 y.1 /\ (R y.1 x.1 -> S x.2 y.2).
(** The preorder a key function induces. *)
Definition by_key {A B} (f : A -> B) (R : relation B) : relation A := fun x y => R (f x) (f y).

#[export] Instance lexp_dec {A B} (R : relation A) (S : relation B)
  `{!RelDecision R, !RelDecision S} : RelDecision (lexp R S).
Proof. intros x y. unfold lexp. apply _. Defined.
#[export] Instance by_key_dec {A B} (f : A -> B) (R : relation B) `{!RelDecision R} :
  RelDecision (by_key f R).
Proof. intros x y. unfold by_key. apply _. Defined.

#[export] Instance lexp_trans {A B} (R : relation A) (S : relation B)
  `{!Transitive R, !Transitive S} : Transitive (lexp R S).
Proof.
  intros x y z [H1 H2] [H3 H4]. split; [by trans y.1|].
  intros H. trans y.2; [apply H2|apply H4]; by etrans.
Qed.
#[export] Instance lexp_total {A B} (R : relation A) (S : relation B)
  `{!RelDecision R, !Total R, !Total S} : Total (lexp R S).
Proof.
  intros [a b] [c d]. unfold lexp. simpl.
  destruct (decide (R a c)), (decide (R c a)), (total R a c), (total S b d); tauto.
Qed.
#[export] Instance by_key_trans {A B} (f : A -> B) (R : relation B) `{!Transitive R} :
  Transitive (by_key f R).
Proof. intros x y z. unfold by_key. apply transitivity. Qed.
#[export] Instance by_key_total {A B} (f : A -> B) (R : relation B) `{!Total R} :
  Total (by_key f R).
Proof. intros x y. unfold by_key. apply total, _. Qed.
