(* ===== verification/Text.v ===== *)
(** Rust's [&str] operations the client uses, on byte strings holding UTF-8:
    [trim] over the Unicode White_Space characters, [trim_end_matches],
    prefixes, ASCII case folding, splitting, and integer formatting. *)

From S2P Require Import Prelude.

#[global] Open Scope string_scope.
#[global] Open Scope Z_scope.
#[global] Open Scope list_scope.

(** The byte value of a character of a [string]. *)
Definition code (a : ascii) : Z := Z.of_N (N_of_ascii a).
Definition chr (z : Z) : ascii := ascii_of_N (Z.to_N z).

Abbreviation chars := String.list_ascii_of_string.
Abbreviation str := String.string_of_list_ascii.

Lemma chars_str l : chars (str l) = l.
Proof. apply String.list_ascii_of_string_of_list_ascii. Qed.
Lemma str_chars s : str (chars s) = s.
Proof. apply String.string_of_list_ascii_of_string. Qed.

(** Length in bytes, [s.len()]. *)
Definition str_len (s : string) : Z := len (chars s).

Definition str_is_empty (s : string) : bool :=
  match s with EmptyString => true | _ => false end.

(** ** Whitespace

    How many bytes of the front of [l] encode one character with the Unicode
    White_Space property; 0 when the first character has it not. *)
Definition ws3 (a b c : Z) : bool :=
  ((a =? 225) && (b =? 154) && (c =? 128)) ||
  ((a =? 226) && (b =? 128) &&
     (((128 <=? c) && (c <=? 138)) || (c =? 168) || (c =? 169) || (c =? 175))) ||
  ((a =? 226) && (b =? 129) && (c =? 159)) ||
  ((a =? 227) && (b =? 128) && (c =? 128)).
Definition ws2 (a b : Z) : bool := (a =? 194) && ((b =? 133) || (b =? 160)).
Definition ws1 (a : Z) : bool := ((9 <=? a) && (a <=? 13)) || (a =? 32).

Definition ws_front (l : list ascii) : nat :=
  match l with
  | a :: b :: c :: _ =>
      if ws1 (code a) then 1 else if ws2 (code a) (code b) then 2
      else if ws3 (code a) (code b) (code c) then 3 else 0
  | [a; b] => if ws1 (code a) then 1 else if ws2 (code a) (code b) then 2 else 0
  | [a] => if ws1 (code a) then 1 else 0
  | [] => 0
  end.

(** The same for the last character of a reversed byte list. *)
Definition ws_back (l : list ascii) : nat :=
  match l with
  | c :: b :: a :: _ =>
      if ws1 (code c) then 1 else if ws2 (code b) (code c) then 2
      else if ws3 (code a) (code b) (code c) then 3 else 0
  | [b; a] => if ws1 (code b) then 1 else if ws2 (code a) (code b) then 2 else 0
  | [a] => if ws1 (code a) then 1 else 0
  | [] => 0
  end.

(** Drop matching characters from the front; fuel is the length. *)
Fixpoint trim_with (f : list ascii -> nat) (fuel : nat) (l : list ascii) : list ascii :=
  match fuel with
  | O => l
  | S n => match f l with O => l | S k => trim_with f n (drop (S k) l) end
  end.

Definition trim_start_l (l : list ascii) : list ascii := trim_with ws_front (length l) l.
Definition trim_end_l (l : list ascii) : list ascii :=
  reverse (trim_with ws_back (length l) (reverse l)).

(** [s.trim()]. *)
Definition trim (s : string) : string := str (trim_end_l (trim_start_l (chars s))).

(** [s.trim_end_matches(c)] for an ASCII [c]. *)
Fixpoint drop_while (p : ascii -> bool) (l : list ascii) : list ascii :=
  match l with [] => [] | a :: l' => if p a then drop_while p l' else l end.
Definition trim_end_matches (c : ascii) (s : string) : string :=
  str (reverse (drop_while (fun a => bool_decide (a = c)) (reverse (chars s)))).

(** ** Prefixes, splitting, case *)

Definition starts_with (p s : string) : bool := String.prefix p s.

Definition strip_prefix (p s : string) : option string :=
  if String.prefix p s then Some (str (drop (length (chars p)) (chars s))) else None.

(** Split at the first byte [c]: [s.split_once(c)]. *)
Fixpoint split_once_l (c : ascii) (l : list ascii) : option (list ascii * list ascii) :=
  match l with
  | [] => None
  | a :: l' =>
      if bool_decide (a = c) then Some ([], l')
      else match split_once_l c l' with
           | Some (x, y) => Some (a :: x, y)
           | None => None
           end
  end.
Definition split_once (c : ascii) (s : string) : option (string * string) :=
  match split_once_l c (chars s) with Some (a, b) => Some (str a, str b) | None => None end.

(** [s.split(c)], all pieces. *)
Fixpoint split_l (p : ascii -> bool) (l cur : list ascii) : list (list ascii) :=
  match l with
  | [] => [reverse cur]
  | a :: l' => if p a then reverse cur :: split_l p l' [] else split_l p l' (a :: cur)
  end.
Definition split_on (p : ascii -> bool) (s : string) : list string :=
  str <$> split_l p (chars s) [].
Definition split (c : ascii) : string -> list string := split_on (fun a => bool_decide (a = c)).

(** [c.to_ascii_lowercase()] on one byte and on a string. *)
Definition lower (a : ascii) : ascii :=
  if (65 <=? code a) && (code a <=? 90) then chr (code a + 32) else a.
Definition to_ascii_lowercase (s : string) : string := str (lower <$> chars s).
Definition eq_ignore_ascii_case (a b : string) : bool :=
  bool_decide (to_ascii_lowercase a = to_ascii_lowercase b).

Definition is_ascii_digit (a : ascii) : bool := (48 <=? code a) && (code a <=? 57).
Definition is_ascii_alphanumeric (a : ascii) : bool :=
  is_ascii_digit a || ((65 <=? code a) && (code a <=? 90)) || ((97 <=? code a) && (code a <=? 122)).

(** [format!("{}", n)] for an unsigned integer. *)
Definition fmt_u (z : Z) : string := pretty (Z.to_N z).

(** [s.parse::<uN>()] with maximum [m]: an optional [+], then decimal digits. *)
Fixpoint parse_digits (m acc : Z) (l : list ascii) : option Z :=
  match l with
  | [] => Some acc
  | a :: l' =>
      if is_ascii_digit a then
        let acc := acc * 10 + (code a - 48) in
        if m <? acc then None else parse_digits m acc l'
      else None
  end.
Definition parse_u (m : Z) (s : string) : option Z :=
  match chars s with
  | [] => None
  | a :: l =>
      if (code a =? 43) then match l with [] => None | _ => parse_digits m 0 l end
      else parse_digits m 0 (a :: l)
  end.

(** ** Lemmas *)

Lemma trim_end_matches_no_suffix c s :
  last (chars (trim_end_matches c s)) <> Some c.
Proof.
  unfold trim_end_matches. rewrite chars_str, last_reverse.
  induction (reverse (chars s)) as [|a l IH]; [done|]. simpl.
  case_bool_decide; [done|]. simpl. congruence.
Qed.

Lemma str_app a b : str (a ++ b) = str a +:+ str b.
Proof. induction a as [|x a IH]; [done|]. simpl. rewrite IH. done. Qed.
Lemma chars_app a b : chars (a +:+ b) = chars a ++ chars b.
Proof. induction a as [|x a IH]; [done|]. simpl. rewrite IH. done. Qed.
Lemma chars_inj a b : chars a = chars b -> a = b.
Proof. intros E. by rewrite <- (str_chars a), <- (str_chars b), E. Qed.

(** Equality of concatenations up to association. *)
Ltac str_eq :=
  apply chars_inj;
  repeat first [rewrite chars_app | progress cbn [String.list_ascii_of_string app] | rewrite chars_str];
  rewrite <- ?(assoc_L (++)); cbn [app]; reflexivity.

(** *** Characters *)

Lemma code_range a : 0 <= code a < 256.
Proof. unfold code. pose proof (N_ascii_bounded a). lia. Qed.
Lemma chr_code a : chr (code a) = a.
Proof. unfold chr, code. rewrite N2Z.id. apply ascii_N_embedding. Qed.
Lemma code_chr z : 0 <= z < 256 -> code (chr z) = z.
Proof. intros. unfold code, chr. rewrite N_ascii_embedding; lia. Qed.
#[export] Instance code_inj : Inj (=) (=) code.
Proof. intros a b E. by rewrite <- (chr_code a), <- (chr_code b), E. Qed.

(** A property of every byte, checked on all 256 of them. *)
Lemma all_bytes (P : ascii -> bool) :
  forallb P ((fun n => chr (Z.of_nat n)) <$> seq 0 256) = true -> forall a, P a = true.
Proof.
  intros H a. rewrite forallb_forall in H. apply H. apply list_elem_of_In, list_elem_of_fmap.
  pose proof (code_range a). exists (Z.to_nat (code a)).
  rewrite Z2Nat.id, chr_code, elem_of_seq by lia. split; [done|lia].
Qed.

(** *** Splitting *)

Lemma split_l_app p a c b cur :
  Forall (fun x => p x = false) a -> p c = true ->
  split_l p (a ++ c :: b) cur = (reverse cur ++ a) :: split_l p b [].
Proof.
  intros Ha Hc. revert cur. induction Ha as [|x a Hx Ha IH]; intros cur; cbn [app split_l].
  - by rewrite Hc, (right_id_L [] (++)).
  - rewrite Hx, IH, reverse_cons, <- (assoc_L (++)). done.
Qed.

Lemma split_l_none p a cur :
  Forall (fun x => p x = false) a -> split_l p a cur = [reverse cur ++ a].
Proof.
  intros Ha. revert cur. induction Ha as [|x a Hx Ha IH]; intros cur; cbn [split_l].
  - by rewrite (right_id_L [] (++)).
  - rewrite Hx, IH, reverse_cons, <- (assoc_L (++)). done.
Qed.

Definition lacks (c : ascii) (s : string) : Prop :=
  Forall (fun x => bool_decide (x = c) = false) (chars s).

Lemma split_here c a b : lacks c a -> split c (a +:+ String c b) = a :: split c b.
Proof.
  intros Ha. unfold split, split_on. rewrite chars_app. cbn [String.list_ascii_of_string].
  rewrite split_l_app; [|done|by apply bool_decide_eq_true].
  cbn [fmap list_fmap reverse rev_append app]. by rewrite str_chars.
Qed.

Lemma split_last c a : lacks c a -> split c a = [a].
Proof.
  intros Ha. unfold split, split_on. rewrite split_l_none by done.
  cbn [fmap list_fmap reverse rev_append app]. by rewrite str_chars.
Qed.

Lemma split_once_here c a b : lacks c a -> split_once c (a +:+ String c b) = Some (a, b).
Proof.
  unfold split_once, lacks. rewrite chars_app. cbn [String.list_ascii_of_string].
  intros Ha.
  assert (split_once_l c (chars a ++ c :: chars b) = Some (chars a, chars b)) as ->.
  { induction Ha as [|x l Hx Ha IH]; cbn [app split_once_l].
    - by rewrite bool_decide_eq_true_2.
    - by rewrite Hx, IH. }
  by rewrite !str_chars.
Qed.

Lemma lacks_app c a b : lacks c (a +:+ b) <-> lacks c a /\ lacks c b.
Proof. unfold lacks. by rewrite chars_app, Forall_app. Qed.

Ltac lacks_lit := by (vm_compute; repeat constructor).

(** *** Decimal numbers *)

Lemma pretty_N_char_digit (x : N) : (x < 10)%N ->
  is_ascii_digit (pretty_N_char x) = true /\ code (pretty_N_char x) - 48 = Z.of_N x.
Proof.
  intros Hx.
  assert (x = 0 \/ x = 1 \/ x = 2 \/ x = 3 \/ x = 4 \/ x = 5 \/ x = 6 \/ x = 7 \/ x = 8 \/ x = 9)%N by lia.
  destruct_or!; subst; by split.
Qed.

Lemma parse_pretty_go m x s : Z.of_N x <= m ->
  exists ds, chars (pretty_N_go x s) = ds ++ chars s /\ Forall (fun c => is_ascii_digit c = true) ds /\
    (x <> 0%N -> ds <> []) /\ forall l, parse_digits m 0 (ds ++ l) = parse_digits m (Z.of_N x) l.
Proof.
  revert s. induction (N.lt_wf_0 x) as [x _ IH]. intros s Hm.
  destruct (decide (x = 0%N)) as [->|Hx]; [exists []; by rewrite pretty_N_go_0|].
  rewrite pretty_N_go_step by lia.
  pose proof (N.div_mod x 10 ltac:(lia)). pose proof (N.mod_lt x 10 ltac:(lia)) as Hlt.
  destruct (pretty_N_char_digit _ Hlt) as [Hd Hc].
  assert (Hlt' : (x / 10 < x)%N) by (by apply N.div_lt; lia).
  destruct (IH (x / 10)%N Hlt' (String (pretty_N_char (x mod 10)) s) ltac:(lia))
    as (ds & Hs & Hds & _ & Hp).
  exists (ds ++ [pretty_N_char (x mod 10)]). split; [by rewrite Hs, <- (assoc_L (++))|].
  split; [apply Forall_app; by repeat constructor|]. split; [intros _; by destruct ds|].
  intros l. rewrite <- (assoc_L (++)), Hp. cbn [app parse_digits]. rewrite Hd, Hc.
  replace (Z.of_N (x / 10) * 10 + Z.of_N (x mod 10)) with (Z.of_N x) by lia.
  by rewrite (proj2 (Z.ltb_ge m (Z.of_N x))).
Qed.

(** Formatting gives digits that parse to the number. *)
Lemma fmt_u_digits m z : 0 <= z <= m ->
  exists c ds, chars (fmt_u z) = c :: ds /\ Forall (fun c => is_ascii_digit c = true) (c :: ds) /\
    parse_digits m 0 (c :: ds) = Some z.
Proof.
  intros Hz. unfold fmt_u, pretty, pretty_N. destruct (decide (Z.to_N z = 0%N)) as [H0|H0].
  - exists "0"%char, []. split; [done|]. split; [by repeat constructor|].
    assert (z = 0) as -> by lia. cbn [parse_digits is_ascii_digit].
    change (0 * 10 + (code "0" - 48)) with 0. by rewrite (proj2 (Z.ltb_ge m 0)) by lia.
  - destruct (parse_pretty_go m (Z.to_N z) "" ltac:(lia)) as (ds & Hs & Hds & Hne & Hp).
    specialize (Hp []). rewrite app_nil_r in *. destruct ds as [|c ds]; [by destruct (Hne H0)|].
    exists c, ds. rewrite Hs, Hp. cbn [String.list_ascii_of_string parse_digits]. rewrite ?app_nil_r.
    repeat split; [done|]. f_equal. lia.
Qed.

Lemma digit_code c : is_ascii_digit c = true -> 48 <= code c <= 57.
Proof. unfold is_ascii_digit. intros. bool_hyps. lia. Qed.

(** [parse] reads back what [format!] printed. *)
Lemma parse_fmt_u m z : 0 <= z <= m -> parse_u m (fmt_u z) = Some z.
Proof.
  intros Hz. destruct (fmt_u_digits m z Hz) as (c & ds & Hs & Hd & Hp). unfold parse_u. rewrite Hs.
  apply Forall_cons in Hd as [Hc _]. apply digit_code in Hc.
  by rewrite (proj2 (Z.eqb_neq (code c) 43)) by lia.
Qed.

Lemma ws_front_digit c l : is_ascii_digit c = true -> ws_front (c :: l) = O.
Proof.
  intros Hc%digit_code. unfold ws_front, ws1, ws2, ws3.
  destruct l as [|b [|d l]];
    repeat (rewrite (proj2 (Z.eqb_neq (code c) _)) by lia);
    rewrite (proj2 (Z.leb_gt (code c) 13)) by lia; by rewrite ?andb_false_r.
Qed.

Lemma ws_back_digit c l : is_ascii_digit c = true -> ws_back (c :: l) = O.
Proof.
  intros Hc%digit_code. unfold ws_back, ws1, ws2, ws3.
  destruct l as [|b [|d l]];
    repeat (rewrite (proj2 (Z.eqb_neq (code c) _)) by lia);
    rewrite (proj2 (Z.leb_gt (code c) 13)), ?(proj2 (Z.leb_gt 128 (code c))) by lia;
    by rewrite ?andb_false_r.
Qed.

Lemma trim_with_stop f fuel l : f l = O -> trim_with f fuel l = l.
Proof. intros H. destruct fuel; simpl; [done|]. by rewrite H. Qed.

(** Text that starts and ends with a digit has no surrounding whitespace. *)
Lemma trim_digits s c ds : chars s = c :: ds ->
  Forall (fun c => is_ascii_digit c = true) (c :: ds) -> trim s = s.
Proof.
  intros Hs Hd. unfold trim, trim_start_l. rewrite Hs, trim_with_stop.
  2: { apply ws_front_digit. by apply Forall_cons in Hd as [? _]. }
  unfold trim_end_l. apply Forall_reverse in Hd.
  destruct (reverse (c :: ds)) as [|e es] eqn:Hr.
  { apply (f_equal length) in Hr. rewrite length_reverse in Hr. done. }
  rewrite trim_with_stop.
  - rewrite <- Hr, reverse_involutive, <- Hs. apply str_chars.
  - apply ws_back_digit. by apply Forall_cons in Hd as [? _].
Qed.

Lemma trim_fmt_u z : 0 <= z -> trim (fmt_u z) = fmt_u z.
Proof. intros Hz. destruct (fmt_u_digits z z ltac:(lia)) as (c & ds & Hs & Hd & _). by eapply trim_digits. Qed.

Lemma lacks_fmt_u a z : 0 <= z -> is_ascii_digit a = false -> lacks a (fmt_u z).
Proof.
  intros Hz Ha. destruct (fmt_u_digits z z ltac:(lia)) as (c & ds & Hs & Hd & _).
  unfold lacks. rewrite Hs. eapply Forall_impl; [exact Hd|]. cbn. intros x Hx.
  apply bool_decide_eq_false. congruence.
Qed.
