(* ===== verification/Protocol.v ===== *)
(** The wire protocol of [WSS /v1/ingest], version 1
    (src/client/sentinel-core/src/protocol.rs): media records and their byte
    codec, segment packing, and the control messages that travel as JSON. *)

From S2P Require Import Prelude.
From Stdlib.Strings Require Import Byte.

Definition VERSION : u8 := x01.
Definition HEADER_LEN : nat := 34.
Definition FRAMES_PER_SEGMENT : nat := 50.
Definition SEGMENTS_PER_MESSAGE : nat := 10.
Definition MAX_MESSAGE_BYTES : Z := 1024 * 1024.

Inductive ProtocolError :=
| Truncated (need have : Z)
| Version (v : u8)
| BadChannel (v : u8)
| ReservedFlags (bits : u8)
| ReservedByte (v : u8)
| PayloadTooLarge (n : Z)
| MessageTooLarge (n : Z).

Inductive Channel := Far | Near.

#[export] Instance Channel_eq_dec : EqDecision Channel.
Proof. solve_decision. Defined.
#[export] Instance Channel_countable : Countable Channel.
Proof.
  refine (inj_countable' (fun c => match c with Far => true | Near => false end)
    (fun b => if b then Far else Near) _). by intros [].
Defined.

Definition Channel_from_u8 (v : u8) : result Channel ProtocolError :=
  match b2z v with
  | 0 => Ok Far
  | 1 => Ok Near
  | _ => Err (BadChannel v)
  end.

Definition Channel_as_u8 (c : Channel) : u8 :=
  match c with Far => x00 | Near => x01 end.

Record MediaFlags := { foreign : bool; silence_inserted : bool }.

Definition flag_FOREIGN : Z := 1.
Definition flag_SILENCE : Z := 2.
Definition flag_RESERVED : Z := 252.

Definition flags_to_bits (f : MediaFlags) : u8 :=
  z2b (Z.lor (if foreign f then flag_FOREIGN else 0)
             (if silence_inserted f then flag_SILENCE else 0)).

Definition flags_from_bits (bits : u8) : result MediaFlags ProtocolError :=
  if negb (Z.land (b2z bits) flag_RESERVED =? 0) then Err (ReservedFlags bits)
  else Ok {| foreign := negb (Z.land (b2z bits) flag_FOREIGN =? 0);
             silence_inserted := negb (Z.land (b2z bits) flag_SILENCE =? 0) |}.

Record MediaRecord := {
  mr_channel : Channel;
  mr_flags : MediaFlags;
  mr_seq : Z;           (* u32 *)
  mr_timestamp_ms : Z;  (* u64 *)
  mr_call_id : list u8; (* [u8; 16] *)
  mr_payload : list u8;
}.

(** What the Rust field types guarantee of every [MediaRecord] value. *)
Definition MediaRecord_typed (r : MediaRecord) : Prop :=
  in_u32 (mr_seq r) /\ in_u64 (mr_timestamp_ms r) /\ length (mr_call_id r) = 16%nat.

#[export] Instance MediaRecord_typed_dec r : Decision (MediaRecord_typed r).
Proof. unfold MediaRecord_typed, in_u32, in_u64. apply _. Defined.

Definition encoded_len (r : MediaRecord) : Z := Z.of_nat HEADER_LEN + len (mr_payload r).

(** [encode_into] appends to a buffer; on error the buffer is left as it was. *)
Definition encode_into (r : MediaRecord) (out : list u8) : result (list u8) ProtocolError :=
  if u16_max <? len (mr_payload r) then Err (PayloadTooLarge (len (mr_payload r)))
  else Ok (out ++ [VERSION] ++ [Channel_as_u8 (mr_channel r)] ++ [flags_to_bits (mr_flags r)]
             ++ [x00] ++ to_le_bytes 4 (mr_seq r) ++ to_le_bytes 8 (mr_timestamp_ms r)
             ++ mr_call_id r ++ to_le_bytes 2 (len (mr_payload r)) ++ mr_payload r).

Definition encode (r : MediaRecord) : result (list u8) ProtocolError := encode_into r [].

(** [buf[i]] where the length check has already made [i] valid. *)
Definition byte_at (buf : list u8) (i : nat) : u8 := default x00 (buf !! i).

Definition decode (buf : list u8) : result (MediaRecord * nat) ProtocolError :=
  if len buf <? Z.of_nat HEADER_LEN
  then Err (Truncated (Z.of_nat HEADER_LEN) (len buf))
  else if negb (bool_decide (byte_at buf 0 = VERSION)) then Err (Version (byte_at buf 0))
  else
    let? ch := Channel_from_u8 (byte_at buf 1) in
    let? fl := flags_from_bits (byte_at buf 2) in
    if negb (bool_decide (byte_at buf 3 = x00)) then Err (ReservedByte (byte_at buf 3))
    else
      let sq := from_le_bytes (slice 4 8 buf) in
      let ts := from_le_bytes (slice 8 16 buf) in
      let cid := slice 16 32 buf in
      let payload_len := Z.to_nat (from_le_bytes (slice 32 34 buf)) in
      let total := (HEADER_LEN + payload_len)%nat in
      if len buf <? Z.of_nat total then Err (Truncated (Z.of_nat total) (len buf))
      else Ok ({| mr_channel := ch; mr_flags := fl; mr_seq := sq; mr_timestamp_ms := ts;
                  mr_call_id := cid; mr_payload := slice HEADER_LEN total buf |}, total).

(** The [while off < buf.len()] loop of [decode_all]; [buf] is [&buf[off..]]. *)
Fixpoint decode_loop (fuel : nat) (buf : list u8) : result (list MediaRecord) ProtocolError :=
  match fuel, buf with
  | _, [] | O, _ => Ok []
  | S fuel', _ =>
      let? (rec, used) := decode buf in
      let? out := decode_loop fuel' (drop used buf) in
      Ok (rec :: out)
  end.

Definition decode_all (buf : list u8) : result (list MediaRecord) ProtocolError :=
  if MAX_MESSAGE_BYTES <? len buf then Err (MessageTooLarge (len buf))
  else decode_loop (length buf) buf.

(** [(frame.len() as u16).to_le_bytes()] wraps a length over 65535. *)
Definition pack_segment (frames : list (list u8)) : list u8 :=
  flat_map (fun frame => to_le_bytes 2 (wrap16 (len frame)) ++ frame) frames.

(** The loop of [unpack_segment]: [rest] is [&payload[off..]]. *)
Fixpoint unpack_loop (fuel : nat) (total off : Z) (rest : list u8)
    : result (list (list u8)) ProtocolError :=
  match fuel, rest with
  | _, [] | O, _ => Ok []
  | S fuel', _ =>
      if len rest <? 2 then Err (Truncated (off + 2) total)
      else
        let n := from_le_bytes (take 2 rest) in
        let rest := drop 2 rest in
        let off := off + 2 in
        if len rest <? n then Err (Truncated (off + n) total)
        else
          let? out := unpack_loop fuel' total (off + n) (drop (Z.to_nat n) rest) in
          Ok (take (Z.to_nat n) rest :: out)
  end.

Definition unpack_segment (payload : list u8) : result (list (list u8)) ProtocolError :=
  unpack_loop (length payload) (len payload) 0 payload.

(** ** Control frames *)

Inductive EndReason := Hangup | DeviceLost | SignedOut | Shutdown | Revoked | EndError.
Inductive CaptureTier := TierA | TierB.
Inductive Direction := Outbound | Inbound.

#[export] Instance EndReason_eq_dec : EqDecision EndReason.
Proof. solve_decision. Defined.
#[export] Instance CaptureTier_eq_dec : EqDecision CaptureTier.
Proof. solve_decision. Defined.
#[export] Instance Direction_eq_dec : EqDecision Direction.
Proof. solve_decision. Defined.

Record CallStart := {
  cs_call_id : string;
  cs_started_at : string;
  cs_user_uid : string;
  cs_device_id : string;
  cs_tier : CaptureTier;
  cs_account_ref : option string;
  cs_dialer_call_id : option string;
  cs_direction : Direction;
  cs_codec : string;
  cs_rate : Z;
}.

Record CallEnd := {
  ce_call_id : string;
  ce_ended_at : string;
  ce_reason : EndReason;
  ce_last_seq : gmap string Z;
}.

Inductive ControlMessage :=
| MsgCallStart (m : CallStart)
| MsgCallEnd (m : CallEnd)
| MsgAck (call_id : string) (channel : Z) (through_seq : Z)
| MsgResume (call_id : string) (acked : gmap string Z)
| MsgCallError (call_id code message : string) (fatal : bool)
| MsgHeartbeat (sent_at capture_state : string) (spool_depth : Z)
| MsgHeartbeatAck (server_time : string) (policy_version : Z).

#[export] Instance CallStart_eq_dec : EqDecision CallStart.
Proof. solve_decision. Defined.
#[export] Instance CallEnd_eq_dec : EqDecision CallEnd.
Proof. solve_decision. Defined.
#[export] Instance ControlMessage_eq_dec : EqDecision ControlMessage.
Proof. solve_decision. Defined.

(** [ControlMessage::to_json] and [from_json] are serde_json: an interface. *)
Class ControlJson := {
  to_json : ControlMessage -> string;
  from_json : string -> option ControlMessage;
}.

(** ** Codec lemmas *)

Lemma Channel_from_as_u8 c : Channel_from_u8 (Channel_as_u8 c) = Ok c.
Proof. by destruct c. Qed.

Lemma Channel_as_from_u8 v c : Channel_from_u8 v = Ok c -> Channel_as_u8 c = v.
Proof. by destruct v; intros [= <-]. Qed.

Lemma flags_from_to_bits f : flags_from_bits (flags_to_bits f) = Ok f.
Proof. by destruct f as [[] []]. Qed.

Lemma flags_to_from_bits v f : flags_from_bits v = Ok f -> flags_to_bits f = v.
Proof. by destruct v; intros [= <-]. Qed.

(** The header as the encoder lays it out. *)
Definition header (r : MediaRecord) : list u8 :=
  [VERSION; Channel_as_u8 (mr_channel r); flags_to_bits (mr_flags r); x00]
    ++ to_le_bytes 4 (mr_seq r) ++ to_le_bytes 8 (mr_timestamp_ms r)
    ++ mr_call_id r ++ to_le_bytes 2 (len (mr_payload r)).

Lemma length_header r : MediaRecord_typed r -> length (header r) = HEADER_LEN.
Proof.
  intros (_ & _ & Hc). unfold header.
  rewrite !length_app, !length_to_le_bytes, Hc. done.
Qed.

Lemma encode_Ok r bs :
  encode r = Ok bs <-> len (mr_payload r) <= u16_max /\ bs = header r ++ mr_payload r.
Proof.
  unfold encode, encode_into, header. destruct (Z.ltb_spec u16_max (len (mr_payload r))).
  - split; [done|]. intros [? _]. lia.
  - rewrite <- !app_assoc. simpl. naive_solver.
Qed.

(** What [decode] does on a well-formed header followed by any bytes. *)
Lemma decode_header r tail :
  MediaRecord_typed r -> len (mr_payload r) <= u16_max ->
  decode (header r ++ tail) =
    let n := length (mr_payload r) in
    if (length tail <? n)%nat
    then Err (Truncated (Z.of_nat (HEADER_LEN + n)) (Z.of_nat (HEADER_LEN + length tail)))
    else Ok ({| mr_channel := mr_channel r; mr_flags := mr_flags r; mr_seq := mr_seq r;
                mr_timestamp_ms := mr_timestamp_ms r; mr_call_id := mr_call_id r;
                mr_payload := take n tail |}, (HEADER_LEN + n)%nat).
Proof.
  intros Ht Hp. pose proof (length_header r Ht) as Hh. destruct Ht as (Hs & Hts & Hc).
  unfold decode. set (buf := header r ++ tail).
  assert (Hl : length buf = (HEADER_LEN + length tail)%nat).
  { unfold buf. by rewrite length_app, Hh. }
  assert (slice 4 8 buf = to_le_bytes 4 (mr_seq r)) as ->.
  { unfold buf, header. rewrite <- !app_assoc. by apply slice_mid. }
  assert (slice 8 16 buf = to_le_bytes 8 (mr_timestamp_ms r)) as ->.
  { unfold buf, header. rewrite <- !app_assoc, app_assoc. by apply slice_mid. }
  assert (slice 16 32 buf = mr_call_id r) as ->.
  { unfold buf, header. rewrite <- !app_assoc, app_assoc, app_assoc.
    apply slice_mid; [done|]. by rewrite Hc. }
  assert (slice 32 34 buf = to_le_bytes 2 (len (mr_payload r))) as ->.
  { unfold buf, header. rewrite <- !app_assoc, app_assoc, app_assoc, app_assoc.
    apply slice_mid; [|done]. rewrite !length_app, !length_to_le_bytes, Hc. done. }
  rewrite !from_to_le_bytes by (ints; lia). rewrite Nat2Z.id, Hl.
  assert (slice HEADER_LEN (HEADER_LEN + length (mr_payload r)) buf
            = take (length (mr_payload r)) tail) as ->.
  { unfold slice, buf. rewrite drop_app_length' by done. f_equal. lia. }
  destruct (Z.ltb_spec (Z.of_nat (HEADER_LEN + length tail)) (Z.of_nat HEADER_LEN)); [lia|].
  change (byte_at buf 0) with VERSION. change (byte_at buf 3) with x00.
  change (byte_at buf 1) with (Channel_as_u8 (mr_channel r)).
  change (byte_at buf 2) with (flags_to_bits (mr_flags r)).
  rewrite Channel_from_as_u8, flags_from_to_bits. cbn [res_bind].
  rewrite (bool_decide_eq_true_2 (VERSION = VERSION)), bool_decide_eq_true_2 by done.
  destruct (Z.ltb_spec (Z.of_nat (HEADER_LEN + length tail))
              (Z.of_nat (HEADER_LEN + length (mr_payload r)))),
    (Nat.ltb_spec (length tail) (length (mr_payload r))); lia || done.
Qed.

Lemma decode_header_app r rest :
  MediaRecord_typed r -> len (mr_payload r) <= u16_max ->
  decode (header r ++ mr_payload r ++ rest) =
    Ok (r, (HEADER_LEN + length (mr_payload r))%nat).
Proof.
  intros Ht Hp. rewrite decode_header by done. cbv zeta.
  rewrite take_app_length, length_app.
  destruct (Nat.ltb_spec (length (mr_payload r) + length rest) (length (mr_payload r)));
    [lia|by destruct r].
Qed.

(** What a successful [decode] establishes of the bytes it read. *)
Lemma decode_Ok_inv buf r n :
  decode buf = Ok (r, n) ->
  MediaRecord_typed r /\ len (mr_payload r) <= u16_max /\
  n = (HEADER_LEN + length (mr_payload r))%nat /\ (n <= length buf)%nat /\
  buf = header r ++ mr_payload r ++ drop n buf.
Proof.
  unfold decode. destruct (Z.ltb_spec (len buf) (Z.of_nat HEADER_LEN)) as [|Hlen]; [done|].
  case_bool_decide as Hv; [|done]. simpl negb. cbv iota.
  rewrite res_bind_Ok. intros (ch & Hch & HH). revert HH.
  rewrite res_bind_Ok. intros (fl & Hfl & HH). revert HH.
  case_bool_decide as Hz; [|done]. simpl negb. cbv iota.
  pose proof (from_le_bytes_range (slice 32 34 buf)) as Hr.
  rewrite length_slice in Hr by (unfold HEADER_LEN in *; lia).
  set (pl := from_le_bytes (slice 32 34 buf)) in *.
  remember (HEADER_LEN + Z.to_nat pl)%nat as total eqn:Etot. unfold HEADER_LEN in *.
  destruct (Z.ltb_spec (len buf) (Z.of_nat total)) as [|Htot]; [done|].
  intros [= <- <-].
  assert (Hpay : length (slice 34 total buf) = Z.to_nat pl) by (rewrite length_slice; lia).
  pose proof (from_le_bytes_range (slice 4 8 buf)) as H4.
  pose proof (from_le_bytes_range (slice 8 16 buf)) as H8.
  rewrite length_slice in H4, H8 by lia.
  split_and!.
  - split_and!; simpl; [ints; simpl in *; lia.. |]. rewrite length_slice; lia.
  - cbn [mr_payload]. rewrite Hpay. ints. simpl in Hr. lia.
  - cbn [mr_payload]. lia.
  - lia.
  - unfold header. cbn [mr_payload mr_channel mr_flags mr_seq mr_timestamp_ms mr_call_id].
    rewrite Hpay, (Channel_as_from_u8 _ _ Hch), (flags_to_from_bits _ _ Hfl), <- Hv.
    rewrite Z2Nat.id by lia. unfold pl.
    rewrite !to_from_le_bytes' by (rewrite length_slice; lia).
    rewrite <- !app_assoc.
    rewrite (app_assoc (slice 32 34 buf)), !slice_app by lia.
    rewrite (app_assoc (slice 16 32 buf)), !slice_app by lia.
    rewrite (app_assoc (slice 8 16 buf)), !slice_app by lia.
    rewrite (app_assoc (slice 4 8 buf)), !slice_app by lia.
    rewrite slice_drop by lia. rewrite <- Hz at 1. clear -Hlen.
    by do 4 (destruct buf as [|? buf]; [simpl in *; lia|]).
Qed.

Lemma decode_consumes buf r n : decode buf = Ok (r, n) -> (0 < n <= length buf)%nat.
Proof.
  intros (_ & _ & -> & Hl & _)%decode_Ok_inv. unfold HEADER_LEN in *. lia.
Qed.

(** Any fuel of at least the buffer's length runs the loop to its end: the
    fuelled loop satisfies the equation of the source's [while]. *)
Lemma decode_loop_fuel f buf :
  (length buf <= f)%nat -> decode_loop f buf = decode_loop (length buf) buf.
Proof.
  enough (forall n f, (length buf <= n)%nat -> (length buf <= f)%nat ->
            decode_loop f buf = decode_loop n buf) by eauto.
  clear f. intros n. revert buf.
  induction n as [|n IH]; intros buf f Hn Hf.
  - destruct buf; [by destruct f|simpl in *; lia].
  - destruct buf as [|b buf]; [by destruct f|]. destruct f as [|f]; [simpl in *; lia|].
    cbn [decode_loop]. destruct (decode (b :: buf)) as [[r k]|] eqn:Hd; [|done].
    apply decode_consumes in Hd. cbn [res_bind]. f_equal.
    apply IH; rewrite length_drop; simpl in *; lia.
Qed.

Lemma decode_loop_step buf :
  buf <> [] ->
  decode_loop (length buf) buf =
    let? (rec, used) := decode buf in
    let? out := decode_loop (length (drop used buf)) (drop used buf) in
    Ok (rec :: out).
Proof.
  intros Hne. destruct buf as [|b buf]; [done|].
  change (length (b :: buf)) with (S (length buf)). cbn [decode_loop].
  destruct (decode (b :: buf)) as [[r k]|] eqn:Hd; [|done]. cbn [res_bind].
  apply decode_consumes in Hd. f_equal. apply decode_loop_fuel.
  rewrite length_drop. simpl in *. lia.
Qed.

(** The concatenation a sender builds by [encode_into] over one buffer. *)
Fixpoint encode_all (rs : list MediaRecord) (out : list u8) : result (list u8) ProtocolError :=
  match rs with
  | [] => Ok out
  | r :: rs' => let? out := encode_into r out in encode_all rs' out
  end.

Definition fits (r : MediaRecord) : Prop :=
  MediaRecord_typed r /\ len (mr_payload r) <= u16_max.

Lemma encode_into_fits r out :
  fits r -> encode_into r out = Ok (out ++ header r ++ mr_payload r).
Proof.
  intros [_ Hp]. unfold encode_into, header.
  destruct (Z.ltb_spec u16_max (len (mr_payload r))); [lia|].
  by rewrite <- !app_assoc.
Qed.

Lemma encode_all_fits rs out :
  Forall fits rs ->
  encode_all rs out = Ok (out ++ flat_map (fun r => header r ++ mr_payload r) rs).
Proof.
  intros Hf. revert out. induction Hf as [|r rs Hr _ IH]; intros out; cbn [encode_all flat_map].
  - by rewrite app_nil_r.
  - rewrite encode_into_fits by done. cbn [res_bind]. rewrite IH.
    by rewrite <- !app_assoc.
Qed.

Lemma decode_loop_fits rs :
  Forall fits rs ->
  let buf := flat_map (fun r => header r ++ mr_payload r) rs in
  decode_loop (length buf) buf = Ok rs.
Proof.
  induction 1 as [|r rs [Ht Hp] _ IH]; [done|]. intros buf.
  rewrite decode_loop_step by (unfold buf; by destruct r as [[]]).
  unfold buf at 1. cbn [flat_map]. rewrite <- app_assoc, decode_header_app by done.
  cbn [res_bind]. unfold buf. cbn [flat_map]. rewrite drop_app_length'.
  - rewrite IH. done.
  - rewrite length_app, length_header by done. done.
Qed.

Lemma decode_loop_inv n buf rs :
  (length buf <= n)%nat -> decode_loop (length buf) buf = Ok rs ->
  Forall fits rs /\ buf = flat_map (fun r => header r ++ mr_payload r) rs.
Proof.
  revert buf rs. induction n as [|n IH]; intros buf rs Hn.
  { destruct buf; [by intros [= <-]|simpl in *; lia]. }
  destruct (decide (buf = [])) as [->|Hne]; [by intros [= <-]|].
  rewrite decode_loop_step by done.
  rewrite res_bind_Ok. intros ([r k] & Hd & HH). revert HH.
  rewrite res_bind_Ok. intros (out & Hl & [= <-]).
  pose proof (decode_consumes _ _ _ Hd) as Hk.
  apply decode_Ok_inv in Hd as (Ht & Hp & -> & _ & Hb).
  apply IH in Hl as [Hf Hrest]; [|rewrite length_drop; lia].
  split; [by constructor|]. cbn [flat_map]. rewrite <- Hrest, <- app_assoc. done.
Qed.

Lemma unpack_loop_pack f total off fs :
  (length (pack_segment fs) <= f)%nat -> Forall (fun fr => len fr <= u16_max) fs ->
  unpack_loop f total off (pack_segment fs) = Ok fs.
Proof.
  intros Hf Hs. revert f off Hf. induction Hs as [|fr fs Hfr _ IH]; intros f off Hf.
  { by destruct f. }
  assert (Hp : pack_segment (fr :: fs) = to_le_bytes 2 (len fr) ++ fr ++ pack_segment fs).
  { unfold pack_segment. cbn [flat_map]. unfold wrap16.
    rewrite Z.mod_small by (ints; lia). by rewrite <- app_assoc. }
  rewrite Hp in *. rewrite !length_app, length_to_le_bytes in Hf.
  destruct f as [|f]; [lia|]. cbn [unpack_loop].
  remember (to_le_bytes 2 (len fr) ++ fr ++ pack_segment fs) as rest eqn:Er.
  destruct rest as [|b rest']; [by apply (f_equal length) in Er; simpl in Er|]. rewrite Er.
  rewrite (take_app_length' (to_le_bytes 2 (len fr))) by done.
  rewrite (drop_app_length' (to_le_bytes 2 (len fr))) by done.
  rewrite from_to_le_bytes by (ints; simpl; lia). rewrite Nat2Z.id.
  rewrite take_app_length, drop_app_length, !length_app, length_to_le_bytes.
  destruct (Z.ltb_spec (Z.of_nat (2 + (length fr + length (pack_segment fs)))) 2); [lia|].
  destruct (Z.ltb_spec (Z.of_nat (length fr + length (pack_segment fs))) (len fr)); [lia|].
  by rewrite IH by lia.
Qed.

Lemma unpack_loop_inv f total off p fs :
  (length p <= f)%nat -> unpack_loop f total off p = Ok fs ->
  Forall (fun fr => len fr <= u16_max) fs /\ pack_segment fs = p.
Proof.
  revert off p fs. induction f as [|f IH]; intros off p fs Hf.
  { destruct p; [by intros [= <-]|simpl in *; lia]. }
  destruct p as [|b p']; [by intros [= <-]|].
  cbn [unpack_loop]. set (p := b :: p') in *. clearbody p. clear b p'.
  pose proof (from_le_bytes_range (take 2 p)) as Hr.
  set (n := from_le_bytes (take 2 p)) in *.
  destruct (Z.ltb_spec (len p) 2) as [|H2]; [done|].
  rewrite length_take, Nat.min_l in Hr by lia. change (256 ^ Z.of_nat 2) with 65536 in Hr.
  destruct (Z.ltb_spec (len (drop 2 p)) n) as [|Hn]; [done|].
  rewrite res_bind_Ok. intros (out & Hl & [= <-]).
  rewrite length_drop in Hn.
  apply IH in Hl as [Hs Hp]; [|rewrite !length_drop; lia].
  assert (Ht : length (take (Z.to_nat n) (drop 2 p)) = Z.to_nat n).
  { rewrite length_take, length_drop. lia. }
  assert (Hu : len (take (Z.to_nat n) (drop 2 p)) <= u16_max) by (rewrite Ht; ints; lia).
  split; [by constructor|].
  unfold pack_segment in *. cbn [flat_map]. rewrite Hp, Ht, Z2Nat.id by lia.
  unfold wrap16. rewrite Z.mod_small by lia. unfold n.
  rewrite to_from_le_bytes' by (rewrite length_take; lia).
  rewrite <- app_assoc, !take_drop. done.
Qed.

Lemma length_pack_segment fs :
  length (pack_segment fs) = (2 * length fs + sum_list (length <$> fs))%nat.
Proof.
  induction fs as [|f fs IH]; [done|]. unfold pack_segment in *. cbn [flat_map].
  rewrite !length_app, length_to_le_bytes, IH. csimpl. lia.
Qed.

(** ** Properties *)

(** C2: The receiver's [decode_all] and the sender's encoder are inverse on
    whole messages: a message decodes to [rs] exactly when it is within
    [MAX_MESSAGE_BYTES], every record fits the header's fields, and its bytes are
    the concatenation [encode_into] builds from [rs]. So no two record lists
    share a message and no other bytes are accepted. *)
Theorem decode_all_iff_encode_all buf rs :
  decode_all buf = Ok rs <->
  len buf <= MAX_MESSAGE_BYTES /\ Forall fits rs /\ encode_all rs [] = Ok buf.
Proof.
  unfold decode_all. destruct (Z.ltb_spec MAX_MESSAGE_BYTES (len buf)).
  { split; [done|]. intros [? _]. lia. }
  split.
  - intros Hd. eapply decode_loop_inv in Hd as [Hf ->]; [|done].
    split; [lia|]. split; [done|]. by rewrite encode_all_fits.
  - intros (_ & Hf & He). rewrite encode_all_fits in He by done.
    injection He as <-. by apply decode_loop_fits.
Qed.

(** [decode] undoes [encode] with any bytes following, and reports exactly
    the record's encoded length as consumed. *)
Theorem decode_encode r bs rest :
  MediaRecord_typed r -> encode r = Ok bs ->
  decode (bs ++ rest) = Ok (r, length bs) /\ len bs = encoded_len r.
Proof.
  intros Ht [Hp ->]%encode_Ok. rewrite <- app_assoc, decode_header_app by done.
  unfold encoded_len. rewrite length_app, length_header by done. split; [done|lia].
Qed.

Definition sample_record : MediaRecord :=
  {| mr_channel := Near; mr_flags := {| foreign := false; silence_inserted := true |};
     mr_seq := 70000; mr_timestamp_ms := 70000000; mr_call_id := repeat x07 16;
     mr_payload := [x01; x02; x03] |}.

Lemma decode_encode_witness :
  exists bs, encode sample_record = Ok bs /\ length bs = 37%nat /\
    decode (bs ++ [xff]) = Ok (sample_record, length bs) /\ len bs = encoded_len sample_record.
Proof.
  destruct (encode sample_record) as [bs|e] eqn:E; [|discriminate].
  exists bs. split; [reflexivity|]. split; [injection E as <-; reflexivity|].
  apply (decode_encode sample_record bs [xff]); [|exact E].
  unfold MediaRecord_typed, in_u32, in_u64, u32_max, u64_max. simpl. lia.
Defined.

(** A record cut short is never accepted: every strict prefix of an
    encoding is refused as [Truncated], reporting the bytes at hand and a need
    that exceeds them without exceeding the record. *)
Theorem decode_strict_prefix r bs k :
  MediaRecord_typed r -> encode r = Ok bs -> (k < length bs)%nat ->
  exists need, decode (take k bs) = Err (Truncated need (Z.of_nat k)) /\
    Z.of_nat k < need <= len bs.
Proof.
  intros Ht [Hp ->]%encode_Ok Hk. pose proof (length_header r Ht) as Hh.
  rewrite length_app, Hh in *.
  destruct (decide (k < HEADER_LEN)%nat) as [Hs|Hs].
  - exists (Z.of_nat HEADER_LEN). unfold decode.
    rewrite length_take, length_app, Hh, Nat.min_l by lia.
    destruct (Z.ltb_spec (Z.of_nat k) (Z.of_nat HEADER_LEN)); [|lia]. split; [done|lia].
  - exists (Z.of_nat (HEADER_LEN + length (mr_payload r))). split; [|lia].
    rewrite take_app_ge, Hh, decode_header by lia || done. cbv zeta.
    rewrite length_take, Nat.min_l by lia.
    destruct (Nat.ltb_spec (k - HEADER_LEN) (length (mr_payload r))); [|lia].
    do 2 f_equal. lia.
Qed.

Lemma decode_strict_prefix_witness :
  exists bs need, encode sample_record = Ok bs /\
    decode (take 36 bs) = Err (Truncated need 36) /\ 36 < need <= len bs.
Proof.
  destruct (encode sample_record) as [bs|e] eqn:E; [|discriminate].
  destruct (decode_strict_prefix sample_record bs 36) as (need & H).
  - unfold MediaRecord_typed, in_u32, in_u64, u32_max, u64_max. simpl. lia.
  - exact E.
  - injection E as <-. vm_compute. lia.
  - exists bs, need. split; [reflexivity|exact H].
Defined.

(** [unpack_segment] accepts exactly the byte strings [pack_segment]
    builds from frames that fit the u16 length prefix, and returns those frames. *)
Theorem unpack_segment_iff_pack p fs :
  unpack_segment p = Ok fs <->
  Forall (fun fr => len fr <= u16_max) fs /\ pack_segment fs = p.
Proof.
  unfold unpack_segment. split.
  - intros H. by eapply unpack_loop_inv in H.
  - intros [Hf <-]. by apply unpack_loop_pack.
Qed.
