(* ===== verification/Config.v ===== *)
(** Configuration and client events: sentinel-core/src/config.rs and events.rs
    under src/client. *)

From S2P Require Import Prelude Text.

Record VadConfig := {
  speech_ms_to_confirm : Z;
  armed_timeout_ms : Z;
  hangup_silence_ms : Z;
  wrap_ms : Z;
  debounce_ms : Z;
}.

Definition VadConfig_default : VadConfig :=
  {| speech_ms_to_confirm := 300; armed_timeout_ms := 20000;
     hangup_silence_ms := 8000; wrap_ms := 3000; debounce_ms := 2000 |}.

Record PinnedDevice := {
  pd_container_id : string;
  pd_friendly_name : option string;
}.

Record SoftphoneConfig := {
  process_names : list string;
  uia_account_ref_selector : option string;
}.
Definition SoftphoneConfig_default : SoftphoneConfig :=
  {| process_names := []; uia_account_ref_selector := None |}.

Record Retention := { audio_days : Z; transcript_days : Z }.
Definition Retention_default : Retention :=
  {| audio_days := 30; transcript_days := 365 |}.

Record Policy := {
  pol_version : Z;
  pinned_devices : list PinnedDevice;
  softphone : SoftphoneConfig;
  offline_grace_hours : Z;   (* u32 *)
  idle_signout_minutes : Z;
  rules_version : Z;
  allow_agent_audio_playback : bool;
  retention : Retention;
  vad : VadConfig;
}.

Definition Policy_default : Policy :=
  {| pol_version := 0; pinned_devices := []; softphone := SoftphoneConfig_default;
     offline_grace_hours := 8; idle_signout_minutes := 30; rules_version := 0;
     allow_agent_audio_playback := false; retention := Retention_default;
     vad := VadConfig_default |}.

(** [u32 as u64 * 3_600_000] stays below 2^64. *)
Definition offline_grace_ms (p : Policy) : Z := offline_grace_hours p * 3600000.

Record SpoolLimits := { max_bytes : Z; max_age_ms : Z }.
Definition SpoolLimits_default : SpoolLimits :=
  {| max_bytes := 2 * 1024 * 1024 * 1024; max_age_ms := 72 * 3600000 |}.

Record OidcSettings := {
  authorize_endpoint : string;
  oidc_token_endpoint : option string;
  client_id : string;
  identity_platform_tenant : option string;
  scopes : list string;
}.
Definition OidcSettings_default : OidcSettings :=
  {| authorize_endpoint := ""; oidc_token_endpoint := None; client_id := "";
     identity_platform_tenant := None; scopes := ["openid"; "email"; "profile"] |}.

Definition OTLP_RELAY_PATH : string := "/v1/telemetry/otlp/v1/logs".

Record TelemetrySettings := {
  telemetry_enabled : bool;
  otlp_endpoint : option string;
}.
Definition TelemetrySettings_default : TelemetrySettings :=
  {| telemetry_enabled := false; otlp_endpoint := None |}.

Record LocalConfig := {
  api_base_url : string;
  tenant_hint : option string;
  lc_device_id : option string;
  spool_path : string;
  spool_limits : SpoolLimits;
  log_dir : option string;
  oidc : OidcSettings;
  device_dir : option string;
  telemetry : TelemetrySettings;
}.

#[export] Instance rebuild_LocalConfig : Rebuild LocalConfig := fun c =>
  {| api_base_url := api_base_url c; tenant_hint := tenant_hint c;
     lc_device_id := lc_device_id c; spool_path := spool_path c;
     spool_limits := spool_limits c; log_dir := log_dir c; oidc := oidc c;
     device_dir := device_dir c; telemetry := telemetry c |}.

(** [default_spool_path]: the platform test and the PROGRAMDATA variable are
    arguments. *)
Definition default_spool_path (windows : bool) (programdata : option string) : string :=
  if windows then
    default "C:\ProgramData" programdata +:+ "\MagickVoice\Sentinel\spool.db"
  else "/var/lib/magickvoice-sentinel/spool.db".

Definition LocalConfig_default (windows : bool) (programdata : option string) : LocalConfig :=
  {| api_base_url := "https://api.sentinel.magickvoice.com"; tenant_hint := None;
     lc_device_id := None; spool_path := default_spool_path windows programdata;
     spool_limits := SpoolLimits_default; log_dir := None; oidc := OidcSettings_default;
     device_dir := None; telemetry := TelemetrySettings_default |}.

Definition api_base (c : LocalConfig) : string := trim_end_matches "/" (api_base_url c).

Definition token_endpoint (c : LocalConfig) : string :=
  match oidc_token_endpoint (oidc c) with
  | Some url =>
      if negb (str_is_empty (trim url)) then trim url
      else api_base c +:+ "/v1/oauth/token"
  | None => api_base c +:+ "/v1/oauth/token"
  end.

Definition otlp_logs_url_with_env (c : LocalConfig) (env_endpoint : option string)
    : option string :=
  let from (e : option string) :=
    match e with
    | Some base =>
        let base := trim base in
        if negb (str_is_empty base)
        then Some (trim_end_matches "/" base +:+ "/v1/logs") else None
    | None => None
    end in
  match from env_endpoint with
  | Some url => Some url
  | None =>
      match from (otlp_endpoint (telemetry c)) with
      | Some url => Some url
      | None =>
          if telemetry_enabled (telemetry c)
          then Some (api_base c +:+ OTLP_RELAY_PATH) else None
      end
  end.

Definition otlp_goes_via_gateway (c : LocalConfig) (url : string) : bool :=
  bool_decide (url = api_base c +:+ OTLP_RELAY_PATH).

Definition oidc_problem (c : LocalConfig) : option string :=
  if str_is_empty (trim (authorize_endpoint (oidc c)))
  then Some "no OIDC authorize endpoint is configured for this tenant"
  else if str_is_empty (trim (client_id (oidc c)))
  then Some "no OAuth client id is configured for this tenant"
  else if negb (starts_with "https://" (authorize_endpoint (oidc c)))
  then Some "the OIDC authorize endpoint must be https"
  else None.

(** ** events.rs *)

Inductive EventKind :=
| TierDowngrade | SpoolEviction | EvDeviceLost | EvDeviceRestored | AgentRestart
| CaptureError | ForeignAudioSuppressed.

#[export] Instance EventKind_eq_dec : EqDecision EventKind.
Proof. solve_decision. Defined.

Record ClientEvent := {
  ev_kind : EventKind;
  ev_at_ms : Z;
  ev_count : option Z;
  ev_detail : option string;
}.

#[export] Instance ClientEvent_eq_dec : EqDecision ClientEvent.
Proof. solve_decision. Defined.
#[export] Instance rebuild_ClientEvent : Rebuild ClientEvent := fun e =>
  {| ev_kind := ev_kind e; ev_at_ms := ev_at_ms e; ev_count := ev_count e;
     ev_detail := ev_detail e |}.

Definition ClientEvent_new (k : EventKind) (at_ms : Z) : ClientEvent :=
  {| ev_kind := k; ev_at_ms := at_ms; ev_count := None; ev_detail := None |}.
Definition with_count (e : ClientEvent) (n : Z) : ClientEvent := e <| ev_count := Some n |>.
Definition with_detail (e : ClientEvent) (d : string) : ClientEvent :=
  e <| ev_detail := Some d |>.

(** ** Lemmas *)

(** With nothing configured and no environment override, telemetry is off;
    enabling it alone routes it through the gateway. *)
Lemma otlp_logs_url_relay c :
  otlp_endpoint (telemetry c) = None ->
  otlp_logs_url_with_env c None =
    if telemetry_enabled (telemetry c)
    then Some (api_base c +:+ OTLP_RELAY_PATH) else None.
Proof. intros H. unfold otlp_logs_url_with_env. by rewrite H. Qed.
