(* ===== verification/State.v ===== *)
(** The call detection state machine (sentinel-core/src/state.rs): a pure
    function of timestamped observations, one [feed] per observation. *)

From S2P Require Import Prelude Text Protocol Config.

Inductive CallState := Idle | Armed | InCall | Wrap | Finalize | Blocked.

#[export] Instance CallState_eq_dec : EqDecision CallState.
Proof. solve_decision. Defined.

Definition CallState_as_str (s : CallState) : string :=
  match s with
  | Idle => "IDLE" | Armed => "ARMED" | InCall => "IN_CALL" | Wrap => "WRAP"
  | Finalize => "FINALIZE" | Blocked => "BLOCKED"
  end.

Inductive BlockReason :=
| BrSignedOut | PinnedDeviceMissing | OfflineGraceExpired | DeviceRevoked | BrShutdown.

#[export] Instance BlockReason_eq_dec : EqDecision BlockReason.
Proof. solve_decision. Defined.

Inductive DetectorInput :=
| SessionState (active : bool)
| FarVoice (voiced : bool)
| NearVoice (voiced : bool)
| Tick
| Block (reason : BlockReason)
| Unblock
| UserChanged (user_uid : string).

Inductive Transition :=
| TNone
| TArmed
| CallStarted
| WrapStarted
| CallEnded (reason : EndReason)
| ArmDiscarded
| TBlocked (reason : BlockReason)
| Unblocked.

#[export] Instance Transition_eq_dec : EqDecision Transition.
Proof. solve_decision. Defined.

Record Detector := {
  cfg : VadConfig;
  state : CallState;
  entered_at_ms : Z;
  now_ms : Z;
  last_transition_ms : Z;
  session_active : bool;
  armed_speech_ms : Z;
  silence_ms : Z;
  block_reason : option BlockReason;
  user_uid : option string;
  reopen_after_end : bool;
  arm_exhausted : bool;
}.

#[export] Instance rebuild_Detector : Rebuild Detector := fun d =>
  {| cfg := cfg d; state := state d; entered_at_ms := entered_at_ms d;
     now_ms := now_ms d; last_transition_ms := last_transition_ms d;
     session_active := session_active d; armed_speech_ms := armed_speech_ms d;
     silence_ms := silence_ms d; block_reason := block_reason d; user_uid := user_uid d;
     reopen_after_end := reopen_after_end d; arm_exhausted := arm_exhausted d |}.

Definition Detector_new (c : VadConfig) : Detector :=
  {| cfg := c; state := Blocked; entered_at_ms := 0; now_ms := 0;
     last_transition_ms := 0; session_active := false; armed_speech_ms := 0;
     silence_ms := 0; block_reason := Some BrSignedOut; user_uid := None;
     reopen_after_end := false; arm_exhausted := false |}.

Definition time_in_state_ms (d : Detector) : Z := sat_sub (now_ms d) (entered_at_ms d).

Definition debounced (d : Detector) : bool :=
  debounce_ms (cfg d) <=? sat_sub (now_ms d) (last_transition_ms d).

Definition goto (d : Detector) (next : CallState) (t : Transition) : Detector * Transition :=
  (d <| state := next |> <| entered_at_ms := now_ms d |> <| last_transition_ms := now_ms d |>, t).

Definition end_reason_of (r : BlockReason) : EndReason :=
  match r with
  | BrSignedOut => SignedOut
  | PinnedDeviceMissing => DeviceLost
  | OfflineGraceExpired => EndError
  | DeviceRevoked => Revoked
  | BrShutdown => Shutdown
  end.

Definition in_call_or_wrap (s : CallState) : bool :=
  match s with InCall | Wrap => true | _ => false end.

Definition enter_blocked (d : Detector) (r : BlockReason) : Detector * Transition :=
  let was_in_call := in_call_or_wrap (state d) in
  let d := d <| block_reason := Some r |> <| state := Blocked |>
             <| entered_at_ms := now_ms d |> <| last_transition_ms := now_ms d |> in
  if was_in_call then (d, CallEnded (end_reason_of r)) else (d, TBlocked r).

Definition evaluate (d : Detector) : Detector * Transition :=
  match state d with
  | Blocked => (d, TNone)
  | Idle =>
      if session_active d && negb (arm_exhausted d) && debounced d
      then goto (d <| armed_speech_ms := 0 |>) Armed TArmed
      else (d, TNone)
  | Armed =>
      if speech_ms_to_confirm (cfg d) <=? armed_speech_ms d
      then goto (d <| silence_ms := 0 |>) InCall CallStarted
      else if negb (session_active d) && debounced d then goto d Idle ArmDiscarded
      else if armed_timeout_ms (cfg d) <=? time_in_state_ms d
      then goto (d <| arm_exhausted := true |>) Idle ArmDiscarded
      else (d, TNone)
  | InCall =>
      if negb (session_active d) && (hangup_silence_ms (cfg d) <=? silence_ms d) && debounced d
      then goto d Wrap WrapStarted
      else (d, TNone)
  | Wrap =>
      if session_active d then goto (d <| silence_ms := 0 |>) InCall TNone
      else if wrap_ms (cfg d) <=? time_in_state_ms d
      then goto d Finalize (CallEnded Hangup)
      else (d, TNone)
  | Finalize =>
      if reopen_after_end d && session_active d
      then goto (d <| reopen_after_end := false |> <| arm_exhausted := false |>
                   <| armed_speech_ms := 0 |>) Armed TArmed
      else goto d Idle TNone
  end.

(** [feed]. The [+=] on the accumulators is u64 addition; that it does not
    overflow under the monotonic clock is [feed_accumulators_bounded] below. *)
Definition feed (d : Detector) (now : Z) (input : DetectorInput) : Detector * Transition :=
  let elapsed := sat_sub now (now_ms d) in
  let d := d <| now_ms := now |> in
  match input with
  | Block r => enter_blocked d r
  | Unblock =>
      if bool_decide (state d = Blocked)
      then goto (d <| block_reason := None |>) Idle Unblocked
      else (d, TNone)
  | UserChanged u =>
      let changed := negb (bool_decide (user_uid d = Some u)) in
      let d := d <| user_uid := Some u |> in
      if changed && in_call_or_wrap (state d)
      then goto (d <| reopen_after_end := session_active d |> <| arm_exhausted := false |>)
             Idle (CallEnded SignedOut)
      else (d, TNone)
  | SessionState active =>
      let d := if negb active then d <| arm_exhausted := false |> else d in
      evaluate (d <| session_active := active |>)
  | FarVoice voiced =>
      evaluate (if voiced
                then d <| armed_speech_ms := armed_speech_ms d + elapsed |> <| silence_ms := 0 |>
                else d <| silence_ms := silence_ms d + elapsed |>)
  | NearVoice voiced =>
      evaluate (if voiced then d <| silence_ms := 0 |>
                else d <| silence_ms := silence_ms d + elapsed |>)
  | Tick => evaluate (d <| silence_ms := silence_ms d + elapsed |>)
  end.

(** ** Case analysis of one step *)

Ltac feed_cases :=
  unfold feed, enter_blocked, evaluate, goto in *;
  repeat (case_match || case_bool_decide); simplify_eq/=.

Ltac rewrite_state :=
  repeat match goal with H : state _ = _ |- _ => rewrite H in * end.

(** A run: the history of observations with the transition each returned. The
    clock is monotonic, as [feed] requires of its caller. *)
Inductive reach (c : VadConfig) : list (Z * DetectorInput * Transition) -> Detector -> Prop :=
| reach_nil : reach c [] (Detector_new c)
| reach_snoc h d now i d' t :
    reach c h d -> now_ms d <= now -> feed d now i = (d', t) ->
    reach c (h ++ [(now, i, t)]) d'.

(** The same run as a function, for concrete inputs. *)
Fixpoint run (d : Detector) (tr : list (Z * DetectorInput)) : Detector * list Transition :=
  match tr with
  | [] => (d, [])
  | (now, i) :: tr' =>
      let '(d', t) := feed d now i in
      let '(d'', ts) := run d' tr' in (d'', t :: ts)
  end.

Lemma feed_frame d now i d' t :
  feed d now i = (d', t) -> now_ms d' = now /\ cfg d' = cfg d.
Proof. intros H. destruct i; feed_cases; done. Qed.

(** ** Specification: the call protocol the pipeline acts on

    What a caller of [feed] may rely on is the order of the transitions: a call
    starts only while audio is being buffered, every started call is ended once,
    and buffered audio is either turned into a call or discarded. *)
Inductive SpecState := Quiet | Buffering | Open.

Definition spec_step (s : SpecState) (t : Transition) : option SpecState :=
  match t, s with
  | TNone, s => Some s
  | TArmed, Quiet => Some Buffering
  | (TBlocked _ | Unblocked), Quiet => Some Quiet
  | CallStarted, Buffering => Some Open
  | (ArmDiscarded | TBlocked _), Buffering => Some Quiet
  | WrapStarted, Open => Some Open
  | CallEnded _, Open => Some Quiet
  | _, _ => None
  end.

Definition abs (s : CallState) : SpecState :=
  match s with
  | Idle | Finalize | Blocked => Quiet
  | Armed => Buffering
  | InCall | Wrap => Open
  end.

Fixpoint spec_run (s : SpecState) (ts : list Transition) : option SpecState :=
  match ts with
  | [] => Some s
  | t :: ts' => match spec_step s t with Some s' => spec_run s' ts' | None => None end
  end.

Lemma feed_refines d now i d' t :
  feed d now i = (d', t) -> spec_step (abs (state d)) t = Some (abs (state d')).
Proof.
  intros H. destruct i; feed_cases; unfold in_call_or_wrap in *;
    repeat case_match; simplify_eq/=; rewrite_state; done.
Qed.

(** ** Ghost readings of a history *)

Definition voiced (i : DetectorInput) : bool :=
  match i with FarVoice b | NearVoice b => b | _ => false end.

(** Inputs that reach [evaluate]. *)
Definition observation (i : DetectorInput) : bool :=
  match i with Block _ | Unblock | UserChanged _ => false | _ => true end.

(** Far-channel speech heard since the machine last armed, read off the history:
    [clk] is the clock before the first entry. *)
Fixpoint speech_since_arm (acc clk : Z) (h : list (Z * DetectorInput * Transition)) : Z :=
  match h with
  | [] => acc
  | (now, i, t) :: h' =>
      let acc := match i with FarVoice true => acc + (now - clk) | _ => acc end in
      speech_since_arm (match t with TArmed => 0 | _ => acc end) now h'
  end.

Definition last_clock (clk : Z) (h : list (Z * DetectorInput * Transition)) : Z :=
  match last h with Some (now, _, _) => now | None => clk end.

Lemma speech_since_arm_snoc acc clk h now i t :
  speech_since_arm acc clk (h ++ [(now, i, t)]) =
    let a := speech_since_arm acc clk h in
    let a := match i with FarVoice true => a + (now - last_clock clk h) | _ => a end in
    match t with TArmed => 0 | _ => a end.
Proof.
  revert acc clk. induction h as [|[[n j] u] h IH]; intros acc clk; [done|].
  cbn [app speech_since_arm]. rewrite IH. unfold last_clock.
  rewrite last_cons. by destruct (last h) as [[[]]|].
Qed.

Lemma last_clock_snoc clk h now i t : last_clock clk (h ++ [(now, i, t)]) = now.
Proof. unfold last_clock. by rewrite last_snoc. Qed.

(** ** Invariants of reachable machines *)

Record detector_inv (c : VadConfig) (h : list (Z * DetectorInput * Transition))
    (d : Detector) : Prop := {
  inv_cfg : cfg d = c;
  inv_clock : now_ms d = last_clock 0 h;
  inv_times : 0 <= entered_at_ms d <= now_ms d /\ last_transition_ms d = entered_at_ms d;
  inv_silence : 0 <= silence_ms d <= now_ms d;
  inv_speech : armed_speech_ms d = speech_since_arm 0 0 h;
  inv_speech_bound : 0 <= armed_speech_ms d <= now_ms d;
  inv_blocked : state d = Blocked <-> block_reason d <> None;
  inv_wrap : state d = Wrap -> session_active d = false;
  inv_quiet : forall t i u, (t, i, u) ∈ h -> voiced i = true -> t + silence_ms d <= now_ms d;
  inv_past : forall t i u, (t, i, u) ∈ h -> t <= now_ms d;
}.

Lemma last_clock_nonneg_reach c h d : detector_inv c h d -> 0 <= now_ms d.
Proof. intros []. lia. Qed.

Lemma detector_inv_step c h d now i d' t :
  detector_inv c h d -> now_ms d <= now -> feed d now i = (d', t) ->
  detector_inv c (h ++ [(now, i, t)]) d'.
Proof.
  intros [Hc Hk [Ht1 Ht2] Hs Hsp Hsb Hb Hw Hq Hp] Hn H.
  split.
  - apply feed_frame in H as [_ ?]. congruence.
  - apply feed_frame in H as [? _]. by rewrite last_clock_snoc.
  - destruct i; feed_cases; ints; lia.
  - destruct i; feed_cases; ints; lia.
  - rewrite speech_since_arm_snoc, <- Hsp, <- Hk.
    destruct i; feed_cases; ints; try done; lia.
  - destruct i; feed_cases; ints; lia.
  - clear -Hb H. destruct i; feed_cases;
      first [split; congruence | rewrite <- Hb; split; congruence
            | rewrite <- Hb; unfold in_call_or_wrap in *; case_match; split; congruence].
  - clear -Hw H. destruct i; feed_cases; bool_hyps;
      first [congruence | intros _; congruence | auto; fail].
  - intros t' i' u' [Hin|[= -> -> ->]%list_elem_of_singleton]%elem_of_app Hv.
    + specialize (Hq _ _ _ Hin Hv). specialize (Hp _ _ _ Hin).
      destruct i; feed_cases; ints; lia.
    + destruct i; try done; simpl in Hv; subst; feed_cases; ints; lia.
  - intros t' i' u' [Hin|[= -> -> ->]%list_elem_of_singleton]%elem_of_app.
    + specialize (Hp _ _ _ Hin). apply feed_frame in H as [-> _]. lia.
    + apply feed_frame in H as [-> _]. lia.
Qed.

Lemma reach_inv c h d : reach c h d -> detector_inv c h d.
Proof.
  induction 1 as [|h d now i d' t _ IH Hn Hf].
  - split; simpl; try done; try lia; set_solver.
  - by eapply detector_inv_step.
Qed.

(** The u64 accumulators never exceed the clock, so their [+=] cannot overflow. *)
Lemma feed_accumulators_bounded c h d :
  reach c h d -> 0 <= armed_speech_ms d <= now_ms d /\ 0 <= silence_ms d <= now_ms d.
Proof. intros [_ _ _ ? _ ? _ _ _ _]%reach_inv. done. Qed.
