(* ===== verification/StateProps.v ===== *)
(** What the call detector promises over whole runs: the order of its
    transitions, the evidence behind each call start and each hangup, silence
    while blocked, no re-arming on a held session, and a bound on how long a
    finished call stays open. *)

From S2P Require Import Prelude Text Protocol Config State.

(** ** Runs *)

Lemma spec_run_app s ts ts' :
  spec_run s (ts ++ ts') = spec_run s ts ≫= fun s' => spec_run s' ts'.
Proof.
  revert s. induction ts as [|t ts IH]; intros s; [done|]. simpl.
  destruct (spec_step s t); [apply IH|done].
Qed.

Lemma run_app d tr tr' :
  run d (tr ++ tr') =
    let '(d1, ts1) := run d tr in let '(d2, ts2) := run d1 tr' in (d2, ts1 ++ ts2).
Proof.
  revert d. induction tr as [|[n i] tr IH]; intros d; simpl.
  - by destruct (run d tr').
  - destruct (feed d n i) as [d' t]. rewrite IH. destruct (run d' tr) as [d1 ts1].
    by destruct (run d1 tr').
Qed.

(** The history of a concrete run, and a decidable monotonicity check, to build
    [reach] by evaluation. *)
Fixpoint history (d : Detector) (tr : list (Z * DetectorInput))
    : list (Z * DetectorInput * Transition) :=
  match tr with
  | [] => []
  | (n, i) :: tr' => let '(d', t) := feed d n i in (n, i, t) :: history d' tr'
  end.

Fixpoint monotone (clk : Z) (tr : list (Z * DetectorInput)) : bool :=
  match tr with [] => true | (n, _) :: tr' => (clk <=? n) && monotone n tr' end.

Lemma reach_history c h d tr :
  reach c h d -> monotone (now_ms d) tr = true ->
  reach c (h ++ history d tr) (fst (run d tr)).
Proof.
  revert h d. induction tr as [|[n i] tr IH]; intros h d Hr Hm.
  { simpl. by rewrite app_nil_r. }
  simpl in *. bool_hyps. destruct (feed d n i) as [d' t] eqn:Hf.
  pose proof (feed_frame _ _ _ _ _ Hf) as [Hn _].
  specialize (IH (h ++ [(n, i, t)]) d'). destruct (run d' tr) as [d'' ts].
  rewrite <- app_assoc in IH. apply IH; [|by rewrite Hn].
  by apply (reach_snoc _ h d).
Qed.

Lemma reach_new c tr :
  monotone 0 tr = true ->
  reach c (history (Detector_new c) tr) (fst (run (Detector_new c) tr)).
Proof. intros. by apply (reach_history c [] (Detector_new c) tr (reach_nil c)). Qed.

(** C4: The detector refines the call protocol its caller acts on: along any
    run with a monotonic clock, the transitions it has returned form an accepted
    word of [spec_run] (every [CallEnded] closes the one call [CallStarted]
    opened, a call starts only from a buffering phase, a buffering phase ends in a
    call or a discard), and the machine's state is the one that word leads to. *)
Theorem detector_refines_call_protocol c h d :
  reach c h d -> spec_run Quiet (h.*2) = Some (abs (state d)).
Proof.
  induction 1 as [|h d now i d' t _ IH _ Hf]; [done|].
  rewrite fmap_app, spec_run_app, IH. simpl. by erewrite feed_refines.
Qed.


(** A complete call: sign-in, session, speech, hangup, wrap, end. *)
Definition sample_call : list (Z * DetectorInput) :=
  [(1000, Unblock); (1000, UserChanged "agent-1"); (3000, SessionState true);
   (3100, FarVoice false); (3300, FarVoice true); (3500, FarVoice true);
   (9000, NearVoice true); (9100, SessionState false); (17200, Tick); (18000, Tick);
   (20300, Tick); (20400, Tick)].

Lemma detector_refines_witness :
  let h := history (Detector_new VadConfig_default) sample_call in
  h.*2 = [Unblocked; TNone; TArmed; TNone; TNone; CallStarted; TNone; TNone;
          WrapStarted; TNone; CallEnded Hangup; TNone] /\
  spec_run Quiet (h.*2) = Some Quiet.
Proof.
  split; [reflexivity|].
  exact (detector_refines_call_protocol _ _ _ (reach_new VadConfig_default sample_call eq_refl)).
Defined.

(** ** What a call start and a hangup rest on *)

Lemma feed_CallStarted_iff d now i :
  snd (feed d now i) = CallStarted <->
  state d = Armed /\ observation i = true /\
  speech_ms_to_confirm (cfg d) <=
    armed_speech_ms d + match i with FarVoice true => sat_sub now (now_ms d) | _ => 0 end.
Proof.
  destruct (feed d now i) as [d' t] eqn:H. cbn [snd]. unfold in_call_or_wrap in *.
  destruct i; feed_cases; bool_hyps; rewrite ?Z.add_0_r in *;
    (split; [intros; try done; split_and!; done || lia | intros (?&?&?); done || congruence || lia]).
Qed.

(** A call starts exactly when the machine is armed and the far channel has
    been heard speaking for [speech_ms_to_confirm] since it armed, measured on the
    observations themselves and not on the machine's own counter. *)
Theorem call_start_iff_far_speech c h d now i :
  reach c h d -> now_ms d <= now ->
  snd (feed d now i) = CallStarted <->
  state d = Armed /\ observation i = true /\
  speech_ms_to_confirm c <= speech_since_arm 0 0 (h ++ [(now, i, TNone)]).
Proof.
  intros Hr Hn. pose proof (reach_inv _ _ _ Hr) as [Hc Hk _ _ Hs _ _ _ _ _].
  rewrite feed_CallStarted_iff, speech_since_arm_snoc, Hc, <- Hs, <- Hk. cbv zeta.
  replace (sat_sub now (now_ms d)) with (now - now_ms d) by (ints; lia).
  destruct i as [| [] | | | | |]; rewrite ?Z.add_0_r; done.
Qed.

Lemma call_start_iff_far_speech_witness :
  let tr := take 5 sample_call in
  let h := history (Detector_new VadConfig_default) tr in
  let d := fst (run (Detector_new VadConfig_default) tr) in
  snd (feed d 3500 (FarVoice true)) = CallStarted /\
  300 <= speech_since_arm 0 0 (h ++ [(3500, FarVoice true, TNone)]).
Proof.
  intros tr h d.
  assert (E : snd (feed d 3500 (FarVoice true)) = CallStarted) by reflexivity.
  split; [exact E|].
  apply (call_start_iff_far_speech VadConfig_default h d 3500 (FarVoice true)
           (reach_new VadConfig_default tr eq_refl) ltac:(vm_compute; discriminate)).
  exact E.
Defined.

Lemma feed_WrapStarted d now i d' :
  feed d now i = (d', WrapStarted) ->
  state d = InCall /\ session_active d' = false /\ hangup_silence_ms (cfg d) <= silence_ms d' /\
  state d' = Wrap /\ entered_at_ms d' = now.
Proof. intros H. destruct i; feed_cases; bool_hyps; done. Qed.

(** A hangup is only suspected on real silence: when the machine wraps, the
    softphone session is inactive and no voice was observed on either channel in
    the last [hangup_silence_ms] milliseconds of the run. *)
Theorem wrap_needs_silence c h d now i d' :
  reach c h d -> now_ms d <= now -> feed d now i = (d', WrapStarted) ->
  session_active d' = false /\
  forall t j u, (t, j, u) ∈ h ++ [(now, i, WrapStarted)] -> voiced j = true ->
    t <= now - hangup_silence_ms c.
Proof.
  intros Hr Hn Hf.
  pose proof (inv_cfg _ _ _ (reach_inv _ _ _ Hr)) as Hc.
  assert (Hr' : reach c (h ++ [(now, i, WrapStarted)]) d') by (by econstructor).
  apply reach_inv in Hr' as [_ Hk _ _ _ _ _ _ Hq _]. rewrite last_clock_snoc in Hk.
  apply feed_WrapStarted in Hf as (_ & Hs & Hsil & _). split; [done|].
  intros t j u Hin Hv. specialize (Hq t j u Hin Hv). rewrite Hc in Hsil. lia.
Qed.

Lemma wrap_needs_silence_witness :
  let tr := take 8 sample_call in
  let h := history (Detector_new VadConfig_default) tr in
  let d := fst (run (Detector_new VadConfig_default) tr) in
  session_active (fst (feed d 17200 Tick)) = false /\
  forall t j u, (t, j, u) ∈ h ++ [(17200, Tick, WrapStarted)] -> voiced j = true -> t <= 9200.
Proof.
  intros tr h d.
  apply (wrap_needs_silence VadConfig_default h d 17200 Tick
           (fst (feed d 17200 Tick)) (reach_new VadConfig_default tr eq_refl)
           ltac:(vm_compute; discriminate) ltac:(vm_compute; reflexivity)).
Defined.

(** What [Wrap] remembers of its history: it was entered by a [WrapStarted] since
    which nothing was returned and the session never came back. *)
Definition wrapping (h : list (Z * DetectorInput * Transition)) (d : Detector) : Prop :=
  exists h1 i h2, h = h1 ++ (entered_at_ms d, i, WrapStarted) :: h2 /\
    Forall (fun e => e.2 = TNone /\ e.1.2 <> SessionState true) h2.

Lemma wrapping_step h d now i d' t :
  (state d = Wrap -> wrapping h d) -> feed d now i = (d', t) ->
  state d' = Wrap -> wrapping (h ++ [(now, i, t)]) d'.
Proof.
  intros Hw Hf Hs'.
  destruct (decide (state d = Wrap)) as [Hs|Hs].
  - destruct (Hw Hs) as (h1 & j & h2 & -> & Hall).
    exists h1, j, (h2 ++ [(now, i, t)]).
    enough (entered_at_ms d' = entered_at_ms d /\ t = TNone /\ i <> SessionState true)
      as (-> & -> & Hi).
    { split; [by rewrite <- app_assoc|]. apply Forall_app; split; [done|].
      by repeat constructor. }
    clear -Hs Hs' Hf. destruct i; feed_cases; bool_hyps; split_and!; done || congruence.
  - exists h, i, []. enough (entered_at_ms d' = now /\ t = WrapStarted) as [-> ->] by done.
    clear -Hs Hs' Hf. destruct i; feed_cases; bool_hyps; done || congruence.
Qed.

Lemma reach_wrapping c h d : reach c h d -> state d = Wrap -> wrapping h d.
Proof.
  induction 1 as [|h d now i d' t _ IH _ Hf]; [done|]. by eapply wrapping_step.
Qed.

Lemma feed_Hangup d now i d' :
  feed d now i = (d', CallEnded Hangup) ->
  state d = Wrap /\ i <> SessionState true /\
  wrap_ms (cfg d) <= sat_sub now (entered_at_ms d).
Proof.
  intros H. destruct i; feed_cases; bool_hyps; unfold time_in_state_ms in *;
    simpl in *; try done. all: by destruct reason.
Qed.

(** A call is ended as a hangup only [wrap_ms] after a [WrapStarted], with no
    other transition and no return of the softphone session in between: a hold that
    resumes within the window never splits a call. *)
Theorem hangup_follows_wrap c h d now i d' :
  reach c h d -> now_ms d <= now -> feed d now i = (d', CallEnded Hangup) -> 0 <= wrap_ms c ->
  exists h1 w j h2, h = h1 ++ (w, j, WrapStarted) :: h2 /\ w + wrap_ms c <= now /\
    Forall (fun e => e.2 = TNone /\ e.1.2 <> SessionState true) (h2 ++ [(now, i, TNone)]).
Proof.
  intros Hr Hn (Hs & Hi & Hw)%feed_Hangup Hpos.
  pose proof (reach_inv _ _ _ Hr) as [Hc _ [Ht _] _ _ _ _ _ _ _].
  destruct (reach_wrapping _ _ _ Hr Hs) as (h1 & j & h2 & -> & Hall).
  exists h1, (entered_at_ms d), j, h2. split; [done|]. rewrite Hc in Hw. split; [ints; lia|].
  apply Forall_app; split; [done|]. by repeat constructor.
Qed.

Lemma hangup_follows_wrap_witness :
  let tr := take 10 sample_call in
  let h := history (Detector_new VadConfig_default) tr in
  exists h1 w j h2, h = h1 ++ (w, j, WrapStarted) :: h2 /\ w + 3000 <= 20300 /\
    Forall (fun e => e.2 = TNone /\ e.1.2 <> SessionState true) (h2 ++ [(20300, Tick, TNone)]).
Proof.
  intros tr h.
  apply (hangup_follows_wrap VadConfig_default h (fst (run (Detector_new VadConfig_default) tr))
           20300 Tick (fst (feed (fst (run (Detector_new VadConfig_default) tr)) 20300 Tick))
           (reach_new VadConfig_default tr eq_refl)
           ltac:(vm_compute; discriminate) ltac:(vm_compute; reflexivity)).
  vm_compute. discriminate.
Defined.

(** ** Blocking, exhaustion, holds *)

Lemma feed_while_blocked d now i d' t :
  state d = Blocked -> i <> Unblock -> feed d now i = (d', t) ->
  state d' = Blocked /\ (t = TNone \/ exists r, t = TBlocked r).
Proof.
  intros Hs Hi Hf. destruct i; feed_cases; unfold in_call_or_wrap in *; rewrite_state;
    naive_solver.
Qed.

Lemma blocked_run d tr d' ts :
  state d = Blocked -> Forall (fun e => e.2 <> Unblock) tr -> run d tr = (d', ts) ->
  state d' = Blocked /\ Forall (fun t => t = TNone \/ exists r, t = TBlocked r) ts.
Proof.
  intros Hs Hall. revert d d' ts Hs. induction Hall as [|[n i] tr Hi _ IH]; intros d d' ts Hs H.
  { simplify_eq/=. by split. }
  simpl in *. destruct (feed d n i) as [d1 t] eqn:Hf. destruct (run d1 tr) as [d2 ts2] eqn:Hr.
  simplify_eq. apply feed_while_blocked in Hf as [Hs1 Ht]; [|done..].
  destruct (IH _ _ _ Hs1 Hr) as [? ?]. split; [done|by constructor].
Qed.

(** A block cuts an open call short with the block's own reason and is then
    final: whatever is observed before the next [Unblock], the machine stays
    blocked and returns nothing but [TNone] and further blocks. *)
Theorem block_is_final d now r tr d1 t1 d' ts :
  feed d now (Block r) = (d1, t1) -> Forall (fun e => e.2 <> Unblock) tr ->
  run d1 tr = (d', ts) ->
  t1 = (if in_call_or_wrap (state d) then CallEnded (end_reason_of r) else TBlocked r) /\
  block_reason d1 = Some r /\ state d' = Blocked /\
  Forall (fun t => t = TNone \/ exists r', t = TBlocked r') ts.
Proof.
  intros Hf Hall Hr.
  assert (Hs : state d1 = Blocked) by (clear -Hf; feed_cases; done).
  destruct (blocked_run _ _ _ _ Hs Hall Hr) as [H H0].
  clear -Hf H H0. unfold feed, enter_blocked in Hf. simpl in Hf.
  destruct (in_call_or_wrap (state d)); by simplify_eq/=.
Qed.

Lemma block_is_final_witness :
  let d := fst (run (Detector_new VadConfig_default) (take 6 sample_call)) in
  let d1 := fst (feed d 4000 (Block DeviceRevoked)) in
  let '(d', ts) := run d1 [(5000, FarVoice true); (9000, SessionState true)] in
  snd (feed d 4000 (Block DeviceRevoked)) = CallEnded Revoked /\ state d' = Blocked /\
  Forall (fun t => t = TNone \/ exists r', t = TBlocked r') ts.
Proof.
  intros d d1.
  destruct (run d1 [(5000, FarVoice true); (9000, SessionState true)]) as [d' ts] eqn:E.
  destruct (block_is_final d 4000 DeviceRevoked [(5000, FarVoice true); (9000, SessionState true)]
    d1 (snd (feed d 4000 (Block DeviceRevoked))) d' ts) as (H1 & _ & H3 & H4).
  - unfold d1. vm_compute. reflexivity.
  - by repeat constructor.
  - exact E.
  - split; [vm_compute; reflexivity|]. split; [exact H3|exact H4].
Defined.

(** A machine that gave up on a held session. *)
Definition exhausted (d : Detector) : Prop :=
  arm_exhausted d = true /\ (state d = Idle \/ state d = Blocked).

Lemma feed_exhausted d now i d' t :
  exhausted d -> i <> SessionState false -> feed d now i = (d', t) ->
  exhausted d' /\ t <> TArmed.
Proof.
  unfold exhausted. intros [Hx Hs] Hi Hf.
  destruct i as [[]| | | | | |]; destruct Hs as [Hs|Hs]; feed_cases; unfold in_call_or_wrap in *;
    rewrite_state; bool_hyps;
    first [congruence | split; [split; [done|by auto]|done]].
Qed.

(** An arm that timed out on hold music is not retried: once the machine has
    discarded an arm by timeout it does not arm again until the softphone session
    goes inactive, however long the session stays active and whatever is blocked and
    unblocked meanwhile. *)
Theorem no_rearm_until_session_cycles d now i d1 tr d' ts :
  state d = Armed -> session_active d1 = true -> feed d now i = (d1, ArmDiscarded) ->
  Forall (fun e => e.2 <> SessionState false) tr -> run d1 tr = (d', ts) ->
  TArmed ∉ ts /\ CallStarted ∉ ts.
Proof.
  intros Hs Ha Hf Hall Hr.
  assert (Hx : exhausted d1).
  { clear -Hs Ha Hf. unfold exhausted. destruct i; feed_cases; bool_hyps; auto; congruence. }
  clear -Hx Hall Hr. revert d1 ts Hx Hr.
  induction Hall as [|[n j] tr Hj _ IH]; intros d ts Hx Hr.
  { simplify_eq/=. set_solver. }
  simpl in *. destruct (feed d n j) as [d1 t] eqn:Hf. destruct (run d1 tr) as [d2 ts2] eqn:Hr2.
  simplify_eq. assert (t <> CallStarted).
  { intros ->. apply (f_equal snd) in Hf. apply feed_CallStarted_iff in Hf as [Ha _].
    destruct Hx as [_ []]; congruence. }
  apply feed_exhausted in Hf as [Hx1 Ht]; [|done..].
  specialize (IH _ _ Hx1 Hr2). set_solver.
Qed.

Lemma no_rearm_witness :
  let d := fst (run (Detector_new VadConfig_default) (take 3 sample_call)) in
  let d1 := fst (feed d 23000 Tick) in
  let tr := [(30000, Tick); (40000, FarVoice true); (50000, SessionState true)] in
  TArmed ∉ snd (run d1 tr) /\ CallStarted ∉ snd (run d1 tr).
Proof.
  intros d d1 tr.
  apply (no_rearm_until_session_cycles d 23000 Tick d1 tr (fst (run d1 tr)) (snd (run d1 tr))).
  - vm_compute. reflexivity.
  - vm_compute. reflexivity.
  - vm_compute. reflexivity.
  - unfold tr. by repeat constructor.
  - vm_compute. reflexivity.
Defined.

(** ** A finished call ends in bounded time *)

Definition ticks (ts : list Z) : list (Z * DetectorInput) := (fun t => (t, Tick)) <$> ts.

(** Ticks arrive in order and at most [g] apart. *)
Fixpoint paced (g clk : Z) (ts : list Z) : Prop :=
  match ts with [] => True | t :: ts' => clk <= t <= clk + g /\ paced g t ts' end.

Lemma ticks_in_wrap d g ts :
  state d = Wrap -> session_active d = false -> entered_at_ms d <= now_ms d ->
  paced g (now_ms d) ts -> default (now_ms d) (last ts) >= entered_at_ms d + wrap_ms (cfg d) ->
  now_ms d < entered_at_ms d + wrap_ms (cfg d) \/ ts <> [] ->
  CallEnded Hangup ∈ snd (run d (ticks ts)).
Proof.
  revert d. induction ts as [|t ts IH]; intros d Hs Ha He Hp Hl Hne.
  { simpl in Hl. destruct Hne; [lia|done]. }
  destruct Hp as [Ht Hp].
  change (ticks (t :: ts)) with ((t, Tick) :: ticks ts). cbn [run]. destruct (feed d t Tick) as [d1 u] eqn:Hf.
  destruct (run d1 (ticks ts)) as [d2 us] eqn:Hr. cbn [snd].
  unfold feed, evaluate, goto in Hf. simpl in Hf. rewrite Hs, Ha in Hf. simpl in Hf.
  unfold time_in_state_ms in Hf. simpl in Hf.
  destruct (Z.leb_spec (wrap_ms (cfg d)) (sat_sub t (entered_at_ms d))).
  { simplify_eq. apply elem_of_cons. by left. }
  injection Hf as Hd _.
  enough (CallEnded Hangup ∈ snd (run d1 (ticks ts)))
    by (rewrite Hr in *; apply elem_of_cons; by right).
  clear Hr. subst d1. apply IH; simpl; try done; [lia| |].
  - rewrite last_cons in Hl. destruct (last ts); simpl in *; ints; lia.
  - left. ints. lia.
Qed.

(** A call whose session has gone quiet is closed in bounded time: from an
    [InCall] machine with an inactive session, ticks at most [g] apart bring
    [CallEnded Hangup] within [max hangup_silence_ms debounce_ms + wrap_ms + g]
    of the last transition or voice. *)
Theorem quiet_call_ends d g ts :
  let H := Z.max (hangup_silence_ms (cfg d)) (debounce_ms (cfg d)) in
  state d = InCall -> session_active d = false -> 0 <= g ->
  0 <= silence_ms d -> last_transition_ms d <= now_ms d ->
  0 < hangup_silence_ms (cfg d) -> 0 < wrap_ms (cfg d) ->
  paced g (now_ms d) ts ->
  default (now_ms d) (last ts) >= now_ms d + H + wrap_ms (cfg d) + g ->
  CallEnded Hangup ∈ snd (run d (ticks ts)).
Proof.
  intros H Hs Ha Hg Hsil Hlt Hh Hw Hp Hl.
  set (s0 := now_ms d) in *.
  assert (Hs0 : silence_ms d >= now_ms d - s0) by lia.
  assert (Hn0 : now_ms d < s0 + H) by lia.
  assert (Hlt0 : last_transition_ms d <= s0) by lia.
  assert (Hp0 : paced g (now_ms d) ts) by done.
  assert (Hl0 : default (now_ms d) (last ts) >= s0 + H + wrap_ms (cfg d) + g) by done.
  unfold H in *. clear H. clearbody s0. clear Hsil Hlt Hp Hl.
  revert d Hs Ha Hh Hw Hs0 Hn0 Hlt0 Hp0 Hl0.
  induction ts as [|t ts IH]; intros d Hs Ha Hh Hw Hs0 Hn0 Hlt0 Hp0 Hl0; [simpl in *; lia|].
  destruct Hp0 as [Ht Hp].
  change (ticks (t :: ts)) with ((t, Tick) :: ticks ts). cbn [run]. destruct (feed d t Tick) as [d1 u] eqn:Hf.
  destruct (run d1 (ticks ts)) as [d2 us] eqn:Hr. cbn [snd].
  enough (CallEnded Hangup ∈ snd (run d1 (ticks ts))) by (rewrite Hr in *; apply elem_of_cons; by right).
  clear Hr d2 us. rewrite last_cons in Hl0.
  unfold feed, evaluate, goto, debounced in Hf. simpl in Hf. rewrite Hs, Ha in Hf. simpl in Hf.
  destruct (Z.leb_spec (hangup_silence_ms (cfg d)) (silence_ms d + sat_sub t (now_ms d)));
    [destruct (Z.leb_spec (debounce_ms (cfg d)) (sat_sub t (last_transition_ms d)))|];
    simpl in Hf; simplify_eq.
  - eapply (ticks_in_wrap _ g); simpl; try done.
    + destruct (last ts); simpl in *; lia.
    + left. lia.
  - apply IH; simpl; try done; destruct (last ts); simpl in *; ints; lia.
  - apply IH; simpl; try done; destruct (last ts); simpl in *; ints; lia.
Qed.

Lemma quiet_call_ends_witness :
  let d := fst (run (Detector_new VadConfig_default) (take 8 sample_call)) in
  CallEnded Hangup ∈ snd (run d (ticks ((fun k => 9100 + 500 * Z.of_nat k) <$> List.seq 1 24))).
Proof.
  intros d. apply (quiet_call_ends d 500); vm_compute; try done; repeat split; discriminate.
Defined.

(** Idle or blocked, with the last transition no earlier than [now]. *)
Definition settling (now deb : Z) (d : Detector) : Prop :=
  (state d = Idle \/ state d = Blocked) /\ now <= last_transition_ms d /\
  debounce_ms (cfg d) = deb.

Lemma feed_settling now deb d n i d' t :
  settling now deb d -> now <= n < now + deb -> feed d n i = (d', t) ->
  settling now deb d' /\ t <> TArmed /\ t <> CallStarted.
Proof.
  intros (Hs & Hl & Hd) Hn Hf. unfold settling.
  destruct i; destruct Hs as [Hs|Hs]; feed_cases; unfold in_call_or_wrap, debounced in *;
    simpl in *; rewrite_state; bool_hyps; simpl in *; try done;
    first [ints; lia | split_and!; solve [done | by auto | lia]].
Qed.

Lemma not_armed_in_window now deb d tr d' ts :
  settling now deb d -> Forall (fun e => now <= e.1 < now + deb) tr ->
  run d tr = (d', ts) -> TArmed ∉ ts /\ CallStarted ∉ ts.
Proof.
  intros Hs Hall. revert d ts Hs.
  induction Hall as [|[n j] tr Hj _ IH]; intros d ts Hs Hr.
  { simplify_eq/=. rewrite !elem_of_nil. by auto. }
  simpl in *. destruct (feed d n j) as [d1 t] eqn:Hf. destruct (run d1 tr) as [d2 ts2] eqn:Hr2.
  simplify_eq. eapply feed_settling in Hf as (Hs1 & Ht1 & Ht2); [|done..].
  specialize (IH _ _ Hs1 Hr2). rewrite !not_elem_of_cons. naive_solver.
Qed.

(** A mid-call change of user closes the call under the old user at once,
    but the next call does not open immediately, as the [reopen_after_end] flag's
    description says it should: the machine is left idle and, whatever is observed,
    cannot arm before [debounce_ms] have passed. *)
Theorem user_change_closes_then_debounces d now u d1 t1 tr d2 ts :
  in_call_or_wrap (state d) = true -> user_uid d <> Some u ->
  feed d now (UserChanged u) = (d1, t1) ->
  Forall (fun e => now <= e.1 < now + debounce_ms (cfg d)) tr -> run d1 tr = (d2, ts) ->
  t1 = CallEnded SignedOut /\ state d1 = Idle /\ user_uid d1 = Some u /\
  TArmed ∉ ts /\ CallStarted ∉ ts.
Proof.
  intros Hs Hu Hf Hall Hr.
  assert (E : t1 = CallEnded SignedOut /\ state d1 = Idle /\ user_uid d1 = Some u /\
            last_transition_ms d1 = now /\ cfg d1 = cfg d).
  { clear -Hs Hu Hf. unfold feed, goto in Hf. simpl in Hf.
    rewrite bool_decide_eq_false_2 in Hf by done. simpl in Hf. rewrite Hs in Hf.
    by simplify_eq/=. }
  destruct E as (-> & Hst & Hus & Hlt & Hc).
  enough (TArmed ∉ ts /\ CallStarted ∉ ts) as [? ?] by done.
  eapply (not_armed_in_window now (debounce_ms (cfg d))); [|done|done].
  unfold settling. rewrite Hc, Hlt. split_and!; [by left|lia|done].
Qed.

Lemma user_change_witness :
  let d := fst (run (Detector_new VadConfig_default) (take 6 sample_call)) in
  let d1 := fst (feed d 4000 (UserChanged "agent-2")) in
  let tr := [(4020, FarVoice true); (5999, SessionState true)] in
  snd (feed d 4000 (UserChanged "agent-2")) = CallEnded SignedOut /\
  state d1 = Idle /\ user_uid d1 = Some "agent-2" /\
  TArmed ∉ snd (run d1 tr) /\ CallStarted ∉ snd (run d1 tr).
Proof.
  intros d d1 tr.
  apply (user_change_closes_then_debounces d 4000 "agent-2" d1
    (snd (feed d 4000 (UserChanged "agent-2"))) tr (fst (run d1 tr)) (snd (run d1 tr))).
  - vm_compute. reflexivity.
  - vm_compute. discriminate.
  - vm_compute. reflexivity.
  - unfold tr. repeat constructor; vm_compute; discriminate || reflexivity.
  - vm_compute. reflexivity.
Defined.
