(* ===== verification/Backoff.v ===== *)
(** Reconnect and relaunch backoff (sentinel-core/src/backoff.rs). Durations are
    in milliseconds; the jitter draw of [rand::thread_rng().gen_range] is an
    argument. *)

From S2P Require Import Prelude.

Record Backoff := { base : Z; cap : Z; attempt : Z; jitter : bool }.

#[export] Instance rebuild_Backoff : Rebuild Backoff := fun b =>
  {| base := base b; cap := cap b; attempt := attempt b; jitter := jitter b |}.

Definition Backoff_uplink : Backoff :=
  {| base := 1000; cap := 60000; attempt := 0; jitter := true |}.
Definition Backoff_relaunch : Backoff :=
  {| base := 1000; cap := 60000; attempt := 0; jitter := false |}.

(** [base.checked_mul(1 << min(attempt, 20))]: a second scaled by at most 2^20 is
    far inside a [Duration], so the fallback to [cap] is never taken. *)
Definition ceiling (b : Backoff) : Z :=
  Z.min (base b * Z.shiftl 1 (Z.min (attempt b) 20)) (cap b).

Definition next_delay (draw : Z -> Z) (b : Backoff) : Backoff * Z :=
  let c := ceiling b in
  let b := b <| attempt := sat_add u32_max (attempt b) 1 |> in
  (b, if jitter b then draw c else c).

Definition Backoff_reset (b : Backoff) : Backoff := b <| attempt := 0 |>.

(** What [gen_range(0..=c)] promises of a draw. *)
Definition draw_ok (draw : Z -> Z) : Prop := forall c, 0 <= c -> 0 <= draw c <= c.

(** The two policies of the client; every [Backoff] is one of them with some
    attempt count. *)
Definition backoff_wf (b : Backoff) : Prop :=
  base b = 1000 /\ cap b = 60000 /\ in_u32 (attempt b).

Lemma uplink_wf : backoff_wf Backoff_uplink.
Proof. unfold backoff_wf; ints; simpl; lia. Qed.
Lemma relaunch_wf : backoff_wf Backoff_relaunch.
Proof. unfold backoff_wf; ints; simpl; lia. Qed.
Lemma next_delay_wf draw b : backoff_wf b -> backoff_wf (next_delay draw b).1.
Proof. unfold backoff_wf. intros (? & ? & ?). simpl. ints. lia. Qed.
Lemma reset_wf b : backoff_wf b -> backoff_wf (Backoff_reset b).
Proof. unfold backoff_wf. intros (? & ? & ?). simpl. ints. lia. Qed.

Lemma ceiling_pow b :
  backoff_wf b -> ceiling b = Z.min (1000 * 2 ^ Z.min (attempt b) 20) 60000.
Proof.
  intros (Hb & Hc & Ha). unfold ceiling. rewrite Hb, Hc, Z.shiftl_1_l. done.
Qed.

Lemma ceiling_bounds b : backoff_wf b -> 1000 <= ceiling b <= 60000.
Proof.
  intros H. rewrite ceiling_pow by done. destruct H as (_ & _ & Ha). ints.
  pose proof (Z.pow_le_mono_r 2 0 (Z.min (attempt b) 20) ltac:(lia) ltac:(lia)). lia.
Qed.

Lemma ceiling_cap b : backoff_wf b -> 6 <= attempt b -> ceiling b = 60000.
Proof.
  intros H Ha. rewrite ceiling_pow by done.
  pose proof (Z.pow_le_mono_r 2 6 (Z.min (attempt b) 20) ltac:(lia) ltac:(lia)).
  change (2 ^ 6) with 64 in *. lia.
Qed.

(** Delays of [n] failures in a row. *)
Fixpoint delays (draw : nat -> Z -> Z) (n : nat) (b : Backoff) : Backoff * list Z :=
  match n with
  | O => (b, [])
  | S n' =>
      let '(b, d) := next_delay (draw n') b in
      let '(b, ds) := delays draw n' b in (b, d :: ds)
  end.

Lemma next_delay_bounds draw b :
  backoff_wf b -> draw_ok draw -> 0 <= (next_delay draw b).2 <= ceiling b.
Proof.
  intros Hb Hd. pose proof (ceiling_bounds b Hb). simpl.
  destruct (jitter b); [apply Hd|]; lia.
Qed.

(** The relaunch delay after [k] earlier failures in a row. *)
Definition relaunch_delay (k : Z) : Z := Z.min (1000 * 2 ^ Z.min k 20) 60000.

(** Relaunch delays double from one second to the sixty-second cap and stay
    there: the [i]-th of any number of failures in a row waits
    [min(1000 * 2^i, 60000)] ms; the uplink's jittered delays are never longer. *)
Theorem backoff_sequence draw n b ds i d :
  backoff_wf b -> attempt b = 0 -> (forall k, draw_ok (draw k)) ->
  Z.of_nat n <= u32_max ->
  (delays draw n b).2 = ds -> ds !! i = Some d ->
  0 <= d <= relaunch_delay (Z.of_nat i) /\ (jitter b = false -> d = relaunch_delay (Z.of_nat i)).
Proof.
  intros Hb Ha Hdr Hn <-. replace (Z.of_nat i) with (attempt b + Z.of_nat i) by lia.
  assert (attempt b + Z.of_nat n <= u32_max) as Hn' by lia. clear Ha Hn.
  revert b i Hb Hn'. induction n as [|n IH]; intros b i Hb Hn' Hi; [done|].
  cbn [delays] in Hi. pose proof (next_delay_bounds (draw n) b Hb (Hdr n)) as Hbd.
  pose proof (next_delay_wf (draw n) b Hb) as Hb'.
  destruct (next_delay (draw n) b) as [b1 d1] eqn:E1.
  assert (Hatt : attempt b1 = attempt b + 1 /\ jitter b1 = jitter b).
  { unfold next_delay in E1. injection E1 as <- _. simpl. split; [ints; lia|done]. }
  destruct Hatt as [Hatt Hj].
  destruct (delays draw n b1) as [b2 ds2] eqn:E2. cbn [snd] in *.
  destruct i as [|i]; simpl in Hi.
  - simplify_eq. rewrite ceiling_pow in Hbd by done. rewrite Z.add_0_r. split; [done|].
    intros Hf. unfold next_delay in E1. injection E1 as _ <-. simpl. rewrite Hf.
    by apply ceiling_pow.
  - specialize (IH b1 i Hb' ltac:(lia)). rewrite E2 in IH. simpl in IH.
    replace (attempt b + Z.of_nat (S i)) with (attempt b1 + Z.of_nat i) by lia.
    rewrite <- Hj. by apply IH.
Qed.

Lemma backoff_sequence_witness :
  (delays (fun _ _ => 0) 8 Backoff_relaunch).2 = [1000; 2000; 4000; 8000; 16000; 32000; 60000; 60000]
  /\ 0 <= 60000 <= relaunch_delay 6.
Proof.
  split; [reflexivity|].
  apply (backoff_sequence (fun _ _ => 0) 8 Backoff_relaunch
    [1000; 2000; 4000; 8000; 16000; 32000; 60000; 60000] 6 60000).
  - apply relaunch_wf.
  - reflexivity.
  - intros k c H. lia.
  - vm_compute. discriminate.
  - reflexivity.
  - reflexivity.
Defined.
