(* ===== verification/Supervisor.v ===== *)
(** Agent watchdog policy (sentinel-service/src/supervisor.rs): one slot per
    interactive session, relaunch backoff and the daily restart counter. *)

From S2P Require Import Prelude Backoff.

Record Slot := {
  running : bool;
  next_attempt_ms : Z;
  backoff : Backoff;
  started_ms : option Z;
}.

#[export] Instance rebuild_Slot : Rebuild Slot := fun s =>
  {| running := running s; next_attempt_ms := next_attempt_ms s; backoff := backoff s;
     started_ms := started_ms s |}.

Inductive Action :=
| Launch (session_id : Z)
| ActIdle (next_deadline_ms : option Z).

Definition HEALTHY_RUN_MS : Z := 120000.
Definition COUNTER_RESET_MS : Z := 24 * 3600000.

Record Supervisor := {
  sessions : gmap Z Slot;
  restarts : Z;   (* u32 *)
  counter_epoch_ms : Z;
}.

#[export] Instance rebuild_Supervisor : Rebuild Supervisor := fun s =>
  {| sessions := sessions s; restarts := restarts s; counter_epoch_ms := counter_epoch_ms s |}.

Definition Supervisor_new (now : Z) : Supervisor :=
  {| sessions := ∅; restarts := 0; counter_epoch_ms := now |}.

Definition on_logon (s : Supervisor) (sid now : Z) : Supervisor :=
  match sessions s !! sid with
  | Some _ => s
  | None =>
      s <| sessions := <[sid := {| running := false; next_attempt_ms := now;
                                   backoff := Backoff_relaunch; started_ms := None |}]>
                         (sessions s) |>
  end.

Definition on_logoff (s : Supervisor) (sid : Z) : Supervisor :=
  s <| sessions := delete sid (sessions s) |>.

Definition on_launched (s : Supervisor) (sid now : Z) : Supervisor :=
  s <| sessions := alter (fun sl => sl <| running := true |> <| started_ms := Some now |>)
                     sid (sessions s) |>.

Definition on_exited (draw : Z -> Z) (s : Supervisor) (sid now : Z) (expected : bool)
    : Supervisor :=
  match sessions s !! sid with
  | None => s
  | Some sl =>
      let lifetime := sat_sub now (default now (started_ms sl)) in
      let sl := sl <| running := false |> <| started_ms := None |> in
      if expected then s <| sessions := <[sid := sl <| next_attempt_ms := now |>]> (sessions s) |>
      else
        let b := if HEALTHY_RUN_MS <=? lifetime then Backoff_reset (backoff sl) else backoff sl in
        let '(b, delay) := next_delay draw b in
        let sl := sl <| backoff := b |>
                     <| next_attempt_ms := sat_add u64_max now delay |> in
        s <| sessions := <[sid := sl]> (sessions s) |>
          <| restarts := sat_add u32_max (restarts s) 1 |>
  end.

(** The [for] over the BTreeMap, in ascending session order. *)
Fixpoint poll_loop (now : Z) (next_deadline : option Z) (l : list (Z * Slot)) : Action :=
  match l with
  | [] => ActIdle next_deadline
  | (sid, sl) :: l' =>
      if running sl then poll_loop now next_deadline l'
      else if next_attempt_ms sl <=? now then Launch sid
      else poll_loop now
             (Some (match next_deadline with
                    | Some d => Z.min d (next_attempt_ms sl)
                    | None => next_attempt_ms sl
                    end)) l'
  end.

Definition in_order (m : gmap Z Slot) : list (Z * Slot) :=
  merge_sort (by_key fst Z.le) (map_to_list m).

Definition poll (s : Supervisor) (now : Z) : Supervisor * Action :=
  let s := if COUNTER_RESET_MS <=? sat_sub now (counter_epoch_ms s)
           then s <| restarts := 0 |> <| counter_epoch_ms := now |> else s in
  (s, poll_loop now None (in_order (sessions s))).

Definition tracked_sessions (s : Supervisor) : list Z := (in_order (sessions s)).*1.

Definition is_running (s : Supervisor) (sid : Z) : bool :=
  match sessions s !! sid with Some sl => running sl | None => false end.

(** ** Lemmas *)

Lemma elem_of_in_order m sid sl : (sid, sl) ∈ in_order m <-> m !! sid = Some sl.
Proof. unfold in_order. by rewrite merge_sort_Permutation, elem_of_map_to_list. Qed.

Lemma in_order_sorted m : StronglySorted (by_key fst Z.le) (in_order m).
Proof. apply StronglySorted_merge_sort; apply _. Qed.

Definition due (now : Z) (sl : Slot) : bool := negb (running sl) && (next_attempt_ms sl <=? now).

Lemma poll_loop_spec now d0 l :
  match poll_loop now d0 l with
  | Launch sid => exists sl l1 l2, l = l1 ++ (sid, sl) :: l2 /\ due now sl = true /\
      Forall (fun x => due now x.2 = false) l1
  | ActIdle d => Forall (fun x => due now x.2 = false) l /\
      (forall t, d = Some t -> d0 = Some t \/
         exists sid sl, (sid, sl) ∈ l /\ running sl = false /\ next_attempt_ms sl = t) /\
      (forall t, d0 = Some t -> exists t', d = Some t' /\ t' <= t) /\
      (forall sid sl, (sid, sl) ∈ l -> running sl = false ->
         exists t', d = Some t' /\ t' <= next_attempt_ms sl)
  end.
Proof.
  revert d0. induction l as [|[sid sl] l IH]; intros d0.
  { simpl. split_and!; [constructor|by left|eauto with lia|]. intros ? ? []%elem_of_nil. }
  cbn [poll_loop]. unfold due in *. destruct (running sl) eqn:Hr.
  - specialize (IH d0). destruct (poll_loop now d0 l) as [s|d].
    + destruct IH as (sl' & l1 & l2 & -> & H1 & H2). exists sl', ((sid, sl) :: l1), l2.
      split_and!; [done|done|]. constructor; [|done]. simpl. by rewrite Hr.
    + destruct IH as (H1 & H2 & H3 & H4). split_and!.
      * constructor; [|done]. simpl. by rewrite Hr.
      * intros t Ht. destruct (H2 t Ht) as [|(a & b & Hin & ?)]; [by left|right].
        exists a, b. split; [|done]. by right.
      * done.
      * intros a b [E|Hin]%elem_of_cons Hb; [simplify_eq; congruence|by eapply H4].
  - destruct (Z.leb_spec (next_attempt_ms sl) now) as [Hle|Hgt].
    + exists sl, [], l. split_and!; [done| |constructor]. rewrite Hr. simpl. by apply Z.leb_le.
    + set (d1 := Some (match d0 with Some d => _ | None => _ end)).
      specialize (IH d1). destruct (poll_loop now d1 l) as [s|d].
      * destruct IH as (sl' & l1 & l2 & -> & H1 & H2). exists sl', ((sid, sl) :: l1), l2.
        split_and!; [done|done|]. constructor; [|done]. simpl. rewrite Hr. by apply Z.leb_gt.
      * destruct IH as (H1 & H2 & H3 & H4).
        destruct (H3 _ eq_refl) as (t' & Ht' & Hle'). split_and!.
        -- constructor; [|done]. simpl. rewrite Hr. by apply Z.leb_gt.
        -- intros t Ht. destruct (H2 t Ht) as [E|(a & b & Hin & ?)].
           ++ unfold d1 in E. destruct d0 as [d'|]; simplify_eq.
              ** destruct (Z.min_dec d' (next_attempt_ms sl)) as [->| ->]; [by left|right].
                 exists sid, sl. split; [by left|done].
              ** right. exists sid, sl. split; [by left|done].
           ++ right. exists a, b. split; [|done]. by right.
        -- intros t ->. exists t'. split; [done|]. lia.
        -- intros a b [E|Hin]%elem_of_cons Hb; [|by eapply H4].
           simplify_eq. exists t'. split; [done|]. destruct d0; lia.
Qed.

(** [poll] launches exactly what is due: it names the lowest tracked session
    whose agent is not running and whose relaunch time has come, so a running agent
    is never started twice; when none is due it reports the earliest pending
    relaunch time, and [None] only when every tracked agent is running. *)
Theorem poll_launches_first_due s now :
  match (poll s now).2 with
  | Launch sid =>
      (exists sl, sessions s !! sid = Some sl /\ due now sl = true) /\
      (forall sid' sl', sessions s !! sid' = Some sl' -> due now sl' = true -> sid <= sid')
  | ActIdle d =>
      (forall sid sl, sessions s !! sid = Some sl -> due now sl = false) /\
      (forall t, d = Some t -> exists sid sl, sessions s !! sid = Some sl /\
         running sl = false /\ next_attempt_ms sl = t) /\
      (forall sid sl, sessions s !! sid = Some sl -> running sl = false ->
         exists t, d = Some t /\ t <= next_attempt_ms sl)
  end.
Proof.
  unfold poll. simpl. set (s' := if _ <=? _ then _ else _).
  assert (sessions s' = sessions s) as -> by (unfold s'; by case_match).
  pose proof (poll_loop_spec now None (in_order (sessions s))) as H.
  destruct (poll_loop now None (in_order (sessions s))) as [sid|d].
  - destruct H as (sl & l1 & l2 & E & Hdue & Hl1). split.
    + exists sl. split; [|done]. apply elem_of_in_order. rewrite E. apply elem_of_app. right. by left.
    + intros sid' sl' Hs' Hd'. apply elem_of_in_order in Hs'.
      pose proof (in_order_sorted (sessions s)) as Hsort. rewrite E in Hs', Hsort.
      apply elem_of_app in Hs' as [Hin|[Heq|Hin]%elem_of_cons].
      * rewrite Forall_forall in Hl1. specialize (Hl1 _ Hin). simpl in Hl1. congruence.
      * simplify_eq. lia.
      * apply StronglySorted_app_1_r in Hsort. apply StronglySorted_inv in Hsort as [_ Hsort].
        rewrite Forall_forall in Hsort. specialize (Hsort _ Hin). exact Hsort.
  - destruct H as (H1 & H2 & _ & H4). rewrite Forall_forall in H1. split_and!.
    + intros sid sl Hs. apply elem_of_in_order in Hs. by apply (H1 _ Hs).
    + intros t Ht. destruct (H2 t Ht) as [|(sid & sl & Hin & ?)]; [done|].
      apply elem_of_in_order in Hin. eauto.
    + intros sid sl Hs. apply elem_of_in_order in Hs. exact (H4 sid sl Hs).
Qed.

(** A launch of session [sid] at [l] that crashes at [e]. *)
Fixpoint crash_loop (draw : Z -> Z) (s : Supervisor) (sid : Z) (runs : list (Z * Z))
    : Supervisor :=
  match runs with
  | [] => s
  | (l, e) :: runs' => crash_loop draw (on_exited draw (on_launched s sid l) sid e false) sid runs'
  end.

Definition quick (run : Z * Z) : Prop :=
  run.1 <= run.2 < run.1 + HEALTHY_RUN_MS /\ run.2 + 60000 <= u64_max.

Lemma crash_once draw s sid sl l e :
  sessions s !! sid = Some sl -> quick (l, e) -> backoff_wf (backoff sl) ->
  jitter (backoff sl) = false -> attempt (backoff sl) < u32_max -> restarts s < u32_max ->
  let s' := on_exited draw (on_launched s sid l) sid e false in
  exists sl', sessions s' !! sid = Some sl' /\ running sl' = false /\
    next_attempt_ms sl' = e + relaunch_delay (attempt (backoff sl)) /\
    backoff_wf (backoff sl') /\ jitter (backoff sl') = false /\
    attempt (backoff sl') = attempt (backoff sl) + 1 /\ restarts s' = restarts s + 1.
Proof.
  intros Hs Hq Hwf Hj Ha Hr. unfold on_exited, on_launched. simpl.
  rewrite lookup_alter_eq, Hs. simpl. rewrite lookup_insert_eq.
  unfold quick, HEALTHY_RUN_MS in *. simpl in Hq.
  destruct (Z.leb_spec 120000 (sat_sub e l)); [ints; lia|]. simpl.
  eexists. split; [done|]. simpl. rewrite Hj. pose proof (ceiling_bounds _ Hwf).
  rewrite ceiling_pow in * by done. unfold relaunch_delay.
  split_and!; try done; [ints; lia| |ints; lia|ints; lia].
  unfold backoff_wf in *. simpl. ints. lia.
Qed.

(** A crash loop backs off along the documented sequence and is counted: after
    [n > 0] crashes in a row, none of which lived [HEALTHY_RUN_MS], the agent of a
    freshly logged-on session is due again exactly [min(1000 * 2^(n-1), 60000)] ms
    after the last exit, and the restart counter has grown by [n]. *)
Theorem crash_loop_backs_off draw s sid now runs l e :
  sessions s !! sid = None -> Forall quick (runs ++ [(l, e)]) ->
  restarts s + len runs + 1 <= u32_max -> 0 <= restarts s ->
  let s' := crash_loop draw (on_logon s sid now) sid (runs ++ [(l, e)]) in
  exists sl, sessions s' !! sid = Some sl /\ running sl = false /\
    next_attempt_ms sl = e + relaunch_delay (len runs) /\
    restarts s' = restarts s + len runs + 1.
Proof.
  intros Hnone Hq Hr Hr0. cbv zeta.
  assert (Hs : exists sl, sessions (on_logon s sid now) !! sid = Some sl /\
    backoff_wf (backoff sl) /\ jitter (backoff sl) = false /\ attempt (backoff sl) = 0 /\
    restarts (on_logon s sid now) = restarts s).
  { unfold on_logon. rewrite Hnone. simpl. rewrite lookup_insert_eq. eexists.
    split_and!; [done|apply relaunch_wf|done..]. }
  destruct Hs as (sl & Hs & Hwf & Hj & Ha & Hrs).
  replace (relaunch_delay (len runs)) with (relaunch_delay (attempt (backoff sl) + len runs))
    by (f_equal; lia).
  rewrite <- Hrs in *. clear Hnone Hrs.
  assert (attempt (backoff sl) + len runs < u32_max) as Hcap by (ints; lia). clear Ha.
  revert Hs Hwf Hj Hcap Hr Hr0. generalize (on_logon s sid now). clear s. revert sl.
  induction runs as [|[l1 e1] runs IH]; intros sl s Hs Hwf Hj Hcap Hr Hr0.
  - cbn [app crash_loop length] in *. rewrite Forall_singleton in Hq.
    destruct (crash_once draw s sid sl l e Hs Hq Hwf Hj ltac:(lia) ltac:(lia))
      as (sl' & H1 & H2 & H3 & _ & _ & _ & H7).
    exists sl'. rewrite Z.add_0_r. split_and!; try done. lia.
  - cbn [app] in *. apply Forall_cons in Hq as [Hq1 Hq]. cbn [crash_loop].
    rewrite length_cons in *.
    destruct (crash_once draw s sid sl l1 e1 Hs Hq1 Hwf Hj ltac:(lia) ltac:(lia))
      as (sl' & H1 & H2 & H3 & H4 & H5 & H6 & H7).
    destruct (IH Hq sl' _ H1 H4 H5) as (sl2 & G1 & G2 & G3 & G4); [lia|lia|lia|].
    exists sl2. split_and!; [done|done| |lia].
    rewrite G3, H6. do 2 f_equal. lia.
Qed.

Lemma crash_loop_witness :
  let s' := crash_loop (fun c => c) (on_logon (Supervisor_new 0) 2 10) 2
              ([(10, 20); (1020, 1030)] ++ [(3030, 3040)]) in
  exists sl, sessions s' !! 2 = Some sl /\ running sl = false /\
    next_attempt_ms sl = 3040 + relaunch_delay 2 /\ restarts s' = 3.
Proof.
  apply (crash_loop_backs_off (fun c => c) (Supervisor_new 0) 2 10 [(10, 20); (1020, 1030)] 3030 3040).
  - reflexivity.
  - repeat constructor; vm_compute; discriminate || reflexivity.
  - vm_compute. discriminate.
  - vm_compute. discriminate.
Defined.
