(* ===== verification/Identity.v ===== *)
(** The identity gate (sentinel-agent/src/identity.rs): capture needs a signed-in
    user, a device that is not revoked, the pinned headset, and a server
    verification inside the offline grace window. *)

From S2P Require Import Prelude Text Protocol Config State.

Inductive IdentityStatus :=
| Online
| Grace (remaining_ms : Z)
| Expired
| IdBlocked (reason : BlockReason).

Definition may_capture (s : IdentityStatus) : bool :=
  match s with Online | Grace _ => true | _ => false end.

Definition status_block_reason (s : IdentityStatus) : option BlockReason :=
  match s with
  | Online | Grace _ => None
  | Expired => Some OfflineGraceExpired
  | IdBlocked r => Some r
  end.

Definition widget_message (s : IdentityStatus) : option string :=
  match s with
  | Online => None
  | Grace _ => Some "Working offline — recording continues"
  | Expired => Some "Reconnect to continue recording"
  | IdBlocked BrSignedOut => Some "Sign in to start"
  | IdBlocked PinnedDeviceMissing => Some "Headset not detected"
  | IdBlocked DeviceRevoked => Some "This device has been deactivated — contact your administrator"
  | IdBlocked OfflineGraceExpired => Some "Reconnect to continue recording"
  | IdBlocked BrShutdown => Some "Shutting down"
  end.

Record IdentityGate := {
  grace_ms : Z;
  last_verified_ms : option Z;
  signed_in : bool;
  device_revoked : bool;
  pinned_device_present : bool;
}.

#[export] Instance rebuild_IdentityGate : Rebuild IdentityGate := fun g =>
  {| grace_ms := grace_ms g; last_verified_ms := last_verified_ms g;
     signed_in := signed_in g; device_revoked := device_revoked g;
     pinned_device_present := pinned_device_present g |}.

Definition IdentityGate_new (grace : Z) : IdentityGate :=
  {| grace_ms := grace; last_verified_ms := None; signed_in := false;
     device_revoked := false; pinned_device_present := false |}.

Definition set_grace_ms (g : IdentityGate) (ms : Z) : IdentityGate := g <| grace_ms := ms |>.
Definition observe_verified (g : IdentityGate) (now : Z) : IdentityGate :=
  g <| last_verified_ms := Some now |>.
Definition set_signed_in (g : IdentityGate) (b : bool) : IdentityGate :=
  let g := g <| signed_in := b |> in
  if negb b then g <| last_verified_ms := None |> else g.
Definition set_device_revoked (g : IdentityGate) (b : bool) : IdentityGate :=
  g <| device_revoked := b |>.
Definition set_pinned_device_present (g : IdentityGate) (b : bool) : IdentityGate :=
  g <| pinned_device_present := b |>.

Definition status (g : IdentityGate) (now : Z) : IdentityStatus :=
  if device_revoked g then IdBlocked DeviceRevoked
  else if negb (signed_in g) then IdBlocked BrSignedOut
  else if negb (pinned_device_present g) then IdBlocked PinnedDeviceMissing
  else match last_verified_ms g with
  | None => Expired
  | Some last =>
      let elapsed := sat_sub now last in
      if elapsed =? 0 then Online
      else if elapsed <? grace_ms g then Grace (grace_ms g - elapsed)
      else Expired
  end.

(** ** Histories of the gate *)

Inductive GateEvent :=
| GSetGrace (ms : Z)
| GVerified (now : Z)
| GSignedIn (b : bool)
| GRevoked (b : bool)
| GPinned (b : bool).

Definition gate_step (g : IdentityGate) (e : GateEvent) : IdentityGate :=
  match e with
  | GSetGrace ms => set_grace_ms g ms
  | GVerified now => observe_verified g now
  | GSignedIn b => set_signed_in g b
  | GRevoked b => set_device_revoked g b
  | GPinned b => set_pinned_device_present g b
  end.

Definition gate_run (g : IdentityGate) (h : list GateEvent) : IdentityGate := foldl gate_step g h.

Lemma gate_run_snoc g h e : gate_run g (h ++ [e]) = gate_step (gate_run g h) e.
Proof. unfold gate_run. by rewrite foldl_app. Qed.

(** The most recent event of a kind decides: [latest f b0 h] is the value the last
    matching event of [h] carried. *)
Definition latest {A} (f : GateEvent -> option A) (b0 : A) (h : list GateEvent) : A :=
  foldl (fun b e => default b (f e)) b0 h.
Lemma latest_snoc {A} (f : GateEvent -> option A) b0 h e :
  latest f b0 (h ++ [e]) = default (latest f b0 h) (f e).
Proof. unfold latest. by rewrite foldl_app. Qed.

Definition signed_in_of (e : GateEvent) : option bool :=
  match e with GSignedIn b => Some b | _ => None end.
Definition revoked_of (e : GateEvent) : option bool :=
  match e with GRevoked b => Some b | _ => None end.
Definition pinned_of (e : GateEvent) : option bool :=
  match e with GPinned b => Some b | _ => None end.
Definition grace_of (e : GateEvent) : option Z :=
  match e with GSetGrace ms => Some ms | _ => None end.

(** A verification at [t] that no sign-out has followed. *)
Definition verified_since_sign_out (t : Z) (h : list GateEvent) : Prop :=
  exists h1 h2, h = h1 ++ GVerified t :: h2 /\ GSignedIn false ∉ h2 /\
    (forall t', GVerified t' ∉ h2).

Lemma gate_run_fields grace h :
  let g := gate_run (IdentityGate_new grace) h in
  signed_in g = latest signed_in_of false h /\ device_revoked g = latest revoked_of false h /\
  pinned_device_present g = latest pinned_of false h /\ grace_ms g = latest grace_of grace h /\
  (forall t, last_verified_ms g = Some t <-> verified_since_sign_out t h).
Proof.
  cbv zeta. induction h as [|e h IH] using rev_ind.
  { split_and!; try done. intros t. simpl. split; [done|].
    intros (h1 & h2 & E & _). by destruct h1. }
  destruct IH as (H1 & H2 & H3 & H4 & H5).
  rewrite gate_run_snoc, !latest_snoc, <- H1, <- H2, <- H3, <- H4.
  destruct e as [ms|now|[]|b|b]; cbn [gate_step]; split_and!; try done; intros t; simpl;
    rewrite ?H5; clear; unfold verified_since_sign_out.
  all: try (split;
    [ intros (h1 & h2 & -> & Hs & Hv); eexists h1, (h2 ++ [_]);
      rewrite <- app_assoc; split_and!; [done|set_solver|set_solver]
    | intros (h1 & h2 & E & Hs & Hv);
      destruct h2 as [|x h2 _] using rev_ind;
        [apply app_inj_tail in E as [_ E]; discriminate|];
      rewrite app_comm_cons, app_assoc in E; apply app_inj_tail in E as [-> <-];
      exists h1, h2; split_and!; [done|set_solver|set_solver] ]).
  - split.
    + intros [= ->]. exists h, []. split_and!; [done|set_solver|set_solver].
    + intros (h1 & h2 & E & Hs & Hv). destruct h2 as [|x h2 _] using rev_ind.
      * apply app_inj_tail in E as [_ [= ->]]. done.
      * rewrite app_comm_cons, app_assoc in E. apply app_inj_tail in E as [_ <-].
        exfalso. apply (Hv now). apply elem_of_app. right. by left.
  - split; [done|]. intros (h1 & h2 & E & Hs & Hv). destruct h2 as [|x h2 _] using rev_ind.
    + by apply app_inj_tail in E as [_ [=]].
    + rewrite app_comm_cons, app_assoc in E. apply app_inj_tail in E as [_ <-].
      exfalso. apply Hs. apply elem_of_app. right. by left.
Qed.

(** The gate never lets an unattributed recording run: after any history,
    capture is allowed exactly when the last word on each question is that a user
    is signed in, the device is not revoked and the headset is present, and the
    server verified the user, since the last sign-out, less than the grace window
    ago (or at this very millisecond). *)
Theorem may_capture_iff_verified_identity grace h now :
  may_capture (status (gate_run (IdentityGate_new grace) h) now) = true <->
  latest signed_in_of false h = true /\ latest revoked_of false h = false /\
  latest pinned_of false h = true /\
  exists t, verified_since_sign_out t h /\
    (now - t < latest grace_of grace h \/ now <= t).
Proof.
  pose proof (gate_run_fields grace h) as (H1 & H2 & H3 & H4 & H5).
  unfold status. rewrite H1, H2, H3, H4. setoid_rewrite <- H5.
  destruct (latest revoked_of false h); [simpl; naive_solver|].
  destruct (latest signed_in_of false h); [|simpl; naive_solver].
  destruct (latest pinned_of false h); [|simpl; naive_solver]. simpl.
  destruct (last_verified_ms _) as [t|]; [|naive_solver].
  destruct (Z.eqb_spec (sat_sub now t) 0) as [E|E].
  - split; [|done]. intros _. split_and!; try done. exists t. split; [done|]. ints. lia.
  - destruct (Z.ltb_spec (sat_sub now t) (latest grace_of grace h)) as [Hlt|Hge].
    + split; [|done]. intros _. split_and!; try done. exists t. split; [done|]. ints. lia.
    + split; [done|]. intros (_ & _ & _ & t' & [= <-] & Ht). ints. lia.
Qed.

(** A gate that allows capture shows "Working offline" at every reading
    after the millisecond of the last verification, however reachable the server
    is: [Online], and with it an empty message, is the status only while the clock
    has not advanced past [last_verified_ms]. *)
Theorem online_only_at_verification g now t :
  last_verified_ms g = Some t -> may_capture (status g now) = true ->
  status g now = Online <-> now <= t.
Proof.
  unfold status. intros ->. repeat case_match; simplify_eq/=; try done; intros _;
    bool_hyps; ints; split; intros; try done; lia.
Qed.

Lemma online_only_witness :
  let g := gate_run (IdentityGate_new 28800000) [GSignedIn true; GPinned true; GVerified 1000] in
  status g 1001 = Grace 28799999 /\ (status g 1001 = Online <-> 1001 <= 1000).
Proof.
  intros g. split; [reflexivity|].
  apply (online_only_at_verification g 1001 1000); vm_compute; reflexivity.
Defined.
