(* ===== verification/Spool.v ===== *)
(** The disk spool (sentinel-core/src/spool.rs): the three tables of the SQLite
    database as finite maps, one definition per statement-issuing method.

    Keys and columns are as the schema has them: channel and flags are small
    integers, timestamps are signed 64-bit. The SQL engine itself is not modelled
    beyond the statements used: [INSERT .. ON CONFLICT], [DELETE .. WHERE],
    [ORDER BY .. LIMIT], [max], [count] and [sum]; engine failures ([SpoolError::Db])
    abort a method without effect and are left out. *)

From S2P Require Import Prelude Text Protocol Config.

Inductive SpoolError :=
| Sealed (call_id : string)
| MissingKey
| WrongKey.

Record SegmentRow := {
  sg_call_id : string;
  sg_channel : Channel;
  sg_seq : Z;           (* u32 *)
  sg_timestamp_ms : Z;  (* u64 *)
  sg_flags : MediaFlags;
  sg_payload : list u8;
  sg_created_ms : Z;    (* u64 *)
}.

Definition to_record (s : SegmentRow) (call_id_bin : list u8) : MediaRecord :=
  {| mr_channel := sg_channel s; mr_flags := sg_flags s; mr_seq := sg_seq s;
     mr_timestamp_ms := sg_timestamp_ms s; mr_call_id := call_id_bin;
     mr_payload := sg_payload s |}.

Record SpoolStats := {
  st_segments : Z;
  st_bytes : Z;
  st_oldest_created_ms : option Z;
}.

(** A row of [segments]; its primary key is (call_id, channel, seq). *)
Abbreviation seg_key := (string * Z * Z)%type.
Record Row := {
  row_timestamp_ms : Z;  (* i64 *)
  row_flags : u8;
  row_payload : list u8;
  row_created_ms : Z;    (* i64 *)
}.

(** A row of [calls]. *)
Record CallRow := {
  cr_start_json : string;
  cr_end_json : option string;
  cr_sealed : bool;
  cr_created_ms : Z;
}.

#[export] Instance rebuild_CallRow : Rebuild CallRow := fun r =>
  {| cr_start_json := cr_start_json r; cr_end_json := cr_end_json r;
     cr_sealed := cr_sealed r; cr_created_ms := cr_created_ms r |}.

Record Spool := {
  segments : gmap seg_key Row;
  calls : gmap string CallRow;
  acks : gmap (string * Z) Z;
  limits : SpoolLimits;
}.

#[export] Instance rebuild_Spool : Rebuild Spool := fun s =>
  {| segments := segments s; calls := calls s; acks := acks s; limits := limits s |}.

(** [from_connection]: the key check of an encrypted build ([sqlcipher]); whether
    the key opens the file is the database's answer. *)
Definition from_connection (sqlcipher : bool) (key_opens : string -> bool) (key : string)
    (db : Spool) (l : SpoolLimits) : result Spool SpoolError :=
  if sqlcipher then
    if str_is_empty key then Err MissingKey
    else if negb (key_opens key) then Err WrongKey
    else Ok (db <| limits := l |>)
  else Ok (db <| limits := l |>).

(** A freshly created database: the schema with empty tables. *)
Definition fresh_db (l : SpoolLimits) : Spool :=
  {| segments := ∅; calls := ∅; acks := ∅; limits := l |}.

(** [DELETE FROM t WHERE P]: the remaining rows and the number deleted. *)
Definition sql_delete {A} (P : seg_key * A -> Prop) `{!forall x, Decision (P x)}
    (m : gmap seg_key A) : gmap seg_key A * Z :=
  (filter (fun x => ~ P x) m, Z.of_nat (size (filter P m))).

(** ** Calls *)

Definition begin_call (s : Spool) (cid start_json : string) (now : Z) : Spool :=
  match calls s !! cid with
  | Some _ => s
  | None =>
      s <| calls := <[cid := {| cr_start_json := start_json; cr_end_json := None;
                                cr_sealed := false; cr_created_ms := as_i64 now |}]> (calls s) |>
  end.

Definition end_call (s : Spool) (cid end_json : string) : Spool :=
  s <| calls := alter (fun r => r <| cr_end_json := Some end_json |>) cid (calls s) |>.

Definition call_start_json (s : Spool) (cid : string) : option string :=
  cr_start_json <$> calls s !! cid.

Definition call_end_json (s : Spool) (cid : string) : option string :=
  calls s !! cid ≫= cr_end_json.

Definition is_sealed (s : Spool) (cid : string) : bool :=
  match calls s !! cid with Some r => cr_sealed r | None => false end.

(** [SELECT min(created_ms) FROM segments WHERE call_id = cid]. *)
Definition min_created (s : Spool) (cid : string) : option Z :=
  map_fold (fun (k : seg_key) r acc =>
    if bool_decide (k.1.1 = cid) then
      Some (match acc with Some a => Z.min a (row_created_ms r) | None => row_created_ms r end)
    else acc) None (segments s).

(** [pending_calls]. SQL leaves the order of ties open; call_id breaks them here. *)
Definition pending_calls (s : Spool) : list string :=
  let joined := filter (fun cid => bool_decide (is_Some (calls s !! cid)) && negb (is_sealed s cid))
                  (elements (set_map (fun k : seg_key => k.1.1) (dom (segments s)) : gset string)) in
  merge_sort (by_key (fun cid => (default 0 (min_created s cid), cid)) (lexp Z.le String.le)) joined.

(** ** Segments *)

Definition chan_z (c : Channel) : Z := b2z (Channel_as_u8 c).

Definition key_of (g : SegmentRow) : seg_key := (sg_call_id g, chan_z (sg_channel g), sg_seq g).
Definition row_of (g : SegmentRow) : Row :=
  {| row_timestamp_ms := as_i64 (sg_timestamp_ms g); row_flags := flags_to_bits (sg_flags g);
     row_payload := sg_payload g; row_created_ms := as_i64 (sg_created_ms g) |}.

(** [map_row]. *)
Definition map_row (kr : seg_key * Row) : SegmentRow :=
  let '((cid, ch, sq), r) := kr in
  {| sg_call_id := cid;
     sg_channel := match Channel_from_u8 (z2b ch) with Ok c => c | Err _ => Far end;
     sg_seq := sq;
     sg_timestamp_ms := wrap64 (row_timestamp_ms r);
     sg_flags := match flags_from_bits (row_flags r) with
                 | Ok f => f
                 | Err _ => {| foreign := false; silence_inserted := false |}
                 end;
     sg_payload := row_payload r;
     sg_created_ms := wrap64 (row_created_ms r) |}.

Definition spool_bytes (m : gmap seg_key Row) : Z :=
  map_fold (fun _ r acc => len (row_payload r) + acc) 0 m.

Definition stats (s : Spool) : SpoolStats :=
  {| st_segments := Z.of_nat (size (segments s));
     st_bytes := spool_bytes (segments s);
     st_oldest_created_ms :=
       wrap64 <$> map_fold (fun _ r acc =>
         Some (match acc with Some a => Z.min a (row_created_ms r) | None => row_created_ms r end))
         None (segments s) |}.

(** [ORDER BY created_ms, call_id, channel, seq]. *)
Definition evict_key (kr : seg_key * Row) : Z * (string * (Z * Z)) :=
  (row_created_ms kr.2, (kr.1.1.1, (kr.1.1.2, kr.1.2))).
Definition evict_le : relation (seg_key * Row) :=
  by_key evict_key (lexp Z.le (lexp String.le (lexp Z.le Z.le))).

(** The oldest [n] keys. *)
Definition oldest (n : nat) (m : gmap seg_key Row) : list seg_key :=
  (take n (merge_sort evict_le (map_to_list m))).*1.

Definition evict_batch (over : Z) : Z := clamp (over / 3000) 1 1000.

(** The size-cap [loop] of [enforce_limits]. *)
Fixpoint evict_loop (fuel : nat) (max : Z) (m : gmap seg_key Row) (evicted : Z)
    : gmap seg_key Row * Z :=
  if spool_bytes m <=? max then (m, evicted)
  else match fuel with
  | O => (m, evicted)
  | S fuel' =>
      let batch := evict_batch (spool_bytes m - max) in
      let doomed := oldest (Z.to_nat batch) m in
      let '(m', n) := sql_delete (fun kr => kr.1 ∈ doomed) m in
      if n =? 0 then (m', evicted) else evict_loop fuel' max m' (evicted + n)
  end.

Definition enforce_limits (s : Spool) (now : Z) : Spool * option ClientEvent :=
  let cutoff := sat_sub now (max_age_ms (limits s)) in
  let '(m, aged) := sql_delete (fun kr => row_created_ms kr.2 < as_i64 cutoff) (segments s) in
  let '(m, evicted) := evict_loop (size m) (max_bytes (limits s)) m aged in
  let s := s <| segments := m |> in
  if evicted =? 0 then (s, None)
  else (s, Some (with_detail (with_count (ClientEvent_new SpoolEviction now) evicted)
                   "spool cap reached")).

Definition push (s : Spool) (g : SegmentRow) : result (Spool * option ClientEvent) SpoolError :=
  if is_sealed s (sg_call_id g) then Err (Sealed (sg_call_id g))
  else
    let m := match segments s !! key_of g with
             | Some _ => segments s
             | None => <[key_of g := row_of g]> (segments s)
             end in
    Ok (enforce_limits (s <| segments := m |>) (sg_created_ms g)).

(** Rows of one call above its ack watermarks, [ORDER BY channel, seq LIMIT n]. *)
Definition unacked (s : Spool) (cid : string) (kr : seg_key * Row) : Prop :=
  kr.1.1.1 = cid /\ default (-1) (acks s !! (cid, kr.1.1.2)) < kr.1.2.
#[export] Instance unacked_dec s cid kr : Decision (unacked s cid kr).
Proof. unfold unacked. apply _. Defined.

Definition chan_seq_le : relation (seg_key * Row) :=
  by_key (fun kr => (kr.1.1.2, kr.1.2)) (lexp Z.le Z.le).

Definition take_pending (s : Spool) (cid : string) (limit : nat) : list SegmentRow :=
  map_row <$> take limit (merge_sort chan_seq_le
                (map_to_list (filter (unacked s cid) (segments s)))).

(** [ack]: the upsert keeps the larger watermark; rows at or below it go. *)
Definition ack (s : Spool) (cid : string) (ch : Channel) (through_seq : Z) : Spool * Z :=
  let c := chan_z ch in
  let effective := match acks s !! (cid, c) with
                   | Some old => Z.max old through_seq
                   | None => through_seq
                   end in
  let '(m, deleted) :=
    sql_delete (fun kr => kr.1.1 = (cid, c) /\ kr.1.2 <= effective) (segments s) in
  (s <| acks := <[(cid, c) := effective]> (acks s) |> <| segments := m |>, deleted).

Definition chan_of_z (z : Z) : Channel :=
  match Channel_from_u8 (z2b z) with Ok c => c | Err _ => Far end.

Definition acked_through (s : Spool) (cid : string) : gmap Channel Z :=
  map_fold (fun (k : string * Z) v acc =>
    if bool_decide (k.1 = cid) then <[chan_of_z k.2 := v]> acc else acc) ∅ (acks s).

Definition seal (s : Spool) (cid reason : string) (now : Z) : Spool * ClientEvent :=
  let '(m, lost) := sql_delete (fun kr => kr.1.1.1 = cid) (segments s) in
  (s <| segments := m |>
     <| calls := alter (fun r => r <| cr_sealed := true |>) cid (calls s) |>,
   with_detail (with_count (ClientEvent_new SpoolEviction now) lost)
     ("call rejected: " +:+ reason)).

Definition vacuum_finished_calls (s : Spool) : Spool * Z :=
  let doomed (x : string * CallRow) :=
    is_Some (cr_end_json x.2) /\ x.1 ∉ (set_map (fun k : seg_key => k.1.1) (dom (segments s)) : gset string) in
  (s <| calls := filter (fun x => ~ doomed x) (calls s) |>,
   Z.of_nat (size (filter doomed (calls s)))).
