(* ===== verification/SpoolProps.v ===== *)
(** What the spool promises: caps honoured on every write by oldest-first
    eviction, no segment lost without an ack or a report, acks that never move
    backwards, and an upload order that is exactly the unacked rows. *)

From S2P Require Import Prelude Text Protocol Config Spool.

(** ** Deletion *)

Lemma sql_delete_size {A} (P : seg_key * A -> Prop) `{!forall x, Decision (P x)} m :
  Z.of_nat (size (sql_delete P m).1) + (sql_delete P m).2 = Z.of_nat (size m).
Proof.
  unfold sql_delete. simpl.
  rewrite <- (map_filter_union_complement P m) at 3.
  rewrite map_size_disj_union by apply map_disjoint_filter_complement. lia.
Qed.

Lemma sql_delete_lookup {A} (P : seg_key * A -> Prop) `{!forall x, Decision (P x)} m k r :
  (sql_delete P m).1 !! k = Some r <-> m !! k = Some r /\ ~ P (k, r).
Proof. unfold sql_delete. simpl. by rewrite map_lookup_filter_Some. Qed.

Lemma sql_delete_subseteq {A} (P : seg_key * A -> Prop) `{!forall x, Decision (P x)} m :
  (sql_delete P m).1 ⊆ m.
Proof. apply map_filter_subseteq. Qed.

Lemma sql_delete_count_pos {A} (P : seg_key * A -> Prop) `{!forall x, Decision (P x)} m k r :
  m !! k = Some r -> P (k, r) -> 0 < (sql_delete P m).2.
Proof.
  intros Hk HP. unfold sql_delete. simpl.
  enough (size (filter P m) <> 0%nat) by lia. intros Hz%map_size_empty_inv.
  assert (filter P m !! k = Some r) as Hc by (by apply map_lookup_filter_Some).
  by rewrite Hz in Hc.
Qed.

(** ** Eviction order *)

Lemma elem_of_oldest n m k r :
  m !! k = Some r -> k ∈ oldest n m <->
  (k, r) ∈ take n (merge_sort evict_le (map_to_list m)).
Proof.
  intros Hk. unfold oldest. rewrite list_elem_of_fmap. split.
  - intros ([k' r'] & -> & Hin). simpl in *.
    assert ((k', r') ∈ map_to_list m) as Hm.
    { rewrite <- (merge_sort_Permutation evict_le (map_to_list m)).
      apply elem_of_take in Hin as (? & ? & _). by eapply list_elem_of_lookup_2. }
    apply elem_of_map_to_list in Hm. simplify_eq. done.
  - intros Hin. by exists (k, r).
Qed.

(** Rows among the oldest [n] precede every other row. *)
Lemma oldest_le n m k r k' r' :
  m !! k = Some r -> m !! k' = Some r' -> k ∈ oldest n m -> k' ∉ oldest n m ->
  evict_le (k, r) (k', r').
Proof.
  intros Hk Hk' Hin Hout.
  rewrite (elem_of_oldest n m k r) in Hin by done.
  rewrite (elem_of_oldest n m k' r') in Hout by done.
  set (l := merge_sort evict_le (map_to_list m)) in *.
  assert (Hs : StronglySorted evict_le l) by (apply StronglySorted_merge_sort; apply _).
  assert (Hl : (k', r') ∈ l).
  { unfold l. rewrite merge_sort_Permutation. by apply elem_of_map_to_list. }
  rewrite <- (take_drop n l) in Hl, Hs. apply elem_of_app in Hl as [?|Hd]; [done|].
  by eapply StronglySorted_app_1_elem_of.
Qed.

Lemma oldest_nonempty n m :
  (0 < n)%nat -> m <> ∅ -> exists k r, m !! k = Some r /\ k ∈ oldest n m.
Proof.
  intros Hn Hm.
  destruct (merge_sort evict_le (map_to_list m)) as [|[k r] l] eqn:E.
  { exfalso. apply Hm. apply map_to_list_empty_iff.
    apply Permutation_nil_r. rewrite <- E. symmetry. apply merge_sort_Permutation. }
  exists k, r. assert (m !! k = Some r) as Hk.
  { apply elem_of_map_to_list. rewrite <- (merge_sort_Permutation evict_le (map_to_list m)), E.
    by left. }
  split; [done|]. apply (elem_of_oldest n m k r Hk). rewrite E.
  destruct n; [lia|]. by left.
Qed.

Lemma spool_bytes_empty : spool_bytes ∅ = 0.
Proof. done. Qed.

Lemma evict_batch_pos over : 1 <= evict_batch over <= 1000.
Proof. unfold evict_batch. ints. lia. Qed.

(** The size-cap loop, with fuel for the rows it may delete: it ends within the
    cap, deletes oldest-first, and counts what it deletes. *)
Lemma evict_loop_spec f max m e m' e' :
  evict_loop f max m e = (m', e') -> (size m <= f)%nat -> 0 <= max ->
  spool_bytes m' <= max /\ m' ⊆ m /\ e' + Z.of_nat (size m') = e + Z.of_nat (size m) /\
  (forall k r k' r', m !! k = Some r -> m' !! k = None -> m' !! k' = Some r' ->
     evict_le (k, r) (k', r')).
Proof.
  revert m e. induction f as [|f IH]; intros m e H Hf Hmax; cbn [evict_loop] in H.
  - assert (m = ∅) as -> by (apply map_size_empty_inv; lia).
    rewrite spool_bytes_empty in H. case_match; simplify_eq; rewrite ?spool_bytes_empty;
      split_and!; try done; lia.
  - destruct (Z.leb_spec (spool_bytes m) max) as [Hle|Hgt].
    { simplify_eq. split_and!; try done; congruence. }
    set (P := fun kr : seg_key * Row => kr.1 ∈ oldest (Z.to_nat (evict_batch (spool_bytes m - max))) m) in *.
    pose proof (sql_delete_size P m) as Hsz. pose proof (sql_delete_subseteq P m) as Hsub.
    pose proof (sql_delete_lookup P m) as Hlk.
    destruct (sql_delete P m) as [m1 n] eqn:Hd. simpl in *.
    assert (Hn : 0 < n).
    { pose proof (evict_batch_pos (spool_bytes m - max)).
      destruct (oldest_nonempty (Z.to_nat (evict_batch (spool_bytes m - max))) m)
        as (k & r & Hk & Hin); [lia|intros Hm; rewrite Hm, spool_bytes_empty in Hgt; lia|].
      pose proof (sql_delete_count_pos P m k r Hk Hin). by rewrite Hd in *. }
    destruct (Z.eqb_spec n 0); [lia|].
    apply IH in H as (Hb & Hs & He & Ho); [|lia|done].
    split_and!; [done|by etrans|lia|].
    intros k r k' r' Hk Hnone Hk'.
    destruct (m1 !! k) as [r1|] eqn:Hk1.
    + assert (r1 = r) as -> by (apply Hlk in Hk1 as [? _]; congruence). eauto.
    + assert (Hk1' : m1 !! k' = Some r') by (by eapply lookup_weaken).
      apply Hlk in Hk1' as [Hk1' Hnin].
      eapply oldest_le; [done|done| |exact Hnin].
      apply dec_stable. intros HnP. rewrite eq_None_not_Some in Hk1. apply Hk1.
      exists r. by apply Hlk.
Qed.

(** The number of rows an operation's event admits to having lost. *)
Definition reported (ev : option ClientEvent) : Z :=
  match ev with Some e => default 0 (ev_count e) | None => 0 end.

Lemma evict_le_of_created k r k' r' :
  row_created_ms r < row_created_ms r' -> evict_le (k, r) (k', r').
Proof. intros H. unfold evict_le, by_key, lexp, evict_key. simpl. split; lia. Qed.

Record eviction (now : Z) (s s' : Spool) (ev : option ClientEvent) : Prop := {
  evi_tables : calls s' = calls s /\ acks s' = acks s /\ limits s' = limits s;
  evi_subset : segments s' ⊆ segments s;
  evi_bytes : spool_bytes (segments s') <= max_bytes (limits s);
  evi_age : forall k r, segments s' !! k = Some r ->
    as_i64 (sat_sub now (max_age_ms (limits s))) <= row_created_ms r;
  evi_order : forall k r k' r', segments s !! k = Some r -> segments s' !! k = None ->
    segments s' !! k' = Some r' -> evict_le (k, r) (k', r');
  evi_count : Z.of_nat (size (segments s')) + reported ev = Z.of_nat (size (segments s));
  evi_event : ev = None \/
    exists n, 0 < n /\ ev = Some (with_detail (with_count (ClientEvent_new SpoolEviction now) n)
                                    "spool cap reached");
}.

Lemma enforce_limits_eviction s now s' ev :
  enforce_limits s now = (s', ev) -> 0 <= max_bytes (limits s) -> eviction now s s' ev.
Proof.
  unfold enforce_limits. intros H Hmax.
  set (P := fun kr : seg_key * Row =>
    row_created_ms kr.2 < as_i64 (sat_sub now (max_age_ms (limits s)))) in *.
  pose proof (sql_delete_size P (segments s)) as Hsz.
  pose proof (sql_delete_subseteq P (segments s)) as Hsub.
  pose proof (sql_delete_lookup P (segments s)) as Hlk.
  assert (Hn : 0 <= (sql_delete P (segments s)).2) by (unfold sql_delete; simpl; lia).
  destruct (sql_delete P (segments s)) as [m aged] eqn:Hd. simpl in *.
  destruct (evict_loop (size m) (max_bytes (limits s)) m aged) as [m' evicted] eqn:Hl.
  pose proof (evict_loop_spec _ _ _ _ _ _ Hl (le_n _) Hmax) as (Hb & Hsub' & Hc & Ho).
  pose proof (map_subseteq_size m' m Hsub').
  assert (Hs' : s' = s <| segments := m' |>) by (case_match; by simplify_eq).
  assert (Hev : reported ev = evicted).
  { destruct (Z.eqb_spec evicted 0); by simplify_eq. }
  subst s'. split; simpl; try done.
  - by etrans.
  - intros k r Hk. apply (lookup_weaken _ m) in Hk; [|done]. apply Hlk in Hk as [_ HP].
    unfold P in HP. simpl in HP. lia.
  - intros k r k' r' Hk Hnone Hk'. destruct (m !! k) as [r1|] eqn:Hm.
    + assert (r1 = r) as -> by (apply Hlk in Hm as [? _]; congruence). eauto.
    + apply (lookup_weaken _ m) in Hk'; [|done]. apply Hlk in Hk' as [_ HP'].
      apply evict_le_of_created. unfold P in *. simpl in HP'.
      destruct (decide (row_created_ms r < as_i64 (sat_sub now (max_age_ms (limits s)))))
        as [|Hge]; [lia|].
      exfalso. assert (m !! k = Some r) by (by apply Hlk). congruence.
  - rewrite Hev. lia.
  - clear Hev. destruct (Z.eqb_spec evicted 0); simplify_eq; [by left|right].
    exists evicted. split; [lia|done].
Qed.

(** ** Properties *)

Definition inserted (s : Spool) (g : SegmentRow) : Spool :=
  s <| segments := match segments s !! key_of g with
                   | Some _ => segments s
                   | None => <[key_of g := row_of g]> (segments s)
                   end |>.

(** C37: After every accepted write both caps hold exactly: the stored bytes are
    within [max_bytes] and no row is older than [max_age_ms]; what was given up to
    get there is older, in eviction order, than everything kept; and the returned
    event carries exactly the number of rows lost, with no event when none was. *)
Theorem push_honours_caps s g s' ev :
  0 <= max_bytes (limits s) -> push s g = Ok (s', ev) ->
  eviction (sg_created_ms g) (inserted s g) s' ev.
Proof.
  unfold push. intros Hm H. destruct (is_sealed s (sg_call_id g)); [done|].
  injection H as H. by apply enforce_limits_eviction.
Qed.

Definition sample_seg (cid : string) (ch : Channel) (sq created : Z) (n : nat) : SegmentRow :=
  {| sg_call_id := cid; sg_channel := ch; sg_seq := sq; sg_timestamp_ms := 1000 * sq;
     sg_flags := {| foreign := false; silence_inserted := false |};
     sg_payload := repeat Byte.x01 n; sg_created_ms := created |}.

Definition sample_limits : SpoolLimits := {| max_bytes := 10; max_age_ms := 1000 |}.
Definition sample_spool : Spool :=
  match push (begin_call (fresh_db sample_limits) "c" "{}" 5) (sample_seg "c" Far 0 100 6) with
  | Ok (s, _) => s
  | Err _ => fresh_db sample_limits
  end.

Lemma push_honours_caps_witness :
  exists s' ev, push sample_spool (sample_seg "c" Near 0 200 6) = Ok (s', ev) /\
    reported ev = 1 /\ spool_bytes (segments s') <= 10.
Proof.
  destruct (push sample_spool (sample_seg "c" Near 0 200 6)) as [[s' ev]|e] eqn:E;
    [|vm_compute in E; discriminate].
  exists s', ev. split; [reflexivity|].
  destruct (push_honours_caps sample_spool (sample_seg "c" Near 0 200 6) s' ev
              ltac:(vm_compute; discriminate) E) as [_ _ Hb _ _ _ _].
  split; [|exact Hb]. vm_compute in E. injection E as _ <-. reflexivity.
Defined.

(** ** Sequences of operations *)

Inductive Op :=
| OpBegin (cid start_json : string) (now : Z)
| OpEnd (cid end_json : string)
| OpPush (g : SegmentRow)
| OpAck (cid : string) (ch : Channel) (through_seq : Z)
| OpSeal (cid reason : string) (now : Z)
| OpVacuum.

(** One operation: the new state, rows deleted by an ack, and the event. *)
Definition step (s : Spool) (op : Op) : Spool * Z * option ClientEvent :=
  match op with
  | OpBegin cid j now => (begin_call s cid j now, 0, None)
  | OpEnd cid j => (end_call s cid j, 0, None)
  | OpPush g => match push s g with Ok (s', ev) => (s', 0, ev) | Err _ => (s, 0, None) end
  | OpAck cid ch n => let '(s', d) := ack s cid ch n in (s', d, None)
  | OpSeal cid why now => let '(s', ev) := seal s cid why now in (s', 0, Some ev)
  | OpVacuum => ((vacuum_finished_calls s).1, 0, None)
  end.

(** Rows an operation adds: a push that is accepted under a new key. *)
Definition added (s : Spool) (op : Op) : Z :=
  match op with
  | OpPush g => if is_sealed s (sg_call_id g) then 0
                else if bool_decide (segments s !! key_of g = None) then 1 else 0
  | _ => 0
  end.

Record Ledger := { l_added : Z; l_acked : Z; l_reported : Z }.

Fixpoint run_ops (s : Spool) (l : Ledger) (ops : list Op) : Spool * Ledger :=
  match ops with
  | [] => (s, l)
  | op :: ops' =>
      let '(s', d, ev) := step s op in
      run_ops s' {| l_added := l_added l + added s op; l_acked := l_acked l + d;
                    l_reported := l_reported l + reported ev |} ops'
  end.

Definition rows (s : Spool) : Z := Z.of_nat (size (segments s)).

Lemma begin_call_tables s cid j now :
  segments (begin_call s cid j now) = segments s /\ acks (begin_call s cid j now) = acks s /\
  limits (begin_call s cid j now) = limits s.
Proof. unfold begin_call. by case_match. Qed.

Lemma size_inserted s g :
  rows (inserted s g) = rows s + (if bool_decide (segments s !! key_of g = None) then 1 else 0).
Proof.
  unfold rows, inserted. simpl. destruct (segments s !! key_of g) eqn:E.
  - rewrite bool_decide_eq_false_2 by done. lia.
  - rewrite bool_decide_eq_true_2 by done. rewrite map_size_insert_None by done. lia.
Qed.

Lemma step_balance s op s' d ev :
  0 <= max_bytes (limits s) -> step s op = (s', d, ev) ->
  limits s' = limits s /\ rows s' + d + reported ev = rows s + added s op.
Proof.
  intros Hm H. destruct op as [cid j now|cid j|g|cid ch n|cid why now|]; cbn [step added] in *.
  - destruct (begin_call_tables s cid j now) as (E1 & _ & E3). simplify_eq. unfold rows.
    rewrite E1. simpl. split; [done|lia].
  - simplify_eq. unfold rows. simpl. split; [done|lia].
  - destruct (push s g) as [[s1 ev1]|] eqn:Hp; simplify_eq.
    + assert (is_sealed s (sg_call_id g) = false) as ->.
      { unfold push in Hp. by destruct (is_sealed s (sg_call_id g)). }
      unfold push in Hp. destruct (is_sealed s (sg_call_id g)); [done|].
      injection Hp as Hp. apply enforce_limits_eviction in Hp as [Ht _ _ _ _ Hc _]; [|done].
      cbv iota. rewrite <- size_inserted. unfold rows, inserted. split; [apply Ht|].
      etrans; [|exact Hc]. lia.
    + unfold push in Hp. destruct (is_sealed _ (sg_call_id g)); [|done]. split; [done|simpl; lia].
  - unfold ack in H.
    set (P := fun kr : seg_key * Row => kr.1.1 = (cid, chan_z ch) /\ kr.1.2 <= _) in *.
    pose proof (sql_delete_size P (segments s)). destruct (sql_delete P _) as [m k].
    simplify_eq. unfold rows. simpl in *. split; [done|lia].
  - unfold seal in H. set (P := fun kr : seg_key * Row => kr.1.1.1 = cid) in *.
    pose proof (sql_delete_size P (segments s)). destruct (sql_delete P _) as [m k].
    simplify_eq. unfold rows. simpl in *. split; [done|lia].
  - simplify_eq. unfold rows. simpl. split; [done|lia].
Qed.

(** C9: Nothing leaves the spool unaccounted: over any sequence of operations,
    the segments ever added are exactly those still stored, those deleted by acks,
    and those whose loss an event reported. *)
Theorem spool_conservation lim ops s l :
  0 <= max_bytes lim ->
  run_ops (fresh_db lim) {| l_added := 0; l_acked := 0; l_reported := 0 |} ops = (s, l) ->
  l_added l = rows s + l_acked l + l_reported l.
Proof.
  intros Hm.
  enough (forall s0 l0, 0 <= max_bytes (limits s0) ->
    l_added l0 = rows s0 + l_acked l0 + l_reported l0 ->
    run_ops s0 l0 ops = (s, l) -> l_added l = rows s + l_acked l + l_reported l) as H
    by (apply H; done).
  induction ops as [|op ops IH]; intros s0 l0 Hm0 Hb H; [by simplify_eq/=|].
  cbn [run_ops] in H. destruct (step s0 op) as [[s1 d] ev] eqn:Hs.
  apply step_balance in Hs as [Hlim Hbal]; [|done].
  eapply IH in H; [done|by rewrite Hlim|]. simpl. lia.
Qed.

Definition sample_ops : list Op :=
  [OpBegin "c" "{}" 5; OpPush (sample_seg "c" Far 0 100 4); OpPush (sample_seg "c" Far 1 101 4);
   OpPush (sample_seg "c" Near 0 102 4); OpAck "c" Far 1; OpPush (sample_seg "c" Near 1 103 4);
   OpSeal "c" "denied" 104].

Lemma spool_conservation_witness :
  let '(s, l) := run_ops (fresh_db sample_limits)
                   {| l_added := 0; l_acked := 0; l_reported := 0 |} sample_ops in
  l = {| l_added := 4; l_acked := 1; l_reported := 3 |} /\
  l_added l = rows s + l_acked l + l_reported l.
Proof.
  destruct (run_ops _ _ sample_ops) as [s l] eqn:E. split.
  - vm_compute in E. by injection E as <- <-.
  - apply (spool_conservation sample_limits sample_ops s l); [vm_compute; discriminate|exact E].
Defined.

Lemma sql_delete_gone {A} (P : seg_key * A -> Prop) `{!forall x, Decision (P x)} m k r :
  m !! k = Some r -> (sql_delete P m).1 !! k = None -> P (k, r).
Proof.
  intros Hk Hn. apply dec_stable. intros HP. apply eq_None_not_Some in Hn. apply Hn.
  exists r. by apply sql_delete_lookup.
Qed.

Lemma reported_pos_of_loss now s s' ev k r :
  eviction now s s' ev -> segments s !! k = Some r -> segments s' !! k = None -> 0 < reported ev.
Proof.
  intros [_ Hsub _ _ _ Hc _] Hk Hn.
  assert (segments s' ⊂ segments s) as Hlt%map_subset_size; [|lia].
  split; [done|]. intros Hs. eapply lookup_weaken in Hk; [|done]. congruence.
Qed.



(** ** Acks and the upload order *)

Lemma enforce_limits_tables s now :
  let s' := (enforce_limits s now).1 in
  calls s' = calls s /\ acks s' = acks s /\ limits s' = limits s.
Proof. unfold enforce_limits. repeat case_match; by simplify_eq/=. Qed.

Lemma push_tables s g s' ev :
  push s g = Ok (s', ev) -> calls s' = calls s /\ acks s' = acks s /\ limits s' = limits s.
Proof.
  unfold push. intros H. destruct (is_sealed s (sg_call_id g)); [done|].
  injection H as H. apply (f_equal fst) in H. cbn [fst] in H. subst s'.
  apply (enforce_limits_tables (inserted s g)).
Qed.

(** Ack watermarks never move backwards, whatever arrives: no operation
    lowers or removes one, so a stale ack can neither resurrect nor re-send audio. *)
Theorem acks_monotone s ops s' l l' k n :
  run_ops s l ops = (s', l') -> acks s !! k = Some n ->
  exists n', acks s' !! k = Some n' /\ n <= n'.
Proof.
  revert s l n. induction ops as [|op ops IH]; intros s l n H Hk.
  { simplify_eq/=. exists n. split; [done|lia]. }
  cbn [run_ops] in H. destruct (step s op) as [[s1 d] ev] eqn:Hs.
  enough (exists n1, acks s1 !! k = Some n1 /\ n <= n1) as (n1 & Hk1 & Hle).
  { destruct (IH _ _ _ H Hk1) as (n2 & ? & ?). exists n2. split; [done|lia]. }
  clear IH H. destruct op as [cid j now|cid j|g|cid ch m|cid why now|]; cbn [step] in Hs.
  - destruct (begin_call_tables s cid j now) as (_ & E & _). simplify_eq. rewrite E. eauto with lia.
  - simplify_eq/=. eauto with lia.
  - destruct (push s g) as [[s2 ev2]|] eqn:Hp; simplify_eq; [|eauto with lia].
    apply push_tables in Hp as (_ & -> & _). eauto with lia.
  - unfold ack in Hs. destruct (sql_delete _ _) as [m' c]. simplify_eq. cbn [acks upd].
    destruct (decide (k = (cid, chan_z ch))) as [->|Hne].
    + rewrite Hk, lookup_insert_eq. eexists. split; [done|lia].
    + rewrite lookup_insert_ne by done. eauto with lia.
  - unfold seal in Hs. destruct (sql_delete _ _) as [m' c]. simplify_eq/=. eauto with lia.
  - simplify_eq/=. eauto with lia.
Qed.

Lemma acks_monotone_witness :
  let s := (ack sample_spool "c" Far 5).1 in
  let l := {| l_added := 0; l_acked := 0; l_reported := 0 |} in
  exists n', acks (run_ops s l [OpAck "c" Far 2; OpVacuum]).1 !! ("c", 0) = Some n' /\ 5 <= n'.
Proof.
  intros s l.
  apply (acks_monotone s [OpAck "c" Far 2; OpVacuum]
    (run_ops s l [OpAck "c" Far 2; OpVacuum]).1 l (run_ops s l [OpAck "c" Far 2; OpVacuum]).2).
  - vm_compute. reflexivity.
  - vm_compute. reflexivity.
Defined.

(** What the Rust field types guarantee of a [SegmentRow]. *)
Definition SegmentRow_typed (g : SegmentRow) : Prop :=
  in_u32 (sg_seq g) /\ in_u64 (sg_timestamp_ms g) /\ in_u64 (sg_created_ms g).

(** Every stored row was written by [push]. *)
Definition spool_typed (s : Spool) : Prop :=
  forall k r, segments s !! k = Some r ->
    exists g, SegmentRow_typed g /\ key_of g = k /\ row_of g = r.

Lemma map_row_row_of g : SegmentRow_typed g -> map_row (key_of g, row_of g) = g.
Proof.
  intros (Hs & Ht & Hc). destruct g as [cid ch sq ts fl pl cr]. unfold map_row. simpl in *.
  unfold chan_z. rewrite z2b_b2z, Channel_from_as_u8, flags_from_to_bits.
  rewrite !wrap64_as_i64 by done. done.
Qed.

Lemma key_row_inj g g' :
  SegmentRow_typed g -> SegmentRow_typed g' -> key_of g = key_of g' -> row_of g = row_of g' ->
  g = g'.
Proof. intros H H' E1 E2. by rewrite <- (map_row_row_of g), <- (map_row_row_of g'), E1, E2. Qed.

Lemma spool_typed_subset s s' :
  segments s' ⊆ segments s -> spool_typed s -> spool_typed s'.
Proof. intros Hsub Ht k r Hk. apply Ht. by eapply lookup_weaken. Qed.

Lemma step_typed s op s' d ev :
  0 <= max_bytes (limits s) -> spool_typed s ->
  match op with OpPush g => SegmentRow_typed g | _ => True end ->
  step s op = (s', d, ev) -> spool_typed s'.
Proof.
  intros Hm Ht Hop H. destruct op as [cid j now|cid j|g|cid ch n|cid why now|]; cbn [step] in H.
  - destruct (begin_call_tables s cid j now) as (E & _). simplify_eq.
    eapply spool_typed_subset; [|done]. by rewrite E.
  - simplify_eq. by eapply spool_typed_subset.
  - destruct (push s g) as [[s1 ev1]|] eqn:Hp; simplify_eq; [|done].
    assert (Hi : spool_typed (inserted s g)).
    { intros k r. unfold inserted. simpl. destruct (segments s !! key_of g); [apply Ht|].
      rewrite lookup_insert_Some. intros [[<- <-]|[_ Hk]]; [by exists g|by apply Ht]. }
    unfold push in Hp. destruct (is_sealed s (sg_call_id g)); [done|]. injection Hp as Hp.
    eapply spool_typed_subset; [|exact Hi].
    apply (enforce_limits_eviction (inserted s g)) in Hp as [_ ? _ _ _ _ _]; done.
  - unfold ack in H. destruct (sql_delete _ _) as [m c] eqn:Hd. simplify_eq.
    eapply spool_typed_subset; [|done]. simpl. apply (f_equal fst) in Hd. simpl in Hd. subst m.
    apply map_filter_subseteq.
  - unfold seal in H. destruct (sql_delete _ _) as [m c] eqn:Hd. simplify_eq.
    eapply spool_typed_subset; [|done]. simpl. apply (f_equal fst) in Hd. simpl in Hd. subst m.
    apply map_filter_subseteq.
  - simplify_eq. by eapply spool_typed_subset.
Qed.

Lemma run_ops_typed s l ops :
  0 <= max_bytes (limits s) -> spool_typed s ->
  Forall (fun op => match op with OpPush g => SegmentRow_typed g | _ => True end) ops ->
  spool_typed (run_ops s l ops).1.
Proof.
  intros Hm Ht Hall. revert s l Hm Ht.
  induction Hall as [|op ops Hop _ IH]; intros s l Hm Ht; [done|]. cbn [run_ops].
  destruct (step s op) as [[s1 d] ev] eqn:Hs. apply IH.
  - by apply step_balance in Hs as [-> _].
  - by eapply step_typed in Hs.
Qed.

Lemma fresh_typed l : spool_typed (fresh_db l).
Proof. intros k r. simpl. by rewrite lookup_empty. Qed.

(** The upload order on segments of one call. *)
Definition seg_le : relation SegmentRow :=
  by_key (fun g => (chan_z (sg_channel g), sg_seq g)) (lexp Z.le Z.le).

(** Stored, of call [cid], and above its channel's watermark. *)
Definition awaiting (s : Spool) (cid : string) (g : SegmentRow) : Prop :=
  SegmentRow_typed g /\ sg_call_id g = cid /\ segments s !! key_of g = Some (row_of g) /\
  default (-1) (acks s !! (cid, chan_z (sg_channel g))) < sg_seq g.

Definition pending_rows (s : Spool) (cid : string) : list (seg_key * Row) :=
  merge_sort chan_seq_le (map_to_list (filter (unacked s cid) (segments s))).

Lemma elem_of_pending_rows s cid kr :
  kr ∈ pending_rows s cid <-> segments s !! kr.1 = Some kr.2 /\ unacked s cid kr.
Proof.
  unfold pending_rows. rewrite merge_sort_Permutation. destruct kr as [k r].
  rewrite elem_of_map_to_list, map_lookup_filter_Some. done.
Qed.

Lemma awaiting_iff_pending s cid g :
  SegmentRow_typed g ->
  awaiting s cid g <-> (key_of g, row_of g) ∈ pending_rows s cid.
Proof.
  intros Ht. rewrite elem_of_pending_rows. unfold awaiting, unacked. simpl. naive_solver.
Qed.

Lemma pending_rows_typed s cid kr :
  spool_typed s -> kr ∈ pending_rows s cid ->
  exists g, kr = (key_of g, row_of g) /\ map_row kr = g /\ awaiting s cid g.
Proof.
  intros Hs Hin. pose proof Hin as Hin'. apply elem_of_pending_rows in Hin as [Hk _].
  destruct (Hs _ _ Hk) as (g & Ht & E1 & E2). exists g. destruct kr as [k r]. simpl in *. subst.
  split_and!; [done|by apply map_row_row_of|]. by apply awaiting_iff_pending.
Qed.

Lemma StronglySorted_fmap_inv {A B} (f : A -> B) (R : relation B) l :
  StronglySorted R (f <$> l) -> StronglySorted (by_key f R) l.
Proof.
  induction l as [|x l IH]; [constructor|]. rewrite fmap_cons.
  intros [Hs Hf]%StronglySorted_inv. constructor; [by apply IH|].
  rewrite Forall_fmap in Hf. exact Hf.
Qed.

(** The sorted list of everything awaiting upload on a call. *)
Lemma pending_rows_segments s cid :
  spool_typed s -> exists gs,
    (forall n, take_pending s cid n = take n gs) /\ NoDup gs /\ StronglySorted seg_le gs /\
    (forall g, g ∈ gs <-> awaiting s cid g).
Proof.
  intros Hs. set (l := pending_rows s cid). exists (map_row <$> l).
  assert (Hl : l = (fun g => (key_of g, row_of g)) <$> (map_row <$> l)).
  { rewrite <- list_fmap_compose. rewrite <- (list_fmap_id l) at 1.
    apply list_fmap_ext. intros i kr Hi%list_elem_of_lookup_2.
    destruct (pending_rows_typed s cid kr Hs Hi) as (g & -> & E & _). unfold compose. by rewrite E. }
  assert (Hin : forall g, g ∈ map_row <$> l <-> awaiting s cid g).
  { intros g. rewrite list_elem_of_fmap. split.
    - intros (kr & -> & Hkr). destruct (pending_rows_typed s cid kr Hs Hkr) as (g' & _ & -> & H).
      done.
    - intros Ha. pose proof Ha as [Ht _]. exists (key_of g, row_of g).
      split; [by rewrite map_row_row_of|]. by apply awaiting_iff_pending. }
  split_and!; [| | |done].
  - intros n. unfold take_pending. by rewrite fmap_take.
  - apply (NoDup_fmap_1 (fun g => (key_of g, row_of g))). rewrite <- Hl.
    unfold l, pending_rows. rewrite merge_sort_Permutation. apply NoDup_map_to_list.
  - assert (StronglySorted chan_seq_le l) as Hsort
      by (apply StronglySorted_merge_sort; apply _).
    rewrite Hl in Hsort. by apply StronglySorted_fmap_inv in Hsort.
Qed.

(** [take_pending] returns, as they were pushed, the first [n] of the
    segments that await upload on a call, in (channel, seq) order: each returned
    segment is stored, of that call and above its ack watermark; none is returned
    twice; and an awaiting segment is left out only when [n] earlier ones were
    returned. *)
Theorem take_pending_first_unacked s cid n :
  spool_typed s ->
  NoDup (take_pending s cid n) /\ StronglySorted seg_le (take_pending s cid n) /\
  (forall g, g ∈ take_pending s cid n -> awaiting s cid g) /\
  (forall g, awaiting s cid g -> g ∈ take_pending s cid n \/
     (length (take_pending s cid n) = n /\
      forall g', g' ∈ take_pending s cid n -> seg_le g' g)).
Proof.
  intros Hs. destruct (pending_rows_segments s cid Hs) as (gs & Ht & Hnd & Hsort & Hin).
  rewrite Ht. rewrite <- (take_drop n gs) in Hnd, Hsort. split_and!.
  - by apply NoDup_app in Hnd as [? _].
  - by apply StronglySorted_app_1_l in Hsort.
  - intros g Hg. apply Hin. rewrite <- (take_drop n gs). apply elem_of_app. by left.
  - intros g Hg. apply Hin in Hg. rewrite <- (take_drop n gs) in Hg.
    apply elem_of_app in Hg as [Hg|Hg]; [by left|right]. split.
    + apply length_take_le. apply list_elem_of_lookup in Hg as [i Hi].
      apply lookup_lt_Some in Hi. rewrite length_drop in Hi. lia.
    + intros g' Hg'. by eapply StronglySorted_app_1_elem_of.
Qed.

Lemma take_pending_witness :
  let s := (run_ops (fresh_db SpoolLimits_default)
              {| l_added := 0; l_acked := 0; l_reported := 0 |} (take 6 sample_ops)).1 in
  sg_seq <$> take_pending s "c" 40 = [0; 1] /\ NoDup (take_pending s "c" 40).
Proof.
  intros s. split; [vm_compute; reflexivity|].
  apply (take_pending_first_unacked s "c" 40).
  apply run_ops_typed; [vm_compute; discriminate|apply fresh_typed|].
  repeat constructor; vm_compute; discriminate.
Defined.
