(* ===== verification/Uplink.v ===== *)
(** The uplink (sentinel-agent/src/uplink/mod.rs, resume.rs, transport.rs): the
    spool drained over one WebSocket at a time.

    The WebSocket and its connector are the traits [Transport] and
    [TransportFactory]; serde_json and ULID parsing are parameters too. Every
    function that can lose the connection threads the uplink state and the pass's
    [PumpOutcome] and returns a [result], as the [?] operator does. *)

From S2P Require Import Prelude Text Protocol Config Spool Backoff.

(** ** resume.rs *)

Record ResumePoint := { from_seq_map : gmap Channel Z }.

Definition from_seq (p : ResumePoint) (ch : Channel) : Z := default 0 (from_seq_map p !! ch).

Definition plan_channel (local_acked : gmap Channel Z) (server_acked : gmap string Z)
    (ch : Channel) : Z :=
  let acked :=
    match local_acked !! ch, server_acked !! fmt_u (chan_z ch) with
    | Some l, Some s => Some (Z.max l s)
    | Some l, None => Some l
    | None, Some s => Some s
    | None, None => None
    end in
  match acked with Some a => sat_add u32_max a 1 | None => 0 end.

Definition plan (local_acked : gmap Channel Z) (server_acked : gmap string Z) : ResumePoint :=
  {| from_seq_map := <[Near := plan_channel local_acked server_acked Near]>
       (<[Far := plan_channel local_acked server_acked Far]> ∅) |}.

Definition should_send (p : ResumePoint) (ch : Channel) (sq : Z) : bool := from_seq p ch <=? sq.

(** ** transport.rs *)

Definition CLOSE_TOKEN_INVALID : Z := 4401.
Definition CLOSE_FORBIDDEN : Z := 4403.
Definition CLOSE_IDLE : Z := 4408.
Definition CLOSE_TOO_MANY : Z := 4429.

Inductive Incoming :=
| InText (s : string)
| InBinary (b : list u8)
| InClosed (code : option Z).

Inductive TransportError :=
| TeConnect (why : string)
| TeClosed (code : option Z)
| TeIo (why : string).

(** [trait Transport] and [trait TransportFactory]. *)
Class Transport (T : Type) := {
  send_text : T -> string -> T * result unit TransportError;
  send_binary : T -> list u8 -> T * result unit TransportError;
  recv : T -> Z -> T * result (option Incoming) TransportError;
  close : T -> T * result unit TransportError;
}.
Class TransportFactory (F T : Type) := connect : F -> F * result T TransportError.

Definition validate_url (url : string) : result unit TransportError :=
  if starts_with "wss://" url then Ok tt
  else match strip_prefix "ws://" url with
  | Some rest =>
      let host := default "" (head (split_on (fun a => bool_decide (a = "/"%char) || bool_decide (a = ":"%char)) rest)) in
      if bool_decide (host = "127.0.0.1") || bool_decide (host = "localhost")
         || bool_decide (host = "[::1]")
      then Ok tt
      else Err (TeConnect ("refusing an unencrypted uplink to " +:+ host +:+
        ": audio and the bearer token would cross the network in the clear"))
  | None => Err (TeConnect ("unsupported uplink scheme in " +:+ url))
  end.

(** [url.split_once("://")]: the first occurrence of a substring. *)
Fixpoint split_once_str (pat : list ascii) (l : list ascii) : option (list ascii * list ascii) :=
  if bool_decide (take (length pat) l = pat) then Some ([], drop (length pat) l)
  else match l with
  | [] => None
  | a :: l' => match split_once_str pat l' with
               | Some (x, y) => Some (a :: x, y)
               | None => None
               end
  end.

Definition host_port (url : string) : result string TransportError :=
  match split_once_str (chars "://") (chars url) with
  | None => Err (TeConnect ("malformed url " +:+ url))
  | Some (scheme, rest) =>
      let authority := default "" (head (split "/" (str rest))) in
      if str_is_empty authority then Err (TeConnect ("no host in " +:+ url))
      else if bool_decide (":"%char ∈ chars authority) then Ok authority
      else if bool_decide (str scheme = "wss") then Ok (authority +:+ ":443")
      else Ok (authority +:+ ":80")
  end.

(** ** uplink/mod.rs *)

Definition RESUME_TIMEOUT_MS : Z := 5000.
Definition RECV_SLICE : Z := 50.
Definition SEGMENTS_PER_PASS : nat := SEGMENTS_PER_MESSAGE * 4.

Record PumpOutcome := {
  connected : bool;
  sent : Z;
  acked : Z;
  verified : bool;
  po_device_revoked : bool;
  token_rejected : bool;
  po_policy_version : option Z;
}.

#[export] Instance rebuild_PumpOutcome : Rebuild PumpOutcome := fun o =>
  {| connected := connected o; sent := sent o; acked := acked o; verified := verified o;
     po_device_revoked := po_device_revoked o; token_rejected := token_rejected o;
     po_policy_version := po_policy_version o |}.

Definition PumpOutcome_default : PumpOutcome :=
  {| connected := false; sent := 0; acked := 0; verified := false;
     po_device_revoked := false; token_rejected := false; po_policy_version := None |}.

Record Uplink {T F : Type} := {
  spool : Spool;
  factory : F;
  transport : option T;
  u_backoff : Backoff;
  u_next_attempt_ms : Z;
  started_this_connection : gset string;
  ended_this_connection : gset string;
  known_calls : gset string;
  resume_points : gmap string ResumePoint;
  sent_through : gmap (string * Channel) Z;
  sent_at_ms : gmap (string * Channel) Z;
  awaiting_resume : gmap string Z;
  u_events : list ClientEvent;
  policy_version : Z;
  connects : Z;
  recv_slice : Z;
}.
Arguments Uplink : clear implicits.

#[export] Instance rebuild_Uplink {T F} : Rebuild (Uplink T F) := fun u =>
  {| spool := spool u; factory := factory u; transport := transport u;
     u_backoff := u_backoff u; u_next_attempt_ms := u_next_attempt_ms u;
     started_this_connection := started_this_connection u;
     ended_this_connection := ended_this_connection u; known_calls := known_calls u;
     resume_points := resume_points u; sent_through := sent_through u;
     sent_at_ms := sent_at_ms u; awaiting_resume := awaiting_resume u;
     u_events := u_events u; policy_version := policy_version u; connects := connects u;
     recv_slice := recv_slice u |}.

(** A [BTreeSet<String>] in iteration order. *)
Definition btree_iter (s : gset string) : list string := merge_sort String.le (elements s).

Section uplink.
Context {T F : Type} {Tr : Transport T} {Fa : TransportFactory F T} {Js : ControlJson}.
(** [Ulid::from_str] followed by [to_bytes]. *)
Context (ulid_bytes : string -> option (list u8)).

Abbreviation UL := (Uplink T F).
(** State, and the pass's outcome. *)
Abbreviation St := (UL * PumpOutcome)%type.
Abbreviation M A := (St -> St * result A TransportError).

Definition Uplink_new (s : Spool) (f : F) : UL :=
  {| spool := s; factory := f; transport := None; u_backoff := Backoff_uplink;
     u_next_attempt_ms := 0; started_this_connection := ∅; ended_this_connection := ∅;
     known_calls := list_to_set (pending_calls s); resume_points := ∅; sent_through := ∅;
     sent_at_ms := ∅; awaiting_resume := ∅; u_events := []; policy_version := 0;
     connects := 0; recv_slice := RECV_SLICE |}.

Definition is_connected (u : UL) : bool := bool_decide (is_Some (transport u)).

Definition take_events (u : UL) : UL * list ClientEvent :=
  (u <| u_events := [] |>, u_events u).

Definition Uplink_begin_call (u : UL) (cid : string) (start : ControlMessage) (now : Z) : UL :=
  u <| spool := begin_call (spool u) cid (to_json start) now |>
    <| known_calls := known_calls u ∪ {[cid]} |>.

Definition Uplink_end_call (u : UL) (cid : string) (end_ : ControlMessage) : UL :=
  u <| spool := end_call (spool u) cid (to_json end_) |>.

Definition push_segment (u : UL) (g : SegmentRow) : result UL SpoolError :=
  let? (s, ev) := push (spool u) g in
  let u := u <| spool := s |> in
  Ok (match ev with Some e => u <| u_events := u_events u ++ [e] |> | None => u end).

Definition call_id_bytes (cid : string) : list u8 :=
  match ulid_bytes cid with Some b => b | None => repeat Byte.x00 16 end.

Definition resume_point_for (u : UL) (cid : string) : ResumePoint :=
  match resume_points u !! cid with
  | Some p => p
  | None => plan (acked_through (spool u) cid) ∅
  end.

(** [self.transport_mut()?.op(..)?]. *)
Definition with_transport {A} (op : T -> T * result A TransportError) : M A := fun st =>
  let '(u, o) := st in
  match transport u with
  | None => (st, Err (TeIo "no connection"))
  | Some t => let '(t', r) := op t in ((u <| transport := Some t' |>, o), r)
  end.

(** *** send_pending, one call at a time *)

(** The [call.start] step. *)
Definition send_start (cid : string) (now : Z) : M unit := fun st =>
  let '(u, o) := st in
  if bool_decide (cid ∈ started_this_connection u) then (st, Ok tt)
  else match call_start_json (spool u) cid with
  | None => (st, Ok tt)
  | Some json =>
      (let! _ := with_transport (fun t => send_text t json) in
       fun st =>
         let '(u, o) := st in
         let u := u <| started_this_connection := started_this_connection u ∪ {[cid]} |> in
         let is_replay := bool_decide (acked_through (spool u) cid <> ∅)
           || bool_decide (map_Exists (fun k _ => k.1 = cid) (sent_through u)) in
         let u := if is_replay
                  then u <| awaiting_resume :=
                              <[cid := sat_add u64_max now RESUME_TIMEOUT_MS]> (awaiting_resume u) |>
                  else u in
         ((u, o), Ok tt)) st
  end.

(** Whether this row goes out now: past the resume point and not yet sent on
    this connection. *)
Definition wanted (u : UL) (cid : string) (p : ResumePoint) (row : SegmentRow) : bool :=
  should_send p (sg_channel row) (sg_seq row) &&
  negb (match sent_through u !! (cid, sg_channel row) with
        | Some hi => sg_seq row <=? hi
        | None => false
        end).

(** The [for row in pending] loop with its batch buffer. *)
Fixpoint send_rows (cid : string) (p : ResumePoint) (now : Z) (rows : list SegmentRow)
    (batch : list u8) (in_batch : nat) : M unit :=
  match rows with
  | [] =>
      if (0 <? in_batch)%nat then with_transport (fun t => send_binary t batch) else ret tt
  | row :: rows' => fun st =>
      let '(u, o) := st in
      if negb (wanted u cid p row) then send_rows cid p now rows' batch in_batch st
      else match encode_into (to_record row (call_id_bytes cid)) batch with
      | Err _ => send_rows cid p now rows' batch in_batch st
      | Ok batch =>
          let key := (cid, sg_channel row) in
          let u := u <| sent_through := <[key := sg_seq row]> (sent_through u) |>
                     <| sent_at_ms := <[key := now]> (sent_at_ms u) |> in
          let o := o <| sent := sent o + 1 |> in
          let in_batch := S in_batch in
          if bool_decide (in_batch = SEGMENTS_PER_MESSAGE)
          then (let! _ := with_transport (fun t => send_binary t batch) in
                send_rows cid p now rows' [] 0) (u, o)
          else send_rows cid p now rows' batch in_batch (u, o)
      end
  end.

(** The [call.end] step. *)
Definition send_end (cid : string) : M unit := fun st =>
  let '(u, o) := st in
  if bool_decide (cid ∈ ended_this_connection u) then (st, Ok tt)
  else match call_end_json (spool u) cid with
  | None => (st, Ok tt)
  | Some json =>
      (let! _ := with_transport (fun t => send_text t json) in
       fun st => let '(u, o) := st in
         ((u <| ended_this_connection := ended_this_connection u ∪ {[cid]} |>, o), Ok tt)) st
  end.

(** The media of one call, then its [call.end]. *)
Definition send_media (cid : string) (now : Z) : M unit := fun st =>
  let '(u, o) := st in
  let point := resume_point_for u cid in
  let pending := take_pending (spool u) cid SEGMENTS_PER_PASS in
  (let! _ := send_rows cid point now pending [] 0 in send_end cid) st.

Definition send_call (now : Z) (cid : string) : M unit := fun st =>
  let '(u, o) := st in
  if is_sealed (spool u) cid
  then ((u <| known_calls := known_calls u ∖ {[cid]} |>, o), Ok tt)
  else
    (let! _ := send_start cid now in
     fun st =>
       let '(u, o) := st in
       match awaiting_resume u !! cid with
       | Some deadline =>
           if now <? deadline then (st, Ok tt)
           else send_media cid now (u <| awaiting_resume := delete cid (awaiting_resume u) |>, o)
       | None => send_media cid now st
       end) st.

Fixpoint send_calls (now : Z) (cids : list string) : M unit :=
  match cids with
  | [] => ret tt
  | cid :: cids' => let! _ := send_call now cid in send_calls now cids'
  end.

Definition send_pending (now : Z) : M unit := fun st =>
  let '(u, o) := st in
  let u := u <| known_calls := known_calls u ∪ list_to_set (pending_calls (spool u)) |> in
  send_calls now (btree_iter (known_calls u)) (u, o).

(** *** read_incoming *)

Definition handle_control (text : string) (now : Z) (st : St) : St :=
  let '(u, o) := st in
  match from_json text with
  | None => st
  | Some (MsgAck cid channel through_seq) =>
      match Channel_from_u8 (z2b channel) with
      | Err _ => st
      | Ok ch =>
          let '(s, deleted) := ack (spool u) cid ch through_seq in
          (u <| spool := s |> <| u_backoff := Backoff_reset (u_backoff u) |>,
           o <| acked := acked o + deleted |> <| verified := true |>)
      end
  | Some (MsgResume cid server_acked) =>
      let u := u <| awaiting_resume := delete cid (awaiting_resume u) |> in
      let point := plan (acked_through (spool u) cid) server_acked in
      (u <| resume_points := <[cid := point]> (resume_points u) |>, o <| verified := true |>)
  | Some (MsgCallError cid code _ fatal) =>
      if fatal then
        let '(s, ev) := seal (spool u) cid code now in
        (u <| spool := s |> <| u_events := u_events u ++ [ev] |>
           <| known_calls := known_calls u ∖ {[cid]} |>, o)
      else st
  | Some (MsgHeartbeatAck _ pv) =>
      let o := o <| verified := true |> in
      if negb (pv =? policy_version u)
      then (u <| policy_version := pv |>, o <| po_policy_version := Some pv |>)
      else (u, o)
  | Some _ => st
  end.

(** What a close code tells the caller. *)
Definition note_close (code : option Z) (o : PumpOutcome) : PumpOutcome :=
  match code with
  | Some c =>
      if c =? CLOSE_FORBIDDEN then o <| po_device_revoked := true |>
      else if c =? CLOSE_TOKEN_INVALID then o <| token_rejected := true |>
      else o
  | None => o
  end.

(** The receive [loop]; [None] when [fuel] messages were not enough to empty the
    socket. *)
Fixpoint read_incoming (fuel : nat) (now : Z) (st : St) : option (St * result unit TransportError) :=
  match fuel with
  | O => None
  | S fuel' =>
      let '(st, r) := with_transport (fun t => recv t (recv_slice st.1)) st in
      match r with
      | Err e => Some (st, Err e)
      | Ok None => Some (st, Ok tt)
      | Ok (Some (InText text)) => read_incoming fuel' now (handle_control text now st)
      | Ok (Some (InBinary _)) => read_incoming fuel' now st
      | Ok (Some (InClosed code)) =>
          Some ((st.1, note_close code st.2), Err (TeClosed code))
      end
  end.

(** [drop_connection]; the [close] result is ignored. *)
Definition drop_connection (draw : Z -> Z) (now : Z) (u : UL) : UL :=
  let '(b, delay) := next_delay draw (u_backoff u) in
  u <| transport := None |>
    <| u_backoff := b |>
    <| u_next_attempt_ms := sat_add u64_max now delay |>
    <| u_events := u_events u ++
         [with_detail (ClientEvent_new CaptureError now) "uplink_reconnect"] |>.

(** The connect step of [pump]: [Some] when a connection is up. *)
Definition try_connect (draw : Z -> Z) (now : Z) (u : UL) : UL * bool :=
  match transport u with
  | Some _ => (u, true)
  | None =>
      if now <? u_next_attempt_ms u then (u, false)
      else
        let '(f, r) := connect (factory u) in
        let u := u <| factory := f |> in
        match r with
        | Ok t =>
            (u <| connects := connects u + 1 |> <| transport := Some t |>
               <| started_this_connection := ∅ |> <| ended_this_connection := ∅ |>
               <| resume_points := ∅ |> <| sent_through := ∅ |> <| sent_at_ms := ∅ |>
               <| awaiting_resume := ∅ |>, true)
        | Err _ =>
            let '(b, delay) := next_delay draw (u_backoff u) in
            (u <| u_backoff := b |> <| u_next_attempt_ms := sat_add u64_max now delay |>, false)
        end
  end.

Definition pump (fuel : nat) (draw : Z -> Z) (now : Z) (u : UL) : option (UL * PumpOutcome) :=
  let '(u, up) := try_connect draw now u in
  if negb up then Some (u, PumpOutcome_default)
  else
    let o := PumpOutcome_default <| connected := true |> in
    let '((u, o), r) := send_pending now (u, o) in
    match r with
    | Err _ => Some (drop_connection draw now u, o <| connected := false |>)
    | Ok _ =>
        match read_incoming fuel now (u, o) with
        | None => None
        | Some ((u, o), Ok _) => Some (u, o)
        | Some ((u, o), Err _) => Some (drop_connection draw now u, o <| connected := false |>)
        end
    end.

Definition send_socket_heartbeat (u : UL) (sent_at capture_state : string) : UL * bool :=
  let depth := st_segments (stats (spool u)) in
  match transport u with
  | Some t =>
      let '(t', r) := send_text t (to_json (MsgHeartbeat sent_at capture_state depth)) in
      (u <| transport := Some t' |>, is_ok r)
  | None => (u, false)
  end.

(** [flush]: [passes] is the number of passes the deadline leaves time for. *)
Fixpoint flush (fuel passes : nat) (draw : nat -> Z -> Z) (clock : Z) (u : UL)
    : option (UL * Z) :=
  match passes with
  | O => Some (u, st_segments (stats (spool u)))
  | S passes' =>
      if st_segments (stats (spool u)) =? 0 then Some (u, 0)
      else match pump fuel (draw passes') clock u with
      | None => None
      | Some (u, _) => flush fuel passes' draw (sat_add u64_max clock (recv_slice u)) u
      end
  end.
End uplink.
