(* ===== verification/UplinkProps.v ===== *)
(** What the uplink puts on the wire and what it takes off the disk: batches the
    gateway decodes back to the unsent rows, nothing sent twice on a connection,
    deletions only on the server's word, media held for [resume], and reconnects
    paced by the backoff. *)

From S2P Require Import Prelude Text Protocol Config Spool SpoolProps Backoff Uplink.

(** ** A recording transport

    Any transport, with the messages handed to it and read from it written down. *)
Inductive Outgoing := OutText (s : string) | OutBinary (b : list u8).

Record Rec (T : Type) := { inner : T; wire : list Outgoing; heard : list Incoming }.
Arguments inner {T}.
Arguments wire {T}.
Arguments heard {T}.
Arguments Build_Rec {T}.

#[export] Instance Rec_Transport {T} `{!Transport T} : Transport (Rec T) := {|
  send_text r s :=
    let '(t, res) := send_text (inner r) s in
    ({| inner := t; wire := wire r ++ [OutText s]; heard := heard r |}, res);
  send_binary r b :=
    let '(t, res) := send_binary (inner r) b in
    ({| inner := t; wire := wire r ++ [OutBinary b]; heard := heard r |}, res);
  recv r d :=
    let '(t, res) := recv (inner r) d in
    ({| inner := t; wire := wire r;
        heard := heard r ++ match res with Ok (Some m) => [m] | _ => [] end |}, res);
  close r :=
    let '(t, res) := close (inner r) in
    ({| inner := t; wire := wire r; heard := heard r |}, res);
|}.

(** ** resume.rs *)

(** Resuming loses nothing and repeats nothing either side vouches for: on
    each channel a segment is re-sent exactly when neither our ack watermark nor the
    server's covers it, and a channel with no ack at all restarts at sequence 0. *)
Theorem resume_sends_exactly_unvouched local server ch sq :
  (forall c n, local !! c = Some n -> in_u32 n) -> (forall c n, server !! c = Some n -> in_u32 n) ->
  in_u32 sq -> sq < u32_max ->
  should_send (plan local server) ch sq = true <->
  (forall n, local !! ch = Some n -> n < sq) /\
  (forall n, server !! fmt_u (chan_z ch) = Some n -> n < sq).
Proof.
  intros Hl Hs Hq Hm. unfold should_send, from_seq, plan. simpl.
  assert (default 0 (<[Near:=plan_channel local server Near]>
            (<[Far:=plan_channel local server Far]> ∅) !! ch) = plan_channel local server ch) as ->.
  { destruct ch; [rewrite lookup_insert_ne by done|]; by rewrite lookup_insert_eq. }
  rewrite Z.leb_le. unfold plan_channel.
  destruct (local !! ch) as [l|] eqn:El, (server !! fmt_u (chan_z ch)) as [s|] eqn:Es;
    try (specialize (Hl _ _ El)); try (specialize (Hs _ _ Es)); ints; split; intros H;
    try (split; intros n [= <-]; lia); try (destruct H as [H1 H2]);
    try (specialize (H1 _ eq_refl)); try (specialize (H2 _ eq_refl)); try lia.
Qed.

Lemma resume_witness :
  should_send (plan {[Far := 4]} {["0" := 7]}) Far 8 = true /\
  (forall n, ({[Far := 4]} : gmap Channel Z) !! Far = Some n -> n < 8) /\
  (forall n, ({["0" := 7]} : gmap string Z) !! fmt_u (chan_z Far) = Some n -> n < 8).
Proof.
  split; [reflexivity|].
  apply (resume_sends_exactly_unvouched {[Far := 4]} {["0" := 7]} Far 8).
  - intros c n. rewrite lookup_singleton_Some. intros [_ <-]. vm_compute. split; discriminate.
  - intros c n. rewrite lookup_singleton_Some. intros [_ <-]. vm_compute. split; discriminate.
  - vm_compute. split; discriminate.
  - vm_compute. reflexivity.
  - reflexivity.
Defined.

Section wire.
Context {T F : Type} {Tr : Transport T} {Fa : TransportFactory F (Rec T)} {Js : ControlJson}.
Context (ulid_bytes : string -> option (list u8)).
(** A ULID is 16 bytes. *)
Context (ulid_16 : forall s b, ulid_bytes s = Some b -> length b = 16%nat).

Abbreviation UL := (Uplink (Rec T) F).

Lemma call_id_bytes_16 cid : length (call_id_bytes ulid_bytes cid) = 16%nat.
Proof. unfold call_id_bytes. destruct (ulid_bytes cid) eqn:E; [by eapply ulid_16|done]. Qed.

Definition wire_of (u : UL) : list Outgoing :=
  match transport u with Some r => wire r | None => [] end.

Definition fits_u16 (row : SegmentRow) : bool := len (sg_payload row) <=? u16_max.

(** The rows a pass is to send: past the resume point, not yet sent on this
    connection, and encodable. *)
Definition selected (u : UL) (cid : string) (p : ResumePoint) (rows : list SegmentRow)
    : list SegmentRow :=
  List.filter (fun row => wanted u cid p row && fits_u16 row) rows.

Definition record_bytes (cid : string) (row : SegmentRow) : list u8 :=
  let r := to_record row (call_id_bytes ulid_bytes cid) in header r ++ mr_payload r.

(** A message carrying a group of rows. *)
Definition message (cid : string) (g : list SegmentRow) : Outgoing :=
  OutBinary (flat_map (record_bytes cid) g).

Definition group_ok (g : list SegmentRow) : Prop :=
  (1 <= length g <= SEGMENTS_PER_MESSAGE)%nat.

Lemma encode_into_row cid row batch :
  encode_into (to_record row (call_id_bytes ulid_bytes cid)) batch =
    if fits_u16 row then Ok (batch ++ record_bytes cid row)
    else Err (PayloadTooLarge (len (sg_payload row))).
Proof.
  unfold encode_into, fits_u16, record_bytes, header. simpl.
  rewrite Z.ltb_antisym. destruct (len (sg_payload row) <=? u16_max); [|done].
  simpl. by rewrite <- !app_assoc.
Qed.

(** Rows in strictly increasing sequence order per channel. *)
Definition rows_increasing (rows : list SegmentRow) : Prop :=
  StronglySorted (fun a b => sg_channel a = sg_channel b -> sg_seq a < sg_seq b) rows.

(** Marking a row as sent does not change the verdict on later rows. *)
Lemma wanted_after_sent (u : UL) cid p row now rows :
  wanted u cid p row = true ->
  Forall (fun b => sg_channel row = sg_channel b -> sg_seq row < sg_seq b) rows ->
  selected (u <| sent_through := <[(cid, sg_channel row) := sg_seq row]> (sent_through u) |>
              <| sent_at_ms := <[(cid, sg_channel row) := now]> (sent_at_ms u) |>) cid p rows =
  selected u cid p rows.
Proof.
  intros Hw Hall. unfold selected. induction Hall as [|b rows Hb _ IH]; [done|].
  cbn [List.filter]. rewrite IH.
  enough (wanted (u <| sent_through := <[(cid, sg_channel row) := sg_seq row]> (sent_through u) |>
              <| sent_at_ms := <[(cid, sg_channel row) := now]> (sent_at_ms u) |>) cid p b
          = wanted u cid p b) as -> by done.
  unfold wanted in *. simpl. destruct (decide (sg_channel row = sg_channel b)) as [E|E].
  - specialize (Hb E). rewrite <- E, lookup_insert_eq. bool_hyps. f_equal.
    destruct (sent_through u !! (cid, sg_channel row)) as [hi|] eqn:Eh.
    + bool_hyps. f_equal. rewrite (proj2 (Z.leb_gt _ _)) by lia. symmetry. apply Z.leb_gt. lia.
    + rewrite (proj2 (Z.leb_gt _ _)) by lia. done.
  - rewrite lookup_insert_ne by congruence. done.
Qed.

(** The sent marks after sending [rows]. *)
Definition mark (cid : string) (m : gmap (string * Channel) Z) (rows : list SegmentRow)
    : gmap (string * Channel) Z :=
  foldl (fun m row => <[(cid, sg_channel row) := sg_seq row]> m) m rows.

Definition on_wire (u : UL) (msgs : list Outgoing) (u' : UL) : Prop :=
  is_Some (transport u') /\ wire_of u' = wire_of u ++ msgs.

(** What [send_rows] does with a batch already holding [pre]: when it succeeds,
    it has sent [pre] and the selected rows, in order, in groups of at most ten,
    and marked the selected rows as sent. *)
Lemma send_rows_spec cid p now rows pre batch (u : UL) o u' o' :
  rows_increasing rows -> is_Some (transport u) ->
  batch = flat_map (record_bytes cid) pre -> (length pre < SEGMENTS_PER_MESSAGE)%nat ->
  send_rows ulid_bytes cid p now rows batch (length pre) (u, o) = ((u', o'), Ok tt) ->
  exists groups,
    concat groups = pre ++ selected u cid p rows /\ Forall group_ok groups /\
    on_wire u (message cid <$> groups) u' /\
    sent o' = sent o + len (selected u cid p rows) /\
    spool u' = spool u /\ sent_through u' = mark cid (sent_through u) (selected u cid p rows).
Proof.
  intros Hinc. revert pre batch u o. induction Hinc as [|row rows Hinc IH Hall];
    intros pre batch u o [r Ht] -> Hpre Hs; cbn [send_rows] in Hs.
  - unfold selected. simpl. rewrite app_nil_r. destruct pre as [|x pre].
    + simpl in Hs. unfold ret in Hs. simplify_eq. exists []. simpl. rewrite Z.add_0_r.
      split_and!; try done. unfold on_wire. rewrite app_nil_r. split; [by exists r|done].
    + set (g := x :: pre) in *. destruct (Nat.ltb_spec 0 (length g)); [|simpl in *; lia].
      unfold with_transport in Hs. rewrite Ht in Hs. simpl in Hs.
      destruct (send_binary (inner r) _) as [t' res] eqn:Eb. simplify_eq.
      exists [g]. rewrite Z.add_0_r. split_and!; try done.
      * simpl. by rewrite app_nil_r.
      * constructor; [|done]. unfold group_ok. simpl in *. lia.
      * unfold on_wire, wire_of. simpl. rewrite Ht. split; [by eexists|done].
  - unfold selected. cbn [List.filter]. destruct (wanted u cid p row) eqn:Hw; cbn [negb] in Hs.
    2: { eapply (IH pre _ u o); [by exists r|done|done|exact Hs]. }
    rewrite encode_into_row in Hs. destruct (fits_u16 row) eqn:Hfit; simpl andb; cbv iota.
    2: { eapply (IH pre _ u o); [by exists r|done|done|exact Hs]. }
    set (u1 := u <| sent_through := _ |> <| sent_at_ms := _ |>) in Hs.
    assert (Hsel : selected u1 cid p rows = selected u cid p rows)
      by (by apply wanted_after_sent).
    assert (Hbytes : flat_map (record_bytes cid) pre ++ record_bytes cid row
                     = flat_map (record_bytes cid) (pre ++ [row])).
    { rewrite flat_map_app. simpl. by rewrite app_nil_r. }
    rewrite Hbytes in Hs. fold (selected u cid p rows). rewrite <- Hsel.
    case_bool_decide as Hten.
    + assert (Ht1 : transport u1 = Some r) by done.
      unfold bindM, with_transport in Hs. rewrite Ht1 in Hs. simpl in Hs.
      destruct (send_binary (inner r) _) as [t' [[]|e]] eqn:Eb; [|done].
      apply (IH [] []) in Hs as (groups & Hc & Hg & Hw' & Hso & Hsp & Hst); [|by eexists|done|simpl; lia].
      exists ((pre ++ [row]) :: groups). split_and!.
      * simpl. rewrite Hc. by rewrite <- app_assoc.
      * constructor; [|done]. unfold group_ok. rewrite length_app. simpl. lia.
      * destruct Hw' as [? Hw']. split; [done|]. rewrite Hw'. unfold wire_of. simpl. rewrite Ht.
        by rewrite <- app_assoc.
      * transitivity (sent o + 1 + len (selected u1 cid p rows)); [exact Hso|].
        rewrite length_cons. lia.
      * done.
      * rewrite Hst. done.
    + assert (length (pre ++ [row]) = S (length pre)) as Hlen by (rewrite length_app; simpl; lia).
      rewrite <- Hlen in Hs.
      apply IH in Hs as (groups & Hc & Hg & Hw' & Hso & Hsp & Hst);
        [|by exists r|done|unfold SEGMENTS_PER_MESSAGE in *; lia].
      exists groups. split_and!; try done.
      * rewrite Hc. by rewrite <- app_assoc.
      * transitivity (sent o + 1 + len (selected u1 cid p rows)); [exact Hso|].
        rewrite length_cons. lia.
Qed.

Definition record_of (cid : string) (row : SegmentRow) : MediaRecord :=
  to_record row (call_id_bytes ulid_bytes cid).

Lemma record_of_fits cid row :
  SegmentRow_typed row -> fits_u16 row = true -> fits (record_of cid row).
Proof.
  intros (Hs & Ht & _) Hf. unfold fits_u16 in Hf. bool_hyps.
  split; [|done]. split_and!; [done|done|]. apply call_id_bytes_16.
Qed.

Lemma length_message cid g :
  Forall (fun row => SegmentRow_typed row /\ fits_u16 row = true) g ->
  len (flat_map (record_bytes cid) g) <= 65569 * len g.
Proof.
  induction 1 as [|row g [Ht Hf] _ IH]; [done|]. cbn [flat_map]. rewrite length_app, length_cons.
  unfold record_bytes at 1. rewrite length_app.
  destruct (record_of_fits cid row Ht Hf) as [Hty Hlen]. unfold record_of in *.
  rewrite length_header by done. unfold HEADER_LEN. ints. lia.
Qed.

(** The gateway's decoder reads a group of rows back from its message. *)
Lemma message_decodes cid g :
  group_ok g -> Forall (fun row => SegmentRow_typed row /\ fits_u16 row = true) g ->
  decode_all (flat_map (record_bytes cid) g) = Ok (record_of cid <$> g).
Proof.
  intros Hg Hf. pose proof (length_message cid g Hf) as Hl. unfold decode_all.
  unfold group_ok, SEGMENTS_PER_MESSAGE, MAX_MESSAGE_BYTES in *.
  destruct (Z.ltb_spec (1024 * 1024) (len (flat_map (record_bytes cid) g))); [lia|].
  assert (flat_map (record_bytes cid) g
          = flat_map (fun r => header r ++ mr_payload r) (record_of cid <$> g)) as ->.
  { clear. induction g as [|x g IH]; [done|]. cbn [flat_map fmap list_fmap]. by rewrite IH. }
  apply decode_loop_fits. apply Forall_fmap. eapply Forall_impl; [exact Hf|].
  intros row [? ?]. by apply record_of_fits.
Qed.

Lemma seg_le_strict s cid a b :
  awaiting s cid a -> awaiting s cid b -> seg_le a b -> a <> b ->
  sg_channel a = sg_channel b -> sg_seq a < sg_seq b.
Proof.
  intros (Ta & Ca & Sa & _) (Tb & Cb & Sb & _) Hle Hne Hch.
  unfold seg_le, by_key, lexp in Hle. simpl in Hle. rewrite Hch in Hle.
  destruct Hle as [_ Hle]. specialize (Hle (Z.le_refl _)).
  destruct (decide (sg_seq a = sg_seq b)) as [E|]; [|lia].
  exfalso. apply Hne. assert (Hk : key_of a = key_of b).
  { unfold key_of. by rewrite Ca, Cb, Hch, E. }
  apply key_row_inj; [done..|]. rewrite Hk in Sa. congruence.
Qed.

Lemma rows_increasing_of s cid gs :
  Forall (awaiting s cid) gs -> NoDup gs -> StronglySorted seg_le gs -> rows_increasing gs.
Proof.
  intros Ha Hnd Hs. induction Hs as [|a gs Hs IH Hall]; [constructor|].
  apply Forall_cons in Ha as [Ha Hgs]. apply NoDup_cons in Hnd as [Hna Hnd].
  constructor; [by apply IH|]. rewrite Forall_forall in *. intros b Hb.
  apply (seg_le_strict s cid); [done|by apply Hgs|by apply Hall|]. by intros ->.
Qed.

Lemma take_pending_increasing s cid n :
  spool_typed s -> rows_increasing (take_pending s cid n) /\
  Forall SegmentRow_typed (take_pending s cid n).
Proof.
  intros Hs. destruct (pending_rows_segments s cid Hs) as (gs & Ht & Hnd & Hsort & Hin).
  rewrite Ht. assert (Ha : Forall (awaiting s cid) (take n gs)).
  { apply Forall_take, Forall_forall. intros g. apply Hin. }
  split.
  - eapply rows_increasing_of; [exact Ha| |].
    + rewrite <- (take_drop n gs) in Hnd. by apply NoDup_app in Hnd as [? _].
    + rewrite <- (take_drop n gs) in Hsort. by apply StronglySorted_app_1_l in Hsort.
  - eapply Forall_impl; [exact Ha|]. by intros g [? _].
Qed.

(** A row that has to go out: at or past its channel's resume point, past the last one
    sent on this connection, and no longer than a record's 16-bit length can say. *)
Definition due (u : UL) (cid : string) (p : ResumePoint) (row : SegmentRow) : Prop :=
  from_seq p (sg_channel row) <= sg_seq row /\
  sg_seq row > default (-1) (sent_through u !! (cid, sg_channel row)) /\
  len (sg_payload row) <= 65535.

#[export] Instance due_dec u cid p row : Decision (due u cid p row).
Proof. unfold due. solve_decision. Defined.

Lemma selected_due (u : UL) cid p rows :
  Forall (fun r => 0 <= sg_seq r) rows -> selected u cid p rows = filter (due u cid p) rows.
Proof.
  induction 1 as [|row rows Hq _ IH]; [done|]. unfold selected in *. cbn [List.filter].
  enough (wanted u cid p row && fits_u16 row = bool_decide (due u cid p row)) as ->.
  { rewrite IH, filter_cons. by case_bool_decide; case_decide. }
  apply eq_true_iff_eq. rewrite bool_decide_eq_true. unfold wanted, should_send, fits_u16, due, u16_max.
  rewrite !andb_true_iff, negb_true_iff, !Z.leb_le.
  destruct (sent_through u !! _) as [hi|]; cbn; rewrite ?Z.leb_gt; intuition lia.
Qed.

(** C8: One pass over a call puts on the wire exactly the rows it should: when the
    sends succeed, the binary messages added to the connection decode, with the
    gateway's own decoder and within its size limit, to at most ten records each,
    and together to the pending rows that are at or past the resume point, past the last
    one sent on this connection and no longer than 65535 bytes, in (channel, seq) order,
    each once. A longer row is never sent: it stays in the spool. *)
Theorem send_rows_decodes_to_selected cid p now (u : UL) o u' o' n :
  spool_typed (spool u) -> is_Some (transport u) ->
  let rows := take_pending (spool u) cid n in
  send_rows ulid_bytes cid p now rows [] 0 (u, o) = ((u', o'), Ok tt) ->
  exists msgs groups,
    wire_of u' = wire_of u ++ (OutBinary <$> msgs) /\
    Forall2 (fun m g => decode_all m = Ok (record_of cid <$> g) /\ group_ok g) msgs groups /\
    concat groups = filter (due u cid p) rows /\
    sent o' = sent o + len (filter (due u cid p) rows) /\ spool u' = spool u.
Proof.
  intros Hty Ht rows Hs. rewrite <- selected_due.
  2: { eapply Forall_impl; [apply take_pending_increasing, Hty|]. intros g Hg. apply Hg. }
  destruct (take_pending_increasing (spool u) cid n Hty) as [Hinc Hall].
  apply (send_rows_spec cid p now rows []) in Hs as (groups & Hc & Hg & [_ Hw] & Hso & Hsp & _);
    [|done|done|done|unfold SEGMENTS_PER_MESSAGE; simpl; lia].
  simpl in Hc. exists (flat_map (record_bytes cid) <$> groups), groups. split_and!; try done.
  - rewrite Hw. f_equal. by rewrite <- list_fmap_compose.
  - assert (Hsel : Forall (fun row => SegmentRow_typed row /\ fits_u16 row = true) (concat groups)).
    { rewrite Hc. rewrite Forall_forall in *. intros row Hin.
      apply list_elem_of_In, filter_In in Hin as [Hin Hb]. bool_hyps.
      split; [|done]. by apply Hall, list_elem_of_In. }
    clear Hc Hw. apply Forall2_fmap_l, Forall_Forall2_diag.
    revert Hsel. induction Hg as [|g gs Hg _ IH]; intros Hsel; [constructor|].
    simpl in Hsel. apply Forall_app in Hsel as [H1 H2].
    constructor; [|by apply IH]. split; [by apply message_decodes|done].
Qed.

(** ** Sent marks *)

Definition raised (m m' : gmap (string * Channel) Z) : Prop :=
  forall k hi, m !! k = Some hi -> exists hi', m' !! k = Some hi' /\ hi <= hi'.

#[local] Instance raised_preorder : PreOrder raised.
Proof.
  split.
  - intros m k hi H. exists hi. split; [done|lia].
  - intros m1 m2 m3 H1 H2 k hi H. destruct (H1 k hi H) as (h2 & Hk2 & ?).
    destruct (H2 k h2 Hk2) as (h3 & ? & ?). exists h3. split; [done|lia].
Qed.

Lemma raised_insert m k v :
  (forall hi, m !! k = Some hi -> hi <= v) -> raised m (<[k := v]> m).
Proof.
  intros H k' hi Hk'. destruct (decide (k = k')) as [<-|Hne].
  - exists v. rewrite lookup_insert_eq. split; [done|by apply H].
  - exists hi. rewrite lookup_insert_ne by done. split; [done|lia].
Qed.

Lemma with_transport_frame {A} (op : Rec T -> Rec T * result A TransportError) (u : UL) o u' o' r :
  with_transport op (u, o) = ((u', o'), r) ->
  exists t, u' = u <| transport := t |> /\ o' = o /\ (is_Some (transport u) -> is_Some t).
Proof.
  unfold with_transport. destruct (transport u) as [t|] eqn:Ht; [|intros [= <- <- <-]].
  - destruct (op t) as [t' r']. intros [= <- <- <-]. by exists (Some t').
  - exists (transport u). rewrite Ht. split; [|done]. destruct u. simpl in *. by subst.
Qed.

(** What a pass's sending leaves alone, and that it only raises sent marks. *)
Definition send_frame (st st' : UL * PumpOutcome) : Prop :=
  spool st'.1 = spool st.1 /\ raised (sent_through st.1) (sent_through st'.1) /\
  u_backoff st'.1 = u_backoff st.1 /\ connected st'.2 = connected st.2 /\
  (is_Some (transport st.1) -> is_Some (transport st'.1)).

#[local] Instance send_frame_preorder : PreOrder send_frame.
Proof.
  split.
  - intros [u o]. by split_and!.
  - intros [u1 o1] [u2 o2] [u3 o3] (? & ? & ? & ? & ?) (? & ? & ? & ? & ?). simpl in *.
    split_and!; simpl; try congruence; [by etrans|by auto].
Qed.

Ltac frame_done := unfold send_frame; simpl; split_and!; by auto.

Lemma send_rows_frame cid p now rows batch n (u : UL) o st r :
  send_rows ulid_bytes cid p now rows batch n (u, o) = (st, r) -> send_frame (u, o) st.
Proof.
  revert batch n u o. induction rows as [|row rows IH]; intros batch n u o Hs; cbn [send_rows] in Hs.
  - case_match.
    + destruct st as [u' o']. apply with_transport_frame in Hs as (t & -> & -> & ?). frame_done.
    + unfold ret in Hs. by simplify_eq.
  - destruct (wanted u cid p row) eqn:Hw; cbn [negb] in Hs; [|by eapply IH].
    destruct (encode_into _ batch) as [batch'|]; [|by eapply IH].
    set (u1 := u <| sent_through := _ |> <| sent_at_ms := _ |>) in Hs.
    set (o1 := o <| sent := _ |>) in Hs.
    assert (Hf : send_frame (u, o) (u1, o1)).
    { unfold send_frame. split_and!; try done. apply raised_insert. intros hi Hhi.
      unfold wanted in Hw. rewrite Hhi in Hw. bool_hyps. lia. }
    case_bool_decide.
    + unfold bindM in Hs. destruct (with_transport _ _) as [[u2 o2] r2] eqn:Ew.
      apply with_transport_frame in Ew as (t & -> & -> & ?).
      etrans; [exact Hf|]. destruct r2; simplify_eq.
      * etrans; [|by eapply IH]. frame_done.
      * frame_done.
    + etrans; [exact Hf|]. by eapply IH.
Qed.

Lemma send_start_frame cid now (u : UL) o st r :
  send_start cid now (u, o) = (st, r) -> send_frame (u, o) st.
Proof.
  unfold send_start, bindM. intros H. case_bool_decide; [by simplify_eq|].
  destruct (call_start_json (spool u) cid); [|by simplify_eq].
  destruct (with_transport _ _) as [[u2 o2] r2] eqn:Ew.
  apply with_transport_frame in Ew as (t & -> & -> & ?).
  destruct r2; repeat case_match; simplify_eq; frame_done.
Qed.

Lemma send_end_frame cid (u : UL) o st r :
  send_end cid (u, o) = (st, r) -> send_frame (u, o) st.
Proof.
  unfold send_end, bindM. intros H. case_bool_decide; [by simplify_eq|].
  destruct (call_end_json (spool u) cid); [|by simplify_eq].
  destruct (with_transport _ _) as [[u2 o2] r2] eqn:Ew.
  apply with_transport_frame in Ew as (t & -> & -> & ?).
  destruct r2; simplify_eq; frame_done.
Qed.

Lemma send_media_frame cid now (u : UL) o st r :
  send_media ulid_bytes cid now (u, o) = (st, r) -> send_frame (u, o) st.
Proof.
  unfold send_media, bindM. intros H.
  destruct (send_rows _ _ _ _ _ _ _ _) as [[u1 o1] r1] eqn:Er.
  apply send_rows_frame in Er. destruct r1; [|by simplify_eq].
  apply send_end_frame in H. by etrans.
Qed.

Lemma send_call_frame now cid (u : UL) o st r :
  send_call ulid_bytes now cid (u, o) = (st, r) -> send_frame (u, o) st.
Proof.
  unfold send_call, bindM. intros H. destruct (is_sealed (spool u) cid).
  { simplify_eq. frame_done. }
  destruct (send_start _ _ _) as [[u1 o1] r1] eqn:Es. apply send_start_frame in Es as Hf.
  destruct r1; [|by simplify_eq]. destruct (awaiting_resume u1 !! cid) as [dl|].
  - destruct (now <? dl); [by simplify_eq|]. apply send_media_frame in H.
    etrans; [exact Hf|]. etrans; [|exact H]. frame_done.
  - apply send_media_frame in H. by etrans.
Qed.

Lemma send_calls_frame now cids (u : UL) o st r :
  send_calls ulid_bytes now cids (u, o) = (st, r) -> send_frame (u, o) st.
Proof.
  revert u o. induction cids as [|cid cids IH]; intros u o H; cbn [send_calls] in H.
  - unfold ret in H. by simplify_eq.
  - unfold bindM in H. destruct (send_call _ _ _ _) as [[u1 o1] r1] eqn:Ec.
    apply send_call_frame in Ec. destruct r1; [|by simplify_eq].
    etrans; [exact Ec|]. by eapply IH.
Qed.

Lemma send_pending_frame now (u : UL) o st r :
  send_pending ulid_bytes now (u, o) = (st, r) -> send_frame (u, o) st.
Proof.
  unfold send_pending. intros H. apply send_calls_frame in H. etrans; [|exact H]. frame_done.
Qed.

(** ** Reading *)

Definition heard_of (u : UL) : list Incoming :=
  match transport u with Some r => heard r | None => [] end.

(** One of the messages acknowledges the channel [key] through [n]. *)
Definition acked_by (msgs : list Incoming) (key : string * Z) (n : Z) : Prop :=
  exists text c ch, InText text ∈ msgs /\ from_json text = Some (MsgAck key.1 c n) /\
    Channel_from_u8 (z2b c) = Ok ch /\ key.2 = chan_z ch.

(** What the messages of a pass allow to be deleted from the spool [s] it began with:
    a row covered by an ack of its own call and channel (itself, or through the mark
    already recorded when the ack came), or any row of a call with a fatal
    [call.error]. *)
Definition vouched (s : Spool) (msgs : list Incoming) (k : seg_key) : Prop :=
  (exists n, acked_by msgs k.1 n /\ (k.2 <= n \/ exists w, acks s !! k.1 = Some w /\ k.2 <= w)) \/
  (exists text code why, InText text ∈ msgs /\
     from_json text = Some (MsgCallError k.1.1 code why true)).

(** Every ack mark was there before or is named by a message. *)
Definition acks_sourced (msgs : list Incoming) (s s' : Spool) : Prop :=
  forall k w, acks s' !! k = Some w -> acks s !! k = Some w \/ acked_by msgs k w.

Lemma acked_by_more msgs msgs' k n :
  (forall m, m ∈ msgs -> m ∈ msgs') -> acked_by msgs k n -> acked_by msgs' k n.
Proof. intros Hsub (text & c & ch & Hin & Ha). exists text, c, ch. split; [by apply Hsub|done]. Qed.

Lemma vouched_more s msgs msgs' k :
  (forall m, m ∈ msgs -> m ∈ msgs') -> vouched s msgs k -> vouched s msgs' k.
Proof.
  intros Hsub [(n & Ha & Hn)|(text & code & why & Hin & Hj)].
  - left. exists n. split; [by eapply acked_by_more|done].
  - right. exists text, code, why. split; [by apply Hsub|done].
Qed.

(** What a later part of a pass deletes is vouched for by the whole pass. *)
Lemma vouched_earlier s1 s2 m m' k :
  acks_sourced m s1 s2 -> vouched s2 m' k -> vouched s1 (m ++ m') k.
Proof.
  intros Hs [(n & Ha & Hn)|Hf].
  - assert (Hm : forall x, x ∈ m' -> x ∈ m ++ m') by (intros; apply elem_of_app; by right).
    destruct Hn as [Hle|(w & Hw & Hle)].
    + left. exists n. split; [by eapply acked_by_more|by left].
    + destruct (Hs _ _ Hw) as [Hw1|Hw1].
      * left. exists n. split; [by eapply acked_by_more|]. right. by exists w.
      * left. exists w. split; [|by left]. eapply acked_by_more; [|exact Hw1].
        intros. apply elem_of_app. by left.
  - eapply (vouched_more _ m'); [intros; apply elem_of_app; by right|]. by right.
Qed.

Record handled (text : string) (u u' : UL) : Prop := {
  hd_segments : forall k r, segments (spool u) !! k = Some r ->
    segments (spool u') !! k = Some r \/ vouched (spool u) [InText text] k;
  hd_subset : segments (spool u') ⊆ segments (spool u);
  hd_acks : acks_sourced [InText text] (spool u) (spool u');
  hd_transport : transport u' = transport u;
  hd_sent : sent_through u' = sent_through u;
  hd_backoff : backoff_wf (u_backoff u) -> backoff_wf (u_backoff u');
}.

Lemma handle_control_handled text now (u : UL) o :
  handled text u (handle_control text now (u, o)).1.
Proof.
  assert (Hid : handled text u u) by (split; try done; by left).
  assert (Hsame : forall s', acks s' = acks (spool u) -> acks_sourced [InText text] (spool u) s')
    by (intros s' He k w; rewrite He; by left).
  unfold handle_control. destruct (from_json text) as [m|] eqn:Hj; [|done].
  destruct m as [| |cid c n|cid sa|cid code why [] | |st pv]; try done.
  - destruct (Channel_from_u8 (z2b c)) as [ch|] eqn:Hc; [|done].
    unfold ack. set (w := match acks _ !! _ with Some _ => _ | None => _ end).
    set (P := fun kr : seg_key * Row => kr.1.1 = (cid, chan_z ch) /\ kr.1.2 <= w).
    pose proof (sql_delete_gone P (segments (spool u))) as Hgone.
    pose proof (sql_delete_subseteq P (segments (spool u))) as Hsub.
    destruct (sql_delete P (segments (spool u))) as [m d]. simpl in *. split; simpl; try done;
      [| |apply reset_wf].
    + intros k r Hk. destruct (m !! k) as [r'|] eqn:Hm.
      * left. f_equal. eapply lookup_weaken in Hm; [|done]. congruence.
      * right. destruct (Hgone k r Hk Hm) as [Hkey Hle]. simpl in Hkey, Hle.
        left. exists n. rewrite Hkey. split; [exists text, c, ch; split; [by left|done]|].
        unfold w in Hle. destruct (acks (spool u) !! (cid, chan_z ch)) as [old|]; [|by left].
        destruct (Z.max_spec old n) as [[_ E]|[_ E]]; rewrite E in Hle; [by left|right; by exists old].
    + intros k v Hk. simpl in Hk. destruct (decide (k = (cid, chan_z ch))) as [->|Hne].
      * rewrite lookup_insert_eq in Hk. injection Hk as <-. unfold w.
        assert (acked_by [InText text] (cid, chan_z ch) n)
          by (exists text, c, ch; split; [by left|done]).
        destruct (acks (spool u) !! (cid, chan_z ch)) as [old|]; [|by right].
        destruct (Z.max_spec old n) as [[_ ->]|[_ ->]]; [by right|by left].
      * rewrite lookup_insert_ne in Hk by done. by left.
  - simpl. split; try done; [by left|by apply Hsame].
  - unfold seal. set (P := fun kr : seg_key * Row => kr.1.1.1 = cid).
    pose proof (sql_delete_gone P (segments (spool u))) as Hgone.
    pose proof (sql_delete_subseteq P (segments (spool u))) as Hsub.
    destruct (sql_delete P (segments (spool u))) as [m d]. simpl in *. split; simpl; try done;
      [|by apply Hsame].
    intros k r Hk. destruct (m !! k) as [r'|] eqn:Hm.
    + left. f_equal. eapply lookup_weaken in Hm; [|done]. congruence.
    + right. specialize (Hgone k r Hk Hm). unfold P in Hgone. simpl in Hgone.
      right. exists text, code, why. split; [by left|]. by rewrite Hgone.
  - case_match; simpl; split; try done; [by left|by apply Hsame|by left|by apply Hsame].
Qed.

(** What reading a pass's messages may do to the spool and the sent marks. *)
Record read_frame (u u' : UL) (msgs : list Incoming) : Prop := {
  rf_heard : heard_of u' = heard_of u ++ msgs;
  rf_segments : forall k r, segments (spool u) !! k = Some r ->
    segments (spool u') !! k = Some r \/ vouched (spool u) msgs k;
  rf_subset : segments (spool u') ⊆ segments (spool u);
  rf_acks : acks_sourced msgs (spool u) (spool u');
  rf_sent : sent_through u' = sent_through u;
  rf_backoff : backoff_wf (u_backoff u) -> backoff_wf (u_backoff u');
  rf_alive : is_Some (transport u) -> is_Some (transport u');
}.

Lemma read_frame_refl u : read_frame u u [].
Proof. split; try done; [by rewrite app_nil_r|by left|by left]. Qed.

Lemma read_frame_trans u1 u2 u3 m m' :
  read_frame u1 u2 m -> read_frame u2 u3 m' -> read_frame u1 u3 (m ++ m').
Proof.
  intros [a1 a2 a3 a4 a5 a6 a7] [b1 b2 b3 b4 b5 b6 b7]. split; [| | | | |by auto|by auto].
  - rewrite b1, a1. by rewrite app_assoc.
  - intros k r Hk. destruct (a2 k r Hk) as [Hk2|Hv].
    + destruct (b2 k r Hk2) as [|Hv]; [by left|right].
      by eapply vouched_earlier.
    + right. eapply vouched_more; [|exact Hv]. intros x Hx. apply elem_of_app. by left.
  - by etrans.
  - intros k w Hk. destruct (b4 k w Hk) as [Hk2|Hk2].
    + destruct (a4 k w Hk2) as [|Hk1]; [by left|right]. eapply acked_by_more; [|exact Hk1].
      intros. apply elem_of_app. by left.
    + right. eapply acked_by_more; [|exact Hk2]. intros. apply elem_of_app. by right.
  - congruence.
Qed.

Lemma recv_frame (u : UL) o d u' o' r :
  with_transport (fun t => recv t d) (u, o) = ((u', o'), r) ->
  read_frame u u' match r with Ok (Some m) => [m] | _ => [] end /\ spool u' = spool u /\ o' = o.
Proof.
  unfold with_transport. intros Hw. destruct (transport u) as [t|] eqn:Ht.
  - simpl in Hw. destruct (recv (inner t) d) as [t' r'] eqn:Er. simplify_eq.
    split; [|done]. split; try done; [|by left|by left]. unfold heard_of. simpl. by rewrite Ht.
  - simplify_eq. split; [apply read_frame_refl|done].
Qed.

Lemma handled_read_frame text u u' :
  handled text u u' -> forall u0, read_frame u0 u [InText text] -> spool u = spool u0 ->
  read_frame u0 u' [InText text].
Proof.
  intros [h1 h2 h3 h4 h5 h6] u0 [f1 f2 f3 f4 f5 f6 f7] Es.
  rewrite Es in *. split; [| | | | |by auto|rewrite h4; by auto]; try done.
  - rewrite <- f1. unfold heard_of. by rewrite h4.
  - congruence.
Qed.

Lemma handle_control_connected text now (u : UL) o :
  connected (handle_control text now (u, o)).2 = connected o.
Proof.
  unfold handle_control. destruct (from_json text) as [[| |cid c n|cid sa|cid cd why []| |st pv]|];
    try done; [|by case_match].
  destruct (Channel_from_u8 (z2b c)); [|done]. by destruct (ack _ _ _ _).
Qed.

Lemma read_incoming_frame fuel now (u : UL) o u' o' r :
  read_incoming fuel now (u, o) = Some ((u', o'), r) ->
  (exists msgs, read_frame u u' msgs) /\ connected o' = connected o.
Proof.
  revert u o. induction fuel as [|fuel IH]; intros u o Hr; [done|].
  cbn [read_incoming] in Hr.
  destruct (with_transport _ _) as [[u1 o1] r1] eqn:Ew.
  apply recv_frame in Ew as (Hf & Hsp & ->).
  destruct r1 as [[[text|b|cc]|]|e]; cbv iota beta in Hr.
  - pose proof (handle_control_handled text now u1 o) as Hh.
    pose proof (handle_control_connected text now u1 o) as Hc.
    destruct (handle_control text now (u1, o)) as [u2 o2]. simpl in Hc.
    apply IH in Hr as [(msgs & Hm) ->]. split; [|done].
    eexists. eapply read_frame_trans; [|exact Hm]. by eapply handled_read_frame.
  - apply IH in Hr as [(msgs & Hm) ->]. split; [|done]. eexists. by eapply read_frame_trans.
  - simplify_eq/=. split; [by eexists|]. destruct cc; simpl; [|done]. by repeat case_match.
  - simplify_eq. by split; [eexists|].
  - simplify_eq. by split; [eexists|].
Qed.

(** ** A whole pass *)

Lemma try_connect_spool draw now (u u1 : UL) up :
  try_connect draw now u = (u1, up) -> spool u1 = spool u.
Proof.
  unfold try_connect. intros E. destruct (transport u); [by simplify_eq|].
  destruct (now <? _); [by simplify_eq|]. destruct (connect (factory u)) as [f [t|e]].
  - by simplify_eq.
  - simpl in E. by simplify_eq.
Qed.

(** C6: The uplink's first invariant, for any transport whatever: in a pass of
    [pump] a stored segment disappears from the spool only if the socket delivered,
    in that pass, an ack of its own call and channel that names its sequence number or
    a later one (or comes when such an ack is already on record), or a fatal
    [call.error] for its call. Connecting, sending, failing and
    disconnecting delete nothing, and nothing is added. *)
Theorem pump_deletes_only_on_servers_word fuel draw now (u u' : UL) o :
  pump ulid_bytes fuel draw now u = Some (u', o) ->
  segments (spool u') ⊆ segments (spool u) /\
  exists msgs : list Incoming,
    (transport u' <> None -> exists before, heard_of u' = before ++ msgs) /\
    forall k r, segments (spool u) !! k = Some r ->
      segments (spool u') !! k = Some r \/ vouched (spool u) msgs k.
Proof.
  unfold pump. intros Hp. destruct (try_connect draw now u) as [u1 up] eqn:Ec.
  apply try_connect_spool in Ec. destruct up; cbn [negb] in Hp.
  2: { simplify_eq. rewrite Ec. split; [done|]. exists []. split; [|by left].
       intros _. exists (heard_of u'). by rewrite app_nil_r. }
  destruct (send_pending _ _ _) as [[u2 o2] r2] eqn:Es.
  apply send_pending_frame in Es as (Hsp & _). simpl in Hsp. rewrite <- Ec, <- Hsp. clear Ec Hsp.
  assert (Hdrop : forall v : UL, spool (drop_connection draw now v) = spool v /\
            transport (drop_connection draw now v) = None) by (intros v; done).
  destruct r2.
  - destruct (read_incoming _ _ _) as [[[u3 o3] r3]|] eqn:Er; [|done].
    apply read_incoming_frame in Er as [(msgs & [Hh Hseg Hsub Hacks _ _ _]) _].
    destruct r3; simplify_eq.
    + split; [done|]. exists msgs. split; [|done]. intros _. by eexists.
    + destruct (Hdrop u3) as [-> ->]. split; [done|]. exists msgs. split; [done|done].
  - simplify_eq. destruct (Hdrop u2) as [-> ->]. split; [done|]. exists [].
    split; [done|by left].
Qed.

Lemma mark_raised cid m rows :
  rows_increasing rows ->
  (forall row hi, row ∈ rows -> m !! (cid, sg_channel row) = Some hi -> hi < sg_seq row) ->
  raised m (mark cid m rows) /\
  forall row, row ∈ rows ->
    exists hi, mark cid m rows !! (cid, sg_channel row) = Some hi /\ sg_seq row <= hi.
Proof.
  intros Hinc. revert m. induction Hinc as [|row rows Hinc IH Hall]; intros m Hm.
  { split; [done|]. by intros row ?%elem_of_nil. }
  rewrite Forall_forall in Hall. cbn [mark foldl].
  set (m1 := <[(cid, sg_channel row) := sg_seq row]> m).
  assert (Hr1 : raised m m1).
  { apply raised_insert. intros hi Hhi. specialize (Hm row hi ltac:(by left) Hhi). lia. }
  destruct (IH m1) as [Hr Hge].
  { intros row' hi Hin Hhi. unfold m1 in Hhi.
    destruct (decide (sg_channel row = sg_channel row')) as [E|E].
    - rewrite E, lookup_insert_eq in Hhi. simplify_eq. by apply Hall.
    - rewrite lookup_insert_ne in Hhi by congruence. apply (Hm row' hi); [by right|done]. }
  split; [by etrans|]. intros row' [->|Hin]%elem_of_cons; [|by apply Hge].
  destruct (Hr (cid, sg_channel row) (sg_seq row)) as (hi & ? & ?).
  { unfold m1. by rewrite lookup_insert_eq. }
  by exists hi.
Qed.

Lemma rows_increasing_filter f rows : rows_increasing rows -> rows_increasing (List.filter f rows).
Proof.
  induction 1 as [|row rows Hinc IH Hall]; [constructor|]. simpl. destruct (f row); [|done].
  constructor; [done|]. rewrite Forall_forall in *. intros x Hx.
  apply list_elem_of_In, filter_In in Hx as [Hx _]. apply Hall. by apply list_elem_of_In.
Qed.

Lemma not_wanted_of_mark (u : UL) cid p row hi :
  sent_through u !! (cid, sg_channel row) = Some hi -> sg_seq row <= hi ->
  wanted u cid p row = false.
Proof.
  intros Hk Hle. unfold wanted. rewrite Hk. apply andb_false_intro2, negb_false_iff.
  by apply Z.leb_le.
Qed.

(** A pass adds nothing to the spool. *)
Lemma pump_spool_subset fuel draw now (u u' : UL) o :
  pump ulid_bytes fuel draw now u = Some (u', o) -> segments (spool u') ⊆ segments (spool u).
Proof.
  unfold pump. intros Hp. destruct (try_connect draw now u) as [u1 up] eqn:Ec.
  apply try_connect_spool in Ec. destruct up; cbn [negb] in Hp; [|by simplify_eq; rewrite Ec].
  destruct (send_pending _ _ _) as [[u2 o2] r2] eqn:Es.
  apply send_pending_frame in Es as (Hsp & _). simpl in Hsp. rewrite <- Ec, <- Hsp.
  destruct r2; [|by simplify_eq].
  destruct (read_incoming _ _ _) as [[[u3 o3] r3]|] eqn:Er; [|done].
  apply read_incoming_frame in Er as [(msgs & [_ _ Hsub _ _ _ _]) _]. destruct r3; by simplify_eq.
Qed.

Lemma pump_sent_raised fuel draw now (u u' : UL) o :
  is_Some (transport u) -> pump ulid_bytes fuel draw now u = Some (u', o) ->
  raised (sent_through u) (sent_through u').
Proof.
  intros [t Ht]. unfold pump, try_connect. rewrite Ht. cbn [negb].
  destruct (send_pending _ _ _) as [[u2 o2] r2] eqn:Es.
  apply send_pending_frame in Es as (_ & Hr & _). intros Hp. destruct r2.
  - destruct (read_incoming _ _ _) as [[[u3 o3] r3]|] eqn:Er; [|done].
    apply read_incoming_frame in Er as [(msgs & [_ _ _ _ Hs _ _]) _].
    destruct r3; simplify_eq; simpl; by rewrite Hs.
  - by simplify_eq.
Qed.

(** On one connection a segment goes out once: if a pass sends a row and the
    connection survives it, no later wish to send that row (whatever the resume
    point) is granted after it, since the row is at or below its channel's sent mark
    and marks only rise. *)
Theorem no_resend_on_a_connection cid p now n fuel draw now' (u : UL) o u1 o1 u2 o2 p' row :
  spool_typed (spool u) -> is_Some (transport u) ->
  let rows := take_pending (spool u) cid n in
  send_rows ulid_bytes cid p now rows [] 0 (u, o) = ((u1, o1), Ok tt) ->
  pump ulid_bytes fuel draw now' u1 = Some (u2, o2) -> is_Some (transport u1) ->
  row ∈ selected u cid p rows ->
  wanted u1 cid p' row = false /\ wanted u2 cid p' row = false.
Proof.
  intros Hty Ht rows Hs Hp Ht1 Hin.
  destruct (take_pending_increasing (spool u) cid n Hty) as [Hinc _].
  apply (send_rows_spec cid p now rows []) in Hs as (groups & _ & _ & _ & _ & _ & Hst);
    [|done|done|done|unfold SEGMENTS_PER_MESSAGE; simpl; lia].
  destruct (mark_raised cid (sent_through u) (selected u cid p rows)) as [_ Hge].
  { by apply rows_increasing_filter. }
  { intros row' hi Hin' Hhi. apply list_elem_of_In, filter_In in Hin' as [_ Hw].
    bool_hyps. unfold wanted in *. rewrite Hhi in *. bool_hyps. lia. }
  destruct (Hge row Hin) as (hi & Hhi & Hle). rewrite <- Hst in Hhi.
  split; [by eapply not_wanted_of_mark|].
  apply pump_sent_raised in Hp as Hr; [|done]. destruct (Hr _ _ Hhi) as (hi' & Hhi' & ?).
  eapply not_wanted_of_mark; [exact Hhi'|lia].
Qed.

(** ** Connections *)

Lemma drop_connection_pace draw now (u : UL) :
  draw_ok draw -> backoff_wf (u_backoff u) -> 0 <= now -> now + 60000 <= u64_max ->
  let u' := drop_connection draw now u in
  transport u' = None /\ now <= u_next_attempt_ms u' <= now + 60000 /\
  backoff_wf (u_backoff u').
Proof.
  intros Hd Hb H0 Hm. unfold drop_connection.
  pose proof (next_delay_bounds draw _ Hb Hd) as Hn. pose proof (next_delay_wf draw _ Hb) as Hw.
  pose proof (ceiling_bounds _ Hb). destruct (next_delay draw (u_backoff u)) as [b dl].
  simpl in *. split_and!; try done; ints; lia.
Qed.

(** Reconnects are paced: before [next_attempt_ms] a disconnected uplink does
    nothing at all; and whatever goes wrong in a pass (a refused connect, a failed
    send, a close or a read error) leaves it disconnected with the next attempt at
    most a minute away. The backoff never leaves its policy, and the pass reports
    [connected] exactly when it ends with a connection. *)
Theorem pump_paces_reconnects fuel draw now (u u' : UL) o :
  draw_ok draw -> backoff_wf (u_backoff u) -> 0 <= now -> now + 60000 <= u64_max ->
  pump ulid_bytes fuel draw now u = Some (u', o) ->
  (transport u = None -> now < u_next_attempt_ms u -> u' = u /\ o = PumpOutcome_default) /\
  (transport u <> None \/ u_next_attempt_ms u <= now -> connected o = false ->
     now <= u_next_attempt_ms u' <= now + 60000) /\
  (connected o = true <-> transport u' <> None) /\ backoff_wf (u_backoff u').
Proof.
  intros Hd Hb H0 Hm Hp. unfold pump in Hp.
  destruct (try_connect draw now u) as [u1 up] eqn:Ec.
  assert (Hup : (up = true -> is_Some (transport u1) /\ u_backoff u1 = u_backoff u /\
                   (transport u <> None \/ u_next_attempt_ms u <= now)) /\
                (up = false -> transport u1 = None /\ backoff_wf (u_backoff u1) /\
                   ((now < u_next_attempt_ms u /\ u1 = u) \/
                    (u_next_attempt_ms u <= now <= u_next_attempt_ms u1 /\
                     u_next_attempt_ms u1 <= now + 60000)))).
  { clear Hp. unfold try_connect in Ec. destruct (transport u) as [t|] eqn:Ht.
    { simplify_eq. rewrite Ht. split; [|done]. intros _. split_and!; [by eexists|done|by left]. }
    destruct (Z.ltb_spec now (u_next_attempt_ms u)).
    { simplify_eq. split; [done|]. intros _. split_and!; [done..|]. by left. }
    pose proof (next_delay_bounds draw _ Hb Hd) as Hn. pose proof (next_delay_wf draw _ Hb) as Hw.
    pose proof (ceiling_bounds _ Hb). destruct (connect (factory u)) as [f [t|e]]; simplify_eq.
    - split; [|done]. intros _. split_and!; [by eexists|done|by right].
    - cbn [upd u_backoff] in Ec. destruct (next_delay draw (u_backoff u)) as [b dl].
      simplify_eq. split; [done|]. intros _. simpl in *. split_and!; try done.
      right. ints. lia. }
  destruct Hup as [Hup1 Hup2]. destruct up; cbn [negb] in Hp.
  - destruct (Hup1 eq_refl) as (Hs1 & Hb1 & Hdue). clear Hup1 Hup2.
    destruct (send_pending _ _ _) as [[u2 o2] r2] eqn:Es.
    apply send_pending_frame in Es as (_ & _ & Hb2 & Hc2 & Ha2). simpl in *.
    specialize (Ha2 Hs1). rewrite Hb1 in Hb2.
    split; [intros Hn Hlt; destruct Hdue; [done|lia]|].
    destruct r2.
    + destruct (read_incoming _ _ _) as [[[u3 o3] r3]|] eqn:Er; [|done].
      apply read_incoming_frame in Er as [(msgs & [_ _ _ _ _ Hb3 Ha3]) Hc3].
      rewrite Hb2 in Hb3. specialize (Hb3 Hb). specialize (Ha3 Ha2).
      destruct r3; simplify_eq.
      * split_and!; [congruence| |done]. rewrite Hc3, Hc2. split; [|done]. intros _.
        destruct Ha3 as [? ->]. done.
      * destruct (drop_connection_pace draw now u3 Hd Hb3 H0 Hm) as (-> & ? & ?).
        split_and!; [done..|done].
    + simplify_eq. rewrite <- Hb2 in Hb.
      destruct (drop_connection_pace draw now u2 Hd Hb H0 Hm) as (-> & ? & ?). by split_and!.
  - destruct (Hup2 eq_refl) as (Hn1 & Hw1 & Hcase). clear Hup1 Hup2. simplify_eq.
    rewrite Hn1. split_and!; try done.
    + intros _ Hlt. destruct Hcase as [[_ ->]|]; [done|lia].
    + intros Hor _. destruct Hcase as [[Hlt ->]|]; [destruct Hor; [done|lia]|lia].
Qed.

(** ** Resuming *)

(** A replayed call holds its media for the server's [resume]: on a fresh
    connection the first pass sends the stored [call.start] verbatim and nothing
    else of the call; every pass within [RESUME_TIMEOUT_MS] of it sends nothing; and
    once the deadline passes the media goes out with no [resume] at all, so a silent
    gateway cannot stall the upload. *)
Theorem replay_waits_for_resume cid json now now2 now3 (u : UL) o u1 o1 :
  is_sealed (spool u) cid = false -> cid ∉ started_this_connection u ->
  call_start_json (spool u) cid = Some json -> acked_through (spool u) cid <> ∅ ->
  now + RESUME_TIMEOUT_MS <= u64_max -> now < now2 < now + RESUME_TIMEOUT_MS ->
  now + RESUME_TIMEOUT_MS <= now3 -> is_Some (transport u) ->
  send_call ulid_bytes now cid (u, o) = ((u1, o1), Ok tt) ->
  wire_of u1 = wire_of u ++ [OutText json] /\ sent o1 = sent o /\
  send_call ulid_bytes now2 cid (u1, o1) = ((u1, o1), Ok tt) /\
  send_call ulid_bytes now3 cid (u1, o1) =
    send_media ulid_bytes cid now3 (u1 <| awaiting_resume := delete cid (awaiting_resume u1) |>, o1).
Proof.
  intros Hseal Hst Hj Hack Hmax Hn2 Hn3 [t Ht] Hs.
  unfold send_call in Hs. rewrite Hseal in Hs. unfold bindM, send_start in Hs.
  rewrite bool_decide_eq_false_2, Hj in Hs by done. unfold bindM, with_transport in Hs.
  rewrite Ht in Hs. simpl in Hs. destruct (send_text (inner t) json) as [t' [[]|e]]; [|done].
  rewrite bool_decide_eq_true_2 in Hs by done. simpl in Hs. rewrite lookup_insert_eq in Hs.
  assert (Hd : sat_add u64_max now RESUME_TIMEOUT_MS = now + RESUME_TIMEOUT_MS) by (ints; lia).
  rewrite Hd in Hs. destruct (Z.ltb_spec now (now + RESUME_TIMEOUT_MS));
    [|unfold RESUME_TIMEOUT_MS in *; lia]. simplify_eq.
  split; [unfold wire_of; simpl; by rewrite Ht|]. split; [done|].
  unfold send_call, bindM, send_start. cbn [spool started_this_connection awaiting_resume].
  rewrite Hseal, bool_decide_eq_true_2 by (apply elem_of_union; right; by apply elem_of_singleton).
  cbn [awaiting_resume]. rewrite lookup_insert_eq.
  split.
  - by rewrite (proj2 (Z.ltb_lt _ _)) by lia.
  - by rewrite (proj2 (Z.ltb_ge _ _)) by lia.
Qed.

Lemma send_rows_none_wanted cid p now rows (u : UL) o :
  Forall (fun row => wanted u cid p row = false) rows ->
  send_rows ulid_bytes cid p now rows [] 0 (u, o) = ((u, o), Ok tt).
Proof.
  induction 1 as [|row rows Hw _ IH]; [done|]. cbn [send_rows]. by rewrite Hw.
Qed.

(** A server that is ahead of the local ack record by a full pass stops the
    upload for good: the resume point is never applied to the spool, so when the
    first [SEGMENTS_PER_PASS] pending rows all lie below it they fill every pass,
    none is sent, no state changes, and rows the server lacks stay behind them. *)
Theorem resume_ahead_stalls cid p now (u : UL) o :
  resume_points u !! cid = Some p -> is_sealed (spool u) cid = false ->
  cid ∈ started_this_connection u -> awaiting_resume u !! cid = None ->
  call_end_json (spool u) cid = None ->
  Forall (fun row => sg_seq row < from_seq p (sg_channel row))
    (take_pending (spool u) cid SEGMENTS_PER_PASS) ->
  send_call ulid_bytes now cid (u, o) = ((u, o), Ok tt).
Proof.
  intros Hp Hseal Hst Haw Hend Hall.
  unfold send_call, bindM, send_start. rewrite Hseal, bool_decide_eq_true_2, Haw by done.
  unfold send_media, bindM, resume_point_for. rewrite Hp, send_rows_none_wanted.
  - unfold send_end. rewrite Hend. by case_bool_decide.
  - eapply Forall_impl; [exact Hall|]. intros row Hrow. simpl in Hrow. unfold wanted, should_send.
    by rewrite (proj2 (Z.leb_gt _ _)) by lia.
Qed.
End wire.

(** ** Concrete connections

    A scripted socket: sends succeed, [recv] plays an inbox. *)
Record Script := { inbox : list Incoming }.

#[export] Instance Script_Transport : Transport Script := {|
  send_text t _ := (t, Ok tt);
  send_binary t _ := (t, Ok tt);
  recv t _ := match inbox t with
              | [] => (t, Ok None)
              | m :: l => ({| inbox := l |}, Ok (Some m))
              end;
  close t := (t, Ok tt);
|}.
(** A connector that hands out one scripted socket after another. *)
#[export] Instance Script_Factory : TransportFactory (list (list Incoming)) (Rec Script) :=
  fun f => match f with
           | [] => ([], Err (TeConnect "refused"))
           | l :: f' => (f', Ok {| inner := {| inbox := l |}; wire := []; heard := [] |})
           end.
#[export] Instance sample_json : ControlJson := {|
  to_json m := match m with MsgCallStart _ => "start" | MsgCallEnd _ => "end" | _ => "other" end;
  from_json s := if bool_decide (s = "ack far 1") then Some (MsgAck "c" 0 1)
                 else if bool_decide (s = "resume") then Some (MsgResume "c" {["0" := 39]})
                 else None;
|}.
Definition sample_ulid (s : string) : option (list u8) := Some (repeat Byte.x07 16).
Lemma sample_ulid_16 s b : sample_ulid s = Some b -> length b = 16%nat.
Proof. by intros [= <-]. Qed.

(** A spool holding [n] far segments of call "c". *)
Definition filled (n : nat) : Spool :=
  (run_ops (begin_call (fresh_db SpoolLimits_default) "c" "start" 5)
     {| l_added := 0; l_acked := 0; l_reported := 0 |}
     ((fun k => OpPush (sample_seg "c" Far (Z.of_nat k) (100 + Z.of_nat k) 3)) <$> List.seq 0 n)).1.
Definition sample_uplink (n : nat) (f : list (list Incoming)) : Uplink (Rec Script) (list (list Incoming)) :=
  Uplink_new (filled n) f.
Definition sample_connected (n : nat) (l : list Incoming) :=
  fst (try_connect (fun _ => 0) 0 (sample_uplink n [l])).


Lemma filled_typed n : (n <= 1000)%nat -> spool_typed (filled n).
Proof.
  intros Hn. apply run_ops_typed; [vm_compute; discriminate| |].
  - eapply spool_typed_subset; [|apply fresh_typed].
    by rewrite (proj1 (begin_call_tables (fresh_db SpoolLimits_default) "c" "start" 5)).
  - apply Forall_fmap, Forall_forall. intros k Hk%elem_of_seq. simpl.
    unfold SegmentRow_typed. simpl. ints. lia.
Qed.

Lemma send_rows_decodes_witness :
  exists msgs groups,
    Forall2 (fun m g => decode_all m = Ok (record_of sample_ulid "c" <$> g) /\ group_ok g)
      msgs groups /\
    concat groups = filter (due (sample_connected 12 []) "c" (plan ∅ ∅)) (take_pending (filled 12) "c" 40) /\
    length (concat groups) = 12%nat.
Proof.
  set (u := sample_connected 12 []).
  destruct (send_rows sample_ulid "c" (plan ∅ ∅) 0 (take_pending (spool u) "c" 40) [] 0
              (u, PumpOutcome_default)) as [[u' o'] r] eqn:E.
  assert (r = Ok tt) as -> by (apply (f_equal snd) in E; vm_compute in E; by rewrite <- E).
  destruct (send_rows_decodes_to_selected sample_ulid sample_ulid_16 "c" (plan ∅ ∅) 0 u
              PumpOutcome_default u' o' 40) as (msgs & groups & _ & H2 & H3 & _).
  - apply (filled_typed 12). lia.
  - vm_compute. by eexists.
  - exact E.
  - exists msgs, groups. split; [exact H2|]. split; [exact H3|]. rewrite H3.
    vm_compute. reflexivity.
Defined.

Lemma pump_deletes_witness :
  exists u' o, pump sample_ulid 5 (fun _ => 0) 10 (sample_uplink 3 [[InText "ack far 1"]])
                 = Some (u', o) /\
    acked o = 2 /\
    exists msgs, forall k r, segments (filled 3) !! k = Some r ->
      segments (spool u') !! k = Some r \/ vouched (filled 3) msgs k.
Proof.
  destruct (pump sample_ulid 5 (fun _ => 0) 10 (sample_uplink 3 [[InText "ack far 1"]]))
    as [[u' o]|] eqn:E; [|vm_compute in E; discriminate].
  exists u', o. split; [reflexivity|].
  split; [apply (f_equal (fmap (fun x => acked x.2))) in E; vm_compute in E; by injection E|].
  destruct (pump_deletes_only_on_servers_word sample_ulid 5 (fun _ => 0) 10
              (sample_uplink 3 [[InText "ack far 1"]]) u' o E) as [_ (msgs & _ & H)].
  exists msgs. exact H.
Defined.

Lemma no_resend_witness :
  let u := sample_connected 3 [] in
  let u1 := (send_rows sample_ulid "c" (plan ∅ ∅) 0 (take_pending (filled 3) "c" 40) [] 0
               (u, PumpOutcome_default)).1.1 in
  wanted u "c" (plan ∅ ∅) (sample_seg "c" Far 2 102 3) = true /\
  wanted u1 "c" (plan ∅ ∅) (sample_seg "c" Far 2 102 3) = false.
Proof.
  intros u u1. split; [vm_compute; reflexivity|].
  set (o1 := (send_rows sample_ulid "c" (plan ∅ ∅) 0 (take_pending (filled 3) "c" 40) [] 0
               (u, PumpOutcome_default)).1.2).
  set (r2 := default (u1, o1) (pump sample_ulid 5 (fun _ => 0) 20 u1)).
  apply (no_resend_on_a_connection sample_ulid "c" (plan ∅ ∅) 0 40 5 (fun _ => 0) 20
    u PumpOutcome_default u1 o1 r2.1 r2.2 (plan ∅ ∅) (sample_seg "c" Far 2 102 3)).
  - apply (filled_typed 3). lia.
  - vm_compute. by eexists.
  - vm_compute. reflexivity.
  - vm_compute. reflexivity.
  - vm_compute. by eexists.
  - assert (nth_error (selected u "c" (plan ∅ ∅) (take_pending (spool u) "c" 40)) 2
            = Some (sample_seg "c" Far 2 102 3)) as Hn by (vm_compute; reflexivity).
    apply list_elem_of_In. exact (nth_error_In _ _ Hn).
Defined.

Lemma pump_paces_witness :
  exists u' o, pump sample_ulid 5 (fun c => c) 10 (sample_uplink 1 []) = Some (u', o) /\
    10 <= u_next_attempt_ms u' <= 60010 /\ (connected o = true <-> transport u' <> None).
Proof.
  destruct (pump sample_ulid 5 (fun c => c) 10 (sample_uplink 1 [])) as [[u' o]|] eqn:E;
    [|vm_compute in E; discriminate].
  exists u', o. split; [reflexivity|].
  assert (Hc : connected o = false).
  { apply (f_equal (fmap (fun x => connected x.2))) in E. vm_compute in E. by injection E. }
  destruct (pump_paces_reconnects sample_ulid 5 (fun c => c) 10 (sample_uplink 1 []) u' o)
    as (_ & H2 & H3 & _).
  - intros c Hc0. lia.
  - apply uplink_wf.
  - lia.
  - vm_compute. discriminate.
  - exact E.
  - split; [|exact H3]. apply H2; [|exact Hc]. right. vm_compute. discriminate.
Defined.

Lemma replay_waits_witness :
  let s := (ack (filled 3) "c" Far 0).1 in
  let u := fst (try_connect (fun _ => 0) 0 (Uplink_new s [[]] : Uplink (Rec Script) _)) in
  exists u1 o1, send_call sample_ulid 100 "c" (u, PumpOutcome_default) = ((u1, o1), Ok tt) /\
    wire_of u1 = [OutText "start"] /\
    send_call sample_ulid 5000 "c" (u1, o1) = ((u1, o1), Ok tt).
Proof.
  intros s u.
  destruct (send_call sample_ulid 100 "c" (u, PumpOutcome_default)) as [[u1 o1] r] eqn:E.
  assert (r = Ok tt) as -> by (apply (f_equal snd) in E; vm_compute in E; by rewrite <- E).
  exists u1, o1. split; [reflexivity|].
  destruct (replay_waits_for_resume sample_ulid "c" "start" 100 5000 6000 u
              PumpOutcome_default u1 o1) as (H1 & _ & H3 & _).
  - vm_compute. reflexivity.
  - vm_compute. discriminate.
  - vm_compute. reflexivity.
  - intros Hz. apply (f_equal (lookup Far)) in Hz. vm_compute in Hz. discriminate.
  - vm_compute. discriminate.
  - vm_compute. split; reflexivity.
  - vm_compute. discriminate.
  - vm_compute. by eexists.
  - exact E.
  - split; [exact H1|exact H3].
Defined.

(** Forty-one segments, of which the server holds the first forty: the one it
    lacks is never sent. *)
Lemma resume_ahead_stalls_witness :
  let u0 := (sample_connected 41 []) <| started_this_connection := {["c"]} |> in
  let u := (handle_control "resume" 10 (u0, PumpOutcome_default)).1 in
  40 ∈ (sg_seq <$> take_pending (spool u) "c" 41) /\
  send_call sample_ulid 10 "c" (u, PumpOutcome_default) = ((u, PumpOutcome_default), Ok tt).
Proof.
  intros u0 u. split.
  - assert (nth_error (sg_seq <$> take_pending (spool u) "c" 41) 40 = Some 40) as Hn
      by (vm_compute; reflexivity).
    apply list_elem_of_In. exact (nth_error_In _ _ Hn).
  - apply (resume_ahead_stalls sample_ulid "c" (plan ∅ {["0" := 39]}) 10 u PumpOutcome_default).
    + vm_compute. reflexivity.
    + vm_compute. reflexivity.
    + vm_compute. reflexivity.
    + vm_compute. reflexivity.
    + vm_compute. reflexivity.
    + assert (forallb (fun row => sg_seq row <? from_seq (plan ∅ {["0" := 39]}) (sg_channel row))
                (take_pending (spool u) "c" SEGMENTS_PER_PASS) = true) as Hb
        by (vm_compute; reflexivity).
      revert Hb. generalize (take_pending (spool u) "c" SEGMENTS_PER_PASS). intros l Hb.
      apply Forall_forall. intros row Hrow. rewrite forallb_forall in Hb.
      apply Z.ltb_lt. apply Hb. by apply list_elem_of_In.
Defined.
