(* ===== verification/Capture.v ===== *)
(** The capture crate's decisions (sentinel-capture/src: foreign.rs, device.rs,
    tier.rs, source.rs) and the service's own copy of the tier rule
    (sentinel-service/src/main.rs). *)

From S2P Require Import Prelude Text Protocol Config.

Definition SAMPLE_RATE : Z := 16000.
Definition FRAME_MS : Z := 20.
Definition FRAME_SAMPLES : nat := 320.

(** ** foreign.rs *)

Record SuppressorParams := {
  trailing_grace_ms : Z;
  leading_grace_ms : Z;
  report_after_ms : Z;
}.
Definition SuppressorParams_default : SuppressorParams :=
  {| trailing_grace_ms := 1500; leading_grace_ms := 1000; report_after_ms := 2000 |}.

Inductive Decision := Keep | MarkForeign.

#[export] Instance Decision_eq_dec : EqDecision Decision.
Proof. solve_decision. Defined.

Record ForeignAudioSuppressor := {
  fs_params : SuppressorParams;
  fs_enabled : bool;
  fs_session_active : bool;
  inactive_since_ms : option Z;
  active_since_ms : option Z;
  suppressed_ms : Z;
  unreported_ms : Z;
}.

#[export] Instance rebuild_Suppressor : Rebuild ForeignAudioSuppressor := fun s =>
  {| fs_params := fs_params s; fs_enabled := fs_enabled s;
     fs_session_active := fs_session_active s; inactive_since_ms := inactive_since_ms s;
     active_since_ms := active_since_ms s; suppressed_ms := suppressed_ms s;
     unreported_ms := unreported_ms s |}.

Definition Suppressor_new (p : SuppressorParams) : ForeignAudioSuppressor :=
  {| fs_params := p; fs_enabled := true; fs_session_active := false;
     inactive_since_ms := Some 0; active_since_ms := None; suppressed_ms := 0;
     unreported_ms := 0 |}.

Definition for_tier_a : ForeignAudioSuppressor :=
  (Suppressor_new SuppressorParams_default) <| fs_enabled := false |>.

Definition set_session_active (s : ForeignAudioSuppressor) (now : Z) (active : bool)
    : ForeignAudioSuppressor :=
  if bool_decide (active = fs_session_active s) then s
  else
    let s := s <| fs_session_active := active |> in
    if active then s <| active_since_ms := Some now |> <| inactive_since_ms := None |>
    else s <| inactive_since_ms := Some now |> <| active_since_ms := None |>.

Definition judge (s : ForeignAudioSuppressor) (now : Z) (voiced : bool) (duration_ms : Z)
    : ForeignAudioSuppressor * Decision :=
  if negb (fs_enabled s) then (s, Keep)
  else if fs_session_active s then (s, Keep)
  else if match inactive_since_ms s with
          | Some since => sat_sub now since <? trailing_grace_ms (fs_params s)
          | None => false
          end then (s, Keep)
  else if negb voiced then (s, Keep)
  else (s <| suppressed_ms := suppressed_ms s + duration_ms |>
          <| unreported_ms := unreported_ms s + duration_ms |>, MarkForeign).

Definition hold_ms (s : ForeignAudioSuppressor) : Z :=
  if fs_enabled s then leading_grace_ms (fs_params s) else 0.

Definition take_event (s : ForeignAudioSuppressor) (now : Z)
    : ForeignAudioSuppressor * option ClientEvent :=
  if unreported_ms s <? report_after_ms (fs_params s) then (s, None)
  else (s <| unreported_ms := 0 |>,
        Some (with_detail (with_count (ClientEvent_new ForeignAudioSuppressed now) (unreported_ms s))
                "loopback energy while the softphone session was inactive")).

(** ** device.rs *)

Inductive AudioDirection := DirCapture | DirRender.

#[export] Instance AudioDirection_eq_dec : EqDecision AudioDirection.
Proof. solve_decision. Defined.

Record AudioDevice := {
  ad_id : string;
  ad_container_id : option string;
  ad_friendly_name : string;
  ad_direction : AudioDirection;
  ad_is_default : bool;
  ad_active : bool;
}.

Definition by_container (dir : AudioDirection) (want : PinnedDevice) (d : AudioDevice) : bool :=
  bool_decide (ad_direction d = dir) && ad_active d &&
  bool_decide (ad_container_id d = Some (pd_container_id want)).

Definition by_name (dir : AudioDirection) (name : string) (d : AudioDevice) : bool :=
  bool_decide (ad_direction d = dir) && ad_active d && bool_decide (ad_friendly_name d = name).

Fixpoint resolve_by_container (pinned : list PinnedDevice) (available : list AudioDevice)
    (dir : AudioDirection) : option AudioDevice :=
  match pinned with
  | [] => None
  | want :: pinned' =>
      match List.find (by_container dir want) available with
      | Some dev => Some dev
      | None => resolve_by_container pinned' available dir
      end
  end.

Fixpoint resolve_by_name (pinned : list PinnedDevice) (available : list AudioDevice)
    (dir : AudioDirection) : option AudioDevice :=
  match pinned with
  | [] => None
  | want :: pinned' =>
      match pd_friendly_name want with
      | None => resolve_by_name pinned' available dir
      | Some name =>
          match List.find (by_name dir name) available with
          | Some dev => Some dev
          | None => resolve_by_name pinned' available dir
          end
      end
  end.

Definition resolve_pinned (pinned : list PinnedDevice) (available : list AudioDevice)
    (dir : AudioDirection) : option AudioDevice :=
  match resolve_by_container pinned available dir with
  | Some dev => Some dev
  | None => resolve_by_name pinned available dir
  end.

(** ** tier.rs *)

Inductive TierDetection :=
| Supported (tier : CaptureTier) (os_build : string)
| Unsupported (os_build reason : string).

Definition td_tier (t : TierDetection) : option CaptureTier :=
  match t with Supported tier _ => Some tier | Unsupported _ _ => None end.
Definition td_os_build (t : TierDetection) : string :=
  match t with Supported _ b => b | Unsupported b _ => b end.

Inductive Arch := X64 | X86 | Arm64 | ArchOther.

Definition arch_debug (a : Arch) : string :=
  match a with X64 => "X64" | X86 => "X86" | Arm64 => "Arm64" | ArchOther => "Other" end.

Definition classify (major minor build : Z) (is_server : bool) (arch : Arch) : TierDetection :=
  let os_build := fmt_u major +:+ "." +:+ fmt_u minor +:+ "." +:+ fmt_u build in
  match arch with
  | X64 =>
      if major <? 10 then Unsupported os_build "Windows 8.1 and earlier are not supported"
      else if is_server then
        if 20348 <=? build then Supported TierA os_build
        else Unsupported os_build "Windows Server before 2022 has no process loopback"
      else if 22000 <=? build then Supported TierA os_build
      else if 18362 <=? build then Supported TierB os_build
      else Unsupported os_build "Windows 10 before 1903 (build 18362) is not supported"
  | _ => Unsupported os_build
           ("unsupported architecture " +:+ arch_debug arch +:+ "; x64 only")
  end.

(** The service's rule, from the two registry values it reads. *)
Definition sentinel_capture_tier (current_build installation_type : option string)
    : option CaptureTier * string :=
  let build := default 0 (current_build ≫= fun s => parse_u u32_max (trim s)) in
  let is_server := bool_decide (installation_type = Some "Server") in
  let os_build := "10.0." +:+ fmt_u build in
  let floor := if is_server then 20348 else 22000 in
  let tier := if floor <=? build then Some TierA
              else if negb is_server && (18362 <=? build) then Some TierB
              else None in
  (tier, os_build).

(** ** source.rs *)

Inductive CaptureErr :=
| DeviceNotFound (id : string)
| BadHandle (h : Z)
| DeviceInvalidated
| UnsupportedTier (t : CaptureTier)
| SoftphoneNotFound (who : string)
| Platform (why : string)
| IoErr (why : string).

(** [trait CaptureSource], the calls the pipeline makes. *)
Class CaptureSource (S : Type) := {
  src_enumerate : S -> result (list AudioDevice) CaptureErr;
  src_open : S -> string -> AudioDirection -> S * result Z CaptureErr;
  src_read_frames : S -> Z -> nat -> S * result (list Z) CaptureErr;
}.

(** ** Properties *)

Inductive SuppressorInput :=
| SiSession (now : Z) (active : bool)
| SiJudge (now : Z) (voiced : bool) (duration : Z)
| SiTake (now : Z).

(** One call; the second component is the event's count, if one was taken. *)
Definition sup_step (s : ForeignAudioSuppressor) (i : SuppressorInput)
    : ForeignAudioSuppressor * Z :=
  match i with
  | SiSession now a => (set_session_active s now a, 0)
  | SiJudge now v d => ((judge s now v d).1, 0)
  | SiTake now =>
      let '(s, ev) := take_event s now in
      (s, match ev with Some e => default 0 (ev_count e) | None => 0 end)
  end.

Fixpoint sup_run (s : ForeignAudioSuppressor) (reported : Z) (l : list SuppressorInput)
    : ForeignAudioSuppressor * Z :=
  match l with
  | [] => (s, reported)
  | i :: l' => let '(s', n) := sup_step s i in sup_run s' (reported + n) l'
  end.

(** Audio is marked foreign exactly on tier B, while the softphone session has
    been inactive for the trailing grace, and only when voiced; so the head and tail
    of a call are never marked. Every suppressed millisecond is reported once: over
    any use, what events have carried plus what is still unreported is the total. *)
Theorem foreign_marking_and_reporting p l s r now v d :
  sup_run (Suppressor_new p) 0 l = (s, r) ->
  ((judge s now v d).2 = MarkForeign <->
   fs_session_active s = false /\ v = true /\
   (forall since, inactive_since_ms s = Some since -> trailing_grace_ms p <= sat_sub now since)) /\
  suppressed_ms s = r + unreported_ms s.
Proof.
  assert (H : forall l s0 r0, fs_params s0 = p -> fs_enabled s0 = true ->
    suppressed_ms s0 = r0 + unreported_ms s0 -> sup_run s0 r0 l = (s, r) ->
    fs_params s = p /\ fs_enabled s = true /\ suppressed_ms s = r + unreported_ms s).
  { clear. induction l as [|i l IH]; intros s0 r0 Hp He Hs Hr; [by simplify_eq/=|].
    cbn [sup_run] in Hr. destruct (sup_step s0 i) as [s1 n] eqn:E.
    eapply IH in Hr; [done|..]; clear IH Hr;
      destruct i; unfold sup_step, set_session_active, judge, take_event in E;
      repeat (case_match || case_bool_decide); simplify_eq/=; done || lia. }
  intros Hr. apply H in Hr as (Hp & He & Hs); [|done..]. split; [|done].
  unfold judge. rewrite He, Hp. destruct (fs_session_active s); [naive_solver|].
  destruct (inactive_since_ms s) as [since|].
  - simpl. destruct (Z.ltb_spec (sat_sub now since) (trailing_grace_ms p)).
    + split; [done|]. intros (_ & _ & Hg). specialize (Hg since eq_refl). lia.
    + destruct v; simpl; [|naive_solver]. split; [|done]. intros _. split_and!; try done.
      by intros ? [= <-].
  - destruct v; simpl; naive_solver.
Qed.

Lemma foreign_witness :
  let l := [SiSession 1000 true; SiSession 9000 false; SiJudge 10000 true 20;
            SiJudge 10600 true 1990; SiJudge 12600 true 20; SiTake 12600] in
  let '(s, r) := sup_run (Suppressor_new SuppressorParams_default) 0 l in
  r = 2010 /\ suppressed_ms s = r + unreported_ms s.
Proof.
  intros l. destruct (sup_run (Suppressor_new SuppressorParams_default) 0 l) as [s r] eqn:E.
  split; [vm_compute in E; by injection E|].
  apply (foreign_marking_and_reporting SuppressorParams_default l s r 0 true 0 E).
Defined.

(** The service's narrow copy of the tier rule agrees with the capture crate's
    on every x64 Windows 10-or-later build: for a build number read from the
    registry, both give the same tier and the same build string. *)
Theorem service_tier_agrees build inst raw :
  parse_u u32_max (trim raw) = Some build ->
  let d := classify 10 0 build (bool_decide (inst = Some "Server")) X64 in
  sentinel_capture_tier (Some raw) inst = (td_tier d, td_os_build d).
Proof.
  intros Hp. unfold sentinel_capture_tier. simpl. rewrite Hp. simpl. unfold classify. simpl.
  case_bool_decide as Hs; simpl; repeat case_match; simpl; f_equal; bool_hyps; try lia; done.
Qed.

Lemma service_tier_agrees_witness :
  sentinel_capture_tier (Some "20348 ") None = (Some TierB, "10.0.20348") /\
  sentinel_capture_tier (Some "20348 ") (Some "Server") =
    (td_tier (classify 10 0 20348 true X64), td_os_build (classify 10 0 20348 true X64)).
Proof.
  split; [vm_compute; reflexivity|].
  apply (service_tier_agrees 20348 (Some "Server") "20348 "). vm_compute. reflexivity.
Defined.

Lemma find_sound {A} (f : A -> bool) l x : List.find f l = Some x -> x ∈ l /\ f x = true.
Proof. intros H. apply find_some in H as [? ?]. split; [by apply list_elem_of_In|done]. Qed.

Lemma resolve_by_container_sound pinned av dir d :
  resolve_by_container pinned av dir = Some d ->
  d ∈ av /\ exists want, want ∈ pinned /\ by_container dir want d = true.
Proof.
  induction pinned as [|w pinned IH]; [done|]. simpl.
  destruct (List.find _ av) as [d'|] eqn:E.
  - intros [= ->]. apply find_sound in E as [? ?]. split; [done|]. exists w. split; [by left|done].
  - intros H. destruct (IH H) as (? & want & ? & ?). split; [done|]. exists want.
    split; [by right|done].
Qed.

Lemma resolve_by_name_sound pinned av dir d :
  resolve_by_name pinned av dir = Some d ->
  d ∈ av /\ exists want name, want ∈ pinned /\ pd_friendly_name want = Some name /\
    by_name dir name d = true.
Proof.
  induction pinned as [|w pinned IH]; [done|]. simpl.
  destruct (pd_friendly_name w) as [name|] eqn:En; [destruct (List.find _ av) as [d'|] eqn:E|].
  - intros [= ->]. apply find_sound in E as [? ?]. split; [done|]. exists w, name.
    split_and!; [by left|done|done].
  - intros H. destruct (IH H) as (? & want & nm & ? & ?). split; [done|]. exists want, nm.
    split; [by right|done].
  - intros H. destruct (IH H) as (? & want & nm & ? & ?). split; [done|]. exists want, nm.
    split; [by right|done].
Qed.

Lemma resolve_by_container_None pinned av dir :
  resolve_by_container pinned av dir = None ->
  forall want d, want ∈ pinned -> d ∈ av -> by_container dir want d = false.
Proof.
  induction pinned as [|w pinned IH]; [by intros _ ? ? ?%elem_of_nil|]. simpl.
  destruct (List.find _ av) as [d'|] eqn:E; [done|]. intros H want d [->|Hin]%elem_of_cons Hd.
  - eapply find_none in E; [done|]. by apply list_elem_of_In.
  - by apply IH.
Qed.

(** Capture never falls back to the default endpoint: a resolved device is
    present, active, of the asked direction, and named by the tenant's pinning, by
    container id or, only when no present device matches any pinned container id, by
    exact friendly name. *)
Theorem resolve_pinned_only_pinned pinned av dir d :
  resolve_pinned pinned av dir = Some d ->
  d ∈ av /\ ad_active d = true /\ ad_direction d = dir /\
  exists want, want ∈ pinned /\
    (ad_container_id d = Some (pd_container_id want) \/
     (pd_friendly_name want = Some (ad_friendly_name d) /\
      forall w d', w ∈ pinned -> d' ∈ av -> by_container dir w d' = false)).
Proof.
  unfold resolve_pinned. destruct (resolve_by_container pinned av dir) as [d0|] eqn:E.
  - intros [= ->]. apply resolve_by_container_sound in E as (Hin & want & Hw & Hb).
    unfold by_container in Hb. bool_hyps. split_and!; try done. exists want. split; [done|by left].
  - intros (Hin & want & name & Hw & Hn & Hb)%resolve_by_name_sound.
    unfold by_name in Hb. bool_hyps. split_and!; try done. exists want. split; [done|right].
    split; [congruence|]. by apply resolve_by_container_None.
Qed.

Lemma resolve_pinned_witness :
  let hs := {| ad_id := "e1"; ad_container_id := Some "C"; ad_friendly_name := "Headset";
               ad_direction := DirRender; ad_is_default := false; ad_active := true |} in
  let sp := {| ad_id := "e0"; ad_container_id := Some "S"; ad_friendly_name := "Speakers";
               ad_direction := DirRender; ad_is_default := true; ad_active := true |} in
  let pin := {| pd_container_id := "C"; pd_friendly_name := None |} in
  resolve_pinned [pin] [sp; hs] DirRender = Some hs /\ ad_active hs = true.
Proof.
  intros hs sp pin. split; [reflexivity|].
  apply (resolve_pinned_only_pinned [pin] [sp; hs] DirRender hs). reflexivity.
Defined.
