(* ===== verification/Encode.v ===== *)
(** Opus segmentation (sentinel-agent/src/encode.rs): PCM in, sequenced
    one-second segments out. libopus is a stateful function behind a class. *)

From S2P Require Import Prelude Text Protocol Capture.

Definition BITRATE_BPS : Z := 24000.
Definition SEGMENT_MS : Z := Z.of_nat FRAMES_PER_SEGMENT * FRAME_MS.
Definition SEGMENT_SAMPLES : nat := FRAMES_PER_SEGMENT * FRAME_SAMPLES.
Definition MAX_PACKET : nat := 400.

(** The encoder: a fresh state, and one 20 ms frame at a time into a buffer of
    [MAX_PACKET] bytes. *)
Class Opus (Oc : Type) := {
  opus_new : result Oc string;
  opus_encode : Oc -> list Z -> Oc * result (list u8) string;
}.

Record Segment := {
  seg_channel : Channel;
  seg_seq : Z;            (* u32 *)
  seg_timestamp_ms : Z;   (* u64 *)
  seg_flags : MediaFlags;
  seg_payload : list u8;
}.

Record SegmentEncoder {Oc : Type} := {
  encoder : Oc;
  e_channel : Channel;
  pending : list Z;
  frames : list (list u8);
  next_seq : Z;
  segment_start_ms : Z;
  e_silence_inserted : bool;
  e_foreign : bool;
}.
Arguments SegmentEncoder : clear implicits.

#[export] Instance rebuild_SegmentEncoder {Oc} : Rebuild (SegmentEncoder Oc) := fun e =>
  {| encoder := encoder e; e_channel := e_channel e; pending := pending e;
     frames := frames e; next_seq := next_seq e; segment_start_ms := segment_start_ms e;
     e_silence_inserted := e_silence_inserted e; e_foreign := e_foreign e |}.

Section encoder.
Context {Oc : Type} {Op : Opus Oc}.

Abbreviation E := (SegmentEncoder Oc).

(** Bitrate, FEC and loss settings are configuration of the Opus state. *)
Definition SegmentEncoder_new (ch : Channel) : result E string :=
  let? o := opus_new in
  Ok {| encoder := o; e_channel := ch; pending := []; frames := []; next_seq := 0;
        segment_start_ms := 0; e_silence_inserted := false; e_foreign := false |}.

Definition mark_foreign (e : E) : E := e <| e_foreign := true |>.

(** [encode_frame]: [buf.truncate(n)] keeps at most the buffer. *)
Definition encode_frame (e : E) : E * result (list u8) string :=
  let '(o, r) := opus_encode (encoder e) (pending e) in
  (e <| encoder := o |>, res_map (take MAX_PACKET) r).

Definition emit (e : E) : E * Segment :=
  let seg := {| seg_channel := e_channel e; seg_seq := next_seq e;
                seg_timestamp_ms := segment_start_ms e;
                seg_flags := {| foreign := e_foreign e; silence_inserted := e_silence_inserted e |};
                seg_payload := pack_segment (frames e) |} in
  (e <| frames := [] |> <| next_seq := next_seq e + 1 |>
     <| segment_start_ms := segment_start_ms e + SEGMENT_MS |>
     <| e_silence_inserted := false |> <| e_foreign := false |>, seg).

(** The body run when [pending] holds a whole frame. *)
Definition close_frame (e : E) : E * result (list Segment) string :=
  let '(e, r) := encode_frame e in
  match r with
  | Err x => (e, Err x)
  | Ok frame =>
      let e := e <| frames := frames e ++ [frame] |> <| pending := [] |> in
      if bool_decide (length (frames e) = FRAMES_PER_SEGMENT)
      then let '(e, s) := emit e in (e, Ok [s])
      else (e, Ok [])
  end.

(** The [while offset < samples.len()] loop; [samples] is what is left. *)
Fixpoint push_loop (fuel : nat) (e : E) (samples : list Z) : E * result (list Segment) string :=
  match fuel, samples with
  | _, [] | O, _ => (e, Ok [])
  | S fuel', _ =>
      let want := (FRAME_SAMPLES - length (pending e))%nat in
      let k := Nat.min want (length samples) in
      let e := e <| pending := pending e ++ take k samples |> in
      let samples := drop k samples in
      if bool_decide (length (pending e) = FRAME_SAMPLES) then
        let '(e, r) := close_frame e in
        match r with
        | Err x => (e, Err x)
        | Ok out => let '(e, r) := push_loop fuel' e samples in
                    (e, res_map (fun rest => out ++ rest) r)
        end
      else push_loop fuel' e samples
  end.

Definition push_samples (e : E) (samples : list Z) : E * result (list Segment) string :=
  push_loop (S (length samples)) e samples.

Definition insert_silence (e : E) (gap_ms : Z) : E * result (list Segment) string :=
  if gap_ms =? 0 then (e, Ok [])
  else
    let e := e <| e_silence_inserted := true |> in
    push_samples e (repeat 0 (Z.to_nat (gap_ms * SAMPLE_RATE / 1000))).

Definition enc_flush (e : E) : E * result (option Segment) string :=
  if bool_decide (pending e = []) && bool_decide (frames e = []) then (e, Ok None)
  else
    let '(e, r) :=
      if bool_decide (pending e = []) then (e, Ok tt)
      else
        let e := e <| pending := pending e ++ repeat 0 (FRAME_SAMPLES - length (pending e)) |> in
        let '(e, r) := encode_frame e in
        match r with
        | Err x => (e, Err x)
        | Ok frame => (e <| frames := frames e ++ [frame] |> <| pending := [] |>
                         <| e_silence_inserted := true |>, Ok tt)
        end in
    match r with
    | Err x => (e, Err x)
    | Ok _ =>
        let missing := (FRAMES_PER_SEGMENT - length (frames e))%nat in
        let e := if (0 <? missing)%nat
                 then e <| frames := frames e ++ repeat [] missing |>
                        <| e_silence_inserted := true |>
                 else e in
        let '(e, s) := emit e in (e, Ok (Some s))
    end.

(** ** Lemmas *)

(** Between calls: no whole frame pending, no whole segment accumulated. *)
Definition enc_wf (e : E) : Prop :=
  (length (pending e) < FRAME_SAMPLES)%nat /\ (length (frames e) < FRAMES_PER_SEGMENT)%nat /\
  Forall (fun f => (length f <= MAX_PACKET)%nat) (frames e).

(** One sample: the reference for [push_loop]. *)
Definition push_one (e : E) (s : Z) : E * result (list Segment) string :=
  let e := e <| pending := pending e ++ [s] |> in
  if bool_decide (length (pending e) = FRAME_SAMPLES) then close_frame e else (e, Ok []).

Fixpoint push_each (e : E) (samples : list Z) : E * result (list Segment) string :=
  match samples with
  | [] => (e, Ok [])
  | s :: samples' =>
      let '(e, r) := push_one e s in
      match r with
      | Err x => (e, Err x)
      | Ok out => let '(e, r) := push_each e samples' in (e, res_map (fun rest => out ++ rest) r)
      end
  end.

Lemma res_map_id {A X} (r : result A X) : res_map (fun x => x) r = r.
Proof. by destruct r. Qed.

Lemma push_each_app e xs ys :
  push_each e (xs ++ ys) =
    let '(e1, r1) := push_each e xs in
    match r1 with
    | Err x => (e1, Err x)
    | Ok out => let '(e2, r2) := push_each e1 ys in (e2, res_map (fun rest => out ++ rest) r2)
    end.
Proof.
  revert e. induction xs as [|x xs IH]; intros e; simpl.
  - destruct (push_each e ys) as [e2 r2]. by destruct r2.
  - destruct (push_one e x) as [e1 [out|]]; [|done]. rewrite IH.
    destruct (push_each e1 xs) as [e2 [out2|]]; [|done]. simpl.
    destruct (push_each e2 ys) as [e3 [out3|]]; [|done]. simpl. by rewrite app_assoc.
Qed.

(** Samples that do not complete a frame only accumulate. *)
Lemma push_each_short e xs :
  (length (pending e) + length xs < FRAME_SAMPLES)%nat ->
  push_each e xs = (e <| pending := pending e ++ xs |>, Ok []).
Proof.
  revert e. induction xs as [|x xs IH]; intros e Hl.
  - simpl. rewrite app_nil_r. by destruct e.
  - cbn [push_each]. unfold push_one. cbn [upd pending]. rewrite length_app.
    rewrite bool_decide_eq_false_2 by (simpl in *; lia). rewrite IH.
    + simpl. by rewrite <- app_assoc.
    + simpl in *. rewrite length_app. simpl. lia.
Qed.

(** Samples that exactly complete a frame close it. *)
Lemma push_each_exact e xs :
  xs <> [] -> (length (pending e) + length xs = FRAME_SAMPLES)%nat ->
  push_each e xs = close_frame (e <| pending := pending e ++ xs |>).
Proof.
  intros Hne Hl. destruct (exists_last Hne) as (xs' & x & ->).
  rewrite length_app in Hl. simpl in Hl. rewrite push_each_app, push_each_short by lia.
  cbn [push_each]. unfold push_one. cbn [upd pending]. rewrite !length_app.
  rewrite bool_decide_eq_true_2 by (simpl; lia). simpl. rewrite <- app_assoc.
  destruct (close_frame _) as [e1 [out|]]; simpl; [by rewrite app_nil_r|done].
Qed.

Lemma close_frame_wf e e' out :
  (length (frames e) < FRAMES_PER_SEGMENT)%nat -> Forall (fun f => (length f <= MAX_PACKET)%nat) (frames e) ->
  close_frame e = (e', Ok out) -> enc_wf e' /\ pending e' = [].
Proof.
  intros Hf Hall. unfold close_frame, encode_frame, emit.
  destruct (opus_encode (encoder e) (pending e)) as [o [p|]]; [|done]. cbn [res_map].
  case_bool_decide as Hc; intros [= <- _]; simpl.
  - split; [|done]. split_and!; simpl; [unfold FRAME_SAMPLES; lia|unfold FRAMES_PER_SEGMENT; lia|constructor].
  - split; [|done]. cbn [upd frames] in Hc. rewrite length_app in Hc. simpl in Hc.
    split_and!; simpl; [unfold FRAME_SAMPLES; lia|rewrite length_app; simpl; lia|].
    apply Forall_app. split; [done|]. constructor; [|done]. rewrite length_take. lia.
Qed.

(** The slice-at-a-time loop is the sample-at-a-time reference. *)
Lemma push_loop_each fuel e xs :
  enc_wf e -> (length xs < fuel)%nat -> push_loop fuel e xs = push_each e xs.
Proof.
  revert e xs. induction fuel as [|fuel IH]; intros e xs (Hp & Hf & Hall) Hl; [lia|].
  destruct xs as [|x xs']; [done|]. cbn [push_loop]. set (xs := x :: xs') in *.
  assert (Hne : (0 < length xs)%nat) by (simpl; lia). clearbody xs. clear x xs'.
  set (k := Nat.min (FRAME_SAMPLES - length (pending e)) (length xs)).
  assert (Hk : (1 <= k <= length xs)%nat) by lia.
  cbn [upd pending]. rewrite length_app, length_take, Nat.min_l by lia.
  transitivity (push_each e (take k xs ++ drop k xs)); [|by rewrite take_drop].
  rewrite push_each_app.
  case_bool_decide as Hfull.
  - rewrite push_each_exact.
    + destruct (close_frame _) as [e1 [out|]] eqn:Ec; [|done].
      apply close_frame_wf in Ec as [Hw _]; [|done|done].
      rewrite IH by (done || (rewrite length_drop; lia)). done.
    + intros Hnil%(f_equal length). rewrite length_take in Hnil. simpl in Hnil. lia.
    + rewrite length_take. lia.
  - rewrite push_each_short by (rewrite length_take; lia).
    assert (k = length xs) as Hkl by lia.
    rewrite drop_ge by lia. destruct fuel; simpl; done.
Qed.

Lemma push_one_wf e s e' out : enc_wf e -> push_one e s = (e', Ok out) -> enc_wf e'.
Proof.
  intros (Hp & Hf & Hall). unfold push_one. cbn [upd pending]. rewrite length_app.
  case_bool_decide as Hc; intros H.
  - by eapply close_frame_wf in H as [? _].
  - injection H as <- _. split_and!; [|done|done]. simpl. rewrite length_app. simpl in *. lia.
Qed.

Lemma push_each_wf e xs e' out : enc_wf e -> push_each e xs = (e', Ok out) -> enc_wf e'.
Proof.
  revert e out. induction xs as [|x xs IH]; intros e out Hw H; simpl in H.
  { by injection H as <- _. }
  destruct (push_one e x) as [e1 [o1|]] eqn:E1; [|done].
  destruct (push_each e1 xs) as [e2 [o2|]] eqn:E2; [|done].
  simpl in H. injection H as <- _. eapply IH; [by eapply push_one_wf|done].
Qed.

(** How the capture thread slices its reads does not matter: pushing two
    slices one after the other gives the same segments and the same encoder state as
    pushing their concatenation, for any encoder that accepts the first slice. *)
Theorem push_samples_chunking e xs ys e1 out1 :
  enc_wf e -> push_samples e xs = (e1, Ok out1) ->
  push_samples e (xs ++ ys) =
    let '(e2, r2) := push_samples e1 ys in (e2, res_map (fun rest => out1 ++ rest) r2).
Proof.
  intros Hw H1. unfold push_samples in *.
  rewrite push_loop_each in H1 by (done || lia).
  rewrite push_loop_each by (done || lia). rewrite push_each_app, H1.
  rewrite push_loop_each; [done| |lia]. by eapply push_each_wf.
Qed.

(** Samples this encoder has taken in since its first segment began. *)
Definition consumed (e : E) : Z :=
  16000 * next_seq e + 320 * len (frames e) + len (pending e).

(** A well-formed wire segment: fifty packets, small enough for the u16 length
    field of a media record. *)
Definition segment_ok (s : Segment) : Prop :=
  exists fs, unpack_segment (seg_payload s) = Ok fs /\ length fs = FRAMES_PER_SEGMENT /\
    len (seg_payload s) <= 20100.

Lemma pack_frames_ok fs :
  length fs = FRAMES_PER_SEGMENT -> Forall (fun f => (length f <= MAX_PACKET)%nat) fs ->
  unpack_segment (pack_segment fs) = Ok fs /\ len (pack_segment fs) <= 20100.
Proof.
  intros Hl Hall. split.
  - apply unpack_loop_pack; [done|]. eapply Forall_impl; [exact Hall|]. intros f Hf.
    unfold MAX_PACKET in Hf. ints. lia.
  - rewrite length_pack_segment, Hl.
    assert (sum_list (length <$> fs) <= MAX_PACKET * length fs)%nat as Hs.
    { clear Hl. induction Hall as [|f fs Hf _ IH]; [simpl; lia|].
      rewrite fmap_cons. csimpl. unfold MAX_PACKET in *. lia. }
    rewrite Hl in Hs. unfold MAX_PACKET, FRAMES_PER_SEGMENT in *. lia.
Qed.

(** What one completed call leaves of the segment it may emit. *)
Record produced (e e' : E) (n : Z) (out : list Segment) : Prop := {
  pr_wf : enc_wf e';
  pr_channel : e_channel e' = e_channel e;
  pr_consumed : consumed e' = consumed e + n;
  pr_next : next_seq e' = next_seq e + len out;
  pr_start : segment_start_ms e' = segment_start_ms e + SEGMENT_MS * len out;
  pr_out : forall i s, out !! i = Some s ->
    seg_channel s = e_channel e /\ seg_seq s = next_seq e + Z.of_nat i /\
    seg_timestamp_ms s = segment_start_ms e + SEGMENT_MS * Z.of_nat i /\ segment_ok s;
}.

Lemma produced_trans e1 e2 e3 n m a b :
  produced e1 e2 n a -> produced e2 e3 m b -> produced e1 e3 (n + m) (a ++ b).
Proof.
  intros [w1 c1 k1 n1 s1 o1] [w2 c2 k2 n2 s2 o2]. split;
    [done|congruence|lia|rewrite length_app; lia|rewrite length_app; lia|].
  - intros i s [Hi|[Hge Hi]]%lookup_app_Some; [by apply o1|].
    apply o2 in Hi as (Hc & Hs & Ht & ?).
    rewrite Hc, Hs, Ht, c1, n1, s1, Nat2Z.inj_sub by done. split_and!; try done; lia.
Qed.

Lemma close_frame_produced e e' out :
  length (pending e) = FRAME_SAMPLES -> (length (frames e) < FRAMES_PER_SEGMENT)%nat ->
  Forall (fun f => (length f <= MAX_PACKET)%nat) (frames e) ->
  close_frame e = (e', Ok out) -> produced e e' 0 out.
Proof.
  intros Hp Hf Hall H. pose proof (close_frame_wf _ _ _ Hf Hall H) as [Hw _].
  unfold close_frame, encode_frame, emit in H.
  destruct (opus_encode (encoder e) (pending e)) as [o [pk|]]; [|done]. cbn [res_map] in H.
  assert (Hall' : Forall (fun f => (length f <= MAX_PACKET)%nat) (frames e ++ [take MAX_PACKET pk])).
  { apply Forall_app. split; [done|]. constructor; [|done]. rewrite length_take. lia. }
  case_bool_decide as Hc; injection H as <- <-; simpl in Hc; rewrite length_app in Hc; simpl in Hc.
  - unfold FRAMES_PER_SEGMENT, FRAME_SAMPLES in *.
    split; simpl; try done; try lia; [unfold consumed; simpl; lia|].
    intros [|i] s Hi; [|done]. simpl in Hi. simplify_eq. simpl.
    split_and!; [done|lia|lia|]. exists (frames e ++ [take MAX_PACKET pk]). simpl.
    assert (Hl : length (frames e ++ [take MAX_PACKET pk]) = FRAMES_PER_SEGMENT)
      by (rewrite length_app; simpl; unfold FRAMES_PER_SEGMENT; lia).
    destruct (pack_frames_ok _ Hl Hall') as [? ?]. done.
  - unfold FRAME_SAMPLES in *. split; simpl; try done; try lia.
    unfold consumed. simpl. rewrite length_app. simpl. lia.
Qed.

Lemma push_one_produced e s e' out :
  enc_wf e -> push_one e s = (e', Ok out) -> produced e e' 1 out.
Proof.
  intros Hw H. pose proof (push_one_wf _ _ _ _ Hw H) as Hw'. destruct Hw as (Hp & Hf & Hall).
  unfold push_one in H. case_bool_decide as Hc.
  - apply close_frame_produced in H as [w c k n st o]; [|done|done|done].
    split; try done. rewrite k. unfold consumed. simpl. rewrite length_app. simpl. lia.
  - injection H as <- <-. split; simpl; try done; try lia.
    unfold consumed. simpl. rewrite length_app. simpl. lia.
Qed.

Lemma push_each_produced e xs e' out :
  enc_wf e -> push_each e xs = (e', Ok out) -> produced e e' (len xs) out.
Proof.
  revert e out. induction xs as [|x xs IH]; intros e out Hw H; simpl in H.
  { injection H as <- <-. split; simpl; try done; lia. }
  destruct (push_one e x) as [e1 [o1|]] eqn:E1; [|done].
  destruct (push_each e1 xs) as [e2 [o2|]] eqn:E2; [|done].
  simpl in H. injection H as <- <-.
  replace (len (x :: xs)) with (1 + len xs) by (simpl; lia).
  eapply produced_trans; [by eapply push_one_produced|].
  eapply IH; [by eapply push_one_wf|done].
Qed.

(** C36: A new encoder turns [n] samples into exactly [n / 16000] segments, whatever time
    passed while they came: the [i]-th is of the encoder's channel, carries sequence
    number [i] and the time [1000 * i] ms, which is the second of its own samples and no
    clock's, unpacks to fifty packets, and fits a media record; what is left over is less
    than a second. *)
Theorem encoder_segments_whole_seconds ch e xs e' out :
  SegmentEncoder_new ch = Ok e -> push_samples e xs = (e', Ok out) ->
  len out = len xs / 16000 /\ next_seq e' = len out /\
  (forall i s, out !! i = Some s ->
    seg_channel s = ch /\ seg_seq s = Z.of_nat i /\ seg_timestamp_ms s = 1000 * Z.of_nat i /\
    segment_ok s).
Proof.
  unfold SegmentEncoder_new. rewrite res_bind_Ok. intros (o & _ & [= <-]) Hps.
  unfold push_samples in Hps.
  assert (Hw : enc_wf {| encoder := o; e_channel := ch; pending := []; frames := [];
    next_seq := 0; segment_start_ms := 0; e_silence_inserted := false; e_foreign := false |}).
  { split_and!; simpl; [unfold FRAME_SAMPLES; lia|unfold FRAMES_PER_SEGMENT; lia|constructor]. }
  rewrite push_loop_each in Hps by (done || lia).
  apply push_each_produced in Hps as [(Hp & Hf & _) c k n st Ho]; [|done].
  unfold consumed in k. simpl in *. unfold FRAME_SAMPLES, FRAMES_PER_SEGMENT in *.
  split_and!; [|lia|].
  - apply Z.div_unique with (320 * len (frames e') + len (pending e')); lia.
  - intros i s Hi. destruct (Ho i s Hi) as (? & ? & ? & ?).
    unfold SEGMENT_MS, FRAME_MS in *. simpl in *. split_and!; try done; lia.
Qed.
End encoder.

(** A stand-in codec for concrete runs: every frame becomes one byte. *)
#[export] Instance toy_opus : Opus unit := {|
  opus_new := Ok tt;
  opus_encode o _ := (o, Ok [Byte.x41]);
|}.

Definition toy_encoder (ch : Channel) : SegmentEncoder unit :=
  {| encoder := tt; e_channel := ch; pending := []; frames := []; next_seq := 0;
     segment_start_ms := 0; e_silence_inserted := false; e_foreign := false |}.

Lemma push_samples_chunking_witness :
  let e1 := (push_samples (toy_encoder Far) (repeat 5 900)).1 in
  push_samples (toy_encoder Far) (repeat 5 900 ++ repeat 6 700) =
    let '(e2, r2) := push_samples e1 (repeat 6 700) in
    (e2, res_map (fun rest => [] ++ rest) r2).
Proof.
  apply (push_samples_chunking (toy_encoder Far) (repeat 5 900) (repeat 6 700) _ []).
  - split_and!; [vm_compute; lia|vm_compute; lia|constructor].
  - vm_compute. reflexivity.
Defined.

Lemma encoder_segments_witness :
  let xs := repeat 0 (330 * 100) in
  exists e' s0 s1, push_samples (toy_encoder Near) xs = (e', Ok [s0; s1]) /\
    len [s0; s1] = len xs / 16000 /\ next_seq e' = 2 /\
    (seg_seq s0, seg_timestamp_ms s0) = (0, 0) /\
    (seg_seq s1, seg_timestamp_ms s1) = (1, 1000) /\ segment_ok s1.
Proof.
  intros xs. destruct (push_samples (toy_encoder Near) xs) as [e' r] eqn:E.
  assert (exists s0 s1, r = Ok [s0; s1]) as (s0 & s1 & ->).
  { apply (f_equal snd) in E. vm_compute in E. subst r. by eexists _, _. }
  assert (N : SegmentEncoder_new (Oc := unit) (Op := toy_opus) Near = Ok (toy_encoder Near))
    by reflexivity.
  destruct (encoder_segments_whole_seconds Near (toy_encoder Near) xs e' [s0; s1] N E)
    as (Hl & Hn & Hs).
  exists e', s0, s1. split; [reflexivity|]. split; [exact Hl|]. split; [exact Hn|].
  destruct (Hs 0%nat s0 eq_refl) as (_ & -> & -> & _). split; [reflexivity|].
  destruct (Hs 1%nat s1 eq_refl) as (_ & -> & -> & Hok). split; [reflexivity|exact Hok].
Defined.
