(* ===== verification/Pipeline.v ===== *)
(** The capture pipeline (sentinel-agent/src/pipeline.rs): two channels read from
    a [CaptureSource], judged, detected, encoded and handed to the uplink's spool.

    The voice detector (floating point, sentinel-capture/src/vad.rs) is used
    through the three calls the pipeline makes of it. The ULID and the wall-clock
    text a step would mint are its arguments. *)

From S2P Require Import Prelude Text Protocol Config State Spool Backoff Uplink Capture Encode.

Definition PREROLL_MAX_SEGMENTS : nat := 60.
Definition READ_SAMPLES : nat := FRAME_SAMPLES.

(** [Vad]: its default state, one 20 ms frame, and the current verdict. *)
Class VadOps (V : Type) := {
  vad_default : V;
  vad_push_frame : V -> list Z -> V;
  vad_is_voiced : V -> bool;
}.

Record ChannelPipe {Oc V : Type} := {
  cp_channel : Channel;
  cp_stream : Z;
  cp_vad : V;
  cp_encoder : SegmentEncoder Oc;
  samples_seen : Z;
  ready : list Segment;
}.
Arguments ChannelPipe : clear implicits.

#[export] Instance rebuild_ChannelPipe {Oc V} : Rebuild (ChannelPipe Oc V) := fun p =>
  {| cp_channel := cp_channel p; cp_stream := cp_stream p; cp_vad := cp_vad p;
     cp_encoder := cp_encoder p; samples_seen := samples_seen p; ready := ready p |}.

Record StepResult := {
  sr_transition : option Transition;
  segments_spooled : Z;
  sr_call_id : option string;
}.
#[export] Instance rebuild_StepResult : Rebuild StepResult := fun r =>
  {| sr_transition := sr_transition r; segments_spooled := segments_spooled r;
     sr_call_id := sr_call_id r |}.
Definition StepResult_default : StepResult :=
  {| sr_transition := None; segments_spooled := 0; sr_call_id := None |}.

Record CurrentCall := { cc_call_id : string; cc_started_at : string }.

Record Pipeline {Oc V : Type} := {
  detector : Detector;
  far : option (ChannelPipe Oc V);
  near : option (ChannelPipe Oc V);
  suppressor : ForeignAudioSuppressor;
  tier : CaptureTier;
  p_device_id : string;
  p_user_uid : string;
  clock_ms : Z;
  current_call : option CurrentCall;
  p_events : list ClientEvent;
  last_seq : gmap Channel Z;
  account_ref : option string;
}.
Arguments Pipeline : clear implicits.

#[export] Instance rebuild_Pipeline {Oc V} : Rebuild (Pipeline Oc V) := fun p =>
  {| detector := detector p; far := far p; near := near p; suppressor := suppressor p;
     tier := tier p; p_device_id := p_device_id p; p_user_uid := p_user_uid p;
     clock_ms := clock_ms p; current_call := current_call p; p_events := p_events p;
     last_seq := last_seq p; account_ref := account_ref p |}.

Inductive PipeError :=
| PeCapture (e : CaptureErr)
| PeInvalidated
| PeEncode (why : string)
| PeSpool (e : SpoolError)
| PePinnedMissing.

(** What a step takes from outside: [Ulid::new()] and [OffsetDateTime::now_utc()]. *)
Record Clockwork := { fresh_ulid : string; wall_clock : string }.

Section pipeline.
Context {Oc V T F Sc : Type} {Op : Opus Oc} {Vo : VadOps V} {Js : ControlJson}
  {Cs : CaptureSource Sc}.

Abbreviation PL := (Pipeline Oc V).
Abbreviation UL := (Uplink T F).
Abbreviation M A := (PL * Sc * UL -> PL * Sc * UL * result A PipeError).

Definition restart (p : ChannelPipe Oc V) : result (ChannelPipe Oc V) PipeError :=
  let? e := map_err PeEncode (SegmentEncoder_new (cp_channel p)) in
  Ok (p <| cp_encoder := e |> <| ready := [] |>).

Definition Pipeline_new (policy : Policy) (t : CaptureTier) (device_id user_uid : string) : PL :=
  {| detector := (feed (Detector_new (vad policy)) 0 (UserChanged user_uid)).1;
     far := None; near := None;
     suppressor := match t with
                   | TierA => for_tier_a
                   | TierB => Suppressor_new SuppressorParams_default
                   end;
     tier := t; p_device_id := device_id; p_user_uid := user_uid; clock_ms := 0;
     current_call := None; p_events := []; last_seq := ∅; account_ref := None |}.

Definition current_call_id (p : PL) : option string := cc_call_id <$> current_call p.

Definition p_take_events (p : PL) : PL * list ClientEvent := (p <| p_events := [] |>, p_events p).

Definition set_account_ref (p : PL) (r : option string) : PL := p <| account_ref := r |>.

(** One observation to the detector at the call clock. *)
Definition feed_at_clock (p : PL) (i : DetectorInput) : PL * Transition :=
  let '(d, t) := feed (detector p) (clock_ms p) i in (p <| detector := d |>, t).

Definition open_pipe (ch : Channel) (h : Z) : result (ChannelPipe Oc V) PipeError :=
  let? e := map_err PeEncode (SegmentEncoder_new ch) in
  Ok {| cp_channel := ch; cp_stream := h; cp_vad := vad_default; cp_encoder := e;
        samples_seen := 0; ready := [] |}.

Definition open (policy : Policy) (p : PL) (src : Sc) : PL * Sc * result unit PipeError :=
  match src_enumerate src with
  | Err e => (p, src, Err (PeCapture e))
  | Ok devices =>
      match resolve_pinned (pinned_devices policy) devices DirRender,
            resolve_pinned (pinned_devices policy) devices DirCapture with
      | Some render, Some capture =>
          let '(src, r) := src_open src (ad_id render) DirRender in
          match r with
          | Err e => (p, src, Err (PeCapture e))
          | Ok hf =>
              let '(src, r) := src_open src (ad_id capture) DirCapture in
              match r with
              | Err e => (p, src, Err (PeCapture e))
              | Ok hn =>
                  match open_pipe Far hf with
                  | Err e => (p, src, Err e)
                  | Ok pf =>
                      let p := p <| far := Some pf |> in
                      match open_pipe Near hn with
                      | Err e => (p, src, Err e)
                      | Ok pn =>
                          let p := p <| near := Some pn |> in
                          ((feed_at_clock p Unblock).1, src, Ok tt)
                      end
                  end
              end
          end
      | _, _ =>
          let p := (feed_at_clock p (Block PinnedDeviceMissing)).1 in
          (p <| p_events := p_events p ++ [ClientEvent_new EvDeviceLost (clock_ms p)] |>, src,
           Err PePinnedMissing)
      end
  end.

Definition on_session_state (p : PL) (active : bool) : PL * Transition :=
  feed_at_clock (p <| suppressor := set_session_active (suppressor p) (clock_ms p) active |>)
    (SessionState active).

Definition on_user_changed (p : PL) (uid : string) : PL * Transition :=
  feed_at_clock (p <| p_user_uid := uid |>) (UserChanged uid).

Definition block (p : PL) (r : BlockReason) : PL * Transition := feed_at_clock p (Block r).
Definition unblock (p : PL) : PL * Transition := feed_at_clock p Unblock.

Definition on_device_lost (p : PL) : PL * Transition :=
  feed_at_clock (p <| far := None |> <| near := None |>
                   <| p_events := p_events p ++ [ClientEvent_new EvDeviceLost (clock_ms p)] |>)
    (Block PinnedDeviceMissing).

Definition get_pipe (p : PL) (ch : Channel) : option (ChannelPipe Oc V) :=
  match ch with Far => far p | Near => near p end.
Definition set_pipe (p : PL) (ch : Channel) (c : option (ChannelPipe Oc V)) : PL :=
  match ch with Far => p <| far := c |> | Near => p <| near := c |> end.

(** [samples.chunks(FRAME_SAMPLES)], whole frames only, into the VAD. *)
Fixpoint vad_frames (fuel : nat) (v : V) (l : list Z) : V :=
  match fuel with
  | O => v
  | S n => if (FRAME_SAMPLES <=? length l)%nat
           then vad_frames n (vad_push_frame v (take FRAME_SAMPLES l)) (drop FRAME_SAMPLES l)
           else v
  end.

Definition read_channel (ch : Channel) : M nat := fun st =>
  let '(p, src, u) := st in
  match get_pipe p ch with
  | None => (st, Ok 0%nat)
  | Some pipe =>
      let '(src, r) := src_read_frames src (cp_stream pipe) READ_SAMPLES in
      match r with
      | Err DeviceInvalidated => ((p, src, u), Err PeInvalidated)
      | Err e => ((p, src, u), Err (PeCapture e))
      | Ok [] => ((p, src, u), Ok 0%nat)
      | Ok samples =>
          let pipe := pipe <| samples_seen := samples_seen pipe + len samples |>
                           <| cp_vad := vad_frames (length samples) (cp_vad pipe) samples |> in
          let '(e, r) := push_samples (cp_encoder pipe) samples in
          let pipe := pipe <| cp_encoder := e |> in
          match r with
          | Err x => ((set_pipe p ch (Some pipe), src, u), Err (PeEncode x))
          | Ok finished =>
              let pipe := pipe <| ready := ready pipe ++ finished |> in
              ((set_pipe p ch (Some pipe), src, u), Ok (length samples))
          end
      end
  end.

(** [for pipe in [self.far.as_mut(), self.near.as_mut()].into_iter().flatten()
    { pipe.restart()? }] *)
Definition restart_channel (ch : Channel) : M unit := fun st =>
  let '(p, src, u) := st in
  match get_pipe p ch with
  | None => (st, Ok tt)
  | Some pipe =>
      match restart pipe with
      | Ok pipe => ((set_pipe p ch (Some pipe), src, u), Ok tt)
      | Err e => (st, Err e)
      end
  end.
Definition restart_channels : M unit :=
  let! _ := restart_channel Far in restart_channel Near.

Definition to_row (call_id : string) (s : Segment) (created_ms : Z) : SegmentRow :=
  {| sg_call_id := call_id; sg_channel := seg_channel s; sg_seq := seg_seq s;
     sg_timestamp_ms := seg_timestamp_ms s; sg_flags := seg_flags s;
     sg_payload := seg_payload s; sg_created_ms := created_ms |}.

(** Spool a list of one channel's segments; [n] counts those pushed. *)
Fixpoint spool_segments (ch : Channel) (cid : string) (l : list Segment) (n : Z) : M Z :=
  match l with
  | [] => ret n
  | s :: l' => fun st =>
      let '(p, src, u) := st in
      match push_segment u (to_row cid s (clock_ms p)) with
      | Err e => (st, Err (PeSpool e))
      | Ok u =>
          spool_segments ch cid l' (n + 1)
            (p <| last_seq := <[ch := seg_seq s]> (last_seq p) |>, src, u)
      end
  end.

(** Take a channel's finished segments and spool them. *)
Definition drain_channel (ch : Channel) (cid : string) : M Z := fun st =>
  let '(p, src, u) := st in
  match get_pipe p ch with
  | None => (st, Ok 0)
  | Some pipe =>
      spool_segments ch cid (ready pipe) 0 (set_pipe p ch (Some (pipe <| ready := [] |>)), src, u)
  end.

Definition drain_encoders : M Z := fun st =>
  let '(p, src, u) := st in
  match current_call p with
  | None => (st, Ok 0)
  | Some call =>
      (let! a := drain_channel Far (cc_call_id call) in
       let! b := drain_channel Near (cc_call_id call) in
       ret (a + b)) st
  end.

(** One channel of [finish_call]: the finished segments, then the flushed tail. *)
Definition finish_channel (ch : Channel) (cid : string) : M Z := fun st =>
  let '(p, src, u) := st in
  match get_pipe p ch with
  | None => (st, Ok 0)
  | Some pipe =>
      let '(e, r) := enc_flush (cp_encoder pipe) in
      let p' := set_pipe p ch (Some (pipe <| ready := [] |> <| cp_encoder := e |>)) in
      match r with
      | Err x => ((p', src, u), Err (PeEncode x))
      | Ok tail => spool_segments ch cid (ready pipe ++ option_list tail) 0 (p', src, u)
      end
  end.

(** [last_seq] keyed by the channel number in decimal. *)
Definition last_seq_json (m : gmap Channel Z) : gmap string Z :=
  map_fold (fun ch n acc => <[fmt_u (chan_z ch) := n]> acc) ∅ m.

Definition finish_call (cw : Clockwork) (reason : EndReason) : M Z := fun st =>
  let '(p, src, u) := st in
  match current_call p with
  | None => (st, Ok 0)
  | Some call =>
      (let! a := finish_channel Far (cc_call_id call) in
       let! b := finish_channel Near (cc_call_id call) in
       fun st =>
         let '(p, src, u) := st in
         let end_ := MsgCallEnd {| ce_call_id := cc_call_id call; ce_ended_at := wall_clock cw;
                                   ce_reason := reason; ce_last_seq := last_seq_json (last_seq p) |} in
         ((p, src, Uplink_end_call u (cc_call_id call) end_), Ok (a + b)))
      (p <| current_call := None |>, src, u)
  end.

Definition start_call (cw : Clockwork) (p : PL) (u : UL) : PL * UL :=
  let cid := fresh_ulid cw in
  let start := MsgCallStart
    {| cs_call_id := cid; cs_started_at := wall_clock cw; cs_user_uid := p_user_uid p;
       cs_device_id := p_device_id p; cs_tier := tier p; cs_account_ref := account_ref p;
       cs_dialer_call_id := None; cs_direction := Outbound; cs_codec := "opus";
       cs_rate := SAMPLE_RATE |} in
  (p <| last_seq := ∅ |>
     <| current_call := Some {| cc_call_id := cid; cc_started_at := wall_clock cw |} |>,
   Uplink_begin_call u cid start (clock_ms p)).

(** [apply_transition]; the segments [finish_call] spooled. *)
Definition apply_transition (cw : Clockwork) (t : Transition) : M Z :=
  match t with
  | TArmed | ArmDiscarded => let! _ := restart_channels in ret 0
  | CallStarted => fun st =>
      let '(p, src, u) := st in
      let '(p, u) := start_call cw p u in ((p, src, u), Ok 0)
  | CallEnded reason => finish_call cw reason
  | _ => ret 0
  end.

Definition bound_pipe (keep : bool) (c : ChannelPipe Oc V) : ChannelPipe Oc V :=
  if negb keep then c <| ready := [] |>
  else if (PREROLL_MAX_SEGMENTS <? length (ready c))%nat
  then c <| ready := drop (length (ready c) - PREROLL_MAX_SEGMENTS) (ready c) |>
  else c.

Definition bound_preroll (p : PL) : PL :=
  let keep := bool_decide (state (detector p) = Armed) || bool_decide (is_Some (current_call p)) in
  p <| far := bound_pipe keep <$> far p |> <| near := bound_pipe keep <$> near p |>.

(** The detection part of a step: clock, suppression, both voice inputs. *)
Definition detect (advance_ms : Z) (p : PL) : PL * Transition :=
  let p := p <| clock_ms := clock_ms p + advance_ms |> in
  let voiced (c : option (ChannelPipe Oc V)) :=
    match c with Some x => vad_is_voiced (cp_vad x) | None => false end in
  let far_voiced := voiced (far p) in
  let near_voiced := voiced (near p) in
  let '(s, decision) := judge (suppressor p) (clock_ms p) far_voiced advance_ms in
  let p := p <| suppressor := s |> in
  let p := if bool_decide (decision = MarkForeign)
           then p <| far := (fun c => c <| cp_encoder := mark_foreign (cp_encoder c) |>) <$> far p |>
           else p in
  let '(s, ev) := take_event (suppressor p) (clock_ms p) in
  let p := p <| suppressor := s |> <| p_events := p_events p ++ option_list ev |> in
  let far_for_detector := far_voiced && negb (bool_decide (decision = MarkForeign)) in
  let '(p, t1) := feed_at_clock p (FarVoice far_for_detector) in
  let '(p, t2) := feed_at_clock p (NearVoice near_voiced) in
  (p, if bool_decide (t1 = TNone) then t2 else t1).

Definition step (cw : Clockwork) : M StepResult :=
  let! far_read := read_channel Far in
  let! near_read := read_channel Near in
  if (far_read =? 0)%nat && (near_read =? 0)%nat then ret StepResult_default
  else
    let advance_ms := Z.of_nat (Nat.max far_read near_read) * 1000 / SAMPLE_RATE in
    fun st =>
      let '(p, src, u) := st in
      let '(p, transition) := detect advance_ms p in
      (let! flushed := apply_transition cw transition in
       let! drained := drain_encoders in
       fun st =>
         let '(p, src, u) := st in
         let p := bound_preroll p in
         ((p, src, u),
          Ok {| sr_transition := if bool_decide (transition = TNone) then None else Some transition;
                segments_spooled := flushed + drained;
                sr_call_id := current_call_id p |})) (p, src, u).
End pipeline.
