(* ===== verification/PipelineProps.v ===== *)
(** What the pipeline promises: only audio of an open call reaches the spool, the
    detector and the open call agree across steps, pre-roll is bounded; and what
    happens when the detector is moved outside a step. *)

From S2P Require Import Prelude Text Protocol Config State StateProps Spool SpoolProps Backoff.
From S2P Require Import Uplink Capture Encode Pipeline.

(** ** What a push can change *)

Lemma evict_loop_subseteq f mx m e : (evict_loop f mx m e).1 ⊆ m.
Proof.
  revert m e. induction f as [|f IH]; intros m e; cbn [evict_loop].
  - by case_match.
  - case_match; [done|]. set (P := fun kr : seg_key * Row => _ ∈ _).
    pose proof (sql_delete_subseteq P m) as Hs. destruct (sql_delete P m) as [m' n].
    case_match; [done|]. etrans; [apply IH|done].
Qed.

Lemma enforce_limits_subseteq s now : segments (enforce_limits s now).1 ⊆ segments s.
Proof.
  unfold enforce_limits. set (P := fun kr : seg_key * Row => _ < _).
  pose proof (sql_delete_subseteq P (segments s)) as Hs.
  destruct (sql_delete P (segments s)) as [m a].
  pose proof (evict_loop_subseteq (size m) (max_bytes (limits s)) m a) as He.
  destruct (evict_loop _ _ m a) as [m' e]. simpl in *. case_match; simpl; by etrans.
Qed.

(** Every row of [s'] was in [s] or belongs to a call in [C]. *)
Definition only_calls (C : string -> Prop) (s s' : Spool) : Prop :=
  forall k r, segments s' !! k = Some r -> segments s !! k = Some r \/ C k.1.1.

#[export] Instance only_calls_preorder C : PreOrder (only_calls C).
Proof.
  split.
  - intros s k r Hk. by left.
  - intros s1 s2 s3 H1 H2 k r Hk. destruct (H2 k r Hk) as [Hk2|]; [by apply H1|by right].
Qed.

Lemma push_only_calls s g s' ev :
  push s g = Ok (s', ev) -> only_calls (fun c => c = sg_call_id g) s s'.
Proof.
  unfold push. intros Hp k r Hk. destruct (is_sealed s (sg_call_id g)); [done|].
  injection Hp as Hp. apply (f_equal fst) in Hp. cbn [fst] in Hp. subst s'.
  eapply lookup_weaken in Hk; [|apply enforce_limits_subseteq]. simpl in Hk.
  destruct (segments s !! key_of g) eqn:E; [by left|].
  apply lookup_insert_Some in Hk as [[<- _]|[_ Hk]]; [by right|by left].
Qed.

(** Timings a tenant would set; at zero two transitions can fall in one step. *)
Definition positive (c : VadConfig) : Prop :=
  0 < speech_ms_to_confirm c /\ 0 < armed_timeout_ms c /\ 0 < wrap_ms c /\ 0 < debounce_ms c.

(** The two voice inputs of a step share a clock reading: if the first moves the
    machine, the second does not. *)
Lemma second_feed_quiet d now b1 b2 d1 t1 d2 t2 :
  positive (cfg d) -> feed d now (FarVoice b1) = (d1, t1) -> t1 <> TNone ->
  feed d1 now (NearVoice b2) = (d2, t2) -> t2 = TNone.
Proof.
  intros (H1 & H2 & H3 & H4) F1 Hne F2.
  unfold feed, evaluate, goto in F1. destruct b1; simpl in F1;
    repeat case_match; simplify_eq/=; try done;
    unfold feed, evaluate, goto, debounced, time_in_state_ms in F2; destruct b2; simpl in F2;
    repeat case_match; simplify_eq/=; try done; bool_hyps; ints; try lia; congruence.
Qed.

Section props.
Context {Oc V T F Sc : Type} {Op : Opus Oc} {Vo : VadOps V} {Js : ControlJson}
  {Cs : CaptureSource Sc}.

Abbreviation PL := (Pipeline Oc V).
Abbreviation UL := (Uplink T F).
Abbreviation St := (PL * Sc * UL)%type.

(** What spooling and restarting leave of the pipeline. *)
Definition quiet_frame (C : string -> Prop) (st st' : St) : Prop :=
  detector st'.1.1 = detector st.1.1 /\ current_call st'.1.1 = current_call st.1.1 /\
  clock_ms st'.1.1 = clock_ms st.1.1 /\ only_calls C (spool st.2) (spool st'.2).

#[local] Instance quiet_frame_preorder C : PreOrder (quiet_frame C).
Proof.
  split.
  - intros [[p s] u]. by split_and!.
  - intros [[p1 s1] u1] [[p2 s2] u2] [[p3 s3] u3] (? & ? & ? & ?) (? & ? & ? & ?). simpl in *.
    split_and!; simpl; try congruence. by etrans.
Qed.

Ltac quiet := unfold quiet_frame; simpl; split_and!; done.

Lemma set_pipe_frame (p : PL) ch c :
  detector (set_pipe p ch c) = detector p /\ current_call (set_pipe p ch c) = current_call p /\
  clock_ms (set_pipe p ch c) = clock_ms p /\ last_seq (set_pipe p ch c) = last_seq p.
Proof. by destruct ch. Qed.

Ltac quiet_set :=
  unfold quiet_frame; cbn [fst snd];
  match goal with |- context [set_pipe ?p ?c ?x] =>
    destruct (set_pipe_frame p c x) as (-> & -> & -> & _) end; done.

Lemma read_channel_frame C ch (st st' : St) r :
  read_channel ch st = (st', r) -> quiet_frame C st st'.
Proof.
  destruct st as [[p src] u]. unfold read_channel. intros H.
  destruct (get_pipe p ch) as [pipe|]; [|by simplify_eq].
  destruct (src_read_frames src (cp_stream pipe) READ_SAMPLES) as [src1 [[|x xs]|[]]];
    simplify_eq; try quiet.
  destruct (push_samples _ _) as [e [fin|]]; simplify_eq; quiet_set.
Qed.

Lemma spool_segments_frame ch cid l n (st st' : St) r :
  spool_segments ch cid l n st = (st', r) -> quiet_frame (fun c => c = cid) st st'.
Proof.
  revert n st. induction l as [|s l IH]; intros n [[p src] u] H; cbn [spool_segments] in H.
  { unfold ret in H. by simplify_eq. }
  destruct (push_segment u (to_row cid s (clock_ms p))) as [u1|] eqn:E; [|by simplify_eq].
  etrans; [|by eapply IH]. unfold push_segment in E.
  apply res_bind_Ok in E as ([sp ev] & Hp & E). apply push_only_calls in Hp. simpl in Hp.
  unfold quiet_frame. simpl. split_and!; try done. injection E as <-. destruct ev; exact Hp.
Qed.

Lemma drain_channel_frame ch cid (st st' : St) r :
  drain_channel ch cid st = (st', r) -> quiet_frame (fun c => c = cid) st st'.
Proof.
  destruct st as [[p src] u]. unfold drain_channel. intros H.
  destruct (get_pipe p ch) as [pipe|]; [|by simplify_eq].
  apply spool_segments_frame in H. etrans; [|exact H]. quiet_set.
Qed.

Lemma finish_channel_frame ch cid (st st' : St) r :
  finish_channel ch cid st = (st', r) -> quiet_frame (fun c => c = cid) st st'.
Proof.
  destruct st as [[p src] u]. unfold finish_channel. intros H.
  destruct (get_pipe p ch) as [pipe|]; [|by simplify_eq].
  destruct (enc_flush (cp_encoder pipe)) as [e [tail|]].
  - apply spool_segments_frame in H. etrans; [|exact H]. quiet_set.
  - simplify_eq. quiet_set.
Qed.

Lemma restart_channels_frame C (st st' : St) r :
  restart_channels st = (st', r) -> quiet_frame C st st'.
Proof.
  assert (H1 : forall ch (s s' : St) r, restart_channel ch s = (s', r) -> quiet_frame C s s').
  { intros ch [[p src] u] s' r0. unfold restart_channel.
    destruct (get_pipe p ch) as [pipe|]; [|intros [= <- <-]; done].
    destruct (restart pipe) as [pipe'|]; intros [= <- <-]; [|done]. quiet_set. }
  unfold restart_channels, bindM. destruct (restart_channel Far st) as [s1 [|]] eqn:E1;
    apply H1 in E1; intros H.
  - apply H1 in H. by etrans.
  - by simplify_eq.
Qed.

Lemma drain_encoders_frame (st st' : St) r :
  drain_encoders st = (st', r) ->
  quiet_frame (fun c => current_call_id st.1.1 = Some c) st st'.
Proof.
  destruct st as [[p src] u]. unfold drain_encoders, current_call_id. simpl. intros H.
  destruct (current_call p) as [call|]; [|by simplify_eq]. simpl.
  assert (Himp : forall s s' : St, quiet_frame (fun c => c = cc_call_id call) s s' ->
    quiet_frame (fun c => Some (cc_call_id call) = Some c) s s').
  { intros s s' (? & ? & ? & Ho). split_and!; try done. intros k r0 Hk.
    destruct (Ho k r0 Hk) as [|Hc]; [by left|right]. by rewrite Hc. }
  apply Himp. clear Himp. unfold bindM, ret in H.
  destruct (drain_channel Far _ _) as [s1 [a|]] eqn:E1; apply drain_channel_frame in E1;
    [|by simplify_eq].
  destruct (drain_channel Near _ s1) as [s2 [b|]] eqn:E2; apply drain_channel_frame in E2;
    simplify_eq; by etrans.
Qed.

(** ** Transitions *)

Record applied (t : Transition) (cw : Clockwork) (st st' : St) (ok : bool) : Prop := {
  ap_detector : detector st'.1.1 = detector st.1.1;
  ap_clock : clock_ms st'.1.1 = clock_ms st.1.1;
  ap_rows : only_calls (fun c => current_call_id st.1.1 = Some c) (spool st.2) (spool st'.2);
  ap_call : ok = true ->
    current_call st'.1.1 = match t with
      | CallStarted => Some {| cc_call_id := fresh_ulid cw; cc_started_at := wall_clock cw |}
      | CallEnded _ => None
      | _ => current_call st.1.1
      end;
}.

Lemma finish_call_applied cw reason (st st' : St) r :
  finish_call cw reason st = (st', r) -> applied (CallEnded reason) cw st st' (is_ok r).
Proof.
  destruct st as [[p src] u]. unfold finish_call, bindM. intros H.
  destruct (current_call p) as [call|] eqn:Hc.
  2: { simplify_eq. split; simpl; try done. }
  destruct (finish_channel Far _ _) as [s1 r1] eqn:E1. apply finish_channel_frame in E1.
  destruct r1 as [a|]; simplify_eq.
  2: { destruct E1 as (? & ? & ? & Ho). split; simpl; try done.
       intros k r0 Hk. unfold current_call_id. rewrite Hc. simpl.
       destruct (Ho k r0 Hk) as [|Hx]; [by left|right]. by rewrite Hx. }
  destruct (finish_channel Near _ s1) as [[[p2 src2] u2] r2] eqn:E2. apply finish_channel_frame in E2.
  pose proof (transitivity E1 E2) as (Hd & Hcc & Hk & Ho). simpl in *.
  destruct r2 as [b|]; simplify_eq; (split; simpl; try done);
    intros k r0 Hr; unfold current_call_id; rewrite Hc; simpl;
    (destruct (Ho k r0 Hr) as [|Hx]; [by left|right; by rewrite Hx]).
Qed.

Lemma apply_transition_applied cw t (st st' : St) r :
  apply_transition cw t st = (st', r) -> applied t cw st st' (is_ok r).
Proof.
  assert (Hret : forall n, ret n st = (st', r) -> (forall reason, t <> CallEnded reason) ->
    t <> CallStarted -> applied t cw st st' (is_ok r)).
  { intros n H Ht1 Ht2. unfold ret in H. simplify_eq. split; try done. intros _.
    destruct t; try done. by destruct (Ht1 reason). }
  assert (Hrest : (let! _ := restart_channels in ret 0) st = (st', r) ->
    (forall reason, t <> CallEnded reason) -> t <> CallStarted -> applied t cw st st' (is_ok r)).
  { intros H Ht1 Ht2. unfold bindM in H. destruct (restart_channels st) as [s1 r1] eqn:E.
    apply (restart_channels_frame (fun _ => False)) in E as (Hd & Hc & Hk & Ho).
    destruct r1; unfold ret in H; simplify_eq;
      (split; [done|done|intros k r0 Hr; destruct (Ho k r0 Hr) as [|[]]; by left|]); [|done].
    intros _. rewrite Hc. destruct t; try done. by destruct (Ht1 reason). }
  destruct t; cbn [apply_transition]; eauto.
  - destruct st as [[p src] u]. intros H. unfold start_call in H. simpl in H. simplify_eq.
    split; simpl; try done. intros k r0 Hr. left.
    pose proof (begin_call_tables (spool u) (fresh_ulid cw)) as Hb.
    rewrite (proj1 (Hb _ _)) in Hr. done.
  - apply finish_call_applied.
Qed.

Lemma feed_at_clock_frame (p p' : PL) i t :
  feed_at_clock p i = (p', t) ->
  feed (detector p) (clock_ms p) i = (detector p', t) /\ current_call p' = current_call p /\
  clock_ms p' = clock_ms p /\ far p' = far p /\ near p' = near p.
Proof.
  unfold feed_at_clock. destruct (feed (detector p) (clock_ms p) i) as [d x]. by intros [= <- <-].
Qed.

Lemma detect_frame adv (p p' : PL) t :
  detect adv p = (p', t) ->
  current_call p' = current_call p /\ clock_ms p' = clock_ms p + adv /\
  exists b1 b2 d1 t1 t2, feed (detector p) (clock_ms p + adv) (FarVoice b1) = (d1, t1) /\
    feed d1 (clock_ms p + adv) (NearVoice b2) = (detector p', t2) /\
    t = (if bool_decide (t1 = TNone) then t2 else t1).
Proof.
  unfold detect. destruct (judge _ _ _ _) as [s dec]. destruct (take_event _ _) as [s2 ev].
  destruct (feed_at_clock _ (FarVoice _)) as [p1 t1] eqn:E1.
  destruct (feed_at_clock p1 _) as [p2 t2] eqn:E2. intros [= <- <-].
  apply feed_at_clock_frame in E1 as (F1 & C1 & K1 & _).
  apply feed_at_clock_frame in E2 as (F2 & C2 & K2 & _).
  rewrite C2, C1, K2, K1 in *.
  destruct (bool_decide (dec = MarkForeign)); (split_and!; [done|done|]; by repeat eexists).
Qed.

(** C14: Audio reaches the spool only as part of a call: every row a step adds,
    whether the step succeeds or fails part-way, is filed under the call that was
    open before the step or the one open after it. With no call open before or after,
    a step spools nothing. *)
Theorem step_spools_only_open_call cw (p p' : PL) (src src' : Sc) (u u' : UL) r k row :
  step cw (p, src, u) = ((p', src', u'), r) ->
  segments (spool u') !! k = Some row ->
  segments (spool u) !! k = Some row \/ current_call_id p = Some k.1.1 \/
  current_call_id p' = Some k.1.1.
Proof.
  unfold step. unfold bindM at 1. intros H Hk.
  destruct (read_channel Far _) as [s1 r1] eqn:E1.
  apply (read_channel_frame (fun _ => False)) in E1.
  destruct r1 as [n1|]; simplify_eq.
  2: { destruct E1 as (_ & _ & _ & Ho). destruct (Ho k row Hk) as [|[]]. by left. }
  unfold bindM at 1 in H. destruct (read_channel Near s1) as [s2 r2] eqn:E2.
  apply (read_channel_frame (fun _ => False)) in E2. pose proof (transitivity E1 E2) as E.
  clear E1 E2. destruct r2 as [n2|]; simplify_eq.
  2: { destruct E as (_ & _ & _ & Ho). destruct (Ho k row Hk) as [|[]]. by left. }
  destruct ((n1 =? 0)%nat && (n2 =? 0)%nat).
  { unfold ret in H. simplify_eq. destruct E as (_ & _ & _ & Ho).
    destruct (Ho k row Hk) as [|[]]. by left. }
  destruct s2 as [[p2 src2] u2]. destruct E as (_ & Hc2 & _ & Ho2). simpl in Hc2, Ho2.
  destruct (detect _ p2) as [p3 t] eqn:Ed. apply detect_frame in Ed as (Hc3 & _ & _).
  unfold bindM at 1 in H. destruct (apply_transition cw t (p3, src2, u2)) as [s4 r4] eqn:E4.
  apply apply_transition_applied in E4 as [_ _ Ho4 _]. simpl in Ho4.
  unfold current_call_id in Ho4. rewrite Hc3, Hc2 in Ho4. fold (current_call_id p) in Ho4.
  assert (Hpre : segments (spool s4.2) !! k = Some row ->
    segments (spool u) !! k = Some row \/ current_call_id p = Some k.1.1).
  { intros Hx. destruct (Ho4 k row Hx) as [Hy|]; [|by right].
    destruct (Ho2 k row Hy) as [|[]]. by left. }
  destruct r4 as [fl|]; simplify_eq; [|destruct (Hpre Hk); tauto].
  unfold bindM at 1 in H. destruct (drain_encoders s4) as [[[p5 src5] u5] r5] eqn:E5.
  apply drain_encoders_frame in E5 as (_ & Hc5 & _ & Ho5). simpl in Hc5, Ho5.
  assert (u' = u5 /\ current_call p' = current_call p5) as [-> Hcc].
  { destruct r5; by simplify_eq. }
  destruct (Ho5 k row Hk) as [Hx|Hx]; [destruct (Hpre Hx); tauto|].
  right. right. unfold current_call_id in *. by rewrite Hcc, Hc5.
Qed.

(** ** The detector and the open call *)

Definition agree (p : PL) : Prop :=
  is_Some (current_call p) <-> abs (state (detector p)) = Open.

Lemma spec_step_call (s s' : SpecState) (c c' : option CurrentCall) t fresh :
  spec_step s t = Some s' -> (is_Some c <-> s = Open) ->
  c' = match t with CallStarted => Some fresh | CallEnded _ => None | _ => c end ->
  (is_Some c' <-> s' = Open).
Proof.
  intros Hs Hc ->. destruct t, s; simplify_eq/=; try done; try (by rewrite Hc);
    split; try done; by (intros [? ?] || eexists).
Qed.

(** C15: Across a successful step the detector and the open call move together: a
    call is open exactly when the detector is in a call (or wrapping one up), so
    [call.start] and [call.end] are written once per detected call. It needs the
    tenant's timings to be positive. *)
Theorem step_keeps_call_and_detector_together cw (p p' : PL) (src src' : Sc) (u u' : UL) r :
  positive (cfg (detector p)) -> agree p ->
  step cw (p, src, u) = ((p', src', u'), Ok r) ->
  agree p' /\ cfg (detector p') = cfg (detector p).
Proof.
  unfold step. unfold bindM at 1. intros Hpos Ha H.
  destruct (read_channel Far _) as [s1 r1] eqn:E1.
  apply (read_channel_frame (fun _ => False)) in E1. destruct r1 as [n1|]; [|done].
  unfold bindM at 1 in H. destruct (read_channel Near s1) as [s2 r2] eqn:E2.
  apply (read_channel_frame (fun _ => False)) in E2. pose proof (transitivity E1 E2) as E.
  clear E1 E2. destruct r2 as [n2|]; [|done].
  destruct s2 as [[p2 src2] u2]. destruct E as (Hd2 & Hc2 & _ & _). simpl in Hd2, Hc2.
  unfold agree in *. rewrite <- Hd2, <- Hc2 in *. clear p Hd2 Hc2.
  destruct ((n1 =? 0)%nat && (n2 =? 0)%nat); [unfold ret in H; by simplify_eq|].
  destruct (detect _ p2) as [p3 t] eqn:Ed.
  apply detect_frame in Ed as (Hc3 & _ & b1 & b2 & d1 & t1 & t2 & F1 & F2 & Ht).
  assert (Hspec : spec_step (abs (state (detector p2))) t = Some (abs (state (detector p3)))).
  { pose proof (feed_refines _ _ _ _ _ F1) as R1. pose proof (feed_refines _ _ _ _ _ F2) as R2.
    subst t. case_bool_decide as Hn.
    - subst t1. simpl in R1. injection R1 as ->. done.
    - assert (t2 = TNone) as -> by (by eapply second_feed_quiet).
      simpl in R2. injection R2 as <-. done. }
  assert (Hcfg : cfg (detector p3) = cfg (detector p2)).
  { apply feed_frame in F1 as [_ ?]. apply feed_frame in F2 as [_ ?]. congruence. }
  unfold bindM at 1 in H. destruct (apply_transition cw t (p3, src2, u2)) as [s4 r4] eqn:E4.
  destruct r4 as [fl|]; [|done].
  apply apply_transition_applied in E4 as [Hd4 _ _ Hc4]. specialize (Hc4 eq_refl). simpl in *.
  unfold bindM at 1 in H. destruct (drain_encoders s4) as [[[p5 src5] u5] r5] eqn:E5.
  apply drain_encoders_frame in E5 as (Hd5 & Hc5 & _ & _). simpl in *.
  destruct r5 as [dr|]; [|done]. simplify_eq.
  simpl. rewrite Hd5, Hd4, Hc5. split; [|done].
  eapply spec_step_call; [exact Hspec|exact Ha|]. by rewrite Hc4, Hc3.
Qed.

(** A block during a call moves the detector without closing the call: the
    [CallEnded] transition is only returned, the call stays open in the pipeline with
    no [call.end] written, and audio the encoder has finished is still filed under it
    at the next drain. *)
Theorem block_leaves_call_open (p : PL) c reason :
  agree p -> current_call p = Some c ->
  let '(p', t) := block p reason in
  t = CallEnded (end_reason_of reason) /\ state (detector p') = Blocked /\
  current_call p' = Some c /\ ~ agree p' /\
  forall (src : Sc) (u : UL) pipe s u',
    far p' = Some pipe -> ready pipe = [s] -> near p' = None ->
    push_segment u (to_row (cc_call_id c) s (clock_ms p')) = Ok u' ->
    exists p'', drain_encoders (p', src, u) = ((p'', src, u'), Ok 1).
Proof.
  intros Ha Hc. unfold block, feed_at_clock.
  assert (Hs : in_call_or_wrap (state (detector p)) = true).
  { assert (abs (state (detector p)) = Open) as E by (apply Ha; by eexists).
    by destruct (state (detector p)). }
  unfold feed, enter_blocked. simpl. rewrite Hs. simpl. split_and!; try done.
  - unfold agree. simpl. rewrite Hc. intros [Hf _]. by specialize (Hf (ex_intro _ c eq_refl)).
  - intros src u pipe s u' Hfar Hrdy Hnear Hpush.
    unfold drain_encoders. simpl. rewrite Hc. unfold bindM, drain_channel. simpl.
    rewrite Hfar, Hrdy. cbn [spool_segments]. simpl. rewrite Hpush. simpl. rewrite Hnear. simpl.
    by eexists.
Qed.
End props.

(** ** Concrete steps *)

(** A voice detector that hears any non-zero sample, and a source that plays two
    tapes (stream 1 is far, stream 2 is near). *)
#[export] Instance toy_vad : VadOps bool := {|
  vad_default := false;
  vad_push_frame _ l := existsb (fun z => negb (z =? 0)) l;
  vad_is_voiced v := v;
|}.
Record Tapes := { tape1 : list (list Z); tape2 : list (list Z) }.
#[export] Instance toy_source : CaptureSource Tapes := {|
  src_enumerate _ := Ok [];
  src_open t _ d := (t, Ok (match d with DirRender => 1 | DirCapture => 2 end));
  src_read_frames t h _ :=
    if h =? 1 then match tape1 t with
                   | [] => (t, Ok [])
                   | l :: r => ({| tape1 := r; tape2 := tape2 t |}, Ok l)
                   end
    else match tape2 t with
         | [] => (t, Ok [])
         | l :: r => ({| tape1 := tape1 t; tape2 := r |}, Ok l)
         end;
|}.
#[export] Instance toy_json : ControlJson := {| to_json _ := "{}"; from_json _ := None |}.

Definition toy_pipe (ch : Channel) (h : Z) (rdy : list Segment) : ChannelPipe unit bool :=
  {| cp_channel := ch; cp_stream := h; cp_vad := false; cp_encoder := toy_encoder ch;
     samples_seen := 0; ready := rdy |}.
Definition toy_segment (ch : Channel) (n : Z) : Segment :=
  {| seg_channel := ch; seg_seq := n; seg_timestamp_ms := 1000 * n;
     seg_flags := {| foreign := false; silence_inserted := false |}; seg_payload := [Byte.x01] |}.

(** In the middle of call "call-1", one far segment finished. *)
Definition toy_in_call : Pipeline unit bool :=
  (Pipeline_new Policy_default TierA "dev" "agent-1")
    <| detector := (run (Detector_new VadConfig_default) (take 6 sample_call)).1 |>
    <| clock_ms := 3500 |> <| far := Some (toy_pipe Far 1 [toy_segment Far 0]) |>
    <| current_call := Some {| cc_call_id := "call-1"; cc_started_at := "t0" |} |>.
Definition toy_uplink : Uplink unit unit := Uplink_new (fresh_db SpoolLimits_default) tt.
Definition toy_tapes : Tapes := {| tape1 := [repeat 9 320]; tape2 := [] |}.
Definition toy_clockwork : Clockwork := {| fresh_ulid := "call-2"; wall_clock := "t1" |}.

Definition toy_step := step toy_clockwork (toy_in_call, toy_tapes, toy_uplink).

Lemma step_spools_witness :
  let k : seg_key := ("call-1", 0, 0) in
  is_ok toy_step.2 = true /\ segments (spool toy_uplink) !! k = None /\
  (segments (spool toy_uplink) !! k = Some (row_of (to_row "call-1" (toy_segment Far 0) 3520)) \/
   current_call_id toy_in_call = Some k.1.1 \/ current_call_id toy_step.1.1.1 = Some k.1.1).
Proof.
  intros k. split; [vm_compute; reflexivity|]. split; [vm_compute; reflexivity|].
  apply (step_spools_only_open_call toy_clockwork toy_in_call toy_step.1.1.1 toy_tapes
           toy_step.1.1.2 toy_uplink toy_step.1.2 toy_step.2 k).
  - vm_compute. reflexivity.
  - vm_compute. reflexivity.
Defined.

Lemma toy_agree : agree toy_in_call.
Proof. split; [vm_compute; reflexivity|]. intros _. by eexists. Qed.

Lemma step_keeps_together_witness :
  agree toy_step.1.1.1 /\ cfg (detector toy_step.1.1.1) = VadConfig_default.
Proof.
  destruct toy_step.2 as [r|e] eqn:E; [|vm_compute in E; discriminate].
  apply (step_keeps_call_and_detector_together toy_clockwork toy_in_call toy_step.1.1.1 toy_tapes
           toy_step.1.1.2 toy_uplink toy_step.1.2 r).
  - vm_compute. repeat split.
  - apply toy_agree.
  - rewrite <- E. vm_compute. reflexivity.
Defined.

Lemma block_leaves_call_open_witness :
  let '(p', t) := block toy_in_call DeviceRevoked in
  t = CallEnded Revoked /\ state (detector p') = Blocked /\
  current_call_id p' = Some "call-1".
Proof.
  pose proof (block_leaves_call_open (Sc := Tapes) (T := unit) (F := unit) toy_in_call
    {| cc_call_id := "call-1"; cc_started_at := "t0" |} DeviceRevoked toy_agree eq_refl) as H.
  destruct (block toy_in_call DeviceRevoked) as [p' t]. destruct H as (H1 & H2 & H3 & _).
  split; [exact H1|]. split; [exact H2|]. unfold current_call_id. by rewrite H3.
Defined.
