(* ===== verification/Utf8.v ===== *)
(** UTF-8 as Rust's [str] sees it: the first character or invalid chunk of a byte
    string, [String::from_utf8_lossy] and character boundaries. *)

From S2P Require Import Prelude Text.

Definition byte_in (lo hi : Z) (a : ascii) : bool := (lo <=? code a) && (code a <=? hi).
(** A continuation byte, 0x80..=0xBF. *)
Definition is_cont : ascii -> bool := byte_in 128 191.

(** Length of the first chunk of [l], and whether it is a character: an invalid
    chunk is the longest prefix of a character that the next byte breaks off. *)
Definition utf8_front (l : list ascii) : nat * bool :=
  match l with
  | [] => (0%nat, true)
  | a :: l1 =>
      let c := code a in
      if c <? 128 then (1%nat, true)
      else if byte_in 194 223 a then
        match l1 with
        | b :: _ => if is_cont b then (2%nat, true) else (1%nat, false)
        | [] => (1%nat, false)
        end
      else if byte_in 224 239 a then
        match l1 with
        | b :: l2 =>
            if byte_in (if c =? 224 then 160 else 128) (if c =? 237 then 159 else 191) b then
              match l2 with
              | d :: _ => if is_cont d then (3%nat, true) else (2%nat, false)
              | [] => (2%nat, false)
              end
            else (1%nat, false)
        | [] => (1%nat, false)
        end
      else if byte_in 240 244 a then
        match l1 with
        | b :: l2 =>
            if byte_in (if c =? 240 then 144 else 128) (if c =? 244 then 143 else 191) b then
              match l2 with
              | d :: l3 =>
                  if is_cont d then
                    match l3 with
                    | e :: _ => if is_cont e then (4%nat, true) else (3%nat, false)
                    | [] => (3%nat, false)
                    end
                  else (2%nat, false)
              | [] => (2%nat, false)
              end
            else (1%nat, false)
        | [] => (1%nat, false)
        end
      else (1%nat, false)
  end.

(** U+FFFD. *)
Definition replacement : list ascii := [chr 239; chr 191; chr 189].

Fixpoint lossy (fuel : nat) (l : list ascii) : list ascii :=
  match fuel, l with
  | S n, _ :: _ =>
      let '(k, ok) := utf8_front l in
      (if ok then take k l else replacement) ++ lossy n (drop k l)
  | _, _ => []
  end.
Definition from_utf8_lossy (l : list ascii) : string := str (lossy (length l) l).

Fixpoint valid (fuel : nat) (l : list ascii) : bool :=
  match fuel, l with
  | _, [] => true
  | O, _ => false
  | S n, _ => let '(k, ok) := utf8_front l in ok && valid n (drop k l)
  end.
(** The invariant of a [&str]. *)
Definition is_utf8 (s : string) : bool := valid (length (chars s)) (chars s).

Lemma utf8_front_pos l : l <> [] -> (1 <= (utf8_front l).1 <= 4)%nat.
Proof. destruct l as [|a l]; [done|]. intros _. cbn [utf8_front]. repeat case_match; simpl; lia. Qed.

Lemma lossy_valid n l : valid n l = true -> lossy n l = l.
Proof.
  revert l. induction n as [|n IH]; intros [|a l]; try done.
  cbn [valid lossy]. destruct (utf8_front (a :: l)) as [k ok].
  intros [-> Hv]%andb_true_iff. by rewrite IH, take_drop.
Qed.

Lemma from_utf8_lossy_valid s : is_utf8 s = true -> from_utf8_lossy (chars s) = s.
Proof. intros H. unfold from_utf8_lossy. by rewrite lossy_valid, str_chars. Qed.

(** ASCII text is UTF-8. *)
Lemma is_utf8_ascii s : forallb (byte_in 0 127) (chars s) = true -> is_utf8 s = true.
Proof.
  unfold is_utf8. induction (chars s) as [|a l IH]; [done|].
  cbn [forallb length valid utf8_front]. unfold byte_in at 1. intros ?. bool_hyps.
  destruct (Z.ltb_spec (code a) 128); [|lia]. simpl. by apply IH.
Qed.
