(* ===== verification/Pkce.v ===== *)
(** The desktop sign-in's strings: PKCE parameters, the authorize URL, the loopback
    callback and its request line (sentinel-agent/src/auth/pkce.rs, loopback.rs).

    SHA-256 and base64url are the crates' functions, parameters here; a Rust panic
    is [None]. *)

From S2P Require Import Prelude Text Config Utf8.

(** ** pkce.rs *)

Definition ENTROPY_BYTES : nat := 32.
Definition PKCE_METHOD : string := "S256".

Record Pkce := { verifier : string; challenge : string }.

(** [trait Entropy]. *)
Class Entropy (En : Type) := fill : En -> nat -> En * list u8.

Record OidcConfig := {
  oc_authorize_endpoint : string;
  oc_token_endpoint : string;
  oc_client_id : string;
  oc_tenant_id : option string;
  oc_scopes : list string;
}.

Definition non_blank (o : option string) : option string :=
  match o with Some t => if str_is_empty (trim t) then None else Some t | None => None end.

Definition from_local (c : LocalConfig) : OidcConfig :=
  {| oc_authorize_endpoint := trim (authorize_endpoint (oidc c));
     oc_token_endpoint := token_endpoint c;
     oc_client_id := trim (client_id (oidc c));
     oc_tenant_id := match non_blank (identity_platform_tenant (oidc c)) with
                     | Some t => Some t
                     | None => non_blank (tenant_hint c)
                     end;
     oc_scopes := scopes (oidc c) |}.

Record AuthAttempt := {
  at_pkce : Pkce;
  at_state : string;
  at_nonce : string;
  redirect_uri : string;
}.

(** ** Percent encoding *)

Definition unreserved (a : ascii) : bool :=
  is_ascii_alphanumeric a ||
  bool_decide (a ∈ ["-"; "."; "_"; "~"]%char).

(** One upper-case hexadecimal digit. *)
Definition hex_upper (n : Z) : ascii := if n <? 10 then chr (48 + n) else chr (55 + n).

Definition encode_byte (a : ascii) : list ascii :=
  if unreserved a then [a] else ["%"%char; hex_upper (code a / 16); hex_upper (code a mod 16)].

Definition percent_encode (s : string) : string := str (chars s ≫= encode_byte).

(** [char::to_digit(16)] on a byte. *)
Definition hex_digit (a : ascii) : option Z :=
  let c := code a in
  if (48 <=? c) && (c <=? 57) then Some (c - 48)
  else if (65 <=? c) && (c <=? 70) then Some (c - 55)
  else if (97 <=? c) && (c <=? 102) then Some (c - 87)
  else None.

(** [u8::from_str_radix(s, 16)] on a two-byte string; a leading [+] is a sign. *)
Definition from_str_radix_16 (x y : ascii) : option Z :=
  if code x =? 43 then hex_digit y
  else match hex_digit x, hex_digit y with
  | Some h, Some l => Some (16 * h + l)
  | _, _ => None
  end.

(** The byte loop; slicing inside a character panics. *)
Fixpoint percent_decode_l (l : list ascii) : option (list ascii) :=
  match l with
  | [] => Some []
  | c :: t =>
      if code c =? 37 then
        match t with
        | x :: (y :: rest) =>
            if is_cont x || match rest with z :: _ => is_cont z | [] => false end then None
            else match from_str_radix_16 x y with
            | Some v => cons (chr v) <$> percent_decode_l rest
            | None => cons c <$> percent_decode_l t
            end
        | _ => cons c <$> percent_decode_l t
        end
      else if code c =? 43 then cons " "%char <$> percent_decode_l t
      else cons c <$> percent_decode_l t
  end.

Definition percent_decode (s : string) : option string :=
  from_utf8_lossy <$> percent_decode_l (chars s).

(** ** The callback *)

Inductive CallbackError :=
| WrongPath (path : string)
| NoCode
| NoState
| StateMismatch
| Provider (pcode : string) (description : option string)
| Malformed.

Record Callback := { cb_code : string; cb_state : string }.

Record CbParams := {
  q_code : option string;
  q_state : option string;
  q_error : option string;
  q_description : option string;
}.
#[export] Instance rebuild_CbParams : Rebuild CbParams := fun q =>
  {| q_code := q_code q; q_state := q_state q; q_error := q_error q;
     q_description := q_description q |}.
Definition no_params : CbParams :=
  {| q_code := None; q_state := None; q_error := None; q_description := None |}.

(** One [key=value] pair of the query. *)
Definition callback_pair (q : CbParams) (kv : string) : option CbParams :=
  let '(k, v) := default (kv, "") (split_once "=" kv) in
  match percent_decode v with
  | None => None
  | Some v => Some
      (if bool_decide (k = "code") then q <| q_code := Some v |>
       else if bool_decide (k = "state") then q <| q_state := Some v |>
       else if bool_decide (k = "error") then q <| q_error := Some v |>
       else if bool_decide (k = "error_description") then q <| q_description := Some v |>
       else q)
  end.

Fixpoint callback_params (q : CbParams) (pairs : list string) : option CbParams :=
  match pairs with
  | [] => Some q
  | kv :: pairs' =>
      match callback_pair q kv with None => None | Some q => callback_params q pairs' end
  end.

Definition callback_of (q : CbParams) : result Callback CallbackError :=
  match q_error q with
  | Some c => Err (Provider c (q_description q))
  | None =>
      let? st := ok_or (q_state q) NoState in
      let? c := ok_or (match q_code q with
                       | Some c => if str_is_empty c then None else Some c
                       | None => None
                       end) NoCode in
      Ok {| cb_code := c; cb_state := st |}
  end.

Definition parse_callback (target : string) : option (result Callback CallbackError) :=
  let '(path, query) := default (target, "") (split_once "?" target) in
  if negb (bool_decide (path = "/callback")) then Some (Err (WrongPath path))
  else callback_of <$>
         callback_params no_params (filter (fun p => str_is_empty p = false) (split "&" query)).

(** [constant_time_eq] over bytes: a difference is accumulated, never branched on. *)
Definition constant_time_eq (a b : list ascii) : bool :=
  if negb (length a =? length b)%nat then false
  else fold_left (fun diff p => Z.lor diff (Z.lxor (code p.1) (code p.2))) (zip a b) 0 =? 0.

Definition validate (attempt : AuthAttempt) (cb : Callback) : result string CallbackError :=
  if negb (constant_time_eq (chars (at_state attempt)) (chars (cb_state cb)))
  then Err StateMismatch
  else Ok (cb_code cb).

(** ** The attempt and its URL *)

Section attempt.
Context {En : Type} {Ent : Entropy En} (sha256 : list ascii -> list u8)
  (b64url : list u8 -> string).

Definition challenge_for (v : string) : string := b64url (sha256 (chars v)).

Definition generate_pkce (en : En) : En * Pkce :=
  let '(en, bytes) := fill en ENTROPY_BYTES in
  let v := b64url bytes in
  (en, {| verifier := v; challenge := challenge_for v |}).

Definition generate_nonce (en : En) : En * string :=
  let '(en, bytes) := fill en ENTROPY_BYTES in (en, b64url bytes).

Definition AuthAttempt_new (en : En) (port : Z) : En * AuthAttempt :=
  let '(en, p) := generate_pkce en in
  let '(en, s) := generate_nonce en in
  let '(en, n) := generate_nonce en in
  (en, {| at_pkce := p; at_state := s; at_nonce := n;
          redirect_uri := "http://127.0.0.1:" +:+ fmt_u port +:+ "/callback" |}).
End attempt.

(** [v.join(sep)]. *)
Fixpoint join (sep : string) (l : list string) : string :=
  match l with
  | [] => ""
  | [s] => s
  | s :: l' => s +:+ sep +:+ join sep l'
  end.

Definition authorize_params (cfg : OidcConfig) (a : AuthAttempt) : list (string * string) :=
  [("response_type", "code"); ("client_id", oc_client_id cfg); ("redirect_uri", redirect_uri a);
   ("scope", join " " (oc_scopes cfg)); ("state", at_state a); ("nonce", at_nonce a);
   ("code_challenge", challenge (at_pkce a)); ("code_challenge_method", PKCE_METHOD)]
  ++ match oc_tenant_id cfg with Some t => [("tenantId", t)] | None => [] end.

Definition authorize_url (cfg : OidcConfig) (a : AuthAttempt) : string :=
  let query := join "&" ((fun p => percent_encode p.1 +:+ "=" +:+ percent_encode p.2)
                           <$> authorize_params cfg a) in
  let sep := if bool_decide ("?"%char ∈ chars (oc_authorize_endpoint cfg)) then "&" else "?" in
  oc_authorize_endpoint cfg +:+ sep +:+ query.

(** ** loopback.rs *)

Inductive LoopbackError :=
| LbTimedOut
| LbCallback (e : CallbackError)
| LbIo (why : string).

Definition request_target (line : string) : option string :=
  let stripped := str (reverse (drop_while (fun a => (code a =? 13) || (code a =? 10))
                                  (reverse (chars line)))) in
  match split " " stripped with
  | method :: target :: version :: _ =>
      if negb (bool_decide (method = "GET")) || negb (starts_with "HTTP/" version)
         || str_is_empty target
      then None else Some target
  | _ => None
  end.

(** The status line a request is answered with; [None]: the connection is dropped. *)
Definition response_status (r : result Callback CallbackError) : string :=
  match r with
  | Ok _ => "200 OK"
  | Err (WrongPath _) => "404 Not Found"
  | Err _ => "400 Bad Request"
  end.

(** [serve_one] on the request line it read: the status it answers with, if it
    answers, and its result. *)
Definition serve_one (line : string) : option (option string * result Callback LoopbackError) :=
  match request_target line with
  | None => Some (None, Err (LbCallback Malformed))
  | Some target =>
      r ← parse_callback target;
      Some (Some (response_status r), map_err LbCallback r)
  end.

(** What the listener meets on each turn of its loop before the deadline. *)
Inductive AcceptEvent :=
| Accepted (line : string)
| WouldBlock
| AcceptFailed (why : string).

(** [wait_for_callback]: the deadline passes when the events run out. *)
Fixpoint wait_for_callback (evs : list AcceptEvent) : option (result Callback LoopbackError) :=
  match evs with
  | [] => Some (Err LbTimedOut)
  | WouldBlock :: evs' => wait_for_callback evs'
  | AcceptFailed why :: _ => Some (Err (LbIo why))
  | Accepted line :: evs' =>
      match serve_one line with
      | None => None
      | Some (_, Ok cb) => Some (Ok cb)
      | Some (_, Err (LbCallback (WrongPath _))) => wait_for_callback evs'
      | Some (_, Err e) => Some (Err e)
      end
  end.

(** ** Lemmas *)

(** Decoding what [encode_byte] produced gives the byte back, before any text that
    does not start inside a character. *)
Definition decodes_byte (a : ascii) : bool :=
  forallb (fun c => (code c <? 128) && negb ((code c =? 38) || (code c =? 61) || (code c =? 63) ||
                      (code c =? 32) || (code c =? 13) || (code c =? 10))) (encode_byte a) &&
  if unreserved a then negb (code a =? 37) && negb (code a =? 43)
  else match encode_byte a with
       | [p; x; y] => (code p =? 37) && bool_decide (from_str_radix_16 x y = Some (code a))
       | _ => false
       end.

Lemma decodes_every_byte a : decodes_byte a = true.
Proof. revert a. apply all_bytes. vm_compute. reflexivity. Qed.

Lemma encode_byte_plain a c :
  c ∈ encode_byte a -> code c < 128 /\ ~ code c ∈ [38; 61; 63; 32; 13; 10].
Proof.
  intros Hc. pose proof (decodes_every_byte a) as H. unfold decodes_byte in H.
  apply andb_true_iff in H as [H _]. rewrite forallb_forall in H.
  apply list_elem_of_In in Hc. specialize (H c Hc). bool_hyps. set_unfold. lia.
Qed.

Lemma encode_byte_first a : exists c t, encode_byte a = c :: t /\ code c < 128.
Proof.
  destruct (encode_byte a) as [|c t] eqn:E.
  - unfold encode_byte in E. by destruct (unreserved a).
  - exists c, t. split; [done|]. apply (encode_byte_plain a). rewrite E. left.
Qed.

Lemma is_cont_ascii c : code c < 128 -> is_cont c = false.
Proof. intros. unfold is_cont, byte_in. destruct (Z.leb_spec 128 (code c)); [lia|done]. Qed.

Lemma percent_decode_encode_l l : percent_decode_l (l ≫= encode_byte) = Some l.
Proof.
  induction l as [|a l IH]; [done|]. 
  change (percent_decode_l (encode_byte a ++ (l ≫= encode_byte)) = Some (a :: l)).
  assert (Hn : match l ≫= encode_byte with z :: _ => is_cont z | [] => false end = false).
  { destruct l as [|b l']; [done|]. cbn [mbind list_bind].
    destruct (encode_byte_first b) as (c & t & -> & Hc). simpl. by apply is_cont_ascii. }
  revert IH Hn. generalize (l ≫= encode_byte). intros r IH Hn.
  pose proof (decodes_every_byte a) as H. unfold decodes_byte in H.
  apply andb_true_iff in H as [_ H]. pose proof (encode_byte_plain a) as Hp.
  destruct (unreserved a) eqn:Hu.
  - unfold encode_byte. rewrite Hu. bool_hyps. cbn [app percent_decode_l].
    destruct (Z.eqb_spec (code a) 37); [lia|]. destruct (Z.eqb_spec (code a) 43); [lia|].
    by rewrite IH.
  - destruct (encode_byte a) as [|p [|x [|y [|]]]]; try discriminate H. bool_hyps.
    cbn [app percent_decode_l]. destruct (Z.eqb_spec (code p) 37); [|lia].
    rewrite Hn, (is_cont_ascii x) by (apply Hp; right; left). simpl.
    rewrite H0, IH. simpl. by rewrite chr_code.
Qed.

Lemma percent_decode_encode s :
  is_utf8 s = true -> percent_decode (percent_encode s) = Some s.
Proof.
  intros H. unfold percent_decode, percent_encode.
  rewrite chars_str, percent_decode_encode_l. simpl. by rewrite from_utf8_lossy_valid.
Qed.

Lemma lacks_encoded c s :
  code c ∈ [38; 61; 63; 32; 13; 10] -> lacks c (percent_encode s).
Proof.
  intros Hc. unfold lacks, percent_encode. rewrite chars_str. apply Forall_forall.
  intros x (a & Hx & _)%list_elem_of_bind. apply bool_decide_eq_false. intros ->.
  by apply (encode_byte_plain a c Hx).
Qed.

(** *** The comparison *)

Lemma lor_fold_zero (l : list (ascii * ascii)) d : 0 <= d ->
  fold_left (fun diff p => Z.lor diff (Z.lxor (code p.1) (code p.2))) l d = 0 <->
  d = 0 /\ Forall (fun p => p.1 = p.2) l.
Proof.
  revert d. induction l as [|[x y] l IH]; intros d Hd; cbn [fold_left].
  - by split; [intros ->|intros [-> _]].
  - rewrite IH, Z.lor_eq_0_iff, Forall_cons, Z.lxor_eq_0_iff; cbn [fst snd].
    + split; [intros [[-> E] ?]; split_and!; [done|by apply (inj code)|done]
             |intros (-> & -> & ?); done].
    + apply Z.lor_nonneg. split; [done|].
      pose proof (code_range x). pose proof (code_range y). apply Z.lxor_nonneg. lia.
Qed.

Lemma constant_time_eq_spec a b : constant_time_eq a b = true <-> a = b.
Proof.
  unfold constant_time_eq. destruct (Nat.eqb_spec (length a) (length b)) as [Hl|Hl]; simpl.
  - rewrite Z.eqb_eq, lor_fold_zero by lia. split.
    + intros [_ H]. revert b Hl H. induction a as [|x a IH]; intros [|y b] Hl H; try done.
      cbn [zip_with] in H. apply Forall_cons in H as [E H]. cbn [fst snd] in E. subst y.
      f_equal. apply IH; [by injection Hl|done].
    + intros ->. split; [done|]. clear. by induction b; simpl; [|constructor].
  - split; [done|]. intros ->. done.
Qed.

Lemma validate_Ok att cb c :
  validate att cb = Ok c <-> cb_state cb = at_state att /\ c = cb_code cb.
Proof.
  unfold validate. destruct (constant_time_eq _ _) eqn:E; simpl.
  - apply constant_time_eq_spec in E.
    assert (cb_state cb = at_state att) as ->
      by (rewrite <- (str_chars (cb_state cb)), <- E; apply str_chars).
    split; [by intros [= <-]|by intros [_ ->]].
  - split; [done|]. intros [H _]. rewrite H in E.
    rewrite (proj2 (constant_time_eq_spec _ _) eq_refl) in E. done.
Qed.

(** *** A provider's redirect *)

Definition crlf : string := str [chr 13; chr 10].

(** The request line a browser sends when the provider redirects with [c] and [st]. *)
Definition redirect_line (c st : string) : string :=
  "GET /callback?code=" +:+ percent_encode c +:+ "&state=" +:+ percent_encode st +:+
  " HTTP/1.1" +:+ crlf.

Lemma drop_while_tail p (body tail : list ascii) c :
  p c = false -> Forall (fun x => p x = true) tail ->
  reverse (drop_while p (reverse ((body ++ [c]) ++ tail))) = body ++ [c].
Proof.
  intros Hc Ht. rewrite reverse_app, reverse_snoc.
  assert (forall a r, Forall (fun x => p x = true) a -> drop_while p (a ++ r) = drop_while p r) as E.
  { intros a r Ha. induction Ha as [|x a Hx Ha IH]; [done|]. cbn [app drop_while]. by rewrite Hx. }
  rewrite E by by apply Forall_reverse. cbn [drop_while]. rewrite Hc.
  by rewrite reverse_cons, reverse_involutive.
Qed.

Lemma request_target_get t :
  lacks " " t -> t <> "" -> request_target ("GET " +:+ t +:+ " HTTP/1.1" +:+ crlf) = Some t.
Proof.
  intros Ht Hne. unfold request_target.
  replace (chars ("GET " +:+ t +:+ " HTTP/1.1" +:+ crlf))
    with ((chars ("GET " +:+ t +:+ " HTTP/1.") ++ ["1"%char]) ++ chars crlf)
    by (rewrite !chars_app, <- !(assoc_L (++)); done).
  rewrite drop_while_tail by lacks_lit.
  replace (str (chars ("GET " +:+ t +:+ " HTTP/1.") ++ ["1"%char]))
    with ("GET" +:+ String " " (t +:+ String " " "HTTP/1.1"))
    by str_eq.
  rewrite split_here by lacks_lit. rewrite split_here by done. rewrite split_last by lacks_lit.
  by destruct t.
Qed.

Lemma callback_pair_enc q k v :
  lacks "=" k -> is_utf8 v = true ->
  callback_pair q (k +:+ String "=" (percent_encode v)) =
  Some (if bool_decide (k = "code") then q <| q_code := Some v |>
        else if bool_decide (k = "state") then q <| q_state := Some v |>
        else if bool_decide (k = "error") then q <| q_error := Some v |>
        else if bool_decide (k = "error_description") then q <| q_description := Some v |>
        else q).
Proof.
  intros Hk Hv. unfold callback_pair. rewrite split_once_here by done.
  cbn [default from_option id]. by rewrite percent_decode_encode.
Qed.

(** The callback round trip: whatever (UTF-8) code and state the provider
    redirects the browser with, percent-encoded into the callback URL, the loopback
    listener answers 200 and hands back exactly that code and state; with an empty
    code it answers 400 and reports that no code arrived. *)
Theorem callback_roundtrip c st :
  is_utf8 c = true -> is_utf8 st = true ->
  serve_one (redirect_line c st) =
  Some (if str_is_empty c then (Some "400 Bad Request", Err (LbCallback NoCode))
        else (Some "200 OK", Ok {| cb_code := c; cb_state := st |})).
Proof.
  intros Hc Hs. set (kc := "code" +:+ String "=" (percent_encode c)).
  set (ks := "state" +:+ String "=" (percent_encode st)).
  set (t := "/callback" +:+ String "?" (kc +:+ String "&" ks)).
  assert (redirect_line c st = "GET " +:+ t +:+ " HTTP/1.1" +:+ crlf) as ->.
  { unfold redirect_line, t, kc, ks. str_eq. }
  assert (forall x y, code x ∈ [38; 61; 63; 32; 13; 10] -> lacks x (percent_encode y)) as He
    by (intros; by apply lacks_encoded).
  assert (lacks " " t) as Ht.
  { unfold t, kc, ks.
    repeat first [apply lacks_app; split | apply Forall_cons; split; [done|] | lacks_lit
                 | apply He; set_solver]. }
  unfold serve_one. rewrite request_target_get by done.
  unfold parse_callback, t. rewrite split_once_here by lacks_lit.
  cbn [default from_option id]. rewrite bool_decide_eq_true_2 by done. cbn [negb].
  rewrite split_here, split_last.
  2,3: (apply lacks_app; split; [lacks_lit|apply Forall_cons; split; [done|apply He; set_solver]]).
  rewrite !filter_cons_True, filter_nil by done. cbn [callback_params].
  unfold kc, ks. rewrite !callback_pair_enc by (done || lacks_lit).
  cbn. by destruct c.
Qed.

Lemma callback_roundtrip_witness :
  is_utf8 "4/0AX+b" = true /\
  serve_one (redirect_line "4/0AX+b" "st&x=1") =
  Some (Some "200 OK", Ok {| cb_code := "4/0AX+b"; cb_state := "st&x=1" |}).
Proof. split; [reflexivity|]. apply (callback_roundtrip "4/0AX+b" "st&x=1"); reflexivity. Defined.

(** A callback the listener returns was delivered on one of its connections. *)
Lemma wait_for_callback_Ok evs cb :
  wait_for_callback evs = Some (Ok cb) ->
  exists line st, Accepted line ∈ evs /\ serve_one line = Some (st, Ok cb).
Proof.
  induction evs as [|[line| |why] evs IH]; cbn [wait_for_callback]; [done| | |done].
  - destruct (serve_one line) as [[st r]|] eqn:E; [|done].
    destruct r as [cb'|[|[]|]]; try done.
    + intros [= ->]. exists line, st. split; [left|done].
    + intros (l & st' & ? & ?)%IH. exists l, st'. split; [by right|done].
  - intros (l & st' & ? & ?)%IH. exists l, st'. split; [by right|done].
Qed.

(** A [%] whose two following bytes end inside a character makes the decoder slice a
    [str] off a boundary, which panics; a sign is taken for a digit. *)
Lemma percent_decode_quirks :
  percent_decode (str [chr 37; chr 97; chr 195; chr 169]) = None /\
  percent_decode "%+5x" = Some (str [chr 5; chr 120]).
Proof. by vm_compute. Qed.
