(* ===== verification/Auth.v ===== *)
(** The user's identity: token lifecycle, interactive sign-in and sign-out
    (sentinel-agent/src/auth/mod.rs, store.rs).

    The credential vault, the token endpoint and the browser are the source's traits;
    the objects behind them are state the service carries. A panic in the callback
    parser or a spool flush that does not finish is [None]. *)

From S2P Require Import Prelude Text Config Utf8 Pkce.

Definition REFRESH_AT_MS : Z := 50 * 60 * 1000.
Definition MIN_REFRESH_MARGIN_MS : Z := 60 * 1000.

Inductive StoreError := SePlatform (why : string) | SeCorrupt.

Inductive AuthError :=
| AeSignIn (why : string)
| AeToken (why : string)
| AeNotSignedIn
| AeStore (e : StoreError)
| AeLoopback (e : LoopbackError)
| AeCallback (e : CallbackError)
| AeOther (why : string).

Record TokenSet := {
  ts_id_token : string;
  ts_refresh_token : option string;
  expires_in_s : Z;
  ts_uid : string;
}.

Record Credentials := {
  cr_uid : string;
  cr_id_token : string;
  expires_at_ms : Z;
  cr_refresh_at_ms : Z;
}.

Definition refresh_at_ms (issued_ms expires_s : Z) : Z :=
  let lifetime_ms := sat_mul u64_max expires_s 1000 in
  let by_margin := sat_sub lifetime_ms MIN_REFRESH_MARGIN_MS in
  sat_add u64_max issued_ms (Z.min REFRESH_AT_MS by_margin).

Inductive AuthState := SignedOut | SignedIn (c : Credentials).

Definition auth_uid (s : AuthState) : option string :=
  match s with SignedIn c => Some (cr_uid c) | SignedOut => None end.
Definition auth_id_token (s : AuthState) : option string :=
  match s with SignedIn c => Some (cr_id_token c) | SignedOut => None end.
Definition is_signed_in (s : AuthState) : bool :=
  match s with SignedIn _ => true | SignedOut => false end.

Inductive SignOutStep := StopCapture | FlushSpool | ClearTokens | EndServerSession.

(** ** Interfaces *)

(** [trait TokenStore]. *)
Class TokenStore (K : Type) := {
  save_refresh_token : K -> string -> K * result unit StoreError;
  load_refresh_token : K -> K * result (option string) StoreError;
  clear_token : K -> K * result unit StoreError;
}.

(** What a vault promises: it returns what was saved last and nothing after a clear,
    and a load that found nothing is not followed by one that does. A load may change
    the vault (an unreadable credential is discarded). *)
Class TokenStoreLaws (K : Type) {Ks : TokenStore K} := {
  load_stays_empty k k' : load_refresh_token k = (k', Ok None) -> (load_refresh_token k').2 = Ok None;
  load_after_save k t k' : Utf8.is_utf8 t = true -> save_refresh_token k t = (k', Ok tt) ->
    (load_refresh_token k').2 = Ok (Some t);
  load_after_clear k k' : clear_token k = (k', Ok tt) -> (load_refresh_token k').2 = Ok None;
}.

(** [trait TokenEndpoint]. *)
Class TokenEndpoint (E : Type) := {
  exchange_code : E -> OidcConfig -> string -> string -> string -> E * result TokenSet AuthError;
  refresh : E -> OidcConfig -> string -> E * result TokenSet AuthError;
}.

(** [trait BrowserLauncher]. *)
Class BrowserLauncher (L : Type) := launch : L -> string -> L * result unit string.

(** ** store.rs *)

Definition MemoryTokenStore : Type := option string.
#[export] Instance memory_store : TokenStore MemoryTokenStore := {|
  save_refresh_token := fun _ t => (Some t, Ok tt);
  load_refresh_token := fun k => (k, Ok k);
  clear_token := fun _ => (None, Ok tt);
|}.
#[export] Instance memory_store_laws : TokenStoreLaws MemoryTokenStore.
Proof. split; [by intros ? ? [= <- ->]|by intros ? ? ? _ [= <-]|by intros ? ? [= <-]]. Qed.

(** ** The service *)

Record AuthService {K E L : Type} := {
  a_cfg : OidcConfig;
  a_store : K;
  a_endpoint : E;
  a_launcher : L;
  a_state : AuthState;
  last_signout : list SignOutStep;
}.
Arguments AuthService : clear implicits.
#[export] Instance rebuild_AuthService {K E L} : Rebuild (AuthService K E L) := fun a =>
  {| a_cfg := a_cfg a; a_store := a_store a; a_endpoint := a_endpoint a;
     a_launcher := a_launcher a; a_state := a_state a; last_signout := last_signout a |}.

Section auth.
Context {K E L En : Type} {Ks : TokenStore K} {Te : TokenEndpoint E} {Bl : BrowserLauncher L}
  {Ent : Entropy En}.
Context (sha256 : list ascii -> list u8) (b64url : list u8 -> string).

Abbreviation AS := (AuthService K E L).
Abbreviation M A := (AS -> AS * result A AuthError).

Definition AuthService_new (cfg : OidcConfig) (k : K) (e : E) (l : L) : AS :=
  {| a_cfg := cfg; a_store := k; a_endpoint := e; a_launcher := l; a_state := SignedOut;
     last_signout := [] |}.

(** Calls on the shared objects, with [?] on their errors. *)
Definition with_store {A} (op : K -> K * result A StoreError) : M A := fun a =>
  let '(k, r) := op (a_store a) in (a <| a_store := k |>, map_err AeStore r).
Definition with_endpoint {A} (op : E -> E * result A AuthError) : M A := fun a =>
  let '(e, r) := op (a_endpoint a) in (a <| a_endpoint := e |>, r).

(** [adopt]: persist, then publish. *)
Definition adopt (tokens : TokenSet) (now : Z) : M Credentials :=
  let! _ := match ts_refresh_token tokens with
            | Some rt => with_store (fun k => save_refresh_token k rt)
            | None => ret tt
            end in
  fun a =>
    let creds := {| cr_uid := ts_uid tokens; cr_id_token := ts_id_token tokens;
                    expires_at_ms := sat_add u64_max now (sat_mul u64_max (expires_in_s tokens) 1000);
                    cr_refresh_at_ms := refresh_at_ms now (expires_in_s tokens) |} in
    (a <| a_state := SignedIn creds |>, Ok creds).

Definition restore (now : Z) : M (option Credentials) :=
  let! rt := with_store load_refresh_token in
  match rt with
  | None => ret None
  | Some rt => fun a =>
      let '(e, r) := refresh (a_endpoint a) (a_cfg a) rt in
      let a := a <| a_endpoint := e |> in
      match r with
      | Ok tokens => (let! c := adopt tokens now in ret (Some c)) a
      | Err _ => (a, Ok None)
      end
  end.

Definition refresh_now (now : Z) : M Credentials :=
  let! rt := with_store load_refresh_token in
  match rt with
  | None => fun a => (a, Err AeNotSignedIn)
  | Some rt =>
      let! tokens := fun a => with_endpoint (fun e => refresh e (a_cfg a) rt) a in
      adopt tokens now
  end.

(** The interactive flow: the port the listener bound, the random source, and what
    arrives on the listener before the deadline. *)
Definition sign_in_interactive (bound : result Z string) (en : En) (evs : list AcceptEvent)
    (now : Z) (a : AS) : option (AS * result Credentials AuthError) :=
  match bound with
  | Err why => Some (a, Err (AeLoopback (LbIo why)))
  | Ok port =>
      let attempt := (AuthAttempt_new sha256 b64url en port).2 in
      let '(l, r) := launch (a_launcher a) (authorize_url (a_cfg a) attempt) in
      let a := a <| a_launcher := l |> in
      match r with
      | Err why => Some (a, Err (AeOther why))
      | Ok _ =>
          match wait_for_callback evs with
          | None => None
          | Some (Err e) => Some (a, Err (AeLoopback e))
          | Some (Ok callback) =>
              match validate attempt callback with
              | Err e => Some (a, Err (AeCallback e))
              | Ok code => Some
                  ((let! tokens := with_endpoint (fun e => exchange_code e (a_cfg a) code
                                     (verifier (at_pkce attempt)) (redirect_uri attempt)) in
                    adopt tokens now) a)
              end
          end
      end
  end.

(** [sign_out]; [x] is what the two callbacks reach, [u64::MAX] a failed flush. *)
Definition sign_out {X : Type} (stop_capture : X -> X) (flush : X -> option (X * result Z string))
    (x : X) (a : AS) : option (X * AS * result Z AuthError) :=
  match flush (stop_capture x) with
  | None => None
  | Some (x, r) =>
      let remaining := match r with Ok n => n | Err _ => u64_max end in
      let '(k, r) := clear_token (a_store a) in
      let a := a <| a_store := k |> in
      match r with
      | Err e => Some (x, a, Err (AeStore e))
      | Ok _ => Some
          (x, a <| a_state := SignedOut |>
                <| last_signout := [StopCapture; FlushSpool; ClearTokens; EndServerSession] |>,
           Ok remaining)
      end
  end.
End auth.

(** ** Refresh times *)

(** Refresh is due after issue, within fifty minutes, and a minute or more before
    expiry whenever the token lives that long. *)
Definition refresh_in_time (c : Credentials) : Prop :=
  exists issued lifetime, in_u64 issued /\ 0 <= lifetime /\
    expires_at_ms c = sat_add u64_max issued lifetime /\
    issued <= cr_refresh_at_ms c <= issued + REFRESH_AT_MS /\
    cr_refresh_at_ms c <= expires_at_ms c /\
    (MIN_REFRESH_MARGIN_MS <= lifetime -> issued + lifetime <= u64_max ->
     cr_refresh_at_ms c + MIN_REFRESH_MARGIN_MS <= expires_at_ms c).

Definition creds_ok (s : AuthState) : Prop :=
  match s with SignedIn c => refresh_in_time c | SignedOut => True end.

Lemma refresh_at_ms_in_time now e uid tok :
  in_u64 now -> 0 <= e ->
  refresh_in_time {| cr_uid := uid; cr_id_token := tok;
    expires_at_ms := sat_add u64_max now (sat_mul u64_max e 1000);
    cr_refresh_at_ms := refresh_at_ms now e |}.
Proof.
  intros Hn He. exists now, (sat_mul u64_max e 1000). cbn [expires_at_ms cr_refresh_at_ms].
  unfold refresh_at_ms, REFRESH_AT_MS, MIN_REFRESH_MARGIN_MS. ints.
  split_and!; try done; lia.
Qed.

Section lifecycle.
Context {K E L En : Type} {Ks : TokenStore K} {Kl : TokenStoreLaws K} {Te : TokenEndpoint E}
  {Bl : BrowserLauncher L} {Ent : Entropy En}.
Context (sha256 : list ascii -> list u8) (b64url : list u8 -> string).

Abbreviation AS := (AuthService K E L).

(** The endpoint's lifetimes are [u64]s. *)
Definition lifetimes_typed : Prop :=
  (forall e cfg c v u ts, (exchange_code (E:=E) e cfg c v u).2 = Ok ts -> in_u64 (expires_in_s ts)) /\
  (forall e cfg rt ts, (refresh (E:=E) e cfg rt).2 = Ok ts -> in_u64 (expires_in_s ts)).

(** One call on the service, at a [u64] clock reading. *)
Inductive auth_step : AS -> AS -> Prop :=
| as_restore now a : in_u64 now -> auth_step a (restore now a).1
| as_refresh now a : in_u64 now -> auth_step a (refresh_now now a).1
| as_sign_in bound (en : En) evs now a a' r : in_u64 now ->
    sign_in_interactive sha256 b64url bound en evs now a = Some (a', r) -> auth_step a a'
| as_sign_out (X : Set) (stop : X -> X) (fl : X -> option (X * result Z string)) x a x' a' r :
    sign_out stop fl x a = Some (x', a', r) -> auth_step a a'.

Lemma adopt_creds ts now (a : AS) :
  in_u64 now -> in_u64 (expires_in_s ts) -> creds_ok (a_state a) ->
  creds_ok (a_state (adopt ts now a).1).
Proof.
  intros Hn He Ha. unfold adopt, bindM, with_store.
  destruct (ts_refresh_token ts) as [rt|].
  - destruct (save_refresh_token _ rt) as [k [[]|e]]; cbn; [|done].
    apply refresh_at_ms_in_time; [done|by destruct He].
  - apply refresh_at_ms_in_time; [done|by destruct He].
Qed.

Lemma auth_step_creds (a a' : AS) :
  lifetimes_typed -> auth_step a a' -> creds_ok (a_state a) -> creds_ok (a_state a').
Proof.
  intros [Hx Hr] Hs Ha. destruct Hs as [now a Hn|now a Hn|bd en evs now a a' r Hn Hi|X st fl x a x' a' r Ho].
  - unfold restore, bindM, with_store.
    destruct (load_refresh_token _) as [k [[rt|]|e]]; cbn [fst snd map_err]; try done.
    destruct (refresh _ _ rt) as [e [ts|err]] eqn:Er; [|done].
    pose proof (adopt_creds ts now (a <| a_store := k |> <| a_endpoint := e |>) Hn) as Hc.
    destruct (adopt ts now _) as [a2 [c|er]]; apply Hc; try done;
      by eapply (Hr _ _ rt); rewrite Er.
  - unfold refresh_now, bindM, with_store, with_endpoint.
    destruct (load_refresh_token _) as [k [[rt|]|e]]; cbn [fst snd map_err]; try done.
    destruct (refresh _ _ rt) as [e [ts|err]] eqn:Er; [|done].
    apply adopt_creds; try done. by eapply (Hr _ _ rt); rewrite Er.
  - unfold sign_in_interactive in Hi. destruct bd as [port|why]; [|by simplify_eq].
    destruct (launch _ _) as [l [[]|why]]; [|by simplify_eq].
    destruct (wait_for_callback evs) as [[cb|e]|]; [| |done]; [|by simplify_eq].
    destruct (validate _ cb) as [c|e]; [|by simplify_eq].
    unfold bindM, with_endpoint in Hi.
    destruct (exchange_code _ _ _ _ _) as [e [ts|err]] eqn:Er; [|by simplify_eq].
    assert (in_u64 (expires_in_s ts)) as Ht
      by (eapply (Hx _ _ _ _ _); erewrite Er; reflexivity).
    injection Hi as Hi.
    match type of Hi with adopt _ _ ?b = _ => pose proof (adopt_creds ts now b Hn Ht Ha) as Hc end.
    by rewrite Hi in Hc.
  - unfold sign_out in Ho. destruct (fl _) as [[y rf]|]; [|done].
    destruct (clear_token _) as [k [[]|e]]; by simplify_eq.
Qed.

(** The refresh schedule: whatever the vault, the endpoint and the callers do,
    whenever the service is signed in the refresh is scheduled after the token was
    issued, at most fifty minutes later, never past expiry, and at least a minute
    before expiry for every token that lives a minute. *)
Theorem credentials_refreshed_before_expiry cfg k e l a :
  lifetimes_typed -> rtc auth_step (AuthService_new cfg k e l) a -> creds_ok (a_state a).
Proof.
  intros Ht Hr. assert (creds_ok (a_state (AuthService_new (K:=K) (E:=E) (L:=L) cfg k e l))) as H0
    by done.
  revert H0. induction Hr as [|x y z Hs Hr IH]; [done|]. eauto using auth_step_creds.
Qed.

(** C38: Only an answer to our own request is redeemed: an interactive sign-in reaches
    the token endpoint only when a connection to the listener delivered a callback
    carrying the attempt's own [state], and then exactly once, with that callback's
    code, the attempt's verifier and its redirect URI. Otherwise the endpoint and the
    vault are untouched and nobody is signed in. *)
Theorem exchange_only_for_our_state bound (en : En) evs now (a a' : AS) r :
  sign_in_interactive sha256 b64url bound en evs now a = Some (a', r) ->
  (exists port line st cb, bound = Ok port /\
     let att := (AuthAttempt_new sha256 b64url en port).2 in
     Accepted line ∈ evs /\ serve_one line = Some (st, Ok cb) /\ cb_state cb = at_state att /\
     a_endpoint a' = (exchange_code (a_endpoint a) (a_cfg a) (cb_code cb)
                        (verifier (at_pkce att)) (redirect_uri att)).1) \/
  (a_endpoint a' = a_endpoint a /\ a_store a' = a_store a /\ a_state a' = a_state a /\
   is_ok r = false).
Proof.
  intros Hi. unfold sign_in_interactive in Hi.
  destruct bound as [port|why]; [|by simplify_eq; right].
  destruct (launch _ _) as [l [[]|why]]; [|by simplify_eq; right].
  destruct (wait_for_callback evs) as [[cb|e]|] eqn:Hw; [| |done]; [|by simplify_eq; right].
  destruct (validate _ cb) as [c|e] eqn:Hv; [|by simplify_eq; right].
  apply validate_Ok in Hv as [Hst ->]. apply wait_for_callback_Ok in Hw as (line & st & ? & ?).
  left. exists port, line, st, cb. cbv zeta. split_and!; try done.
  unfold bindM, with_endpoint, adopt, with_store in Hi. cbn [a_endpoint a_cfg] in Hi.
  change (a_endpoint (a <| a_launcher := l |>)) with (a_endpoint a) in Hi.
  change (a_cfg (a <| a_launcher := l |>)) with (a_cfg a) in Hi.
  destruct (exchange_code _ _ _ _ _) as [e [ts|err]]; [|by simplify_eq].
  destruct (ts_refresh_token ts) as [rt|].
  - unfold bindM in Hi. destruct (save_refresh_token _ rt) as [k [[]|er]]; cbn [map_err] in Hi; by simplify_eq.
  - unfold bindM, ret in Hi. by simplify_eq.
Qed.

(** Redeeming attempts that do not ask the user. *)
Inductive silent := SRestore (now : Z) | SRefresh (now : Z).
Definition silent_step (a : AS) (s : silent) : AS :=
  match s with SRestore now => (restore now a).1 | SRefresh now => (refresh_now now a).1 end.

Lemma silent_vault_empty s (a : AS) :
  (load_refresh_token (a_store a)).2 = Ok None -> a_state (silent_step a s) = a_state a /\
  a_endpoint (silent_step a s) = a_endpoint a /\
  (load_refresh_token (a_store (silent_step a s))).2 = Ok None.
Proof.
  intros Hl. destruct s; cbn [silent_step]; unfold restore, refresh_now, bindM, with_store;
    destruct (load_refresh_token (a_store a)) as [k r] eqn:Eld; cbn [fst snd] in *; subst r;
    apply load_stays_empty in Eld; done.
Qed.

(** Signed out means out: after a completed sign-out the spool has been flushed
    under the stopped capture, the service is signed out and the vault is empty, and no
    later restore or refresh signs in or reaches the token endpoint; if the vault could
    not be cleared the sign-in state and the record of steps are as before. *)
Theorem signed_out_stays_out {X : Type} (stop : X -> X) fl (x x' : X) (a a' : AS) r (l : list silent) :
  sign_out stop fl x a = Some (x', a', r) ->
  (exists rf, fl (stop x) = Some (x', rf)) /\
  match r with
  | Ok n =>
      last_signout a' = [StopCapture; FlushSpool; ClearTokens; EndServerSession] /\
      a_state (foldl silent_step a' l) = SignedOut /\
      a_endpoint (foldl silent_step a' l) = a_endpoint a /\
      (load_refresh_token (a_store (foldl silent_step a' l))).2 = Ok None
  | Err _ => a_state a' = a_state a /\ last_signout a' = last_signout a
  end.
Proof.
  intros Ho. unfold sign_out in Ho. destruct (fl (stop x)) as [[y rf]|]; [|done].
  destruct (clear_token (a_store a)) as [k rc] eqn:Hc.
  destruct rc as [[]|e]; simplify_eq; [|by eauto]. split; [by eauto|].
  apply load_after_clear in Hc. split; [done|].
  match goal with |- context [foldl silent_step ?b] => set (a' := b) end.
  assert (a_state a' = SignedOut /\ a_endpoint a' = a_endpoint a /\
    (load_refresh_token (a_store a')).2 = Ok None) as H by done.
  clearbody a'. revert a' H. induction l as [|s l IH]; [done|]. intros a' (H1 & H2 & H3).
  apply IH. destruct (silent_vault_empty s a' H3) as (-> & -> & Hst). done.
Qed.
End lifecycle.

(** ** Concrete runs

    A provider that hands out one-hour tokens and counts its calls, a browser that
    always opens, and a constant random source. *)
Definition demo_tokens (id : string) : TokenSet :=
  {| ts_id_token := id; ts_refresh_token := Some "rt"; expires_in_s := 3600; ts_uid := "uid" |}.
#[local] Instance demo_endpoint : TokenEndpoint nat := {|
  exchange_code := fun n _ c _ _ => (S n, Ok (demo_tokens c));
  refresh := fun n _ _ => (S n, Ok (demo_tokens "refreshed"));
|}.
#[local] Instance demo_launcher : BrowserLauncher unit := fun l _ => (l, Ok tt).
#[local] Instance demo_entropy : Entropy unit := fun en n => (en, repeat Byte.x41 n).
Definition demo_sha (l : list ascii) : list u8 := [].
Definition demo_b64 (l : list u8) : string := str (repeat "A"%char (length l)).

Definition demo_auth : AuthService MemoryTokenStore nat unit :=
  AuthService_new {| oc_authorize_endpoint := "https://idp/authorize"; oc_token_endpoint := "";
                     oc_client_id := "desk"; oc_tenant_id := None; oc_scopes := ["openid"] |}
    None 0%nat tt.
Definition demo_state : string := at_state (AuthAttempt_new demo_sha demo_b64 tt 4242).2.
Definition demo_line : string := redirect_line "code-1" demo_state.

Lemma demo_lifetimes : lifetimes_typed (E:=nat).
Proof. split; cbn; intros; simplify_eq; cbn; ints; lia. Qed.

Definition demo_signed_in : AuthService MemoryTokenStore nat unit :=
  demo_auth <| a_store := Some "rt" |> <| a_endpoint := 1%nat |>
    <| a_state := SignedIn {| cr_uid := "uid"; cr_id_token := "code-1"; expires_at_ms := 3605000;
                              cr_refresh_at_ms := 3005000 |} |>.

Lemma demo_sign_in :
  sign_in_interactive demo_sha demo_b64 (Ok 4242) tt
    [WouldBlock; Accepted ("GET /favicon.ico HTTP/1.1" +:+ crlf); Accepted demo_line] 5000 demo_auth
  = Some (demo_signed_in, Ok {| cr_uid := "uid"; cr_id_token := "code-1"; expires_at_ms := 3605000;
                                cr_refresh_at_ms := 3005000 |}).
Proof. vm_compute. reflexivity. Qed.

Lemma credentials_witness :
  is_signed_in (a_state demo_signed_in) = true /\ creds_ok (a_state demo_signed_in).
Proof.
  split; [reflexivity|].
  apply (credentials_refreshed_before_expiry (En:=unit) demo_sha demo_b64 (a_cfg demo_auth) None 0%nat tt).
  - exact demo_lifetimes.
  - eapply rtc_l; [|apply rtc_refl]. eapply as_sign_in; [|exact demo_sign_in]. ints. lia.
Defined.

Lemma exchange_witness :
  a_endpoint demo_signed_in = 1%nat /\
  exists line st cb,
    Accepted line ∈ [WouldBlock; Accepted ("GET /favicon.ico HTTP/1.1" +:+ crlf); Accepted demo_line] /\
    serve_one line = Some (st, Ok cb) /\ cb_state cb = demo_state.
Proof.
  split; [reflexivity|].
  destruct (exchange_only_for_our_state demo_sha demo_b64 _ _ _ _ _ _ _ demo_sign_in)
    as [(port & line & st & cb & Hp & Hl & Hs & Hst & _)|(_ & _ & _ & H)]; [|discriminate H].
  injection Hp as <-. exists line, st, cb. split; [exact Hl|]. split; [exact Hs|exact Hst].
Defined.

Definition demo_signed_out : AuthService MemoryTokenStore nat unit :=
  demo_signed_in <| a_store := None |> <| a_state := SignedOut |>
    <| last_signout := [StopCapture; FlushSpool; ClearTokens; EndServerSession] |>.

Lemma signed_out_witness :
  sign_out (fun x : nat => x) (fun x => Some (x, Ok 3)) 0%nat demo_signed_in
    = Some (0%nat, demo_signed_out, Ok 3) /\
  a_state (foldl silent_step demo_signed_out [SRestore 9000; SRefresh 9001]) = SignedOut.
Proof.
  split; [reflexivity|].
  destruct (signed_out_stays_out (fun x : nat => x) (fun x => Some (x, Ok 3)) 0%nat 0%nat
    demo_signed_in demo_signed_out (Ok 3) [SRestore 9000; SRefresh 9001])
    as [_ (_ & H & _)]; [reflexivity|exact H].
Defined.
