(* ===== verification/Heartbeat.v ===== *)
(** The heartbeat body and its events (sentinel-agent/src/heartbeat.rs), and the API
    calls the agent makes (sentinel-agent/src/api.rs); what the answer to a heartbeat does
    to the events it carried (the end of [send_heartbeat], agent.rs).

    The [time] crate's [OffsetDateTime] is used through its UTC fields and the
    subtraction of a duration. *)

From S2P Require Import Prelude Text Config.

Definition INTERVAL_MS : Z := 30000.

Record HeartbeatEvent := {
  he_kind : string;
  he_at : string;
  he_count : option Z;
  he_detail : option string;
}.

Record Heartbeat := {
  hb_device_id : string;
  hb_capture_state : string;
  hb_capture_tier : option string;
  hb_os_build : string;
  hb_agent_version : string;
  hb_spool_depth : Z;
  hb_spool_bytes : Z;
  hb_last_call_at : option string;
  hb_dialer_session_active : bool;
  hb_signed_in : bool;
  hb_agent_restarts : Z;
  hb_pinned_device_present : bool;
  hb_events : list HeartbeatEvent;
  hb_sent_at : string;
}.

Record HeartbeatInputs := {
  hi_device_id : string;
  hi_capture_state : string;
  hi_capture_tier : option string;
  hi_os_build : string;
  hi_agent_version : string;
  hi_spool_depth : Z;
  hi_spool_bytes : Z;
  hi_last_call_at : option string;
  hi_dialer_session_active : bool;
  hi_signed_in : bool;
  hi_agent_restarts : Z;
  hi_pinned_device_present : bool;
}.

(** [time::OffsetDateTime]. *)
Class OffsetDateTime (Tm : Type) := {
  tm_minus_ms : Tm -> Z -> Tm;
  utc_year : Tm -> Z;
  utc_month : Tm -> Z;
  utc_day : Tm -> Z;
  utc_hour : Tm -> Z;
  utc_minute : Tm -> Z;
  utc_second : Tm -> Z;
  utc_millisecond : Tm -> Z;
}.

(** [format!("{:0w$}", z)]: the sign counts towards the width. *)
Definition pad0 (w : nat) (s : string) : string :=
  str (repeat "0"%char (w - length (chars s))) +:+ s.
Definition fmt_pad (w : nat) (z : Z) : string :=
  if z <? 0 then "-" +:+ pad0 (w - 1) (fmt_u (- z)) else pad0 w (fmt_u z).

(** The enum's [rename_all = "snake_case"] names. *)
Definition event_kind_str (k : EventKind) : string :=
  match k with
  | TierDowngrade => "tier_downgrade"
  | SpoolEviction => "spool_eviction"
  | EvDeviceLost => "device_lost"
  | EvDeviceRestored => "device_restored"
  | AgentRestart => "agent_restart"
  | CaptureError => "capture_error"
  | ForeignAudioSuppressed => "foreign_audio_suppressed"
  end.

Section heartbeat.
Context {Tm : Type} {Od : OffsetDateTime Tm}.

Definition rfc3339_millis (t : Tm) : string :=
  fmt_pad 4 (utc_year t) +:+ "-" +:+ fmt_pad 2 (utc_month t) +:+ "-" +:+ fmt_pad 2 (utc_day t)
  +:+ "T" +:+ fmt_pad 2 (utc_hour t) +:+ ":" +:+ fmt_pad 2 (utc_minute t) +:+ ":"
  +:+ fmt_pad 2 (utc_second t) +:+ "." +:+ fmt_pad 3 (utc_millisecond t) +:+ "Z".

Definition heartbeat_event (now : Z) (sent_at : Tm) (e : ClientEvent) : HeartbeatEvent :=
  {| he_kind := event_kind_str (ev_kind e);
     he_at := rfc3339_millis (tm_minus_ms sent_at (sat_sub now (ev_at_ms e)));
     he_count := ev_count e; he_detail := ev_detail e |}.

Definition build (i : HeartbeatInputs) (events : list ClientEvent) (now : Z) (sent_at : Tm)
    : Heartbeat :=
  {| hb_device_id := hi_device_id i; hb_capture_state := hi_capture_state i;
     hb_capture_tier := hi_capture_tier i; hb_os_build := hi_os_build i;
     hb_agent_version := hi_agent_version i; hb_spool_depth := hi_spool_depth i;
     hb_spool_bytes := hi_spool_bytes i; hb_last_call_at := hi_last_call_at i;
     hb_dialer_session_active := hi_dialer_session_active i; hb_signed_in := hi_signed_in i;
     hb_agent_restarts := hi_agent_restarts i;
     hb_pinned_device_present := hi_pinned_device_present i;
     hb_events := heartbeat_event now sent_at <$> events;
     hb_sent_at := rfc3339_millis sent_at |}.
End heartbeat.

(** ** api.rs *)

Inductive ApiError :=
| ApiTransport (why : string)
| ApiUnauthorized
| ApiForbidden
| ApiStatus (status : Z)
| ApiDecode (why : string).

Record ServerCommand := { sc_kind : string; sc_detail : option string }.
Record HeartbeatAck := {
  ha_policy_version : Z;
  ha_server_time : string;
  ha_commands : list ServerCommand;
}.

(** [trait SentinelApi], the call the agent's loop makes. *)
Class SentinelApi (Ap : Type) :=
  api_heartbeat : Ap -> string -> Heartbeat -> Ap * result HeartbeatAck ApiError.

(** Where the events that have left the uplink are: waiting in the agent's memory for a
    heartbeat, acknowledged by the server with a heartbeat that carried them, or gone
    with neither. *)
Record Reports := { rp_pending : list ClientEvent; rp_acked : list ClientEvent; rp_gone : list ClientEvent }.

(** What a heartbeat's answer does to the events it carried, which are all that were
    pending: acknowledged, refused for good, or kept for the next one. *)
Definition settle (r : result HeartbeatAck ApiError) (b : Reports) : Reports :=
  match r with
  | Ok _ => {| rp_pending := []; rp_acked := rp_acked b ++ rp_pending b; rp_gone := rp_gone b |}
  | Err ApiForbidden => {| rp_pending := []; rp_acked := rp_acked b; rp_gone := rp_gone b ++ rp_pending b |}
  | Err _ => b
  end.
