(* ===== verification/Widget.v ===== *)
(** The widget (sentinel-agent/src/widget/mod.rs, position.rs): the state shown, the
    calls the page may make, and where the window may sit. *)

From S2P Require Import Prelude Text.

Record WidgetState := {
  ws_auth_state : string;
  ws_capture_state : string;
  ws_tier : option string;
  ws_coverage : option Z;   (* an [f32] in the source; the client only ever sends [None] *)
  ws_call_id : option string;
  ws_message : option string;
  ws_recording : bool;
  ws_spool_depth : Z;
}.

Definition WidgetState_signed_out (message : string) : WidgetState :=
  {| ws_auth_state := "signed_out"; ws_capture_state := "BLOCKED"; ws_tier := None;
     ws_coverage := None; ws_call_id := None; ws_message := Some message;
     ws_recording := false; ws_spool_depth := 0 |}.

(** The payload of [ConfirmCall] is passed through unparsed. *)
Inductive HostCall :=
| HcGetState
| HcSignIn
| HcSignOut
| HcConfirmCall (call_id payload : string)
| HcOpenPortal (path : string).

Inductive HostCallError :=
| HceMalformed (why : string)
| HceUnknownMethod
| HceUnsafePortalPath (path : string).

(** [s.contains(pat)]. *)
Fixpoint contains_l (pat l : list ascii) : bool :=
  bool_decide (take (length pat) l = pat) ||
  match l with [] => false | _ :: l' => contains_l pat l' end.
Definition contains (pat s : string) : bool := contains_l (chars pat) (chars s).

Definition validate_portal_path (path : string) : result unit HostCallError :=
  let bad := negb (starts_with "/" path) || starts_with "//" path || contains "://" path
             || contains "\" path || contains ".." path in
  if bad then Err (HceUnsafePortalPath path) else Ok tt.

(** [serde_json::from_str::<HostCall>]: an error says whether it is a data error. *)
Class HostCallJson := host_call_from_json : string -> result HostCall (bool * string).

Definition parse_host_call {Hj : HostCallJson} (json : string) : result HostCall HostCallError :=
  let? call := map_err (fun e : bool * string =>
                 if e.1 then HceUnknownMethod else HceMalformed e.2) (host_call_from_json json) in
  let? _ := match call with HcOpenPortal path => validate_portal_path path | _ => Ok tt end in
  Ok call.

(** [trait WidgetShell], the calls the agent's loop makes. *)
Class WidgetShell (W : Type) := {
  post_state : W -> WidgetState -> W * result unit string;
  drain_host_calls : W -> W * list HostCall;
}.

(** ** Position, in pixels: [i32]s far from their limits, so no sum overflows *)

Record Rect := { rx : Z; ry : Z; rwidth : Z; rheight : Z }.
#[export] Instance rebuild_Rect : Rebuild Rect := fun r =>
  {| rx := rx r; ry := ry r; rwidth := rwidth r; rheight := rheight r |}.

Definition right (r : Rect) : Z := rx r + rwidth r.
Definition bottom (r : Rect) : Z := ry r + rheight r.
Definition SNAP_THRESHOLD : Z := 24.
Definition DEFAULT_RECT : Rect := {| rx := 1560; ry := 880; rwidth := 340; rheight := 140 |}.

Definition snap_to_edge (window work_area : Rect) (threshold : Z) : Rect :=
  let x := if Z.abs (rx window - rx work_area) <=? threshold then rx work_area
           else if Z.abs (right work_area - right window) <=? threshold
           then right work_area - rwidth window else rx window in
  let y := if Z.abs (ry window - ry work_area) <=? threshold then ry work_area
           else if Z.abs (bottom work_area - bottom window) <=? threshold
           then bottom work_area - rheight window else ry window in
  let x := clamp x (rx work_area) (Z.max (right work_area - rwidth window) (rx work_area)) in
  let y := clamp y (ry work_area) (Z.max (bottom work_area - rheight window) (ry work_area)) in
  window <| rx := x |> <| ry := y |>.

(** The file a user's position is kept in, below the state directory. *)
Definition path_for (uid : string) : string :=
  let safe := take 64 (filter (fun c => is_ascii_alphanumeric c || bool_decide (c = "-"%char)
                                       || bool_decide (c = "_"%char) = true) (chars uid)) in
  "widget-" +:+ str safe +:+ ".json".

(** ** The window stays where the indicator can be seen *)

(** Every pixel of [r] is inside [w]. *)
Definition inside (r w : Rect) : Prop :=
  rx w <= rx r /\ right r <= right w /\ ry w <= ry r /\ bottom r <= bottom w.

(** A snapped widget is on screen: whatever position was remembered and whatever
    the threshold, the window keeps its size, and its top-left corner is inside the
    work area; a window that fits the work area ends up entirely inside it, and one
    already inside moves by at most the threshold in each direction. *)
Theorem snap_keeps_widget_visible window work threshold :
  0 <= rwidth work -> 0 <= rheight work -> 0 <= threshold ->
  let r := snap_to_edge window work threshold in
  rwidth r = rwidth window /\ rheight r = rheight window /\
  rx work <= rx r /\ ry work <= ry r /\
  (rwidth window <= rwidth work -> rheight window <= rheight work -> inside r work) /\
  (inside window work ->
   Z.abs (rx r - rx window) <= threshold /\ Z.abs (ry r - ry window) <= threshold).
Proof.
  intros Hw Hh Ht r. subst r. unfold snap_to_edge, inside, right, bottom, clamp.
  cbn [upd rx ry rwidth rheight].
  destruct (Z.leb_spec (Z.abs (rx window - rx work)) threshold),
    (Z.leb_spec (Z.abs (rx work + rwidth work - (rx window + rwidth window))) threshold),
    (Z.leb_spec (Z.abs (ry window - ry work)) threshold),
    (Z.leb_spec (Z.abs (ry work + rheight work - (ry window + rheight window))) threshold);
    split_and!; intros; lia.
Qed.

Definition demo_work : Rect := {| rx := 0; ry := 0; rwidth := 1920; rheight := 1040 |}.

Lemma snap_keeps_widget_visible_witness :
  rx (snap_to_edge {| rx := 5000; ry := 1030; rwidth := 340; rheight := 140 |} demo_work 24) = 1580 /\
  inside (snap_to_edge {| rx := 5000; ry := 1030; rwidth := 340; rheight := 140 |} demo_work 24) demo_work.
Proof.
  split; [reflexivity|].
  apply (snap_keeps_widget_visible {| rx := 5000; ry := 1030; rwidth := 340; rheight := 140 |} demo_work 24);
    cbn; lia.
Defined.
