(* ===== verification/Agent.v ===== *)
(** The agent's loop (sentinel-agent/src/agent.rs): identity, capture, uplink,
    heartbeat and widget advanced in one order on one tick.

    [Arc<Mutex<..>>] sharing is by construction single-threaded here, as in the
    source, so the uplink and the auth service are fields. What a tick takes from
    outside (fresh ULIDs, wall-clock times, the backoff's draw) is a [TickEnv];
    [fuel] bounds the messages read from the socket in one pass and [None] means it
    was not enough. Telemetry records are collected in [a_telemetry]. *)

From S2P Require Import Prelude Text Protocol Config State Identity Spool Backoff Uplink.
From S2P Require Import Capture Encode Pipeline Utf8 Pkce Auth Heartbeat Widget.

(** Thirty seconds, in milliseconds. *)
Definition SIGNOUT_FLUSH_DEADLINE : Z := 30000.

Record AgentIdentityInfo := {
  ai_device_id : string;
  ai_os_build : string;
  ai_tier : option CaptureTier;
  ai_agent_restarts : Z;
}.

Record TickResult := {
  tr_segments_spooled : Z;
  tr_segments_sent : Z;
  tr_segments_acked : Z;
  tr_heartbeat_sent : bool;
  tr_capture_state : option CallState;
  tr_signed_out : bool;
}.
#[export] Instance rebuild_TickResult : Rebuild TickResult := fun r =>
  {| tr_segments_spooled := tr_segments_spooled r; tr_segments_sent := tr_segments_sent r;
     tr_segments_acked := tr_segments_acked r; tr_heartbeat_sent := tr_heartbeat_sent r;
     tr_capture_state := tr_capture_state r; tr_signed_out := tr_signed_out r |}.
Definition TickResult_default : TickResult :=
  {| tr_segments_spooled := 0; tr_segments_sent := 0; tr_segments_acked := 0;
     tr_heartbeat_sent := false; tr_capture_state := None; tr_signed_out := false |}.

Definition tier_name (t : CaptureTier) : string := match t with TierA => "A" | TierB => "B" end.

(** The telemetry records of [report_capture_state] and [report_sign_in_state]. *)
Inductive CaptureEvent := CaptureBlocked | CaptureArmed | CaptureDisarmed.
Inductive AgentReport :=
| CaptureChanged (event : CaptureEvent) (now previous : string) (reason : string)
| SignInChanged (signed_in : bool).

Inductive AgentError :=
| AgPipe (e : PipeError)
| AgWidget (why : string)
| AgAuth (e : AuthError).

Record Agent {T F Oc V K E L Ap W : Type} := {
  uplink : Uplink T F;
  auth : AuthService K E L;
  api : Ap;
  widget : W;
  gate : IdentityGate;
  pipeline : option (Pipeline Oc V);
  ag_policy : Policy;
  info : AgentIdentityInfo;
  ag_clock_ms : Z;
  last_heartbeat_ms : option Z;
  signout_deadline : Z;
  last_call_at : option string;
  dialer_session_active : bool;
  ag_pinned_device_present : bool;
  pending_events : list ClientEvent;
  revoked : bool;
  last_reported_state : option CallState;
  last_reported_signed_in : option bool;
  a_telemetry : list AgentReport;
}.
Arguments Agent : clear implicits.
#[export] Instance rebuild_Agent {T F Oc V K E L Ap W} : Rebuild (Agent T F Oc V K E L Ap W) := fun a =>
  {| uplink := uplink a; auth := auth a; api := api a; widget := widget a; gate := gate a;
     pipeline := pipeline a; ag_policy := ag_policy a; info := info a;
     ag_clock_ms := ag_clock_ms a; last_heartbeat_ms := last_heartbeat_ms a;
     signout_deadline := signout_deadline a; last_call_at := last_call_at a; dialer_session_active := dialer_session_active a;
     ag_pinned_device_present := ag_pinned_device_present a; pending_events := pending_events a;
     revoked := revoked a; last_reported_state := last_reported_state a;
     last_reported_signed_in := last_reported_signed_in a; a_telemetry := a_telemetry a |}.

(** What one tick takes from outside; [te_flush_passes] upload passes fit into a
    sign-out's deadline. *)
Record TickEnv {Tm : Type} := {
  te_clockwork : Clockwork;
  te_utc : Tm;
  te_draw : Z -> Z;
  te_fuel : nat;
  te_flush_passes : Z -> nat;
  te_flush_draw : nat -> Z -> Z;
}.
Arguments TickEnv : clear implicits.

Section agent.
Context {T F Oc V K E L Ap W Sc Tm : Type}.
Context {Tr : Transport T} {Fa : TransportFactory F T} {Js : ControlJson} {Op : Opus Oc}
  {Vo : VadOps V} {Cs : CaptureSource Sc} {Ks : TokenStore K} {Te : TokenEndpoint E}
  {Sa : SentinelApi Ap} {Ws : WidgetShell W} {Od : OffsetDateTime Tm}.
Context (ulid_bytes : string -> option (list u8)) (agent_version : string).

Abbreviation AG := (Agent T F Oc V K E L Ap W).

Definition Agent_new (u : Uplink T F) (au : AuthService K E L) (ap : Ap) (w : W) (p : Policy)
    (i : AgentIdentityInfo) : AG :=
  {| uplink := u; auth := au; api := ap; widget := w;
     gate := set_signed_in (IdentityGate_new (offline_grace_ms p)) (is_signed_in (a_state au));
     pipeline := None; ag_policy := p; info := i; ag_clock_ms := 0; last_heartbeat_ms := None;
     signout_deadline := SIGNOUT_FLUSH_DEADLINE; last_call_at := None; dialer_session_active := false; ag_pinned_device_present := false;
     pending_events := []; revoked := false; last_reported_state := None;
     last_reported_signed_in := None; a_telemetry := [] |}.

Definition with_signout_deadline (a : AG) (d : Z) : AG := a <| signout_deadline := d |>.

Definition record_event (a : AG) (e : ClientEvent) : AG :=
  a <| pending_events := pending_events a ++ [e] |>.

Definition identity_status (a : AG) (now : Z) : IdentityStatus := status (gate a) now.

Definition capture_state (a : AG) : CallState :=
  match pipeline a with Some p => state (detector p) | None => Blocked end.

Definition open_capture (t : CaptureTier) (user_uid : string) (a : AG) (src : Sc)
    : AG * Sc * result unit AgentError :=
  let p := Pipeline_new (ag_policy a) t (ai_device_id (info a)) user_uid in
  let '(p, src, r) := open (ag_policy a) p src in
  match r with
  | Ok _ => (a <| ag_pinned_device_present := true |> <| pipeline := Some p |>, src, Ok tt)
  | Err e =>
      let '(p, evs) := p_take_events p in
      (a <| ag_pinned_device_present := false |>
         <| pending_events := pending_events a ++ evs |> <| pipeline := None |>, src, Err (AgPipe e))
  end.

Definition Agent_on_session_state (a : AG) (active : bool) : AG :=
  a <| dialer_session_active := active |>
    <| pipeline := (fun p => (on_session_state p active).1) <$> pipeline a |>.

Definition on_signed_in (a : AG) (user_uid : string) : AG :=
  a <| gate := set_signed_in (gate a) true |>
    <| pipeline := (fun p => (on_user_changed p user_uid).1) <$> pipeline a |>.

(** Step 1: the detector is blocked or unblocked as the identity demands. *)
Definition apply_identity (s : IdentityStatus) (p : Pipeline Oc V) : Pipeline Oc V :=
  match status_block_reason s with
  | Some reason => if bool_decide (state (detector p) = Blocked) then p else (block p reason).1
  | None => if bool_decide (state (detector p) = Blocked) then (unblock p).1 else p
  end.

(** Step 2: capture, only while the gate allows it. *)
Definition capture_step (env : TickEnv Tm) (s : IdentityStatus) (src : option Sc) (a : AG)
    : AG * option Sc * result Z AgentError :=
  if negb (may_capture s) then (a, src, Ok 0)
  else match pipeline a, src with
  | Some p, Some sc =>
      let '(p, sc, u, r) := step (te_clockwork env) (p, sc, uplink a) in
      let a := a <| pipeline := Some p |> <| uplink := u |> in
      match r with
      | Err e => (a, Some sc, Err (AgPipe e))
      | Ok st =>
          let a := match sr_transition st with
                   | Some (CallEnded _) => a <| last_call_at := Some (rfc3339_millis (te_utc env)) |>
                   | _ => a
                   end in
          (a, Some sc, Ok (segments_spooled st))
      end
  | _, _ => (a, src, Ok 0)
  end.

Definition is_armed (s : CallState) : bool :=
  match s with Armed | InCall | Wrap => true | _ => false end.

Definition block_reason_str (s : IdentityStatus) (a : AG) : string :=
  match status_block_reason s with
  | Some BrSignedOut => "signed_out"
  | Some PinnedDeviceMissing => "pinned_device_missing"
  | Some OfflineGraceExpired => "offline_grace_expired"
  | Some DeviceRevoked => "device_revoked"
  | Some BrShutdown => "shutdown"
  | None =>
      if negb (ag_pinned_device_present a) then "pinned_device_missing"
      else match pipeline a with None => "no_capture_pipeline" | Some _ => "unknown" end
  end.

Definition report_capture_state (s : IdentityStatus) (a : AG) : AG :=
  let st := capture_state a in
  if bool_decide (last_reported_state a = Some st) then a
  else
    let previous := last_reported_state a in
    let a := a <| last_reported_state := Some st |> in
    let armed := is_armed st in
    let was_armed := match previous with Some p => is_armed p | None => false end in
    let event :=
      if bool_decide (st = Blocked) then Some CaptureBlocked
      else if armed && negb was_armed then Some CaptureArmed
      else if was_armed && negb armed then Some CaptureDisarmed
      else None in
    match event with
    | None => a
    | Some ev =>
        let reason := if bool_decide (st = Blocked) then block_reason_str s a else "" in
        let prev := match previous with Some p => CallState_as_str p | None => "none" end in
        a <| a_telemetry := a_telemetry a ++ [CaptureChanged ev (CallState_as_str st) prev reason] |>
    end.

Definition report_sign_in_state (a : AG) : AG :=
  let b := is_signed_in (a_state (auth a)) in
  if bool_decide (last_reported_signed_in a = Some b) then a
  else a <| last_reported_signed_in := Some b |>
         <| a_telemetry := a_telemetry a ++ [SignInChanged b] |>.

(** Step 3: one upload pass, unless the device is revoked. *)
Definition uplink_step (env : TickEnv Tm) (now : Z) (a : AG) : option (AG * Z * Z) :=
  if revoked a then Some (a, 0, 0)
  else match pump ulid_bytes (te_fuel env) (te_draw env) now (uplink a) with
  | None => None
  | Some (u, o) =>
      let a := if verified o then a <| gate := observe_verified (gate a) now |> else a in
      let a := if po_device_revoked o then a <| revoked := true |> else a in
      let '(u, evs) := take_events u in
      Some (a <| uplink := u |> <| pending_events := pending_events a ++ evs |>, sent o, acked o)
  end.

Definition heartbeat_inputs (a : AG) : HeartbeatInputs :=
  let st := stats (spool (uplink a)) in
  {| hi_device_id := ai_device_id (info a); hi_capture_state := CallState_as_str (capture_state a);
     hi_capture_tier := tier_name <$> ai_tier (info a); hi_os_build := ai_os_build (info a);
     hi_agent_version := agent_version; hi_spool_depth := st_segments st;
     hi_spool_bytes := st_bytes st; hi_last_call_at := last_call_at a;
     hi_dialer_session_active := dialer_session_active a; hi_signed_in := true;
     hi_agent_restarts := ai_agent_restarts (info a);
     hi_pinned_device_present := ag_pinned_device_present a |}.

Definition send_heartbeat (env : TickEnv Tm) (now : Z) (a : AG) : AG * bool :=
  match auth_id_token (a_state (auth a)) with
  | None => (a, false)
  | Some token =>
      let events := pending_events a in
      let body := build (heartbeat_inputs a) events now (te_utc env) in
      let '(ap, r) := api_heartbeat (api a) token body in
      let a := a <| pending_events := [] |> <| api := ap |> in
      match r with
      | Ok _ => (a <| gate := observe_verified (gate a) now |>, true)
      | Err ApiForbidden =>
          (a <| revoked := true |> <| gate := set_device_revoked (gate a) true |>, false)
      | Err _ => (a <| pending_events := events |>, false)
      end
  end.

(** Step 4: a heartbeat when the interval has passed. *)
Definition heartbeat_step (env : TickEnv Tm) (now : Z) (a : AG) : AG * bool :=
  let due := match last_heartbeat_ms a with
             | None => true
             | Some last => INTERVAL_MS <=? sat_sub now last
             end in
  if due then send_heartbeat env now (a <| last_heartbeat_ms := Some now |>) else (a, false).

(** [sign_out]: the stop flag and the uplink are what the auth service's callbacks
    reach. *)
Definition Agent_sign_out (env : TickEnv Tm) (a : AG) : option (AG * result unit AgentError) :=
  let flush_spool (x : Uplink T F * bool) :=
    match flush ulid_bytes (te_fuel env) (te_flush_passes env (signout_deadline a)) (te_flush_draw env)
            (ag_clock_ms a) x.1 with
    | None => None
    | Some (u, n) => Some ((u, x.2), Ok n)
    end in
  match sign_out (fun x => (x.1, true)) flush_spool (uplink a, false) (auth a) with
  | None => None
  | Some ((u, stopped), au, r) =>
      let a := a <| uplink := u |> <| auth := au |> in
      match r with
      | Err e => Some (a, Err (AgAuth e))
      | Ok _ =>
          let a := if stopped : bool
                   then a <| pipeline := (fun p => (block p BrSignedOut).1) <$> pipeline a |>
                   else a in
          Some (a <| gate := set_signed_in (gate a) false |>, Ok tt)
      end
  end.

Definition widget_state (a : AG) (now : Z) : WidgetState :=
  let s := status (gate a) now in
  let st := capture_state a in
  {| ws_auth_state := if is_signed_in (a_state (auth a)) then "signed_in" else "signed_out";
     ws_capture_state := CallState_as_str st; ws_tier := tier_name <$> ai_tier (info a);
     ws_coverage := None;
     ws_call_id := match pipeline a with Some p => current_call_id p | None => None end;
     ws_message := widget_message s;
     ws_recording := match st with InCall | Wrap => true | _ => false end;
     ws_spool_depth := st_segments (stats (spool (uplink a))) |}.

(** The host calls of step 5: only [SignOut] is acted on here. *)
Fixpoint host_calls (env : TickEnv Tm) (calls : list HostCall) (a : AG) (out : bool)
    : option (AG * result bool AgentError) :=
  match calls with
  | [] => Some (a, Ok out)
  | HcSignOut :: calls' =>
      match Agent_sign_out env a with
      | None => None
      | Some (a, Err e) => Some (a, Err e)
      | Some (a, Ok _) => host_calls env calls' a true
      end
  | _ :: calls' => host_calls env calls' a out
  end.

(** Step 5: the widget, last. *)
Definition widget_step (env : TickEnv Tm) (now : Z) (a : AG) : option (AG * result bool AgentError) :=
  let '(w, r) := post_state (widget a) (widget_state a now) in
  let a := a <| widget := w |> in
  match r with
  | Err why => Some (a, Err (AgWidget why))
  | Ok _ =>
      let '(w, calls) := drain_host_calls (widget a) in
      host_calls env calls (a <| widget := w |>) false
  end.

(** Steps 3 to 5, with the [spooled] count and capture state of step 2. *)
Definition tick_rest (env : TickEnv Tm) (now spooled : Z) (st : CallState) (a : AG)
    : option (AG * result TickResult AgentError) :=
  match uplink_step env now a with
  | None => None
  | Some (a, snt, ack) =>
      let a := if revoked a then a <| gate := set_device_revoked (gate a) true |> else a in
      let '(a, hb) := heartbeat_step env now a in
      match widget_step env now a with
      | None => None
      | Some (a, Err e) => Some (a, Err e)
      | Some (a, Ok out) => Some (a, Ok
          {| tr_segments_spooled := spooled; tr_segments_sent := snt; tr_segments_acked := ack;
             tr_heartbeat_sent := hb; tr_capture_state := Some st; tr_signed_out := out |})
      end
  end.

Definition tick (env : TickEnv Tm) (now : Z) (src : option Sc) (a : AG)
    : option (AG * option Sc * result TickResult AgentError) :=
  let a := a <| ag_clock_ms := now |> in
  let s := status (gate a) now in
  let a := a <| pipeline := apply_identity s <$> pipeline a |> in
  let '(a, src, r) := capture_step env s src a in
  match r with
  | Err e => Some (a, src, Err e)
  | Ok spooled =>
      let a := match pipeline a with
               | Some p =>
                   let '(p, evs) := p_take_events p in
                   a <| pipeline := Some p |> <| pending_events := pending_events a ++ evs |>
               | None => a
               end in
      let st := capture_state a in
      let a := report_sign_in_state (report_capture_state s a) in
      match tick_rest env now spooled st a with
      | None => None
      | Some (a, r) => Some (a, src, r)
      end
  end.
End agent.
