(* ===== verification/AgentProps.v ===== *)
(** What the agent's loop promises: capture follows the identity gate, revocation is
    terminal, client events reach the server or stay queued; and what follows from
    the gate never being told about the headset. *)

From S2P Require Import Prelude Text Protocol Config State StateProps Identity Spool SpoolProps.
From S2P Require Import Backoff Uplink UplinkProps Capture Encode Pipeline PipelineProps.
From S2P Require Import Utf8 Pkce Auth Heartbeat Widget Agent.

(** ** A recording API

    Any API, with the bodies posted to it and their answers written down. *)
Record RecApi (Ap : Type) := {
  api_inner : Ap;
  posted : list (Heartbeat * result HeartbeatAck ApiError);
}.
Arguments api_inner {Ap}.
Arguments posted {Ap}.
Arguments Build_RecApi {Ap}.

#[export] Instance RecApi_SentinelApi {Ap} `{!SentinelApi Ap} : SentinelApi (RecApi Ap) :=
  fun ap token body =>
    let '(i, r) := api_heartbeat (api_inner ap) token body in
    ({| api_inner := i; posted := posted ap ++ [(body, r)] |}, r).

(** What an event says, apart from when. *)
Definition fact : Type := string * option Z * option string.
Definition event_fact (e : ClientEvent) : fact := (event_kind_str (ev_kind e), ev_count e, ev_detail e).
Definition sent_fact (e : HeartbeatEvent) : fact := (he_kind e, he_count e, he_detail e).

(** The events the server has acknowledged, in order. *)
Definition acknowledged (l : list (Heartbeat * result HeartbeatAck ApiError)) : list fact :=
  l ≫= fun p => match p.2 with Ok _ => sent_fact <$> hb_events p.1 | Err _ => [] end.

Section agent_props.
Context {T F Oc V K E L Ap W Sc Tm : Type}.
Context {Tr : Transport T} {Fa : TransportFactory F (Rec T)} {Js : ControlJson} {Op : Opus Oc}
  {Vo : VadOps V} {Cs : CaptureSource Sc} {Ks : TokenStore K} {Te : TokenEndpoint E}
  {Sa : SentinelApi Ap} {Ws : WidgetShell W} {Od : OffsetDateTime Tm}.
Context (ulid_bytes : string -> option (list u8)) (agent_version : string).

Abbreviation AG := (Agent (Rec T) F Oc V K E L (RecApi Ap) W).
Abbreviation tick := (tick (Sc:=Sc) (Tm:=Tm) ulid_bytes agent_version).

(** Events acknowledged, then events queued. *)
Definition ledger (a : AG) : list fact :=
  acknowledged (posted (api a)) ++ (event_fact <$> pending_events a).

Definition rows (a : AG) : gmap seg_key Row := segments (spool (uplink a)).

(** What every call keeps. *)
Record flags (a a' : AG) : Prop := {
  k_pinned : pinned_device_present (gate a') = pinned_device_present (gate a);
  k_gate_revoked : device_revoked (gate a) = true -> device_revoked (gate a') = true;
  k_revoked : revoked a = true -> revoked a' = true;
}.

#[local] Instance flags_refl : Reflexive flags.
Proof. intros a. by split. Qed.

#[local] Instance flags_trans : Transitive flags.
Proof.
  intros a b c [P1 G1 R1] [P2 G2 R2]. split; [by rewrite P2|by auto|by auto].
Qed.

(** And every piece of a tick but capture: nobody signs in, no row appears. *)
Definition kept (a a' : AG) : Prop :=
  flags a a' /\ (signed_in (gate a') = true -> signed_in (gate a) = true) /\ rows a' ⊆ rows a.

#[local] Instance kept_refl : Reflexive kept.
Proof. done. Qed.

#[local] Instance kept_trans : Transitive kept.
Proof. intros a b c (F1 & S1 & R1) (F2 & S2 & R2). split_and!; [by etrans|by auto|by etrans]. Qed.

(** Nothing was acknowledged and nothing queued. *)
Lemma same_ledger (a b : AG) : api b = api a -> pending_events b = pending_events a -> ledger b = ledger a.
Proof. unfold ledger. by intros -> ->. Qed.

(** Revocation and the gate's copy of it agree. *)
Definition in_sync (a : AG) : Prop := revoked a = device_revoked (gate a).

(** ** The pieces of a tick *)

Definition core (a : AG) :=
  (uplink a, auth a, api a, widget a, gate a, pipeline a, (pending_events a, revoked a, last_heartbeat_ms a)).

Lemma report_core s (a : AG) : core (report_sign_in_state (report_capture_state s a)) = core a.
Proof.
  unfold report_sign_in_state, report_capture_state.
  repeat (case_match; try done).
Qed.

Lemma same_kept (a b : AG) :
  uplink b = uplink a -> gate b = gate a -> revoked b = revoked a -> kept a b.
Proof. intros Hu Hg Hr. split_and!; [split|..]; unfold rows; by rewrite ?Hu, ?Hg, ?Hr. Qed.

Lemma core_kept (a b : AG) : core b = core a -> kept a b.
Proof. unfold core. intros [=]. by apply same_kept. Qed.

Lemma uplink_step_kept env now (a a' : AG) s k :
  uplink_step (Tm:=Tm) ulid_bytes env now a = Some (a', s, k) ->
  kept a a' /\ device_revoked (gate a') = device_revoked (gate a) /\
  (revoked a = true -> a' = a /\ s = 0 /\ k = 0).
Proof.
  unfold uplink_step. destruct (revoked a) eqn:Hr.
  { intros [= <- <- <-]. done. }
  destruct (pump _ _ _ _ _) as [[u o]|] eqn:Hp; [|done]. apply pump_spool_subset in Hp.
  intros [= <- <- <-]. split; [|by destruct (verified o), (po_device_revoked o)].
  split_and!; [split|..]; unfold rows; destruct (verified o), (po_device_revoked o); cbn; done.
Qed.

(** What the upload pass of a tick tells the agent of. *)
Definition uplink_events (env : TickEnv Tm) (now : Z) (a : AG) : list ClientEvent :=
  if revoked a then []
  else match pump ulid_bytes (te_fuel env) (te_draw env) now (uplink a) with
       | Some (u, _) => (take_events u).2
       | None => []
       end.

(** Queued behind what was queued. *)
Lemma queued_ledger (a b : AG) evs :
  api b = api a -> pending_events b = pending_events a ++ evs -> ledger b = ledger a ++ (event_fact <$> evs).
Proof. unfold ledger. intros -> ->. by rewrite fmap_app, (assoc_L (++)). Qed.

Lemma uplink_step_ledger env now (a a' : AG) s k :
  uplink_step ulid_bytes env now a = Some (a', s, k) ->
  ledger a' = ledger a ++ (event_fact <$> uplink_events env now a).
Proof.
  unfold uplink_step, uplink_events. destruct (revoked a).
  { intros [= <- _ _]. by rewrite app_nil_r. }
  destruct (pump _ _ _ _ _) as [[u o]|]; [|done]. intros [= <- _ _].
  by apply queued_ledger; destruct (verified o), (po_device_revoked o).
Qed.

Lemma gate_sync_kept (a : AG) :
  let a' := if revoked a then a <| gate := set_device_revoked (gate a) true |> else a in
  kept a a' /\ pipeline a' = pipeline a /\ uplink a' = uplink a /\ revoked a' = revoked a.
Proof. simpl. destruct (revoked a) eqn:Er; (split; [|by rewrite ?Er]); (split; [by split|done]). Qed.

Lemma acknowledged_snoc l b r :
  acknowledged (l ++ [(b, r)]) =
  acknowledged l ++ match r with Ok _ => sent_fact <$> hb_events b | Err _ => [] end.
Proof. unfold acknowledged. rewrite bind_app. simpl. by rewrite (right_id_L [] (++)). Qed.

Lemma built_facts i evs now (at_ : Tm) :
  sent_fact <$> hb_events (build i evs now at_) = event_fact <$> evs.
Proof. simpl. rewrite <- list_fmap_compose. done. Qed.

Lemma send_heartbeat_kept env now (a : AG) :
  let '(a', b) := send_heartbeat (Tm:=Tm) agent_version env now a in
  kept a a' /\ (in_sync a -> in_sync a') /\ pipeline a' = pipeline a /\ uplink a' = uplink a /\
  (revoked a' = false -> ledger a' = ledger a).
Proof.
  unfold send_heartbeat. destruct (auth_id_token _) as [token|]; [|done].
  cbv zeta. set (body := build _ _ _ _).
  change (api_heartbeat (api a) token body) with
    (let '(i, r) := api_heartbeat (api_inner (api a)) token body in
     ({| api_inner := i; posted := posted (api a) ++ [(body, r)] |}, r)).
  destruct (api_heartbeat (api_inner (api a)) token body) as [i r].
  assert (forall b : AG, posted (api b) = posted (api a) ++ [(body, r)] ->
    pending_events b = (if is_ok r then [] else pending_events a) -> ledger b = ledger a) as Hl.
  { intros b H1 H2. unfold ledger. rewrite H1, H2, acknowledged_snoc. destruct r; cbn [is_ok].
    - rewrite fmap_nil, (right_id_L [] (++)). unfold body. by rewrite built_facts.
    - by rewrite (right_id_L [] (++)). }
  destruct r as [ack|[]]; (split; [split; [split|]|]); try done;
    (split_and!; try done); intros Hr; try (by apply Hl); by inversion Hr.
Qed.

(** The queue after a heartbeat is what [settle] says of its answer. *)
Lemma send_heartbeat_settles env now (a : AG) token body :
  auth_id_token (a_state (auth a)) = Some token ->
  body = build (heartbeat_inputs agent_version a) (pending_events a) now (te_utc env) ->
  forall gone, pending_events (send_heartbeat (Tm:=Tm) agent_version env now a).1 =
    rp_pending (settle (api_heartbeat (api a) token body).2
      {| rp_pending := pending_events a; rp_acked := []; rp_gone := gone |}).
Proof.
  intros Ht -> gone. unfold send_heartbeat. rewrite Ht. cbv zeta.
  by destruct (api_heartbeat _ _ _) as [ap [ack|[]]].
Qed.

Lemma heartbeat_step_kept env now (a : AG) :
  let '(a', b) := heartbeat_step (Tm:=Tm) agent_version env now a in
  kept a a' /\ (in_sync a -> in_sync a') /\ pipeline a' = pipeline a /\ uplink a' = uplink a /\
  (forall last, last_heartbeat_ms a = Some last -> now - last < INTERVAL_MS -> api a' = api a) /\
  (revoked a' = false -> ledger a' = ledger a).
Proof.
  unfold heartbeat_step. destruct (match last_heartbeat_ms a with None => true | _ => _ end) eqn:Hd.
  - pose proof (send_heartbeat_kept env now (a <| last_heartbeat_ms := Some now |>)) as H.
    destruct (send_heartbeat _ _ _ _) as [a' b]. destruct H as (H & Hs & -> & -> & Lg).
    split_and!; try done.
    + etrans; [|exact H]; by apply same_kept.
    + intros last Hl Hi. rewrite Hl in Hd. bool_hyps. unfold INTERVAL_MS in *. ints. lia.
  - done.
Qed.

Lemma flush_rows fuel n draw clock (u u' : Uplink (Rec T) F) k :
  flush ulid_bytes fuel n draw clock u = Some (u', k) -> segments (spool u') ⊆ segments (spool u).
Proof.
  revert clock u. induction n as [|n IH]; intros clock u; cbn [flush].
  { by intros [= -> _]. }
  case_match; [by intros [= -> _]|].
  destruct (pump _ _ _ _ _) as [[v o]|] eqn:Hp; [|done].
  intros Hf. apply IH in Hf. etrans; [exact Hf|]. by eapply pump_spool_subset.
Qed.

Lemma sign_out_kept env (a a' : AG) r :
  Agent_sign_out (Tm:=Tm) ulid_bytes env a = Some (a', r) ->
  kept a a' /\ (in_sync a -> in_sync a') /\ ledger a' = ledger a /\
  (is_ok r = true ->
     signed_in (gate a') = false /\ is_signed_in (a_state (auth a')) = false /\
     last_signout (auth a') = [StopCapture; FlushSpool; ClearTokens; EndServerSession]).
Proof.
  unfold Agent_sign_out, sign_out. cbn [fst snd].
  destruct (flush _ _ _ _ _ _) as [[u n]|] eqn:Hf; [|done]. apply flush_rows in Hf.
  destruct (clear_token _) as [k [[]|e]].
  - intros [= <- <-]. split; [split; [by split|]|]; done.
  - intros [= <- <-]. split; [split; [by split|]|]; done.
Qed.

Lemma host_calls_kept env calls (a a' : AG) out r :
  host_calls (Tm:=Tm) ulid_bytes env calls a out = Some (a', r) ->
  kept a a' /\ (in_sync a -> in_sync a') /\ ledger a' = ledger a /\
  (r = Ok false -> uplink a' = uplink a /\ pipeline a' = pipeline a).
Proof.
  revert a out. induction calls as [|c calls IH]; intros a out; cbn [host_calls].
  { by intros [= -> <-]. }
  destruct c; try by apply IH.
  destruct (Agent_sign_out _ _ _) as [[b [[]|e]]|] eqn:Hs; [| |done].
  - apply sign_out_kept in Hs as (Hk & Hy & Hl & _). intros H.
    assert (forall o, host_calls ulid_bytes env calls b true = Some (a', Ok o) -> o = true) as Ho.
    { clear. revert b. induction calls as [|c l IH]; intros b o; cbn [host_calls].
      { by intros [= _ ->]. } destruct c; try by apply IH.
      destruct (Agent_sign_out _ _ _) as [[? [|]]|]; try done. apply IH. }
    pose proof (Ho false) as Hf. apply IH in H as Hi. destruct Hi as (Hk' & Hy' & Hl' & _).
    split_and!; [by etrans|by auto|by rewrite Hl'|]. intros ->. by specialize (Hf H).
  - apply sign_out_kept in Hs as (Hk & Hy & Hl & _). by intros [= -> <-].
Qed.

Lemma widget_step_kept env now (a a' : AG) r :
  widget_step (Tm:=Tm) ulid_bytes env now a = Some (a', r) ->
  kept a a' /\ (in_sync a -> in_sync a') /\ ledger a' = ledger a /\
  (r = Ok false -> uplink a' = uplink a /\ pipeline a' = pipeline a).
Proof.
  unfold widget_step. destruct (post_state _ _) as [w [[]|why]].
  - destruct (drain_host_calls _) as [w' calls]. intros H. apply host_calls_kept in H as (H & Hy & Hl & Hu).
    split_and!; [|done|exact Hl|done]. etrans; [|exact H]; by apply same_kept.
  - intros [= <- <-]. split_and!; [by apply same_kept|done|done|done].
Qed.

Lemma tick_rest_kept env now spooled st (a a' : AG) r :
  tick_rest (Tm:=Tm) ulid_bytes agent_version env now spooled st a = Some (a', r) ->
  kept a a' /\ (in_sync a -> in_sync a') /\
  (forall t, r = Ok t -> tr_segments_spooled t = spooled /\ tr_capture_state t = Some st /\
     (revoked a = true -> tr_segments_sent t = 0 /\ tr_segments_acked t = 0 /\
        (tr_signed_out t = false -> uplink a' = uplink a))).
Proof.
  unfold tick_rest. destruct (uplink_step _ _ _ _) as [[[a1 snt] ack]|] eqn:Hu; [|done].
  apply uplink_step_kept in Hu as (K1 & Hg & Hrev).
  pose proof (gate_sync_kept a1) as (K2 & _ & U2 & R2). cbv zeta in *.
  set (a2 := if revoked a1 then _ else _) in *.
  assert (in_sync a -> in_sync a2) as Hy2.
  { intros Hy. unfold in_sync, a2 in *. destruct (revoked a1) eqn:Er; [done|].
    rewrite Er, Hg, <- Hy. destruct (revoked a) eqn:Ea; [|done].
    destruct K1 as [[_ _ R1] _]. by rewrite R1 in Er. }
  pose proof (heartbeat_step_kept env now a2) as K3.
  destruct (heartbeat_step _ _ _ a2) as [a3 hb]. destruct K3 as (K3 & Y3 & _ & U3 & _ & _).
  destruct (widget_step _ _ _ a3) as [[a4 [out|e]]|] eqn:Hw; [| |done];
    apply widget_step_kept in Hw as (K4 & Y4 & _ & U4); intros [= <- <-].
  all: assert (kept a a4) as K5 by (etrans; [exact K1|]; etrans; [exact K2|]; by etrans).
  all: split_and!; [done|by auto|]; intros t [= <-]; cbn; split_and!; try done.
  all: intros Hr; destruct (Hrev Hr) as (-> & -> & ->); split_and!; try done.
  intros ->. destruct (U4 eq_refl) as [-> _]. by rewrite U3, U2.
Qed.

Lemma tick_rest_ledger env now spooled st (a a' : AG) r :
  tick_rest (Tm:=Tm) ulid_bytes agent_version env now spooled st a = Some (a', r) -> revoked a' = false ->
  ledger a' = ledger a ++ (event_fact <$> uplink_events env now a).
Proof.
  unfold tick_rest. destruct (uplink_step _ _ _ _) as [[[a1 snt] ack]|] eqn:Hu; [|done].
  apply uplink_step_ledger in Hu as <-. set (a2 := if revoked a1 then _ else _) in *.
  assert (ledger a2 = ledger a1) as <- by (unfold a2; by destruct (revoked a1)).
  pose proof (heartbeat_step_kept env now a2) as K3.
  destruct (heartbeat_step _ _ _ a2) as [a3 hb]. destruct K3 as (_ & _ & _ & _ & _ & L3).
  destruct (widget_step _ _ _ a3) as [[a4 [out|e]]|] eqn:Hw; [| |done];
    apply widget_step_kept in Hw as ([[_ _ R4] _] & _ & L4 & _); intros [= <- _] Hr; rewrite L4; apply L3;
    destruct (revoked a3); [by rewrite R4 in Hr|done|by rewrite R4 in Hr|done].
Qed.

Lemma apply_identity_blocks s r (p : Pipeline Oc V) :
  status_block_reason s = Some r -> state (detector (apply_identity s p)) = Blocked.
Proof.
  intros Hs. unfold apply_identity. rewrite Hs. case_bool_decide as Hb; [done|].
  unfold block, feed_at_clock. destruct (feed _ _ _) as [d t] eqn:Hf. cbn.
  change d with (d, t).1. rewrite <- Hf. unfold feed, enter_blocked. cbn.
  by repeat (case_match; try done).
Qed.

Lemma may_capture_reason s : may_capture s = bool_decide (status_block_reason s = None).
Proof. by destruct s. Qed.

Lemma capture_step_flags env s src (a : AG) :
  let '(a', _, _) := capture_step (Sc:=Sc) (Tm:=Tm) env s src a in
  flags a a' /\ gate a' = gate a /\ revoked a' = revoked a.
Proof.
  unfold capture_step. destruct (may_capture s); [|done]. cbn [negb].
  destruct (pipeline a) as [p|]; [|done]. destruct src as [sc|]; [|done].
  destruct (step _ _) as [[[p' sc'] u] [t|e]].
  - destruct (sr_transition t) as [[]|]; (split; [by split|done]).
  - split; [by split|done].
Qed.

(** The tick after capture. *)
Definition after_capture (a : AG) : AG :=
  match pipeline a with
  | Some p => a <| pipeline := Some (p_take_events p).1 |>
                <| pending_events := pending_events a ++ (p_take_events p).2 |>
  | None => a
  end.

Lemma after_capture_kept (a : AG) :
  kept a (after_capture a) /\ gate (after_capture a) = gate a /\ revoked (after_capture a) = revoked a /\
  uplink (after_capture a) = uplink a /\ capture_state (after_capture a) = capture_state a.
Proof.
  unfold after_capture, capture_state. destruct (pipeline a) as [p|] eqn:Hp; [|by rewrite Hp].
  split; [|done]. by split; [split|].
Qed.

Lemma tick_unfold env now src (a : AG) :
  tick env now src a =
  let s := status (gate a) now in
  let '(b, src, r) := capture_step env s src
    (a <| ag_clock_ms := now |> <| pipeline := apply_identity s <$> pipeline a |>) in
  match r with
  | Err e => Some (b, src, Err e)
  | Ok spooled =>
      let c := report_sign_in_state (report_capture_state s (after_capture b)) in
      match tick_rest ulid_bytes agent_version env now spooled (capture_state (after_capture b)) c with
      | None => None
      | Some (d, r) => Some (d, src, r)
      end
  end.
Proof.
  unfold Agent.tick. cbv zeta. destruct (capture_step _ _ _ _) as [[b sc] [sp|e]]; [|done].
  unfold after_capture, p_take_events. by destruct (pipeline b).
Qed.

Lemma tick_flags env now src (a a' : AG) src' r :
  tick env now src a = Some (a', src', r) -> flags a a' /\ (in_sync a -> in_sync a').
Proof.
  rewrite tick_unfold. cbv zeta.
  set (a0 := a <| ag_clock_ms := now |> <| pipeline := _ |>).
  assert (flags a a0 /\ gate a0 = gate a /\ revoked a0 = revoked a) as (F0 & G0 & R0)
    by (split; [by split|done]).
  pose proof (capture_step_flags env (status (gate a) now) src a0) as Hc.
  destruct (capture_step _ _ _ a0) as [[b sc] [sp|e]]; destruct Hc as (F1 & G1 & R1).
  - destruct (after_capture_kept b) as ([F2 _] & G2 & R2 & _).
    pose proof (report_core (status (gate a) now) (after_capture b)) as Hcore.
    set (c := report_sign_in_state _) in *. destruct (core_kept _ _ Hcore) as [F3 _].
    unfold core in Hcore. injection Hcore as _ _ _ _ G3 _ _ R3 _.
    destruct (tick_rest _ _ _ _ _ _ c) as [[d rd]|] eqn:Hr; [|done].
    apply tick_rest_kept in Hr as ([F4 _] & Y4 & _). intros [= <- _ _].
    split; [do 4 (etrans; [eassumption|]); done|].
    intros Hy. apply Y4. unfold in_sync in *. by rewrite R3, R2, R1, R0, G3, G2, G1, G0.
  - intros [= <- _ _]. split; [by etrans|]. unfold in_sync. by rewrite R1, R0, G1, G0.
Qed.

(** What a tick tells the agent of: what the detector raised during the capture step,
    then what the uplink raised until the end of the upload pass. *)
Definition pipeline_events (a : AG) : list ClientEvent :=
  match pipeline a with Some p => (p_take_events p).2 | None => [] end.
Definition tick_events (env : TickEnv Tm) (now : Z) (src : option Sc) (a : AG) : list ClientEvent :=
  let a := a <| ag_clock_ms := now |> <| pipeline := apply_identity (status (gate a) now) <$> pipeline a |> in
  match capture_step env (status (gate a) now) src a with
  | (b, _, Ok _) => pipeline_events b ++ uplink_events env now b
  | (_, _, Err _) => []
  end.

Lemma capture_step_ledger env s src (a : AG) :
  ledger (capture_step (Sc:=Sc) (Tm:=Tm) env s src a).1.1 = ledger a.
Proof.
  unfold capture_step. destruct (may_capture s), (pipeline a) as [p|], src as [sc|]; try done. cbn [negb].
  destruct (step _ _) as [[[p' sc'] u] [t|e]]; [|done]. by destruct (sr_transition t) as [[]|].
Qed.

Lemma after_capture_ledger (a : AG) :
  ledger (after_capture a) = ledger a ++ (event_fact <$> pipeline_events a).
Proof.
  unfold after_capture, pipeline_events. destruct (pipeline a); [by apply queued_ledger|by rewrite app_nil_r].
Qed.

Lemma tick_ledger env now src (a a' : AG) src' r :
  tick env now src a = Some (a', src', r) -> revoked a' = false ->
  ledger a' = ledger a ++ (event_fact <$> tick_events env now src a).
Proof.
  rewrite tick_unfold. unfold tick_events. cbv zeta.
  set (a0 := a <| ag_clock_ms := now |> <| pipeline := _ |>). change (gate a0) with (gate a).
  pose proof (capture_step_ledger env (status (gate a) now) src a0) as H1.
  destruct (capture_step _ _ _ a0) as [[b sc] [sp|e]]; cbn [fst] in H1; change (ledger a0) with (ledger a) in H1.
  - pose proof (report_core (status (gate a) now) (after_capture b)) as Hcore.
    destruct (after_capture_kept b) as (_ & _ & R2 & U2 & _). pose proof (after_capture_ledger b) as H2.
    set (c := report_sign_in_state _) in *. unfold core in Hcore. injection Hcore as U3 _ A3 _ _ _ P3 R3 _.
    destruct (tick_rest _ _ _ _ _ _ c) as [[d rd]|] eqn:Hr; [|done]. intros [= <- _ _] Hd.
    rewrite (tick_rest_ledger _ _ _ _ _ _ _ Hr Hd), (same_ledger _ _ A3 P3), H2, H1, fmap_app, <- (assoc_L (++)).
    unfold uplink_events. by rewrite U3, U2, R3, R2.
  - intros [= <- _ _] _. rewrite H1. by rewrite app_nil_r.
Qed.

(** A tick in which nothing is captured. *)
Lemma tick_uncaptured env now src (a a' : AG) src' r :
  let s := status (gate a) now in
  let a0 := a <| ag_clock_ms := now |> <| pipeline := apply_identity s <$> pipeline a |> in
  capture_step env s src a0 = (a0, src, Ok 0) -> tick env now src a = Some (a', src', r) ->
  src' = src /\ kept a a' /\
  (forall t, r = Ok t -> tr_segments_spooled t = 0 /\ tr_capture_state t = Some (capture_state a0) /\
     (revoked a = true -> tr_segments_sent t = 0 /\ tr_segments_acked t = 0 /\
        (tr_signed_out t = false -> uplink a' = uplink a))).
Proof.
  cbv zeta. intros Hc. rewrite tick_unfold. cbv zeta. rewrite Hc.
  set (a0 := a <| ag_clock_ms := now |> <| pipeline := _ |>) in *.
  assert (kept a a0) as K0 by by apply same_kept.
  destruct (after_capture_kept a0) as (K2 & G2 & R2 & U2 & C2). rewrite C2.
  pose proof (report_core (status (gate a) now) (after_capture a0)) as Hcore.
  set (c := report_sign_in_state _) in *. pose proof (core_kept _ _ Hcore) as K3.
  unfold core in Hcore. injection Hcore as U3 _ _ _ _ _ _ R3 _.
  destruct (tick_rest _ _ _ _ _ _ c) as [[d rd]|] eqn:Hr; [|done].
  apply tick_rest_kept in Hr as (K4 & _ & Ht). intros [= <- <- <-]. split; [done|].
  split; [do 3 (etrans; [eassumption|]); done|]. intros t Et. destruct (Ht t Et) as (H1 & H2 & H3).
  split_and!; [done|done|]. intros Hrev. destruct H3 as (H3 & H4 & H5); [by rewrite R3, R2|].
  split_and!; [done|done|]. intros Ho. by rewrite (H5 Ho), U3, U2.
Qed.

(** A tick the gate does not allow to capture. *)
Lemma tick_idle env now src (a a' : AG) src' r :
  may_capture (status (gate a) now) = false -> tick env now src a = Some (a', src', r) ->
  src' = src /\ kept a a' /\
  (forall t, r = Ok t -> tr_segments_spooled t = 0 /\ tr_capture_state t = Some Blocked /\
     (revoked a = true -> tr_segments_sent t = 0 /\ tr_segments_acked t = 0 /\
        (tr_signed_out t = false -> uplink a' = uplink a))).
Proof.
  intros Hm Ht. apply tick_uncaptured in Ht as (-> & Hk & Ht).
  2: { unfold capture_step. by rewrite Hm. }
  split; [done|]. split; [done|]. intros t Et. destruct (Ht t Et) as (H1 & -> & H3). split; [done|].
  split; [|done]. f_equal. unfold capture_state. cbn. destruct (pipeline a); [|done]. cbn.
  rewrite may_capture_reason in Hm. apply bool_decide_eq_false in Hm.
  destruct (status_block_reason _) as [rs|] eqn:Hs; [|done]. by eapply apply_identity_blocks.
Qed.

(** A tick without an audio source. *)
Lemma tick_sourceless env now (a a' : AG) src' r :
  tick env now None a = Some (a', src', r) -> src' = None /\ kept a a'.
Proof.
  intros Ht. apply tick_uncaptured in Ht as (-> & Hk & _); [done|].
  unfold capture_step. destruct (may_capture _); [|done]. cbn. by destruct (pipeline a).
Qed.

(** ** Everything that can happen to an agent *)

Inductive agent_step : AG -> AG -> Prop :=
| ag_record e a : agent_step a (record_event a e)
| ag_open t uid a (src : Sc) a' src' r :
    open_capture t uid a src = (a', src', r) -> agent_step a a'
| ag_session active a : agent_step a (Agent_on_session_state a active)
| ag_signed_in uid a : agent_step a (on_signed_in a uid)
| ag_auth au a : agent_step a (a <| auth := au |>)   (* the shared service, used elsewhere *)
| ag_sign_out (env : TickEnv Tm) a a' r :
    Agent_sign_out ulid_bytes env a = Some (a', r) -> agent_step a a'
| ag_tick env now src a a' src' r : tick env now src a = Some (a', src', r) -> agent_step a a'.

Lemma agent_step_flags a a' : agent_step a a' -> flags a a' /\ (in_sync a -> in_sync a').
Proof.
  intros [e b|t uid b src b' src' r Ho|act b|uid b|au b|env b b' r Ho|env now src b b' src' r Ht].
  - split; [by split|done].
  - unfold open_capture, p_take_events in Ho. destruct (open _ _ _) as [[p sc] [[]|e]]; simplify_eq.
    + split; [by split|done].
    + split; [by split|done].
  - split; [by split|done].
  - split; [by split|done].
  - split; [by split|done].
  - apply sign_out_kept in Ho as ([F1 _] & Y & _). done.
  - by apply tick_flags in Ht.
Qed.

Lemma agent_run_flags a a' : rtc agent_step a a' -> flags a a' /\ (in_sync a -> in_sync a').
Proof.
  induction 1 as [|a b c Hs _ [F2 Y2]]; [done|]. apply agent_step_flags in Hs as [F1 Y1].
  split; [by etrans|by auto].
Qed.

(** The gate alone decides: whatever state the agent is in, a tick at a moment
    the identity gate does not allow reads nothing from the audio source, adds no row
    to the spool and reports capture BLOCKED. *)
Theorem tick_captures_only_when_allowed env now src (a a' : AG) src' r :
  tick env now src a = Some (a', src', r) ->
  may_capture (status (gate a) now) = true \/
  (src' = src /\ rows a' ⊆ rows a /\
   forall t, r = Ok t -> tr_segments_spooled t = 0 /\ tr_capture_state t = Some Blocked).
Proof.
  intros Ht. destruct (may_capture _) eqn:Hm; [by left|right].
  destruct (tick_idle _ _ _ _ _ _ _ Hm Ht) as (-> & (_ & _ & Hr) & Hres).
  split_and!; [done|done|]. intros t Et. by destruct (Hres t Et) as (? & ? & _).
Qed.

(** No agent the program can build ever records: the gate's own headset flag
    starts false and no call sets it, so from a fresh agent, after any sequence of
    sign-ins, successful [open_capture]s, session changes and ticks, a tick still reads
    no audio, adds no row to the spool and reports BLOCKED, with the message that the
    headset is not detected once a user is signed in. *)
Theorem agent_never_records u au ap w pol i (a : AG) env now src a' src' r :
  rtc agent_step (Agent_new u au ap w pol i) a -> tick env now src a = Some (a', src', r) ->
  src' = src /\ rows a' ⊆ rows a /\
  (forall t, r = Ok t -> tr_segments_spooled t = 0 /\ tr_capture_state t = Some Blocked) /\
  (signed_in (gate a) = true -> device_revoked (gate a) = false ->
   widget_message (status (gate a) now) = Some "Headset not detected").
Proof.
  intros Hrun Ht. apply agent_run_flags in Hrun as [[Hp _ _] _].
  assert (pinned_device_present (gate a) = false) as Hf.
  { rewrite Hp. unfold Agent_new, set_signed_in. cbn. by destruct (is_signed_in _). }
  assert (may_capture (status (gate a) now) = false) as Hm.
  { unfold status. rewrite Hf. by destruct (device_revoked (gate a)), (signed_in (gate a)). }
  destruct (tick_idle _ _ _ _ _ _ _ Hm Ht) as (-> & (_ & _ & Hr) & Hres).
  split_and!; [done|done| |].
  - intros t Et. by destruct (Hres t Et) as (? & ? & _).
  - intros Hs Hd. unfold status. by rewrite Hd, Hs, Hf.
Qed.

(** C24: Revocation stops everything but a sign-out: once a close code 4403 or a 403
    heartbeat has marked the agent revoked, then after any further calls (sign-ins
    included) every completed tick reads no audio, adds no segment, counts none sent or
    acknowledged and reports BLOCKED, and a tick in which the widget's user does not sign
    out leaves the uplink, its spool and its connection exactly as they were. A tick in
    which the user does sign out is exempt from the last: the sign-out's flush pumps the
    spool of a revoked device as of any other ([revoked_device_uploads_at_sign_out]). *)
Theorem revoked_is_terminal u au ap w pol i (a b : AG) env now src b' src' t :
  rtc agent_step (Agent_new u au ap w pol i) a -> revoked a = true -> rtc agent_step a b ->
  tick env now src b = Some (b', src', Ok t) ->
  src' = src /\ tr_segments_spooled t = 0 /\ tr_segments_sent t = 0 /\ tr_segments_acked t = 0 /\
  tr_capture_state t = Some Blocked /\ (tr_signed_out t = false -> uplink b' = uplink b).
Proof.
  intros Ha Hr Hb Ht. apply agent_run_flags in Ha as [_ Ya]. apply agent_run_flags in Hb as [[_ Gb Rb] _].
  assert (in_sync a) as Hy by (apply Ya; unfold in_sync, Agent_new, set_signed_in; cbn; by destruct (is_signed_in _)).
  assert (device_revoked (gate b) = true) as Hg by (apply Gb; by rewrite <- Hy).
  assert (may_capture (status (gate b) now) = false) as Hm by (unfold status; by rewrite Hg).
  destruct (tick_idle _ _ _ _ _ _ _ Hm Ht) as (-> & _ & Hres).
  destruct (Hres t eq_refl) as (H1 & H2 & H3). destruct (H3 (Rb Hr)) as (H4 & H5 & H6).
  split_and!; done.
Qed.

(** What a failed [open_capture] tells the agent of. *)
Definition open_events (t : CaptureTier) (uid : string) (a : AG) (src : Sc) : list ClientEvent :=
  match open (ag_policy a) (Pipeline_new (ag_policy a) t (ai_device_id (info a)) uid) src with
  | (_, _, Ok _) => []
  | (p, _, Err _) => (p_take_events p).2
  end.

(** A run, with the events the agent was told of in it, in order. *)
Inductive agent_log : AG -> list ClientEvent -> AG -> Prop :=
| al_start a : agent_log a [] a
| al_record e a evs b : agent_log a evs b -> agent_log a (evs ++ [e]) (record_event b e)
| al_open t uid a evs b (src : Sc) b' src' r :
    agent_log a evs b -> open_capture t uid b src = (b', src', r) ->
    agent_log a (evs ++ open_events t uid b src) b'
| al_tick env now src a evs b b' src' r :
    agent_log a evs b -> tick env now src b = Some (b', src', r) ->
    agent_log a (evs ++ tick_events env now src b) b'
| al_session active a evs b : agent_log a evs b -> agent_log a evs (Agent_on_session_state b active)
| al_signed_in uid a evs b : agent_log a evs b -> agent_log a evs (on_signed_in b uid)
| al_auth au a evs b : agent_log a evs b -> agent_log a evs (b <| auth := au |>)
| al_sign_out (env : TickEnv Tm) a evs b b' r :
    agent_log a evs b -> Agent_sign_out ulid_bytes env b = Some (b', r) -> agent_log a evs b'.

Lemma open_ledger t uid (a : AG) (src : Sc) a' src' r :
  open_capture t uid a src = (a', src', r) ->
  revoked a' = revoked a /\ ledger a' = ledger a ++ (event_fact <$> open_events t uid a src).
Proof.
  unfold open_capture, open_events, p_take_events. destruct (open _ _ _) as [[p sc] [[]|e]]; intros [= <- _ _].
  - by rewrite app_nil_r.
  - split; [done|]. by apply queued_ledger.
Qed.

Lemma tick_not_revoked env now src (a a' : AG) src' r :
  tick env now src a = Some (a', src', r) -> revoked a' = false -> revoked a = false.
Proof.
  intros Ht Hr. apply tick_flags in Ht as [[_ _ R] _]. destruct (revoked a); [by rewrite R in Hr|done].
Qed.

(** C23: No client event is lost, reordered or reported twice: over any run of a device
    that is not revoked, the events in the heartbeats the server acknowledged, followed
    by those queued, are exactly the ones before the run and then the ones the agent was
    told of during it, each once and in that order; so a failed heartbeat costs nothing
    and an acknowledged event is never sent again. *)
Theorem events_acknowledged_or_queued (a b : AG) evs :
  agent_log a evs b -> revoked b = false -> ledger b = ledger a ++ (event_fact <$> evs).
Proof.
  induction 1 as [a|e a evs b _ IH|t uid a evs b src b' src' r _ IH Ho|env now src a evs b b' src' r _ IH Ht|
    act a evs b _ IH|uid a evs b _ IH|au a evs b _ IH|env a evs b b' r _ IH Ho]; intros Hr.
  - by rewrite app_nil_r.
  - rewrite fmap_app, (assoc_L (++)), <- IH by done. by apply queued_ledger.
  - apply open_ledger in Ho as [R Hl]. rewrite Hl, IH, fmap_app, (assoc_L (++)); [done|]. by rewrite <- R.
  - rewrite (tick_ledger _ _ _ _ _ _ _ Ht Hr), IH, fmap_app, (assoc_L (++)); [done|]. by eapply tick_not_revoked.
  - by apply IH.
  - by apply IH.
  - by apply IH.
  - apply sign_out_kept in Ho as ([[_ _ R] _] & _ & Hl & _). rewrite Hl. apply IH.
    destruct (revoked b); [by rewrite R in Hr|done].
Qed.

(** Everything but a completed sign-in. *)
Definition quiet_step (a b : AG) : Prop :=
  agent_step a b /\ (signed_in (gate b) = true -> signed_in (gate a) = true).

(** Signing out stops recording: a completed sign-out leaves nobody signed in
    (after the steps stop, flush, clear, end, in that order), and until a new sign-in
    is recorded every tick reads no audio, adds nothing to the spool and reports
    BLOCKED. *)
Theorem sign_out_stops_recording (env0 : TickEnv Tm) (a b c : AG) env now src c' src' r :
  Agent_sign_out ulid_bytes env0 a = Some (b, Ok tt) -> rtc quiet_step b c ->
  tick env now src c = Some (c', src', r) ->
  is_signed_in (a_state (auth b)) = false /\
  last_signout (auth b) = [StopCapture; FlushSpool; ClearTokens; EndServerSession] /\
  src' = src /\ rows c' ⊆ rows c /\
  (forall t, r = Ok t -> tr_segments_spooled t = 0 /\ tr_capture_state t = Some Blocked).
Proof.
  intros Ho Hq Ht. apply sign_out_kept in Ho as (_ & _ & _ & Ho).
  destruct (Ho eq_refl) as (Hs & Ha & Hl).
  assert (signed_in (gate c) = false) as Hc.
  { clear -Hs Hq. induction Hq as [|x y z [_ H] _ IH]; [done|]. apply IH.
    destruct (signed_in (gate y)); [by rewrite H in Hs|done]. }
  assert (may_capture (status (gate c) now) = false) as Hm.
  { unfold status. rewrite Hc. by destruct (device_revoked (gate c)). }
  destruct (tick_idle _ _ _ _ _ _ _ Hm Ht) as (-> & (_ & _ & Hr) & Hres).
  split_and!; try done. intros t Et. by destruct (Hres t Et) as (? & ? & _).
Qed.
End agent_props.

(** ** Concrete agents

    A desk with the pinned headset plugged in, scripted heartbeat answers (the network
    is down when they run out) and scripted widget calls. *)
Record Desk := { desk_tapes : Tapes }.
Definition headset (id : string) (d : AudioDirection) : AudioDevice :=
  {| ad_id := id; ad_container_id := Some "hs"; ad_friendly_name := "Headset"; ad_direction := d; ad_is_default := false;
     ad_active := true |}.
#[export] Instance desk_source : CaptureSource Desk := {|
  src_enumerate _ := Ok [headset "out" DirRender; headset "in" DirCapture];
  src_open s id d := let '(t, r) := src_open (desk_tapes s) id d in ({| desk_tapes := t |}, r);
  src_read_frames s h n :=
    let '(t, r) := src_read_frames (desk_tapes s) h n in ({| desk_tapes := t |}, r);
|}.
#[export] Instance script_api : SentinelApi (list (result HeartbeatAck ApiError)) := fun l _ _ =>
  match l with [] => ([], Err (ApiTransport "down")) | r :: l' => (l', r) end.
#[export] Instance script_widget : WidgetShell (list (list HostCall)) := {|
  post_state w _ := (w, Ok tt);
  drain_host_calls w := match w with [] => ([], []) | c :: w' => (w', c) end;
|}.
#[export] Instance counting_clock : OffsetDateTime Z := {|
  tm_minus_ms := Z.sub; utc_year _ := 2026; utc_month _ := 9; utc_day _ := 1; utc_hour _ := 10;
  utc_minute _ := 20; utc_second _ := 0; utc_millisecond t := t mod 1000;
|}.

Definition demo_policy : Policy :=
  {| pol_version := 0; pinned_devices := [{| pd_container_id := "hs"; pd_friendly_name := None |}];
     softphone := SoftphoneConfig_default; offline_grace_hours := 8; idle_signout_minutes := 30;
     rules_version := 0; allow_agent_audio_playback := false; retention := Retention_default;
     vad := VadConfig_default |}.
Definition demo_info : AgentIdentityInfo :=
  {| ai_device_id := "dev"; ai_os_build := "10.0.22631"; ai_tier := Some TierA; ai_agent_restarts := 0 |}.
Definition demo_desk : Desk := {| desk_tapes := toy_tapes |}.
Definition demo_env : TickEnv Z :=
  {| te_clockwork := toy_clockwork; te_utc := 500; te_draw := fun _ => 0; te_fuel := 5;
     te_flush_passes := fun _ => 2%nat; te_flush_draw := fun _ _ => 0 |}.

Abbreviation DemoAgent := (Agent (Rec Script) (list (list Incoming)) unit bool MemoryTokenStore nat unit
  (RecApi (list (result HeartbeatAck ApiError))) (list (list HostCall))).
Abbreviation demo_tick := (tick (Sc:=Desk) sample_ulid "0.1.0" demo_env).

(** Signed in, two segments spooled, and the server's first answer scripted. *)
Definition demo_agent (answers : list (result HeartbeatAck ApiError)) (calls : list (list HostCall))
    : DemoAgent :=
  Agent_new (sample_uplink 2 []) demo_signed_in {| api_inner := answers; posted := [] |} calls
    demo_policy demo_info.
Definition demo_opened answers calls : DemoAgent :=
  (open_capture TierA "uid" (demo_agent answers calls) demo_desk).1.1.
(** After the first tick. *)
Definition demo_ticked answers calls : option DemoAgent :=
  (fun x => x.1.1) <$> demo_tick 0 (Some demo_desk) (demo_opened answers calls).

Abbreviation demo_steps := (agent_step (Sc:=Desk) (Tm:=Z) sample_ulid "0.1.0").

Lemma demo_open_steps answers calls :
  rtc demo_steps (demo_agent answers calls) (demo_opened answers calls).
Proof.
  eapply rtc_l; [|apply rtc_refl].
  unfold demo_opened. destruct (open_capture _ _ _ _) as [[a' s] r] eqn:Eo. by eapply ag_open.
Qed.

Lemma demo_tick_steps answers calls a :
  demo_ticked answers calls = Some a -> rtc demo_steps (demo_opened answers calls) a.
Proof.
  unfold demo_ticked. destruct (demo_tick _ _ _) as [[[a' s] r]|] eqn:Et; [|done].
  intros [= <-]. eapply rtc_l; [|apply rtc_refl]. by eapply ag_tick.
Qed.

Definition demo_ok : result HeartbeatAck ApiError :=
  Ok {| ha_policy_version := 1; ha_server_time := "t"; ha_commands := [] |}.

Lemma agent_never_records_witness :
  ag_pinned_device_present (demo_opened [demo_ok] []) = true /\
  exists a a' src' t, demo_ticked [demo_ok] [] = Some a /\
    demo_tick 20 (Some demo_desk) a = Some (a', src', Ok t) /\
    src' = Some demo_desk /\ tr_capture_state t = Some Blocked /\
    widget_message (status (gate a) 20) = Some "Headset not detected".
Proof.
  split; [vm_compute; reflexivity|].
  destruct (demo_ticked [demo_ok] []) as [a|] eqn:Ea; [|vm_compute in Ea; discriminate].
  destruct (demo_tick 20 (Some demo_desk) a) as [[[a' src'] r]|] eqn:Et;
    [|vm_compute in Ea; injection Ea as <-; vm_compute in Et; discriminate].
  destruct r as [t|e]; [|vm_compute in Ea; injection Ea as <-; vm_compute in Et; discriminate].
  exists a, a', src', t. split; [reflexivity|]. split; [exact Et|].
  destruct (agent_never_records sample_ulid "0.1.0" (sample_uplink 2 []) demo_signed_in
    {| api_inner := [demo_ok]; posted := [] |} [] demo_policy demo_info a demo_env 20
    (Some demo_desk) a' src' (Ok t)) as (H1 & _ & H3 & H4).
  - etrans; [apply demo_open_steps|by apply demo_tick_steps].
  - exact Et.
  - split; [exact H1|]. split; [apply (H3 t eq_refl)|].
    apply H4; vm_compute in Ea; injection Ea as <-; reflexivity.
Defined.

(** A disallowed tick of the same agent. *)
Lemma tick_captures_witness :
  may_capture (status (gate (demo_opened [] [])) 0) = false /\
  exists a' src' r, demo_tick 0 (Some demo_desk) (demo_opened [] []) = Some (a', src', r) /\
    (false = true \/ (src' = Some demo_desk /\ rows a' ⊆ rows (demo_opened [] []) /\
     forall t, r = Ok t -> tr_segments_spooled t = 0 /\ tr_capture_state t = Some Blocked)).
Proof.
  split; [vm_compute; reflexivity|].
  destruct (demo_tick 0 (Some demo_desk) (demo_opened [] [])) as [[[a' src'] r]|] eqn:Et;
    [|vm_compute in Et; discriminate].
  exists a', src', r. split; [reflexivity|].
  exact (tick_captures_only_when_allowed sample_ulid "0.1.0" demo_env 0 (Some demo_desk)
           (demo_opened [] []) a' src' r Et).
Defined.

Lemma revoked_is_terminal_witness :
  exists a b' src' t, demo_ticked [Err ApiForbidden; demo_ok] [] = Some a /\ revoked a = true /\
    demo_tick 40000 (Some demo_desk) a = Some (b', src', Ok t) /\
    tr_segments_sent t = 0 /\ (tr_signed_out t = false -> uplink b' = uplink a).
Proof.
  destruct (demo_ticked [Err ApiForbidden; demo_ok] []) as [a|] eqn:Ea; [|vm_compute in Ea; discriminate].
  assert (revoked a = true) as Hr by (vm_compute in Ea; injection Ea as <-; reflexivity).
  destruct (demo_tick 40000 (Some demo_desk) a) as [[[b' src'] r]|] eqn:Et;
    [|vm_compute in Ea; injection Ea as <-; vm_compute in Et; discriminate].
  destruct r as [t|e]; [|vm_compute in Ea; injection Ea as <-; vm_compute in Et; discriminate].
  exists a, b', src', t. split; [reflexivity|]. split; [exact Hr|]. split; [exact Et|].
  destruct (revoked_is_terminal sample_ulid "0.1.0" (sample_uplink 2 []) demo_signed_in
    {| api_inner := [Err ApiForbidden; demo_ok]; posted := [] |} [] demo_policy demo_info a a
    demo_env 40000 (Some demo_desk) b' src' t) as (_ & _ & H3 & _ & _ & H6).
  - etrans; [apply demo_open_steps|by apply demo_tick_steps].
  - exact Hr.
  - apply rtc_refl.
  - exact Et.
  - split; [exact H3|exact H6].
Defined.

(** The server closes the first connection with 4403, and the agent is revoked with two
    segments on its disk. Its user signs out through the widget forty seconds later: the
    flush reconnects and sends the call's start and the audio. *)
Definition demo_banned : DemoAgent :=
  Agent_new (sample_uplink 2 [[InClosed (Some CLOSE_FORBIDDEN)]; []]) demo_signed_in
    {| api_inner := []; posted := [] |} [[]; [HcSignOut]] demo_policy demo_info.
Example revoked_device_uploads_at_sign_out :
  match demo_tick 0 None demo_banned with
  | Some (a, _, Ok _) =>
      revoked a = true /\ st_segments (stats (spool (uplink a))) = 2 /\ transport (uplink a) = None /\
      match demo_tick 40000 None a with
      | Some (b, _, Ok t) =>
          revoked b = true /\ tr_signed_out t = true /\ tr_segments_sent t = 0 /\
          match wire_of (uplink b) with [OutText _; OutBinary audio] => length audio = (2 * (Protocol.HEADER_LEN + 3))%nat | _ => False end
      | _ => False
      end
  | _ => False
  end.
Proof. vm_compute. by repeat split. Qed.

(** One event queued while the network is down, acknowledged by the next heartbeat. *)
Definition demo_event : ClientEvent := ClientEvent_new CaptureError 0.
Definition demo_queued (answers : list (result HeartbeatAck ApiError)) : DemoAgent :=
  record_event (demo_agent answers []) demo_event.

Definition demo_down : result HeartbeatAck ApiError := Err (ApiTransport "down").

(** The first heartbeat fails, the second is acknowledged, the third has nothing to say. *)
Lemma events_witness :
  exists a1 a2 a3 s1 s2 s3 r1 r2 r3, let a := demo_agent [demo_down; demo_ok; demo_ok] [] in
    demo_tick 0 None (record_event a demo_event) = Some (a1, s1, r1) /\
    demo_tick 40000 None a1 = Some (a2, s2, r2) /\ demo_tick 80000 None a2 = Some (a3, s3, r3) /\
    length (posted (api a3)) = 3%nat /\ ledger a3 = [("capture_error", None, None)].
Proof.
  set (a := demo_agent [demo_down; demo_ok; demo_ok] []).
  destruct (demo_tick 0 None (record_event a demo_event)) as [[[a1 s1] r1]|] eqn:E1; [|vm_compute in E1; discriminate].
  destruct (demo_tick 40000 None a1) as [[[a2 s2] r2]|] eqn:E2;
    [|vm_compute in E1; injection E1 as <- _ _; vm_compute in E2; discriminate].
  destruct (demo_tick 80000 None a2) as [[[a3 s3] r3]|] eqn:E3;
    [|vm_compute in E1; injection E1 as <- _ _; vm_compute in E2; injection E2 as <- _ _; vm_compute in E3; discriminate].
  exists a1, a2, a3, s1, s2, s3, r1, r2, r3. split; [exact E1|]. split; [exact E2|]. split; [exact E3|].
  pose proof (events_acknowledged_or_queued (Sc:=Desk) (Tm:=Z) sample_ulid "0.1.0" a a3 _
    (al_tick _ _ _ _ _ _ _ _ _ _ _ (al_tick _ _ _ _ _ _ _ _ _ _ _ (al_tick _ _ _ _ _ _ _ _ _ _ _
      (al_record _ _ demo_event a _ _ (al_start _ _ a)) E1) E2) E3)) as H.
  vm_compute in E1; injection E1 as <- _ _. vm_compute in E2; injection E2 as <- _ _.
  vm_compute in E3; injection E3 as <- _ _. split; [reflexivity|]. rewrite H by reflexivity. reflexivity.
Defined.

Lemma sign_out_stops_witness :
  exists b c' src' r, Agent_sign_out sample_ulid demo_env (demo_opened [] []) = Some (b, Ok tt) /\
    demo_tick 60 (Some demo_desk) b = Some (c', src', r) /\
    is_signed_in (a_state (auth b)) = false /\ src' = Some demo_desk /\ rows c' ⊆ rows b.
Proof.
  destruct (Agent_sign_out sample_ulid demo_env (demo_opened [] [])) as [[b [[]|e]]|] eqn:Eb;
    [|vm_compute in Eb; discriminate|vm_compute in Eb; discriminate].
  destruct (demo_tick 60 (Some demo_desk) b) as [[[c' src'] r]|] eqn:Et;
    [|vm_compute in Eb; injection Eb as <-; vm_compute in Et; discriminate].
  exists b, c', src', r. split; [reflexivity|]. split; [exact Et|].
  destruct (sign_out_stops_recording (Sc:=Desk) (Tm:=Z) sample_ulid "0.1.0" demo_env
    (demo_opened [] []) b b demo_env 60 (Some demo_desk) c' src' r Eb) as (H1 & _ & H3 & H4 & _).
  - apply rtc_refl.
  - exact Et.
  - split; [exact H1|]. split; [exact H3|exact H4].
Defined.
