(* ===== verification/Ipc.v ===== *)
(** The control pipe between agent and service: framing and messages
    (sentinel-service/src/ipc/codec.rs), the service's connection loop
    (sentinel-service/src/windows/pipe.rs, [pump]) and its request handler
    (sentinel-service/src/main.rs, [handle]).

    serde_json is the interface [IpcJson]; the pipe is the list of chunks its reads
    return and the list of replies written. *)

From S2P Require Import Prelude Text Config Utf8.

Definition MAX_FRAME_BYTES : Z := 256 * 1024.
Definition LENGTH_PREFIX_BYTES : nat := 4.

Inductive IpcError :=
| FrameTooLarge (n : Z)
| EmptyFrame
| NotUtf8
| BadJson (why : string).

(** ** Messages *)

Record HealthReport := {
  hr_capture_state : string;
  hr_user_signed_in : bool;
  hr_spool_depth : Z;
  hr_spool_bytes : Z;
  hr_pinned_device_present : bool;
  hr_agent_version : string;
  hr_uptime_ms : Z;
}.

Inductive Request :=
| GetConfig
| ReportHealth (h : HealthReport)
| RequestUpdateCheck
| LogEvent (e : ClientEvent).

Record ConfigSnapshot := {
  snap_local : LocalConfig;
  snap_policy : option Policy;
  snap_capture_tier : option string;
  snap_os_build : string;
  snap_service_version : string;
  snap_agent_restarts : Z;
}.

Record UpdateStatus := {
  current_version : string;
  staged_version : option string;
  checking : bool;
}.

Inductive Response :=
| RespConfig (s : ConfigSnapshot)
| RespOk
| RespUpdateStatus (s : UpdateStatus)
| RespError (ecode message : string).

(** serde_json for one message type: [to_vec] and [from_str]. *)
Class IpcJson (A : Type) := {
  to_vec : A -> result (list u8) string;
  from_str : string -> result A string;
}.

(** ** Coding *)

Definition ipc_encode {A} {Ij : IpcJson A} (msg : A) : result (list u8) IpcError :=
  let? json := map_err BadJson (to_vec msg) in
  if MAX_FRAME_BYTES <? len json then Err (FrameTooLarge (len json))
  else Ok (to_le_bytes LENGTH_PREFIX_BYTES (len json) ++ json).

(** A byte slice as text. *)
Definition text_of (l : list u8) : string := str (Ascii.ascii_of_byte <$> l).

Definition ipc_decode {A} {Ij : IpcJson A} (body : list u8) : result A IpcError :=
  match body with
  | [] => Err EmptyFrame
  | _ =>
      if negb (is_utf8 (text_of body)) then Err NotUtf8
      else map_err BadJson (from_str (text_of body))
  end.

(** ** The frame reader *)

Record FrameReader := { buf : list u8 }.
#[export] Instance rebuild_FrameReader : Rebuild FrameReader := fun r => {| buf := buf r |}.
Definition FrameReader_new : FrameReader := {| buf := [] |}.

Definition feed_chunk (r : FrameReader) (chunk : list u8) : FrameReader :=
  r <| buf := buf r ++ chunk |>.
Definition buffered (r : FrameReader) : Z := len (buf r).

Definition next_frame (r : FrameReader) : FrameReader * result (option (list u8)) IpcError :=
  if (length (buf r) <? LENGTH_PREFIX_BYTES)%nat then (r, Ok None)
  else
    let n := from_le_bytes (take LENGTH_PREFIX_BYTES (buf r)) in
    if n =? 0 then (r, Err EmptyFrame)
    else if MAX_FRAME_BYTES <? n then (r, Err (FrameTooLarge n))
    else
      let total := (LENGTH_PREFIX_BYTES + Z.to_nat n)%nat in
      if (length (buf r) <? total)%nat then (r, Ok None)
      else (r <| buf := drop total (buf r) |>, Ok (Some (slice LENGTH_PREFIX_BYTES total (buf r)))).

(** ** The service's side *)

Record ServiceState := {
  ss_local : LocalConfig;
  ss_policy : option Policy;
  ss_tier : option string;
  ss_os_build : string;
  ss_restarts : Z;
  ss_agent_state : string;
  ss_update_requested : bool;
  ss_staged_version : option string;
}.
#[export] Instance rebuild_ServiceState : Rebuild ServiceState := fun s =>
  {| ss_local := ss_local s; ss_policy := ss_policy s; ss_tier := ss_tier s;
     ss_os_build := ss_os_build s; ss_restarts := ss_restarts s;
     ss_agent_state := ss_agent_state s; ss_update_requested := ss_update_requested s;
     ss_staged_version := ss_staged_version s |}.

Definition handle (version : string) (s : ServiceState) (req : Request) : ServiceState * Response :=
  match req with
  | GetConfig => (s, RespConfig
      {| snap_local := ss_local s; snap_policy := ss_policy s; snap_capture_tier := ss_tier s;
         snap_os_build := ss_os_build s; snap_service_version := version;
         snap_agent_restarts := ss_restarts s |})
  | ReportHealth h => (s <| ss_agent_state := hr_capture_state h |>, RespOk)
  | RequestUpdateCheck => (s <| ss_update_requested := true |>, RespUpdateStatus
      {| current_version := version; staged_version := ss_staged_version s; checking := true |})
  | LogEvent _ => (s, RespOk)
  end.

(** How one connection goes on after the frames of a read: keep reading, or return. *)
Inductive ConnEnd := Finished | IoFailed (why : string).

Definition ipc_error_string (e : IpcError) : string :=
  match e with
  | FrameTooLarge n => "frame of " +:+ fmt_u n +:+ " bytes exceeds the 262144 byte limit"
  | EmptyFrame => "zero-length frame"
  | NotUtf8 => "frame is not valid UTF-8"
  | BadJson why => "frame is not a valid IPC message: " +:+ why
  end.

Section pump.
Context {Rq : IpcJson Request} {Rs : IpcJson Response} (version : string).

(** One complete frame: decode, handle, reply. *)
Definition answer (s : ServiceState) (body : list u8) : ServiceState * result (list u8) IpcError :=
  let '(s, reply) := match ipc_decode body with
                     | Ok req => handle version s req
                     | Err e => (s, RespError "bad_message" (ipc_error_string e))
                     end in
  (s, ipc_encode reply).

(** The inner loop of [pump]; a frame takes at least five bytes, so [fuel] above the
    bytes buffered is enough. *)
Fixpoint pump_frames (fuel : nat) (r : FrameReader) (s : ServiceState) (out : list (list u8))
    : FrameReader * ServiceState * list (list u8) * option ConnEnd :=
  match fuel with
  | O => (r, s, out, None)
  | S fuel' =>
      let '(r, f) := next_frame r in
      match f with
      | Ok None => (r, s, out, None)
      | Ok (Some body) =>
          let '(s, reply) := answer s body in
          match reply with
          | Err e => (r, s, out, Some (IoFailed (ipc_error_string e)))
          | Ok bytes => pump_frames fuel' r s (out ++ [bytes])
          end
      | Err _ => (r, s, out, Some Finished)
      end
  end.

(** [pump]: [chunks] is what the reads return; the peer goes away at their end. *)
Fixpoint conn_pump (chunks : list (list u8)) (r : FrameReader) (s : ServiceState)
    (out : list (list u8)) : ServiceState * list (list u8) * ConnEnd :=
  match chunks with
  | [] => (s, out, Finished)
  | chunk :: chunks' =>
      match chunk with
      | [] => (s, out, Finished)
      | _ =>
          let r := feed_chunk r chunk in
          match pump_frames (S (length (buf r))) r s out with
          | (_, s, out, Some e) => (s, out, e)
          | (r, s, out, None) =>
              if MAX_FRAME_BYTES <? buffered r then (s, out, Finished)
              else conn_pump chunks' r s out
          end
      end
  end.
End pump.

(** ** Frames, however they arrive *)

(** Pop frames until the reader wants more bytes or gives up. *)
Fixpoint drain (fuel : nat) (r : FrameReader) : list (list u8) * FrameReader * option IpcError :=
  match fuel with
  | O => ([], r, None)
  | S fuel' =>
      let '(r', f) := next_frame r in
      match f with
      | Ok None => ([], r', None)
      | Err e => ([], r', Some e)
      | Ok (Some body) => let '(fs, r, e) := drain fuel' r' in (body :: fs, r, e)
      end
  end.
Definition drain_all (r : FrameReader) := drain (S (length (buf r))) r.

Lemma next_frame_stable r x :
  match next_frame r with
  | (r', Ok None) => r' = r
  | (r', Err e) => r' = r /\ next_frame (feed_chunk r x) = (feed_chunk r x, Err e)
  | (r', Ok (Some b)) =>
      next_frame (feed_chunk r x) = (feed_chunk r' x, Ok (Some b)) /\
      (length (buf r') < length (buf r))%nat
  end.
Proof.
  destruct r as [b]. unfold next_frame, feed_chunk. cbn [buf upd].
  destruct (Nat.ltb_spec (length b) LENGTH_PREFIX_BYTES) as [|H4]; [done|].
  rewrite (proj2 (Nat.ltb_ge (length (b ++ x)) _)) by lens.
  rewrite take_app_le by done. set (n := from_le_bytes _).
  destruct (n =? 0) eqn:Hz; [done|]. destruct (MAX_FRAME_BYTES <? n); [done|].
  set (total := (LENGTH_PREFIX_BYTES + Z.to_nat n)%nat).
  destruct (Nat.ltb_spec (length b) total) as [|Ht]; [done|].
  rewrite (proj2 (Nat.ltb_ge (length (b ++ x)) _)) by lens.
  rewrite drop_app_le by done. split.
  - unfold slice. rewrite drop_app_le by done.
    rewrite take_app_le; [done|]. rewrite length_drop. lia.
  - cbn [buf]. rewrite length_drop. unfold total, LENGTH_PREFIX_BYTES in *. lia.
Qed.

Lemma drain_fuel n m r : (length (buf r) < n)%nat -> (length (buf r) < m)%nat -> drain n r = drain m r.
Proof.
  revert m r. induction n as [|n IH]; intros [|m] r Hn Hm; try lia. cbn [drain].
  pose proof (next_frame_stable r []) as Hs.
  destruct (next_frame r) as [r' [[b|]|e]]; try done. destruct Hs as [_ Hl].
  by rewrite (IH m r') by lia.
Qed.

(** More bytes never change the frames already popped. *)
Lemma drain_app r x :
  drain_all (feed_chunk r x) =
  match drain_all r with
  | (fs, r', None) =>
      let '(fs2, r2, e2) := drain_all (feed_chunk r' x) in (fs ++ fs2, r2, e2)
  | (fs, r', Some e) => (fs, feed_chunk r' x, Some e)
  end.
Proof.
  unfold drain_all at 2. remember (S (length (buf r))) as n eqn:Hn.
  assert (length (buf r) < n)%nat as Hlt by lia. clear Hn. revert r Hlt.
  induction n as [|n IH]; intros r Hlt; [lia|]. cbn [drain].
  pose proof (next_frame_stable r x) as Hs.
  destruct (next_frame r) as [r' [[b|]|e]].
  - destruct Hs as [Hf Hl]. unfold drain_all at 1. cbn [drain]. rewrite Hf.
    rewrite (drain_fuel _ (S (length (buf (feed_chunk r' x)))))
      by (unfold feed_chunk; cbn [buf upd]; rewrite ?length_app; lia).
    change (drain (S (length (buf (feed_chunk r' x)))) (feed_chunk r' x)) with
      (drain_all (feed_chunk r' x)).
    rewrite (IH r') by lia. destruct (drain n r') as [[fs r1] [e1|]]; [done|].
    by destruct (drain_all (feed_chunk r1 x)) as [[fs2 r2] e2].
  - subst r'. by destruct (drain_all (feed_chunk r x)) as [[fs2 r2] e2].
  - destruct Hs as [-> Hf]. unfold drain_all. cbn [drain]. by rewrite Hf.
Qed.

Lemma drain_done r fs r' : drain_all r = (fs, r', None) -> next_frame r' = (r', Ok None).
Proof.
  unfold drain_all. remember (S (length (buf r))) as n eqn:Hn.
  assert (length (buf r) < n)%nat as Hlt by lia. clear Hn. revert r fs Hlt.
  induction n as [|n IH]; intros r fs Hlt; [lia|]. cbn [drain].
  pose proof (next_frame_stable r []) as Hs.
  destruct (next_frame r) as [r1 [[b|]|e]] eqn:Hf; [| |done].
  - destruct Hs as [_ Hl]. destruct (drain n r1) as [[fs1 r2] e1] eqn:Hd.
    intros [= _ -> ->]. eapply IH; [|exact Hd]. lia.
  - intros [= _ <-]. by subst.
Qed.

(** A frame in front is the next frame. *)
Definition frame (body : list u8) : list u8 := to_le_bytes LENGTH_PREFIX_BYTES (len body) ++ body.
Lemma length_frame b : length (frame b) = (4 + length b)%nat.
Proof. unfold frame. by rewrite length_app, length_to_le_bytes. Qed.
Definition body_ok (body : list u8) : Prop := body <> [] /\ len body <= MAX_FRAME_BYTES.

Lemma next_frame_frame body rest :
  body_ok body -> next_frame {| buf := frame body ++ rest |} = ({| buf := rest |}, Ok (Some body)).
Proof.
  intros [Hne Hmax]. unfold next_frame, frame. cbn [buf].
  assert (0 < len body) by (destruct body; [done|cbn; lia]).
  pose proof (length_to_le_bytes LENGTH_PREFIX_BYTES (len body)) as H4.
  assert (from_le_bytes (to_le_bytes LENGTH_PREFIX_BYTES (len body)) = len body) as Hv
    by (apply from_to_le_bytes; unfold MAX_FRAME_BYTES, LENGTH_PREFIX_BYTES in *; cbn; lia).
  revert H4 Hv. generalize (to_le_bytes LENGTH_PREFIX_BYTES (len body)). intros p H4 Hv.
  rewrite <- (assoc_L (++)), (take_app_length' p) by done. rewrite Hv, Nat2Z.id.
  destruct (Nat.ltb_spec (length (p ++ body ++ rest)) LENGTH_PREFIX_BYTES) as [Hl|_].
  { lens. }
  destruct (Z.eqb_spec (len body) 0); [lia|]. destruct (Z.ltb_spec MAX_FRAME_BYTES (len body)); [lia|].
  destruct (Nat.ltb_spec (length (p ++ body ++ rest)) (LENGTH_PREFIX_BYTES + length body)) as [Hl|_].
  { lens. }
  rewrite slice_mid by done. cbn [upd buf]. do 2 f_equal. 
  rewrite (assoc_L (++)), (drop_app_length' (p ++ body)); [done|]. rewrite length_app. lia.
Qed.

Lemma drain_frames bodies :
  Forall body_ok bodies ->
  drain_all {| buf := bodies ≫= frame |} = (bodies, FrameReader_new, None).
Proof.
  induction 1 as [|b l Hb Hl IH]; [done|]. unfold drain_all. cbn [drain].
  change ((b :: l) ≫= frame) with (frame b ++ (l ≫= frame)).
  rewrite next_frame_frame by done. cbn [buf].
  rewrite (drain_fuel _ (S (length (l ≫= frame)))).
  - change (drain (S (length (l ≫= frame))) {| buf := l ≫= frame |}) with
      (drain_all {| buf := l ≫= frame |}). by rewrite IH.
  - cbn [buf]. rewrite length_app, length_frame. lia.
  - cbn [buf]. lia.
Qed.

(** ** The connection *)

(** What a peer that sends well-formed frames is owed: each request handled once, in
    order, each reply written once, in order. *)
Section connection.
Context {Rq : IpcJson Request} {Rs : IpcJson Response} (version : string).

Fixpoint answer_all (s : ServiceState) (bodies : list (list u8)) : option (ServiceState * list (list u8)) :=
  match bodies with
  | [] => Some (s, [])
  | b :: l =>
      match answer version s b with
      | (s, Ok bytes) => '(s', out) ← answer_all s l; Some (s', bytes :: out)
      | (_, Err _) => None
      end
  end.

Lemma answer_all_app s l1 l2 s' out :
  answer_all s (l1 ++ l2) = Some (s', out) ->
  exists s1 o1 o2, answer_all s l1 = Some (s1, o1) /\ answer_all s1 l2 = Some (s', o2) /\ out = o1 ++ o2.
Proof.
  revert s out. induction l1 as [|b l1 IH]; intros s out; cbn [answer_all app].
  { intros H. by exists s, [], out. }
  destruct (answer version s b) as [s1 [bytes|]]; [|done].
  destruct (answer_all s1 (l1 ++ l2)) as [[s2 o]|] eqn:Ha; [|done]. cbn. intros [= -> <-].
  destruct (IH _ _ Ha) as (t & o1 & o2 & -> & ? & ->). by exists t, (bytes :: o1), o2.
Qed.

Lemma pump_frames_drain fuel r s out fs r' s' o :
  drain fuel r = (fs, r', None) -> answer_all s fs = Some (s', o) ->
  pump_frames version fuel r s out = (r', s', out ++ o, None).
Proof.
  revert r s out fs o. induction fuel as [|n IH]; intros r s out fs o; cbn [drain pump_frames].
  { intros [= <- <-] [= -> <-]. by rewrite (right_id_L [] (++)). }
  destruct (next_frame r) as [r1 [[b|]|e]]; [| |done].
  - destruct (drain n r1) as [[fs1 r2] e1] eqn:Hd. intros [= <- -> ->]. cbn [answer_all].
    destruct (answer version s b) as [s1 [bytes|]]; [|done].
    destruct (answer_all s1 fs1) as [[s2 o2]|] eqn:Ha; [|done]. cbn. intros [= -> <-].
    rewrite (IH r1 s1 (out ++ [bytes]) fs1 o2 Hd Ha). by rewrite <- (assoc_L (++)).
  - intros [= <- <-] [= -> <-]. by rewrite (right_id_L [] (++)).
Qed.

(** Frames that leave the prefix inside the limit keep the leftover inside it. *)
Definition body_fits (body : list u8) : Prop := body <> [] /\ 4 + len body <= MAX_FRAME_BYTES.

Lemma leftover_bounded r x bodies :
  next_frame r = (r, Ok None) -> drain_all (feed_chunk r x) = (bodies, FrameReader_new, None) ->
  Forall body_fits bodies -> buffered r <= MAX_FRAME_BYTES.
Proof.
  intros Hn Hd Hb. unfold buffered.
  destruct (Z.ltb_spec MAX_FRAME_BYTES (len (buf r))) as [Hbig|]; [|lia]. exfalso.
  unfold next_frame in Hn.
  destruct (Nat.ltb_spec (length (buf r)) LENGTH_PREFIX_BYTES) as [H4|H4];
    [unfold MAX_FRAME_BYTES, LENGTH_PREFIX_BYTES in *; lia|].
  set (n := from_le_bytes _) in Hn.
  destruct (n =? 0) eqn:Hz; [done|]. destruct (MAX_FRAME_BYTES <? n) eqn:Hm; [done|].
  destruct (Nat.ltb_spec (length (buf r)) (LENGTH_PREFIX_BYTES + Z.to_nat n)) as [Hs|]; [|done].
  unfold drain_all in Hd. cbn [drain] in Hd. unfold next_frame in Hd.
  change (buf (feed_chunk r x)) with (buf r ++ x) in Hd.
  rewrite (proj2 (Nat.ltb_ge (length (buf r ++ x)) LENGTH_PREFIX_BYTES)) in Hd
    by lens.
  rewrite take_app_le in Hd by done. fold n in Hd. rewrite Hz, Hm in Hd.
  destruct (Nat.ltb_spec (length (buf r ++ x)) (LENGTH_PREFIX_BYTES + Z.to_nat n)) as [Hs'|Hs'].
  { injection Hd as _ Hd. apply (f_equal length) in Hd. rewrite length_app in Hd.
    unfold LENGTH_PREFIX_BYTES in *. cbn in Hd. lia. }
  destruct (drain _ _) as [[fs r2] e2]. injection Hd as <- _ _.
  apply Forall_cons in Hb as [[_ Hb] _]. unfold MAX_FRAME_BYTES, LENGTH_PREFIX_BYTES in *.
  rewrite length_slice in Hb by lia. lia.
Qed.

Lemma conn_pump_drain chunks r s out bodies s' o :
  Forall (fun c => c <> []) chunks -> Forall body_fits bodies ->
  drain_all (feed_chunk r (concat chunks)) = (bodies, FrameReader_new, None) ->
  next_frame r = (r, Ok None) -> answer_all s bodies = Some (s', o) ->
  conn_pump version chunks r s out = (s', out ++ o, Finished).
Proof.
  intros Hne. revert r s out bodies o. induction Hne as [|c chunks Hc Hne IH];
    intros r s out bodies o Hb Hd Hn Ha.
  - cbn [concat] in Hd. unfold feed_chunk, drain_all in Hd. cbn [drain] in Hd.
    rewrite (right_id_L [] (++)) in Hd. destruct r as [b]. cbn [upd buf] in Hd.
    rewrite Hn in Hd. injection Hd as <- _. injection Ha as -> <-. cbn [conn_pump].
    by rewrite (right_id_L [] (++)).
  - cbn [conn_pump]. destruct c as [|c0 c1] eqn:Ec; [done|]. rewrite <- Ec in *. clear Ec Hc.
    cbn [concat] in Hd.
    assert (feed_chunk r (c ++ concat chunks) = feed_chunk (feed_chunk r c) (concat chunks)) as Hf
      by (unfold feed_chunk; cbn [upd buf]; by rewrite (assoc_L (++))).
    rewrite Hf, drain_app in Hd.
    destruct (drain_all (feed_chunk r c)) as [[f1 r1] [e1|]] eqn:Hd1; [done|].
    destruct (drain_all (feed_chunk r1 (concat chunks))) as [[f2 r2] e2] eqn:Hd2.
    injection Hd as <- -> ->. apply Forall_app in Hb as [Hb1 Hb2].
    destruct (answer_all_app _ _ _ _ _ Ha) as (s1 & o1 & o2 & Ha1 & Ha2 & ->).
    rewrite (pump_frames_drain _ _ _ out _ _ _ _ Hd1 Ha1).
    apply drain_done in Hd1. pose proof (leftover_bounded _ _ _ Hd1 Hd2 Hb2).
    destruct (Z.ltb_spec MAX_FRAME_BYTES (buffered r1)); [lia|].
    rewrite (IH r1 s1 (out ++ o1) f2 o2); try done. by rewrite (assoc_L (++)).
Qed.

(** What serde_json promises: some text comes out, and reads back as the message. *)
Class IpcJsonLaws (A : Type) {Ij : IpcJson A} :=
  json_roundtrip (m : A) j : to_vec m = Ok j ->
    j <> [] /\ is_utf8 (text_of j) = true /\ from_str (text_of j) = Ok m.
Context {Rql : IpcJsonLaws Request}.

Fixpoint handle_all (s : ServiceState) (reqs : list Request) : ServiceState * list Response :=
  match reqs with
  | [] => (s, [])
  | q :: l => let '(s, r) := handle version s q in
              let '(s, rs) := handle_all s l in (s, r :: rs)
  end.

Lemma ipc_encode_frame {A} {Ij : IpcJson A} (m : A) f :
  ipc_encode m = Ok f -> exists j, to_vec m = Ok j /\ f = frame j.
Proof.
  unfold ipc_encode. destruct (to_vec m) as [j|]; [|done]. cbn. case_match; [done|].
  intros [= <-]. by exists j.
Qed.

Lemma ipc_decode_encoded (q : Request) j : to_vec q = Ok j -> ipc_decode j = Ok q.
Proof.
  intros Hj. destruct (json_roundtrip q j Hj) as (Hne & Hu & Hr). unfold ipc_decode.
  destruct j; [done|]. by rewrite Hu, Hr.
Qed.

(** The control pipe answers: however the pipe splits and merges the bytes of a
    sequence of requests (each frame, prefix included, within the limit), the service
    handles every request exactly once and in order, writes exactly the replies of
    those in order, and ends cleanly when the peer leaves. *)
Theorem pump_answers_every_request s s' reqs frames replies outs chunks :
  Forall2 (fun q f => ipc_encode q = Ok f /\ len f <= MAX_FRAME_BYTES) reqs frames ->
  Forall (fun c => c <> []) chunks -> concat chunks = concat frames ->
  handle_all s reqs = (s', replies) -> Forall2 (fun r o => ipc_encode r = Ok o) replies outs ->
  conn_pump version chunks FrameReader_new s [] = (s', outs, Finished).
Proof.
  intros Hq Hne Hc Hh Ho.
  assert (exists bodies, Forall body_fits bodies /\ concat frames = bodies ≫= frame /\
            answer_all s bodies = Some (s', outs)) as (bodies & Hb & Hf & Ha).
  { clear Hne Hc. revert s replies outs Hh Ho.
    induction Hq as [|q f reqs frames [Hf Hl] Hq IH]; intros s replies outs Hh Ho.
    - injection Hh as -> <-. inversion Ho. subst. by exists [].
    - cbn [handle_all] in Hh. destruct (handle version s q) as [s1 r] eqn:Hs.
      destruct (handle_all s1 reqs) as [s2 rs] eqn:Hr. injection Hh as -> <-.
      inversion Ho as [|? o ? os Hro Hos]; subst. apply ipc_encode_frame in Hf as (j & Hj & ->).
      destruct (IH s1 rs os Hr Hos) as (bodies & Hb & Hcat & Ha). exists (j :: bodies).
      split_and!.
      + constructor; [|done]. rewrite length_frame in Hl. split; [by eapply json_roundtrip|lia].
      + cbn [concat]. by rewrite Hcat.
      + cbn [answer_all]. unfold answer. rewrite (ipc_decode_encoded q j Hj), Hs, Hro, Ha. done. }
  assert (Forall body_ok bodies) as Hok
    by (eapply Forall_impl; [exact Hb|]; intros b [? ?]; split; [done|lia]).
  apply (conn_pump_drain chunks FrameReader_new s [] bodies s' outs); try done.
  unfold feed_chunk. cbn [upd buf FrameReader_new app]. rewrite Hc, Hf. by apply drain_frames.
Qed.
End connection.

(** A maximal frame the codec accepts is still refused by the connection when a read
    ends inside its last three bytes: the leftover then counts the length prefix. *)
Lemma pump_drops_maximal_frame {Rq : IpcJson Request} {Rs : IpcJson Response} version s body k rest :
  len body = MAX_FRAME_BYTES -> MAX_FRAME_BYTES < Z.of_nat k < MAX_FRAME_BYTES + 4 ->
  next_frame {| buf := frame body |} = (FrameReader_new, Ok (Some body)) /\
  conn_pump version (take k (frame body) :: rest) FrameReader_new s [] = (s, [], Finished).
Proof.
  intros Hb Hk. split.
  { rewrite <- (app_nil_r (frame body)) at 1. apply next_frame_frame. split; [|lia].
    intros ->. unfold MAX_FRAME_BYTES in Hb. cbn in Hb. lia. }
  assert (length (take k (frame body)) = k) as Hl
    by (rewrite length_take, length_frame; unfold MAX_FRAME_BYTES in *; lia).
  assert (next_frame {| buf := take k (frame body) |} = ({| buf := take k (frame body) |}, Ok None)) as Hn.
  { assert (take LENGTH_PREFIX_BYTES (take k (frame body)) = to_le_bytes LENGTH_PREFIX_BYTES (len body)) as Ht.
    { rewrite take_take, Nat.min_l by (unfold MAX_FRAME_BYTES, LENGTH_PREFIX_BYTES in *; lia).
      apply take_app_length'. symmetry. apply length_to_le_bytes. }
    unfold next_frame. cbn [buf]. rewrite Hl, Ht.
    rewrite from_to_le_bytes by (unfold MAX_FRAME_BYTES, LENGTH_PREFIX_BYTES in *; cbn; lia).
    rewrite Hb. change (MAX_FRAME_BYTES =? 0) with false. rewrite Z.ltb_irrefl.
    destruct (Nat.ltb_spec k LENGTH_PREFIX_BYTES); [done|].
    destruct (Nat.ltb_spec k (LENGTH_PREFIX_BYTES + Z.to_nat MAX_FRAME_BYTES)); [done|].
    unfold MAX_FRAME_BYTES, LENGTH_PREFIX_BYTES in *. lia. }
  cbn [conn_pump]. destruct (take k (frame body)) as [|c l] eqn:Et; [cbn in Hl; lia|].
  unfold feed_chunk. cbn [upd buf FrameReader_new app pump_frames]. rewrite Hn. unfold buffered. cbn [buf].
  destruct (Z.ltb_spec MAX_FRAME_BYTES (len (c :: l))); [done|]. rewrite Hl in *. lia.
Qed.

(** ** A concrete connection *)

#[local] Instance demo_request_json : IpcJson Request := {|
  to_vec q := match q with RequestUpdateCheck => Ok [Byte.x75] | _ => Err "not here" end;
  from_str s := if bool_decide (s = "u") then Ok RequestUpdateCheck else Err "unknown";
|}.
#[local] Instance demo_response_json : IpcJson Response := {|
  to_vec _ := Ok [Byte.x72];
  from_str _ := Ok RespOk;
|}.
#[local] Instance demo_request_laws : IpcJsonLaws Request.
Proof. intros [] j; cbn; try done. intros [= <-]. by vm_compute. Qed.

Definition demo_service : ServiceState :=
  {| ss_local := LocalConfig_default true None; ss_policy := None; ss_tier := Some "A";
     ss_os_build := "10.0.22631"; ss_restarts := 0; ss_agent_state := "IDLE";
     ss_update_requested := false; ss_staged_version := None |}.
Definition demo_frame : list u8 := [Byte.x01; Byte.x00; Byte.x00; Byte.x00; Byte.x75].

Lemma pump_answers_witness :
  ss_update_requested demo_service = false /\
  conn_pump "0.1.0" [take 3 demo_frame; drop 3 demo_frame ++ demo_frame] FrameReader_new demo_service []
  = (demo_service <| ss_update_requested := true |>,
     [[Byte.x01; Byte.x00; Byte.x00; Byte.x00; Byte.x72]; [Byte.x01; Byte.x00; Byte.x00; Byte.x00; Byte.x72]],
     Finished).
Proof.
  split; [reflexivity|].
  apply (pump_answers_every_request "0.1.0" demo_service (demo_service <| ss_update_requested := true |>)
    [RequestUpdateCheck; RequestUpdateCheck] [demo_frame; demo_frame]
    (snd (handle_all "0.1.0" demo_service [RequestUpdateCheck; RequestUpdateCheck]))).
  - repeat constructor; vm_compute; try reflexivity; discriminate.
  - repeat constructor; discriminate.
  - reflexivity.
  - reflexivity.
  - repeat constructor; reflexivity.
Defined.
