(* ===== verification/Der.v ===== *)
(** The DER writer of the certificate signing request (sentinel-service/src/der.rs):
    tag-length-value blocks with minimal definite lengths, INTEGER, OBJECT
    IDENTIFIER and PEM. The writer is proved against a strict reader of X.690:
    what it writes is read back, and what the reader accepts is what it writes. *)

From S2P Require Import Prelude Text.
From Stdlib.Strings Require Import Byte.

Module tag.
Definition INTEGER : u8 := z2b 2.
Definition BIT_STRING : u8 := z2b 3.
Definition OID : u8 := z2b 6.
Definition UTF8_STRING : u8 := z2b 12.
Definition SEQUENCE : u8 := z2b 48.
Definition SET : u8 := z2b 49.
Definition CONTEXT_0_CONSTRUCTED : u8 := z2b 160.
End tag.

(** [iter().position(p)] *)
Fixpoint position {A} (p : A -> bool) (l : list A) : option nat :=
  match l with
  | [] => None
  | x :: l' => if p x then Some O else S <$> position p l'
  end.

Definition nonzero (b : u8) : bool := negb (b2z b =? 0).

(** ** Blocks *)

(** [write_len(out, len)] for a 64-bit [usize]. *)
Definition write_len (out : list u8) (n : Z) : list u8 :=
  if n <? 128 then out ++ [z2b n]
  else
    let bytes := to_be_bytes 8 n in
    let first := default (length bytes - 1)%nat (position nonzero bytes) in
    let significant := drop first bytes in
    (out ++ [z2b (Z.lor 128 (len significant mod 256))]) ++ significant.

Definition tlv (t : u8) (body : list u8) : list u8 := write_len [t] (len body) ++ body.

Definition sequence (members : list (list u8)) : list u8 := tlv tag.SEQUENCE (concat members).

(** [None] is the panic of the debug assertion. *)
Definition set (members : list (list u8)) : option (list u8) :=
  if len members <=? 1 then Some (tlv tag.SET (concat members)) else None.

Definition utf8_string (s : string) : list u8 :=
  tlv tag.UTF8_STRING (String.list_byte_of_string s).

Definition bit_string (bytes : list u8) : list u8 := tlv tag.BIT_STRING (z2b 0 :: bytes).

Definition unsigned_integer (magnitude : list u8) : list u8 :=
  let start := default (length magnitude) (position nonzero magnitude) in
  match drop start magnitude with
  | [] => tlv tag.INTEGER [z2b 0]
  | (b :: _) as trimmed =>
      tlv tag.INTEGER ((if negb (Z.land (b2z b) 128 =? 0) then [z2b 0] else []) ++ trimmed)
  end.

Definition small_integer (v : u8) : list u8 := tlv tag.INTEGER [v].

(** ** Object identifiers

    The digit loop fills an array of five cells; [room] is what is left of it,
    and writing past the end is the index panic, [None]. *)
Fixpoint base128_digits (room : nat) (v : Z) : option (list Z) :=
  match room with
  | O => None
  | S room' =>
      let d := Z.land v 127 in
      let v' := Z.shiftr v 7 in
      if v' =? 0 then Some [d] else cons d <$> base128_digits room' v'
  end.

(** [digits] least significant first: all but the first are pushed in reverse
    with the continuation bit, the first is pushed last. *)
Definition base128 (out : list u8) (v : Z) : option (list u8) :=
  match base128_digits 5 v with
  | Some (d0 :: ds) =>
      Some (out ++ ((fun d => z2b (Z.lor d 128)) <$> reverse ds) ++ [z2b d0])
  | _ => None
  end.

Fixpoint base128_all (out : list u8) (arcs : list Z) : option (list u8) :=
  match arcs with
  | [] => Some out
  | a :: arcs' => out' ← base128 out a; base128_all out' arcs'
  end.

(** The two assertions are panics. *)
Definition oid (arcs : list Z) : option (list u8) :=
  match arcs with
  | a :: b :: rest =>
      if (a <=? 2) && (b <? 40) then
        body ← base128_all [z2b (a * 40 + b)] rest; Some (tlv tag.OID body)
      else None
  | _ => None
  end.

(** ** PEM *)

(** [slice.chunks(n)] for [n > 0]: fuel is the length, as each chunk takes one
    element at least. *)
Fixpoint chunks_fuel {A} (fuel n : nat) (l : list A) : list (list A) :=
  match fuel, l with
  | S fuel', _ :: _ => take n l :: chunks_fuel fuel' n (drop n l)
  | _, _ => []
  end.
Definition chunks {A} (n : nat) (l : list A) : list (list A) := chunks_fuel (length l) n l.

Section Pem.
(** [base64::engine::general_purpose::STANDARD.encode]. *)
Context (b64 : list u8 -> string).

Definition NL : string := str [chr 10].

Definition to_pem (label : string) (der : list u8) : string :=
  "-----BEGIN " +:+ label +:+ "-----" +:+ NL +:+
  str (concat ((fun c => c ++ chars NL) <$> chunks 64 (chars (b64 der)))) +:+
  "-----END " +:+ label +:+ "-----" +:+ NL.
End Pem.

(** ** A strict reader

    X.690 read back: definite lengths in the fewest bytes, at most eight. *)
Definition read_len (l : list u8) : option (Z * list u8) :=
  match l with
  | [] => None
  | b :: t =>
      if b2z b <? 128 then Some (b2z b, t)
      else
        let n := Z.to_nat (b2z b - 128) in
        let v := from_be_bytes (take n t) in
        if (n <=? 8)%nat && (n <=? length t)%nat && (128 <=? v)
             && (256 ^ (Z.of_nat n - 1) <=? v)
        then Some (v, drop n t) else None
  end.

Definition read_tlv (l : list u8) : option (u8 * list u8 * list u8) :=
  match l with
  | [] => None
  | t :: l' =>
      '(n, body) ← read_len l';
      if n <=? len body then Some (t, take (Z.to_nat n) body, drop (Z.to_nat n) body) else None
  end.

(** One block with the expected tag. *)
Definition read_tag (t : u8) (l : list u8) : option (list u8 * list u8) :=
  '(t', body, rest) ← read_tlv l; if bool_decide (t' = t) then Some (body, rest) else None.

(** The value of a two's complement INTEGER in its shortest form. *)
Definition read_integer (body : list u8) : option Z :=
  match body with
  | [] => None
  | b :: rest =>
      let neg := 128 <=? b2z b in
      let redundant :=
        match rest with
        | [] => false
        | c :: _ => ((b2z b =? 0) && (b2z c <? 128)) || ((b2z b =? 255) && (128 <=? b2z c))
        end in
      if redundant then None
      else Some (from_be_bytes body - if neg then 256 ^ len body else 0)
  end.

(** The arcs after the first two: [acc] is the arc under way, [None] between arcs. *)
Fixpoint read_arcs (acc : option Z) (l : list u8) : option (list Z) :=
  match l with
  | [] => match acc with None => Some [] | Some _ => None end
  | b :: l' =>
      match acc with
      | None =>
          if b2z b <? 128 then cons (b2z b) <$> read_arcs None l'
          else if b2z b =? 128 then None else read_arcs (Some (b2z b - 128)) l'
      | Some a =>
          if b2z b <? 128 then cons (a * 128 + b2z b) <$> read_arcs None l'
          else read_arcs (Some (a * 128 + (b2z b - 128))) l'
      end
  end.

Definition read_oid (body : list u8) : option (list Z) :=
  match body with
  | [] => None
  | b :: rest =>
      let a := Z.min 2 (b2z b / 40) in
      arcs ← read_arcs None rest; Some (a :: b2z b - 40 * a :: arcs)
  end.

(** ** Big-endian values *)

Lemma from_le_bytes_app l1 l2 :
  from_le_bytes (l1 ++ l2) = from_le_bytes l1 + 256 ^ len l1 * from_le_bytes l2.
Proof.
  induction l1 as [|b l1 IH]; [cbn [app from_le_bytes length]; change (256 ^ 0) with 1; lia|].
  cbn [app from_le_bytes length]. rewrite IH, Nat2Z.inj_succ, Z.pow_succ_r by lia. lia.
Qed.

Lemma from_be_bytes_cons b l : from_be_bytes (b :: l) = b2z b * 256 ^ len l + from_be_bytes l.
Proof.
  unfold from_be_bytes. rewrite reverse_cons, from_le_bytes_app, length_reverse.
  cbn [from_le_bytes]. lia.
Qed.

Lemma from_be_bytes_range l : 0 <= from_be_bytes l < 256 ^ len l.
Proof. unfold from_be_bytes. pose proof (from_le_bytes_range (reverse l)). by rewrite length_reverse in *. Qed.
#[export] Hint Resolve from_be_bytes_range : ranges.

Lemma from_be_bytes_inj l1 l2 :
  length l1 = length l2 -> from_be_bytes l1 = from_be_bytes l2 -> l1 = l2.
Proof.
  intros Hl Hv. apply (inj reverse). unfold from_be_bytes in Hv.
  rewrite <- (to_from_le_bytes (reverse l1)), <- (to_from_le_bytes (reverse l2)), Hv.
  by rewrite !length_reverse, Hl.
Qed.

Lemma from_to_be_bytes n z : 0 <= z < 256 ^ Z.of_nat n -> from_be_bytes (to_be_bytes n z) = z.
Proof. intros. unfold from_be_bytes, to_be_bytes. rewrite reverse_involutive. by apply from_to_le_bytes. Qed.

Lemma nonzero_pos b : nonzero b = true <-> 0 < b2z b.
Proof. unfold nonzero. pose proof (b2z_range b). rewrite negb_true_iff, Z.eqb_neq. lia. Qed.

(** Leading zeros carry no value; what is left starts with a nonzero byte. *)
Lemma position_none_zero l : position nonzero l = None -> from_be_bytes l = 0.
Proof.
  induction l as [|b l IH]; [done|]. cbn [position].
  destruct (nonzero b) eqn:Hb; [done|]. intros H. rewrite from_be_bytes_cons.
  rewrite IH by (by destruct (position nonzero l)).
  unfold nonzero in Hb. bool_hyps. lia.
Qed.

Lemma position_some l i : position nonzero l = Some i ->
  exists b t, drop i l = b :: t /\ 0 < b2z b /\ from_be_bytes (b :: t) = from_be_bytes l /\
              (i < length l)%nat.
Proof.
  revert i. induction l as [|b l IH]; [done|]. intros i. cbn [position].
  destruct (nonzero b) eqn:Hb.
  - intros [= <-]. exists b, l. apply nonzero_pos in Hb. cbn [length drop]. repeat split; [done|lia].
  - destruct (position nonzero l) as [j|] eqn:Hj; [|done]. intros [= <-].
    destruct (IH j eq_refl) as (c & t & Hd & Hc & Hv & Hlt). exists c, t.
    rewrite (from_be_bytes_cons b l). unfold nonzero in Hb. bool_hyps.
    cbn [length drop]. repeat split; [done|done|lia|lia].
Qed.

(** A nonempty big-endian number with a nonzero first byte fills its width. *)
Lemma from_be_bytes_wide b t : 0 < b2z b -> 256 ^ len t <= from_be_bytes (b :: t).
Proof. intros. rewrite from_be_bytes_cons. pose proof (from_be_bytes_range t). nia. Qed.

Lemma pow256_width v (m n : nat) :
  256 ^ Z.of_nat m <= v < 256 ^ Z.of_nat (S m) -> 256 ^ Z.of_nat n <= v < 256 ^ Z.of_nat (S n) -> m = n.
Proof.
  intros [H1 H2] [H3 H4].
  assert (Z.of_nat m < Z.of_nat (S n)) by (apply (Z.pow_lt_mono_r_iff 256); lia).
  assert (Z.of_nat n < Z.of_nat (S m)) by (apply (Z.pow_lt_mono_r_iff 256); lia). lia.
Qed.

(** ** Lengths *)

Definition in_usize (n : Z) : Prop := 0 <= n < 2 ^ 64.

(** The long form writes the one big-endian numeral without a leading zero. *)
Lemma write_len_long out n : 128 <= n < 2 ^ 64 ->
  exists b t, write_len out n = out ++ z2b (128 + len (b :: t)) :: b :: t /\
    0 < b2z b /\ from_be_bytes (b :: t) = n /\ (length t < 8)%nat.
Proof.
  intros Hn. unfold write_len. rewrite (proj2 (Z.ltb_ge n 128)) by lia.
  assert (Hv : from_be_bytes (to_be_bytes 8 n) = n) by (apply from_to_be_bytes; simpl; lia).
  assert (Hl : length (to_be_bytes 8 n) = 8%nat)
    by (unfold to_be_bytes; by rewrite length_reverse, length_to_le_bytes).
  cbv zeta. destruct (position nonzero (to_be_bytes 8 n)) as [i|] eqn:Hp.
  2: { apply position_none_zero in Hp. lia. }
  destruct (position_some _ _ Hp) as (b & t & Hd & Hb & Hv' & Hi).
  change (default _ (Some i)) with i. rewrite Hd. exists b, t.
  assert (length (b :: t) <= 8)%nat by (rewrite <- Hd, length_drop; lia).
  split; [|split; [done|split; [by rewrite Hv'|simpl in *; lia]]].
  rewrite <- app_assoc. do 3 f_equal.
  rewrite (Z.mod_small (len (b :: t))) by lia.
  set (k := len (b :: t)) in *.
  assert (Hk : 0 <= k <= 8) by (unfold k; lia). clearbody k.
  assert (k = 0 \/ k = 1 \/ k = 2 \/ k = 3 \/ k = 4 \/ k = 5 \/ k = 6 \/ k = 7 \/ k = 8) by lia.
  repeat match goal with H : _ \/ _ |- _ => destruct H as [->|H] end; subst; reflexivity.
Qed.

Lemma write_len_short out n : 0 <= n < 128 -> write_len out n = out ++ [z2b n].
Proof. intros. unfold write_len. by rewrite (proj2 (Z.ltb_lt n 128)) by lia. Qed.

Lemma write_len_out out n : write_len out n = out ++ write_len [] n.
Proof. unfold write_len. destruct (n <? 128); simpl; [done|]. by rewrite <- app_assoc. Qed.

Lemma read_write_len n rest : in_usize n -> read_len (write_len [] n ++ rest) = Some (n, rest).
Proof.
  unfold in_usize. intros Hn. destruct (decide (n < 128)) as [Hs|Hs].
  - rewrite write_len_short by lia. cbn [app read_len]. rewrite b2z_z2b by lia.
    by rewrite (proj2 (Z.ltb_lt n 128)) by lia.
  - destruct (write_len_long [] n ltac:(lia)) as (b & t & -> & Hb & Hv & Ht).
    cbn [app read_len]. rewrite b2z_z2b by (cbn [length]; lia).
    rewrite (proj2 (Z.ltb_ge _ 128)) by lia.
    replace (Z.to_nat (128 + len (b :: t) - 128)) with (length (b :: t)) by lia.
    change (b :: t ++ rest) with ((b :: t) ++ rest).
    rewrite take_app_length, drop_app_length, Hv.
    assert (256 ^ (len (b :: t) - 1) <= n).
    { rewrite <- Hv. replace (len (b :: t) - 1) with (len t) by (cbn [length]; lia).
      by apply from_be_bytes_wide. }
    rewrite (proj2 (Nat.leb_le _ 8)), (proj2 (Nat.leb_le _ (length _))),
      (proj2 (Z.leb_le 128 n)), (proj2 (Z.leb_le _ n)) by (lia || (rewrite ?length_app; simpl; lia)).
    done.
Qed.

Lemma read_len_inv l n rest : read_len l = Some (n, rest) ->
  in_usize n /\ l = write_len [] n ++ rest.
Proof.
  unfold in_usize, read_len. destruct l as [|b t]; [done|].
  pose proof (b2z_range b). destruct (Z.ltb_spec (b2z b) 128).
  - intros [= <- <-]. split; [lia|]. rewrite write_len_short by lia.
    cbn [app]. by rewrite z2b_b2z.
  - destruct (_ && _) eqn:Hc; [|done]. intros [= <- <-]. bool_hyps.
    repeat match goal with Hc : (_ <=? _)%nat = true |- _ => apply Nat.leb_le in Hc end.
    set (k := Z.to_nat (b2z b - 128)) in *. set (v := from_be_bytes (take k t)) in *.
    assert (Hk : length (take k t) = k) by (rewrite length_take; lia).
    pose proof (from_be_bytes_range (take k t)) as Hv. rewrite Hk in Hv. fold v in Hv.
    assert (256 ^ Z.of_nat k <= 256 ^ 8) by (apply Z.pow_le_mono_r; lia).
    change (256 ^ 8) with (2 ^ 64) in *. split; [lia|].
    destruct (write_len_long [] v ltac:(lia)) as (c & u & -> & Hc & Hcv & Hu).
    assert (Hku : k = length (c :: u)).
    { destruct k as [|k]; [change (256 ^ Z.of_nat 0) with 1 in Hv; lia|]. cbn [length]. f_equal.
      apply (pow256_width v).
      - replace (Z.of_nat (S k) - 1) with (Z.of_nat k) in * by lia. lia.
      - rewrite <- Hcv. pose proof (from_be_bytes_range (c :: u)). split; [by apply from_be_bytes_wide|].
        cbn [length] in *. lia. }
    assert (Htk : take k t = c :: u).
    { apply from_be_bytes_inj; [by rewrite Hk|]. by rewrite Hcv. }
    rewrite <- (take_drop k t) at 1. rewrite Htk. cbn [app]. f_equal.
    rewrite <- Hku. apply (inj b2z). rewrite b2z_z2b by lia. unfold k. lia.
Qed.

(** ** Blocks are read back, and only blocks are read *)

(** The writer emits exactly the strict encodings: a block reads as [(t, body)]
    with [rest] left over if and only if it is [tlv t body] followed by [rest]. *)
Lemma read_tlv_iff l t body rest :
  read_tlv l = Some (t, body, rest) <-> in_usize (len body) /\ l = tlv t body ++ rest.
Proof.
  unfold tlv. split.
  - destruct l as [|t' l]; [done|]. cbn [read_tlv].
    destruct (read_len l) as [[n b]|] eqn:Hr; [|done]. cbn [mbind option_bind].
    destruct (Z.leb_spec n (len b)); [|done]. intros [= <- <- <-].
    apply read_len_inv in Hr as [Hn ->]. unfold in_usize in *.
    assert (Hlen : len (take (Z.to_nat n) b) = n) by (rewrite length_take; lia).
    rewrite Hlen. split; [done|]. rewrite (write_len_out [_]). cbn [app].
    by rewrite <- app_assoc, take_drop.
  - intros [Hb ->]. rewrite write_len_out. cbn [app read_tlv].
    rewrite <- !app_assoc, read_write_len by done. cbn [mbind option_bind].
    rewrite (proj2 (Z.leb_le _ _)) by (rewrite length_app; lia).
    by rewrite Nat2Z.id, take_app_length, drop_app_length.
Qed.

Lemma read_tlv_tlv t body rest :
  in_usize (len body) -> read_tlv (tlv t body ++ rest) = Some (t, body, rest).
Proof. intros. by apply read_tlv_iff. Qed.

Lemma read_tag_tlv t body rest :
  in_usize (len body) -> read_tag t (tlv t body ++ rest) = Some (body, rest).
Proof.
  intros. unfold read_tag. rewrite read_tlv_tlv by done. cbn [mbind option_bind].
  by rewrite bool_decide_eq_true_2.
Qed.

Lemma read_tag_inv t l body rest :
  read_tag t l = Some (body, rest) -> in_usize (len body) /\ l = tlv t body ++ rest.
Proof.
  unfold read_tag. destruct (read_tlv l) as [[[t' b] r]|] eqn:Hr; [|done]. cbn [mbind option_bind].
  destruct (bool_decide_reflect (t' = t)); [|done]. intros [= <- <-]; subst. by apply read_tlv_iff.
Qed.

Lemma length_write_len n : in_usize n -> (length (write_len [] n) <= 9)%nat.
Proof.
  unfold in_usize. intros. destruct (decide (n < 128)) as [?|?].
  - rewrite write_len_short by lia. simpl. lia.
  - destruct (write_len_long [] n ltac:(lia)) as (b & t & -> & _ & _ & ?). simpl. lia.
Qed.

Lemma length_tlv t body : in_usize (len body) -> (length (tlv t body) <= 10 + length body)%nat.
Proof.
  intros Hb. unfold tlv. rewrite write_len_out, !length_app.
  pose proof (length_write_len _ Hb). simpl. lia.
Qed.

(** ** INTEGER *)

Lemma land128 b : negb (Z.land (b2z b) 128 =? 0) = (128 <=? b2z b).
Proof. destruct b; reflexivity. Qed.

(** The content bytes of [unsigned_integer m]. *)
Definition integer_body (m : list u8) : list u8 :=
  match drop (default (length m) (position nonzero m)) m with
  | [] => [z2b 0]
  | (b :: _) as trimmed => (if 128 <=? b2z b then [z2b 0] else []) ++ trimmed
  end.

Lemma unsigned_integer_body m : unsigned_integer m = tlv tag.INTEGER (integer_body m).
Proof.
  unfold unsigned_integer, integer_body. destruct (drop _ m) as [|b t]; [done|].
  by rewrite land128.
Qed.

Lemma length_integer_body m : (length (integer_body m) <= S (length m))%nat.
Proof.
  unfold integer_body. set (k := default _ _).
  assert (length (drop k m) <= length m)%nat by (rewrite length_drop; lia).
  destruct (drop k m); [simpl; lia|]. destruct (_ <=? _); simpl in *; lia.
Qed.

Lemma read_integer_body m : read_integer (integer_body m) = Some (from_be_bytes m).
Proof.
  unfold integer_body. destruct (position nonzero m) as [i|] eqn:Hp; cbn [default from_option id].
  - destruct (position_some _ _ Hp) as (b & t & -> & Hb & <- & _).
    pose proof (b2z_range b). destruct (Z.leb_spec 128 (b2z b)); cbn [app read_integer].
    + change (b2z (z2b 0)) with 0. rewrite (proj2 (Z.ltb_ge (b2z b) 128)) by lia. simpl.
      f_equal. rewrite from_be_bytes_cons. change (b2z (z2b 0)) with 0. lia.
    + rewrite (proj2 (Z.leb_gt 128 (b2z b))), (proj2 (Z.eqb_neq (b2z b) 0)),
        (proj2 (Z.eqb_neq (b2z b) 255)) by lia.
      destruct t; simpl; f_equal; lia.
  - rewrite drop_all. rewrite (position_none_zero _ Hp). reflexivity.
Qed.

(** ** OBJECT IDENTIFIER *)

Definition value128 (ds : list Z) (a : Z) : Z := fold_left (fun a d => a * 128 + d) ds a.
Definition digit128 (d : Z) : Prop := 0 <= d < 128.

Lemma lor128 d : digit128 d -> Z.lor d 128 = d + 128.
Proof.
  intros Hd. assert (Hall : Forall (fun d => Z.lor d 128 = d + 128) (seqZ 0 128)).
  { apply Forall_forall. intros x Hx.
    assert (Hb : forallb (fun d => Z.lor d 128 =? d + 128) (seqZ 0 128) = true) by reflexivity.
    rewrite forallb_forall in Hb. apply Z.eqb_eq, Hb. by apply list_elem_of_In. }
  rewrite Forall_forall in Hall. apply Hall, elem_of_seqZ. unfold digit128 in Hd. lia.
Qed.

Lemma base128_digits_spec room v : 0 <= v < 128 ^ Z.of_nat room -> (0 < room)%nat ->
  exists ds d, base128_digits room v = Some ds /\ Forall digit128 ds /\
    value128 (reverse ds) 0 = v /\ last ds = Some d /\ (d = 0 -> ds = [0]) /\
    (length ds <= room)%nat.
Proof.
  revert v. induction room as [|room IH]; [lia|]. intros v Hv _. cbn [base128_digits].
  change 127 with (Z.ones 7). rewrite Z.land_ones, Z.shiftr_div_pow2 by lia. change (2 ^ 7) with 128.
  pose proof (Z.mod_pos_bound v 128 ltac:(lia)). pose proof (Z.div_mod v 128 ltac:(lia)).
  rewrite Nat2Z.inj_succ, Z.pow_succ_r in Hv by lia.
  destruct (Z.eqb_spec (v / 128) 0) as [Hz|Hz].
  - exists [v mod 128], (v mod 128). repeat split; try done; try lia.
    + repeat constructor; lia.
    + rewrite reverse_singleton. cbn. lia.
    + intros Hd0. by rewrite Hd0.
    + simpl. lia.
  - assert (0 <= v / 128) by (apply Z.div_pos; lia).
    assert (v / 128 < 128 ^ Z.of_nat room) by (apply Z.div_lt_upper_bound; lia).
    assert (room <> 0)%nat by (intros ->; change (128 ^ Z.of_nat 0) with 1 in *; lia).
    destruct (IH (v / 128)) as (ds & d & -> & Hds & Hval & Hlast & Hd & Hlen); [lia|lia|].
    exists (v mod 128 :: ds), d. cbn [fmap option_fmap option_map].
    assert (ds <> []) by (by intros ->). repeat split; try done.
    + constructor; [unfold digit128; lia|done].
    + rewrite reverse_cons. unfold value128 in *. rewrite fold_left_app, Hval. cbn [fold_left]. lia.
    + rewrite last_cons, Hlast. done.
    + intros Hd0. rewrite (Hd Hd0) in Hval. cbn in Hval. lia.
    + simpl. lia.
Qed.

Definition cont128 (d : Z) : u8 := z2b (Z.lor d 128).

Lemma b2z_cont128 d : digit128 d -> b2z (cont128 d) = d + 128.
Proof. intros Hd. unfold cont128. rewrite lor128 by done. unfold digit128 in Hd. apply b2z_z2b. lia. Qed.

Lemma read_arcs_cont a ds d0 rest : Forall digit128 ds -> digit128 d0 ->
  read_arcs (Some a) ((cont128 <$> ds) ++ z2b d0 :: rest) =
  cons (value128 (ds ++ [d0]) a) <$> read_arcs None rest.
Proof.
  intros Hds Hd0. revert a. induction Hds as [|d ds Hd _ IH]; intros a; cbn [fmap list_fmap app read_arcs].
  - unfold digit128 in Hd0. rewrite b2z_z2b by lia. by rewrite (proj2 (Z.ltb_lt d0 128)) by lia.
  - rewrite b2z_cont128 by done. unfold digit128 in Hd. rewrite (proj2 (Z.ltb_ge _ 128)) by lia.
    rewrite IH. unfold value128. cbn [app fold_left]. do 3 f_equal. lia.
Qed.

Lemma base128_read out v : in_u32 v ->
  exists l, base128 out v = Some (out ++ l) /\ (length l <= 5)%nat /\
    forall rest, read_arcs None (l ++ rest) = cons v <$> read_arcs None rest.
Proof.
  intros Hv. unfold in_u32, u32_max in Hv.
  destruct (base128_digits_spec 5 v) as (ds & d & Hb & Hds & Hval & Hlast & Hd & Hlen);
    [change (128 ^ Z.of_nat 5) with 34359738368; lia|lia|].
  unfold base128. rewrite Hb. destruct ds as [|d0 ds]; [done|].
  apply Forall_cons in Hds as [Hd0 Hds]. eexists. split; [done|].
  split; [rewrite length_app, length_fmap, length_reverse; cbn [length] in *; lia|].
  intros rest. rewrite <- app_assoc. cbn [app]. change (fun d => z2b (Z.lor d 128)) with cont128.
  rewrite reverse_cons in Hval.
  destruct (reverse ds) as [|e es] eqn:Hr; cbn [fmap list_fmap app read_arcs].
  - cbn in Hval. unfold digit128 in Hd0. rewrite b2z_z2b by lia.
    rewrite (proj2 (Z.ltb_lt d0 128)) by lia. by replace d0 with v by lia.
  - assert (He : Forall digit128 (e :: es)) by (rewrite <- Hr; by apply Forall_reverse).
    apply Forall_cons in He as [He Hes].
    assert (Hne : e <> 0).
    { intros ->. assert (ds = reverse es ++ [0]) as ->.
      { rewrite <- (reverse_involutive ds), Hr, reverse_cons. done. }
      rewrite app_comm_cons, last_snoc in Hlast. injection Hlast as <-.
      specialize (Hd eq_refl). by destruct (reverse es). }
    rewrite b2z_cont128 by done. unfold digit128 in He.
    rewrite (proj2 (Z.ltb_ge _ 128)), (proj2 (Z.eqb_neq (e + 128) 128)) by lia.
    rewrite read_arcs_cont by done. unfold value128 in *. cbn [app fold_left] in Hval.
    replace (e + 128 - 128) with (0 * 128 + e) by lia. by rewrite Hval.
Qed.

Lemma base128_all_read out arcs : Forall in_u32 arcs ->
  exists l, base128_all out arcs = Some (out ++ l) /\ (length l <= 5 * length arcs)%nat /\
    forall rest, read_arcs None (l ++ rest) = app arcs <$> read_arcs None rest.
Proof.
  intros Ha. revert out. induction Ha as [|v arcs Hv _ IH]; intros out.
  - exists []. rewrite app_nil_r. split; [done|]. split; [simpl; lia|].
    intros rest. simpl. by destruct (read_arcs None rest).
  - destruct (base128_read out v Hv) as (l1 & H1 & Hl1 & Hr1).
    destruct (IH (out ++ l1)) as (l2 & H2 & Hl2 & Hr2).
    exists (l1 ++ l2). cbn [base128_all]. rewrite H1. cbn [mbind option_bind].
    rewrite H2, app_assoc. split; [done|]. split; [rewrite length_app; simpl; lia|].
    intros rest. rewrite <- app_assoc, Hr1, Hr2. by destruct (read_arcs None rest).
Qed.

(** The identifiers the writer supports. *)
Definition oid_ok (arcs : list Z) : Prop :=
  exists a b rest, arcs = a :: b :: rest /\ 0 <= a <= 2 /\ 0 <= b < 40 /\ Forall in_u32 rest.

Lemma oid_read arcs : oid_ok arcs ->
  exists body, oid arcs = Some (tlv tag.OID body) /\ read_oid body = Some arcs /\
    (length body <= 5 * length arcs)%nat.
Proof.
  intros (a & b & rest & -> & Ha & Hb & Hrest). unfold oid.
  rewrite (proj2 (Z.leb_le a 2)), (proj2 (Z.ltb_lt b 40)) by lia. cbn [andb].
  destruct (base128_all_read [z2b (a * 40 + b)] rest Hrest) as (l & -> & Hl & Hr).
  eexists. split; [done|]. split; [|simpl; lia].
  specialize (Hr []). rewrite app_nil_r in Hr. cbn [app read_oid].
  rewrite Hr. cbn [read_arcs fmap option_fmap option_map mbind option_bind].
  rewrite app_nil_r, b2z_z2b by lia.
  replace (Z.min 2 ((a * 40 + b) / 40)) with a; [do 3 f_equal; lia|].
  rewrite Z.div_add_l, Z.div_small by lia. lia.
Qed.

(** ** PEM lines *)

Lemma chunks_fuel_concat {A} fuel n (l : list A) :
  (length l <= fuel)%nat -> (0 < n)%nat -> concat (chunks_fuel fuel n l) = l.
Proof.
  revert l. induction fuel as [|fuel IH]; intros [|x l] Hl Hn; try done; [simpl in Hl; lia|].
  cbn [chunks_fuel concat]. rewrite IH; [apply take_drop| |done].
  rewrite length_drop. simpl in *. lia.
Qed.

Lemma chunks_concat {A} n (l : list A) : (0 < n)%nat -> concat (chunks n l) = l.
Proof. intros. by apply chunks_fuel_concat. Qed.

Lemma chunks_size {A} n (l : list A) :
  (0 < n)%nat -> Forall (fun c => (0 < length c <= n)%nat) (chunks n l).
Proof.
  intros Hn. unfold chunks. generalize (length l) as fuel. intros fuel. revert l.
  induction fuel as [|fuel IH]; intros [|x l]; try constructor; [|apply IH].
  rewrite length_take. simpl. lia.
Qed.

(** Lines terminated by [c] are split off one by one. *)
Lemma split_lines c (ls : list (list ascii)) b :
  Forall (fun l => lacks c (str l)) ls ->
  split c (str (concat ((fun l => l ++ [c]) <$> ls)) +:+ b) = (str <$> ls) ++ split c b.
Proof.
  induction 1 as [|l ls Hl _ IH]; [done|]. cbn [fmap list_fmap concat app].
  transitivity (split c (str l +:+ String c (str (concat ((fun l => l ++ [c]) <$> ls)) +:+ b))).
  - f_equal. by rewrite !str_app; str_eq.
  - by rewrite split_here, IH by done.
Qed.

Section PemProps.
Context (b64 : list u8 -> string).

Definition newline : ascii := chr 10.
Definition pem_begin (label : string) : string := "-----BEGIN " +:+ label +:+ "-----".
Definition pem_end (label : string) : string := "-----END " +:+ label +:+ "-----".

(** A reader of one PEM block: its lines are the delimiters around the body,
    each body line has at most 64 characters, and the text ends with a newline. *)
Definition read_pem (label s : string) : option string :=
  match split newline s with
  | [] => None
  | h :: t =>
      let body := take (length t - 2) t in
      if bool_decide (h = pem_begin label) && bool_decide (drop (length t - 2) t = [pem_end label; ""])
           && forallb (fun l => (String.length l <=? 64)%nat) body
      then Some (String.concat "" body) else None
  end.

Lemma lacks_concat c (ls : list (list ascii)) :
  lacks c (str (concat ls)) -> Forall (fun l => lacks c (str l)) ls.
Proof.
  unfold lacks. induction ls as [|l ls IH]; [constructor|]. cbn [concat].
  rewrite chars_str, Forall_app. intros [H1 H2]. constructor; [by rewrite chars_str|].
  apply IH. by rewrite chars_str.
Qed.

Lemma concat_str (ls : list (list ascii)) : String.concat "" (str <$> ls) = str (concat ls).
Proof.
  induction ls as [|l ls IH]; [done|]. cbn [fmap list_fmap concat]. rewrite str_app, <- IH.
  destruct ls; [|done]. change (str l = str l +:+ str []). by rewrite <- str_app, app_nil_r.
Qed.

Lemma length_str l : String.length (str l) = length l.
Proof. induction l; simpl; congruence. Qed.

Lemma read_to_pem label der :
  lacks newline label -> lacks newline (b64 der) ->
  read_pem label (to_pem b64 label der) = Some (b64 der).
Proof.
  intros Hl Hb. unfold read_pem. set (ls := chunks 64 (chars (b64 der))).
  assert (Hcat : concat ls = chars (b64 der)) by (apply chunks_concat; lia).
  assert (Hs : split newline (to_pem b64 label der) =
    pem_begin label :: (str <$> ls) ++ [pem_end label; ""]).
  { transitivity (split newline (pem_begin label +:+ String newline
      (str (concat ((fun c => c ++ [newline]) <$> ls)) +:+ (pem_end label +:+ String newline "")))).
    - f_equal. unfold to_pem, pem_begin, pem_end, NL. fold ls newline.
      rewrite chars_str. str_eq.
    - rewrite split_here, split_lines, split_here.
      + done.
      + unfold pem_end. rewrite !lacks_app. repeat split; [lacks_lit|done|lacks_lit].
      + apply lacks_concat. by rewrite Hcat, str_chars.
      + unfold pem_begin. rewrite !lacks_app. repeat split; [lacks_lit|done|lacks_lit]. }
  rewrite Hs, length_app. cbn [length].
  replace (length (str <$> ls) + 2 - 2)%nat with (length (str <$> ls)) by lia.
  rewrite take_app_length, drop_app_length, !bool_decide_eq_true_2 by done. cbn [andb].
  rewrite (proj2 (forallb_forall _ _)).
  - by rewrite concat_str, Hcat, str_chars.
  - intros x (c & -> & Hc)%list_elem_of_In%list_elem_of_fmap.
    pose proof (chunks_size 64 (chars (b64 der)) ltac:(lia)) as Hsz.
    rewrite Forall_forall in Hsz. specialize (Hsz c Hc). rewrite length_str. apply Nat.leb_le. lia.
Qed.
End PemProps.

(** ** Published vectors *)

Example oid_ec_public_key :
  oid [1; 2; 840; 10045; 2; 1] = Some (z2b <$> [6; 7; 42; 134; 72; 206; 61; 2; 1]).
Proof. reflexivity. Qed.
Example integer_pads_high_bit :
  unsigned_integer (z2b <$> [0; 255; 1]) = z2b <$> [2; 3; 0; 255; 1].
Proof. reflexivity. Qed.
