(* ===== verification/Files.v ===== *)
(** The part of [std::fs] the client's credential and configuration files use, for
    one directory: reading, writing, renaming and removing by file name.

    Every call can fail. A disk carries the faults its next calls will meet, one
    entry per call, so that a statement for every disk covers every error path and,
    because the code returns at the first error, every point at which the process
    can be cut off. A failing write may leave the file truncated to a prefix of
    what was written; the other calls fail without an effect. *)

From S2P Require Import Prelude Text Utf8.

Inductive IoError :=
| IoNotFound
| IoOther (msg : string).

(** [fault_kept]: how much of a failing write reached the file, [None] when it
    could not even be opened. *)
Record Fault := { fault_msg : string; fault_kept : option nat }.

(** Contents are byte strings. *)
Record Disk := {
  files : gmap string string;
  faults : list (option Fault);
}.
#[export] Instance Disk_rebuild : Rebuild Disk := fun r =>
  {| files := files r; faults := faults r |}.

(** The fault the next call meets, and the disk past it. *)
Definition next_fault (d : Disk) : option Fault * Disk :=
  match faults d with
  | [] => (None, d)
  | f :: fs => (f, d <| faults := fs |>)
  end.

(** [std::fs::read] *)
Definition fs_read (name : string) (d : Disk) : Disk * result string IoError :=
  let '(f, d) := next_fault d in
  match f with
  | Some f => (d, Err (IoOther (fault_msg f)))
  | None => (d, ok_or (files d !! name) IoNotFound)
  end.

(** [std::fs::read_to_string]: the bytes must be UTF-8. *)
Definition fs_read_to_string (name : string) (d : Disk) : Disk * result string IoError :=
  let '(d, r) := fs_read name d in
  (d, let? s := r in
      if is_utf8 s then Ok s else Err (IoOther "stream did not contain valid UTF-8")).

(** [std::fs::write]: create or truncate, then write. *)
Definition fs_write (name content : string) (d : Disk) : Disk * result unit IoError :=
  let '(f, d) := next_fault d in
  match f with
  | Some f =>
      let d' := match fault_kept f with
                | None => d
                | Some k => d <| files := <[name := str (take k (chars content))]> (files d) |>
                end in
      (d', Err (IoOther (fault_msg f)))
  | None => (d <| files := <[name := content]> (files d) |>, Ok tt)
  end.

(** [std::fs::rename]: replaces the target at once. *)
Definition fs_rename (a b : string) (d : Disk) : Disk * result unit IoError :=
  let '(f, d) := next_fault d in
  match f with
  | Some f => (d, Err (IoOther (fault_msg f)))
  | None =>
      match files d !! a with
      | None => (d, Err IoNotFound)
      | Some c => (d <| files := <[b := c]> (delete a (files d)) |>, Ok tt)
      end
  end.

(** [std::fs::remove_file] *)
Definition fs_remove_file (name : string) (d : Disk) : Disk * result unit IoError :=
  let '(f, d) := next_fault d in
  match f with
  | Some f => (d, Err (IoOther (fault_msg f)))
  | None =>
      match files d !! name with
      | None => (d, Err IoNotFound)
      | Some _ => (d <| files := delete name (files d) |>, Ok tt)
      end
  end.

(** Calls that only succeed or fail as far as this directory's files go:
    [create_dir_all], [set_permissions]. *)
Definition fs_touch (d : Disk) : Disk * result unit IoError :=
  let '(f, d) := next_fault d in
  match f with
  | Some f => (d, Err (IoOther (fault_msg f)))
  | None => (d, Ok tt)
  end.
Abbreviation fs_create_dir_all := fs_touch.

(** [Path::with_extension] on a file name: what follows the last dot is replaced,
    unless that dot is the first character. *)
Definition with_extension (ext name : string) : string :=
  let r := reverse (chars name) in
  match split_once_l "."%char r with
  | Some (_, stem) =>
      if bool_decide (stem = []) then name +:+ "." +:+ ext
      else str (reverse stem) +:+ "." +:+ ext
  | None => name +:+ "." +:+ ext
  end.

(** [Path::extension] on a file name. *)
Definition extension (name : string) : option string :=
  match split_once_l "."%char (reverse (chars name)) with
  | Some (e, stem) => if bool_decide (stem = []) then None else Some (str (reverse e))
  | None => None
  end.

(** Write to a temporary name, then rename: the sequence every file of the
    credential and configuration directories is written with. *)
Definition publish (tmp name content : string) : Disk -> Disk * result unit IoError :=
  let! _ := fs_write tmp content in fs_rename tmp name.

(** ** Lemmas *)

Lemma next_fault_files d : files (next_fault d).2 = files d.
Proof. unfold next_fault. by destruct (faults d). Qed.

(** Case on the fault of the next call. *)
Ltac fault d :=
  let f := fresh "f" in let d' := fresh "d'" in let Hf := fresh "Hf" in let Hd := fresh "Hd" in
  pose proof (next_fault_files d) as Hd; destruct (next_fault d) as [f d'] eqn:Hf;
  cbn [snd] in Hd; destruct f as [f|].

Lemma fs_read_files name d : files (fs_read name d).1 = files d.
Proof. unfold fs_read. fault d; done. Qed.

Lemma fs_read_Ok name d d' s :
  fs_read name d = (d', Ok s) -> files d' = files d /\ files d !! name = Some s.
Proof.
  unfold fs_read. fault d; [done|]. rewrite Hd. intros [= <- H].
  split; [done|]. destruct (files d !! name); simpl in H; congruence.
Qed.

Lemma fs_read_to_string_files name d : files (fs_read_to_string name d).1 = files d.
Proof.
  unfold fs_read_to_string. pose proof (fs_read_files name d).
  by destruct (fs_read name d).
Qed.

Lemma fs_touch_files d : files (fs_touch d).1 = files d.
Proof. unfold fs_touch. fault d; done. Qed.

(** A write touches only its own file. *)
Lemma fs_write_other name content d n :
  n <> name -> files (fs_write name content d).1 !! n = files d !! n.
Proof.
  intros Hn. unfold fs_write. fault d; [destruct (fault_kept f)|];
    cbn; rewrite ?lookup_insert_ne by done; by rewrite Hd.
Qed.

Lemma fs_rename_Ok a b d d' :
  fs_rename a b d = (d', Ok tt) ->
  exists c, files d !! a = Some c /\ files d' = <[b := c]> (delete a (files d)).
Proof.
  unfold fs_rename. fault d; [done|]. rewrite Hd.
  destruct (files d !! a) as [c|] eqn:Hc; [|done]. intros [= <-]. by exists c.
Qed.

Lemma fs_rename_Err a b d d' e : fs_rename a b d = (d', Err e) -> files d' = files d.
Proof.
  unfold fs_rename. fault d; [by intros [= <- _]|].
  destruct (_ !! a); [done|]. by intros [= <- _].
Qed.

(** The contract of write-then-rename, for every fault: files other than the
    temporary one and the target are untouched, and the target either has the new
    contents whole, exactly when the call reports success, or is as it was. *)
Lemma publish_atomic tmp name content d d' r :
  tmp <> name -> publish tmp name content d = (d', r) ->
  (forall n, n <> tmp -> n <> name -> files d' !! n = files d !! n) /\
  files d' !! name = (if is_ok r then Some content else files d !! name).
Proof.
  intros Hne. unfold publish, bindM.
  destruct (fs_write tmp content d) as [d1 [[]|e]] eqn:Hw.
  - assert (Htmp : files d1 !! tmp = Some content).
    { unfold fs_write in Hw. revert Hw. fault d; [done|]. intros [= <-]. cbn. apply lookup_insert_eq. }
    assert (Ho : forall n, n <> tmp -> files d1 !! n = files d !! n).
    { intros n Hn. pose proof (fs_write_other tmp content d n Hn) as H. by rewrite Hw in H. }
    destruct (fs_rename tmp name d1) as [d2 [[]|e]] eqn:Hr; intros [= <- <-]; cbn [is_ok].
    + apply fs_rename_Ok in Hr as (c & Hc & ->). rewrite Htmp in Hc. injection Hc as <-.
      split; [|apply lookup_insert_eq]. intros n H1 H2.
      rewrite lookup_insert_ne, lookup_delete_ne by done. by apply Ho.
    + apply fs_rename_Err in Hr as ->. split; [intros; by apply Ho|]. by apply Ho.
  - intros [= <- <-]. cbn [is_ok].
    assert (Ho : forall n, n <> tmp -> files d1 !! n = files d !! n).
    { intros n Hn. pose proof (fs_write_other tmp content d n Hn) as H. by rewrite Hw in H. }
    split; [intros; by apply Ho|]. by apply Ho.
Qed.

(** Without faults ahead it succeeds. *)
Lemma publish_no_faults tmp name content d :
  faults d = [] ->
  exists d', publish tmp name content d = (d', Ok tt) /\ faults d' = [].
Proof.
  intros Hf. unfold publish, bindM, fs_write, next_fault. rewrite Hf.
  unfold fs_rename, next_fault. cbn. rewrite Hf. cbn. rewrite lookup_insert_eq.
  eexists. split; [done|]. cbn. done.
Qed.

Example with_extension_crt : with_extension "tmp" "ca-chain.crt" = "ca-chain.tmp".
Proof. reflexivity. Qed.
