(* ===== verification/DeviceKey.v ===== *)
(** The device's signing key (sentinel-service/src/devicekey/mod.rs and software.rs):
    the interface every key offers, the public-key and signature encodings, the
    development key kept in a file, and which implementation a build opens.

    Elliptic-curve arithmetic and PKCS#8 are the p256 crate's, CNG is Windows': both
    are parameters. *)

From S2P Require Import Prelude Text Der Files.

Definition KEY_NAME : string := "MagickVoice.Sentinel.Device".

Inductive DeviceKeyError :=
| Platform (m : string)
| KeyNotFound
| SoftwareKeyNotPermitted
| KeyIo (e : IoError)
| KeyMalformed (m : string)
| SignFailed (m : string).

Inductive KeyKind := Cng | Software.

Definition meets_non_exportable_requirement (k : KeyKind) : bool :=
  match k with Cng => true | Software => false end.
Definition KeyKind_as_str (k : KeyKind) : string :=
  match k with Cng => "cng" | Software => "software" end.

(** A key in use. Signing draws randomness, so a call returns the key's next state;
    no operation returns private key material. *)
Class DeviceKey (K : Type) := {
  public_point : K -> K * result (list u8) DeviceKeyError;
  sign : K -> list u8 -> K * result (list u8) DeviceKeyError;
  kind : K -> KeyKind;
}.

(** The array type of [public_point]. *)
Class DeviceKeyLaws (K : Type) `{!DeviceKey K} := {
  public_point_65 k k' p : public_point k = (k', Ok p) -> length p = 65%nat;
}.

(** ** Encodings *)

Definition ID_EC_PUBLIC_KEY : list Z := [1; 2; 840; 10045; 2; 1].
Definition PRIME256V1 : list Z := [1; 2; 840; 10045; 3; 1; 7].

(** [None] is the panic of [der::oid], which the constants do not raise. *)
Definition spki_p256 (point : list u8) : option (list u8) :=
  id ← oid ID_EC_PUBLIC_KEY; curve ← oid PRIME256V1;
  Some (sequence [sequence [id; curve]; bit_string point]).

Definition sig_der_from_fixed (raw : list u8) : result (list u8) DeviceKeyError :=
  if negb (len raw =? 64) then
    Err (SignFailed ("expected a 64-byte P-256 signature, got " +:+ fmt_u (len raw) +:+ " bytes"))
  else Ok (sequence [unsigned_integer (take 32 raw); unsigned_integer (drop 32 raw)]).

(** ** The development key *)

Definition KEY_FILE : string := "device-key.dev.pem".

(** The p256 crate: key generation from the system's randomness [R], PKCS#8, the
    uncompressed public point and ECDSA over SHA-256. *)
Class P256 (R Sk : Type) := {
  random_key : R -> R * Sk;
  to_pkcs8_pem : Sk -> result string string;
  from_pkcs8_pem : string -> result Sk string;
  encoded_point : Sk -> list u8;
  ecdsa_der : Sk -> list u8 -> list u8;
}.

Section software.
Context {R Sk : Type} `{!P256 R Sk}.
(** [cfg!(debug_assertions)] and the [dev-software-device-key] feature. *)
Context (debug_assertions dev_feature : bool).

Record SoftwareDeviceKey := { sk_key : Sk; sk_path : string }.

Definition permitted : bool := debug_assertions || dev_feature.

Definition deny_if_not_permitted : result unit DeviceKeyError :=
  if permitted then Ok tt else Err SoftwareKeyNotPermitted.

(** The state the operations act on: the credential directory and the system's
    random source. *)
Definition Host : Type := Disk * R.
Definition on_disk {A} (m : Disk -> Disk * result A IoError) : Host -> Host * result A DeviceKeyError :=
  fun '(d, r) => let '(d', x) := m d in ((d', r), map_err KeyIo x).
Definition lift {A} (x : result A DeviceKeyError) : Host -> Host * result A DeviceKeyError :=
  fun s => (s, x).

(** [SoftwareDeviceKey::read] *)
Definition software_read (path : string) (s : Host) : Host * result SoftwareDeviceKey DeviceKeyError :=
  let '(d, r) := s in
  let '(d, pem) := fs_read_to_string path d in
  ((d, r),
   match pem with
   | Err IoNotFound => Err KeyNotFound
   | Err e => Err (KeyIo e)
   | Ok pem => let? secret := map_err KeyMalformed (from_pkcs8_pem pem) in
               Ok {| sk_key := secret; sk_path := path |}
   end).

Definition draw_key (s : Host) : Host * result Sk DeviceKeyError :=
  let '(d, r) := s in let '(r, secret) := random_key r in ((d, r), Ok secret).

(** [restrict_permissions] is a [chmod] on Unix and nothing elsewhere; it is taken
    as the fallible call. *)
Definition generate_key : Host -> Host * result SoftwareDeviceKey DeviceKeyError :=
  let! _ := lift deny_if_not_permitted in
  let! secret := draw_key in
  let! pem := lift (map_err KeyMalformed (to_pkcs8_pem secret)) in
  let! _ := on_disk fs_create_dir_all in
  let! _ := on_disk (fs_write (KEY_FILE +:+ ".tmp") pem) in
  let! _ := on_disk fs_touch in
  let! _ := on_disk (fs_rename (KEY_FILE +:+ ".tmp") KEY_FILE) in
  ret {| sk_key := secret; sk_path := KEY_FILE |}.

(** [SoftwareDeviceKey::open_or_create] *)
Definition software_open_or_create : Host -> Host * result SoftwareDeviceKey DeviceKeyError :=
  let! _ := lift deny_if_not_permitted in
  fun s => let '(s, r) := software_read KEY_FILE s in
  match r with
  | Ok k => (s, Ok k)
  | Err KeyNotFound => generate_key s
  | Err e => (s, Err e)
  end.

(** [SoftwareDeviceKey::open] *)
Definition software_open : Host -> Host * result SoftwareDeviceKey DeviceKeyError :=
  let! _ := lift deny_if_not_permitted in software_read KEY_FILE.

#[export] Instance software_DeviceKey : DeviceKey SoftwareDeviceKey := {|
  public_point k :=
    let bytes := encoded_point (sk_key k) in
    (k, if negb (len bytes =? 65) then
          Err (KeyMalformed ("expected a 65-byte uncompressed point, got " +:+ fmt_u (len bytes)))
        else Ok bytes);
  sign k message := (k, Ok (ecdsa_der (sk_key k) message));
  kind _ := Software;
|}.

(** ** Which key a build opens *)

(** [cfg(windows)], and the CNG provider's two entry points. *)
Context (windows : bool) {Ck : Type} `{!DeviceKey Ck}.
Context (cng_open_or_create cng_open : string -> Host -> Host * result Ck DeviceKeyError).

(** [Box<dyn DeviceKey>] *)
Inductive BoxedKey :=
| BoxCng (k : Ck)
| BoxSoftware (k : SoftwareDeviceKey).

Definition boxed_kind (k : BoxedKey) : KeyKind :=
  match k with BoxCng k => kind k | BoxSoftware k => kind k end.

Definition open_or_create : Host -> Host * result BoxedKey DeviceKeyError :=
  if windows then let! k := cng_open_or_create KEY_NAME in ret (BoxCng k)
  else let! k := software_open_or_create in ret (BoxSoftware k).

Definition open_existing : Host -> Host * result BoxedKey DeviceKeyError :=
  if windows then let! k := cng_open KEY_NAME in ret (BoxCng k)
  else let! k := software_open in ret (BoxSoftware k).
End software.
Arguments BoxedKey Sk Ck : clear implicits.

(** ** Properties *)

Lemma oid_constants :
  oid_ok ID_EC_PUBLIC_KEY /\ oid_ok PRIME256V1.
Proof.
  split; (do 3 eexists; split; [reflexivity|]);
    (split; [lia|split; [lia|repeat constructor; unfold in_u32, u32_max; lia]]).
Qed.

Lemma read_sequence2 a b rest :
  in_usize (len (a ++ b)) -> read_tag tag.SEQUENCE (sequence [a; b] ++ rest) = Some (a ++ b, rest).
Proof. intros. unfold sequence. cbn [concat]. rewrite app_nil_r. by apply read_tag_tlv. Qed.

(** The value of an INTEGER block at the front. *)
Definition read_int (l : list u8) : option (Z * list u8) :=
  '(b, rest) ← read_tag tag.INTEGER l; v ← read_integer b; Some (v, rest).

(** A reader of [ECDSA-Sig-Value]. *)
Definition read_sig (l : list u8) : option (Z * Z) :=
  '(body, rest) ← read_tag tag.SEQUENCE l;
  '(r, body) ← read_int body; '(s, body) ← read_int body;
  if bool_decide (rest = [] /\ body = []) then Some (r, s) else None.

Lemma read_int_unsigned m rest :
  len m + 1 < 2 ^ 64 -> read_int (unsigned_integer m ++ rest) = Some (from_be_bytes m, rest).
Proof.
  intros Hm. unfold read_int. pose proof (length_integer_body m).
  rewrite unsigned_integer_body, read_tag_tlv by (unfold in_usize; lia).
  cbn [mbind option_bind]. by rewrite read_integer_body.
Qed.

Lemma length_unsigned m : len m + 1 < 2 ^ 64 -> (length (unsigned_integer m) <= 11 + length m)%nat.
Proof.
  intros. pose proof (length_integer_body m). rewrite unsigned_integer_body.
  etrans; [apply length_tlv; unfold in_usize; lia|]. lia.
Qed.

(** A 64-byte CNG signature becomes the DER pair of the two non-negative
    integers it stands for, and any other width is an error: a strict reader gets
    exactly [r] and [s], whatever their top bits and leading zeros. *)
Theorem sig_der_exact raw :
  match sig_der_from_fixed raw with
  | Ok der => length raw = 64%nat /\
      read_sig der = Some (from_be_bytes (take 32 raw), from_be_bytes (drop 32 raw))
  | Err _ => length raw <> 64%nat
  end.
Proof.
  unfold sig_der_from_fixed. destruct (Z.eqb_spec (len raw) 64); cbn [negb]; [|lia].
  split; [lia|].
  assert (length (take 32 raw) = 32%nat) by (rewrite length_take; lia).
  assert (length (drop 32 raw) = 32%nat) by (rewrite length_drop; lia).
  pose proof (length_unsigned (take 32 raw) ltac:(lia)).
  pose proof (length_unsigned (drop 32 raw) ltac:(lia)).
  unfold read_sig. rewrite <- (app_nil_r (sequence _)), read_sequence2
    by (unfold in_usize; rewrite length_app; lia).
  cbn [mbind option_bind]. rewrite read_int_unsigned by lia. cbn [mbind option_bind].
  rewrite <- (app_nil_r (unsigned_integer (drop 32 raw))), read_int_unsigned by lia.
  done.
Qed.

Section props.
Context {R Sk Ck : Type} `{!P256 R Sk} `{!DeviceKey Ck}.
Context (debug_assertions dev_feature windows : bool).
Context (cng_open_or_create cng_open : string -> Host (R:=R) -> Host (R:=R) * result Ck DeviceKeyError).

(** Every key CNG hands out is a CNG key. *)
Definition cng_kind : Prop := forall k : Ck, kind k = Cng.

Lemma not_permitted_denies s :
  permitted debug_assertions dev_feature = false ->
  software_open_or_create (R:=R) (Sk:=Sk) debug_assertions dev_feature s = (s, Err SoftwareKeyNotPermitted) /\
  software_open (R:=R) (Sk:=Sk) debug_assertions dev_feature s = (s, Err SoftwareKeyNotPermitted).
Proof.
  intros Hp. unfold software_open_or_create, software_open, deny_if_not_permitted, lift, bindM.
  by rewrite Hp.
Qed.

(** No silent downgrade: on Windows, or in a build that does not permit software
    keys, every key that opens is non-exportable, and on Windows a failure of the
    key store is returned as it is. *)
Theorem no_silent_downgrade s r :
  cng_kind -> windows = true \/ permitted debug_assertions dev_feature = false ->
  r = (open_or_create debug_assertions dev_feature windows cng_open_or_create s).2 \/
  r = (open_existing debug_assertions dev_feature windows cng_open s).2 ->
  match r with
  | Ok k => meets_non_exportable_requirement (boxed_kind (Sk:=Sk) k) = true
  | Err e => windows = true ->
      (cng_open_or_create KEY_NAME s).2 = Err e \/ (cng_open KEY_NAME s).2 = Err e
  end.
Proof.
  intros Hk Hw Hr. unfold open_or_create, open_existing in Hr. destruct windows.
  - destruct Hr as [->| ->]; unfold bindM.
    + destruct (cng_open_or_create KEY_NAME s) as [s1 [k|e]]; cbn; [by rewrite Hk|by left].
    + destruct (cng_open KEY_NAME s) as [s1 [k|e]]; cbn; [by rewrite Hk|by right].
  - destruct Hw as [|Hp]; [done|]. destruct (not_permitted_denies s Hp) as [H1 H2].
    destruct Hr as [->| ->]; unfold bindM; rewrite ?H1, ?H2; cbn; done.
Qed.

(** PKCS#8 reads back what it wrote, as UTF-8 text. *)
Class P256Laws := {
  pkcs8_roundtrip k pem : to_pkcs8_pem (R:=R) k = Ok pem -> from_pkcs8_pem (R:=R) (Sk:=Sk) pem = Ok k;
  pkcs8_utf8 k pem : to_pkcs8_pem (R:=R) (Sk:=Sk) k = Ok pem -> Utf8.is_utf8 pem = true;
}.

(** A key that was generated is the key the next start opens, whatever happened
    before, as long as the read itself does not fail. *)
Lemma generated_key_reopens s s1 k :
  P256Laws -> generate_key debug_assertions dev_feature s = (s1, Ok k) ->
  faults s1.1 = [] ->
  (software_open (R:=R) debug_assertions dev_feature s1).2 = Ok k.
Proof.
  intros Hl. destruct s as [d r]. unfold generate_key, bindM, lift, software_open, deny_if_not_permitted.
  destruct (permitted _ _); [|done]. cbn [draw_key].
  destruct (random_key r) as [r1 sk]. destruct (to_pkcs8_pem sk) as [pem|] eqn:Hpem; [|done]. cbn [map_err].
  unfold on_disk. destruct (fs_touch d) as [d1 [[]|e]]; [|done]. cbn [map_err].
  destruct (fs_write _ pem d1) as [d2 [[]|e]] eqn:Hw; [|done]. cbn [map_err].
  pose proof (fs_touch_files d2) as Ht. destruct (fs_touch d2) as [d3 [[]|e]]; [|done]. cbn [map_err fst] in *.
  destruct (fs_rename _ KEY_FILE d3) as [d4 [[]|e]] eqn:Hr; [|done]. cbn [map_err ret].
  intros [= <- <-]. cbn [fst]. intros Hf.
  apply fs_rename_Ok in Hr as (c & Hc & Hd4). rewrite Ht in Hc.
  unfold fs_write in Hw. revert Hw. fault d1; [done|]. intros [= <-]. cbn in Hc.
  rewrite lookup_insert_eq in Hc. injection Hc as <-.
  unfold bindM, lift, software_read, fs_read_to_string, fs_read, next_fault. rewrite Hf, Hd4, lookup_insert_eq. cbn.
  rewrite (pkcs8_utf8 sk pem) by done. cbn. by rewrite (pkcs8_roundtrip sk pem).
Qed.
End props.

#[export] Instance demo_p256 : P256 Z Z := {|
  random_key r := (r + 1, r);
  to_pkcs8_pem k := Ok (fmt_u k);
  from_pkcs8_pem s := ok_or (parse_u u64_max s) "bad";
  encoded_point k := replicate 65 (z2b k);
  ecdsa_der k m := [z2b (k + len m)];
|}.

Definition demo_cng : DeviceKey unit := {|
  public_point k := (k, Ok (replicate 65 (z2b 4)));
  sign k m := (k, Ok []);
  kind _ := Cng;
|}.

(** On Windows a key store that refuses is a refusal. *)
Lemma no_silent_downgrade_witness :
  match (open_or_create (R:=Z) (Sk:=Z) (Ck:=unit) true true true
    (fun _ s => (s, Err (Platform "NTE_DEVICE_NOT_READY"))) ({| files := ∅; faults := [] |}, 0)).2 with
  | Ok k => meets_non_exportable_requirement (@boxed_kind Z Z _ unit demo_cng k) = true
  | Err e => true = true -> Err (A:=unit) (Platform "NTE_DEVICE_NOT_READY") = Err e \/
                            Err (A:=unit) (Platform "NTE_DEVICE_NOT_READY") = Err e
  end.
Proof.
  apply (@no_silent_downgrade Z Z unit _ demo_cng true true true
    (fun _ s => (s, Err (Platform "NTE_DEVICE_NOT_READY")))
    (fun _ s => (s, Err (Platform "NTE_DEVICE_NOT_READY"))) ({| files := ∅; faults := [] |}, 0));
    [by intros []|by left|by left].
Defined.
