(* ===== verification/Csr.v ===== *)
(** The PKCS#10 certificate signing request (sentinel-service/src/csr.rs), with a
    strict reader of RFC 2986 requests that stands for the gateway's parser. *)

From S2P Require Import Prelude Text Der Files DeviceKey.
From Stdlib.Strings Require Import Byte.

Definition ECDSA_WITH_SHA256 : list Z := [1; 2; 840; 10045; 4; 3; 2].
Definition COMMON_NAME : list Z := [2; 5; 4; 3].
Definition ORGANIZATION : list Z := [2; 5; 4; 10].
Definition ORGANIZATION_NAME : string := "MagickVoice Sentinel".

(** [None] is a panic of [der::oid] or [der::set]. *)
Definition rdn (oid_arcs : list Z) (value : string) : option (list u8) :=
  o ← oid oid_arcs; set [sequence [o; utf8_string value]].

Definition name_rdn_sequence (common_name : string) : option (list u8) :=
  cn ← rdn COMMON_NAME common_name;
  org ← rdn ORGANIZATION ORGANIZATION_NAME;
  Some (sequence [cn; org]).

Definition certification_request_info (spki : list u8) (common_name : string) : option (list u8) :=
  name ← name_rdn_sequence common_name;
  Some (sequence [small_integer (z2b 0); name; spki; tlv tag.CONTEXT_0_CONSTRUCTED []]).

Section csr.
Context {K : Type} `{!DeviceKey K}.
Context (b64 : list u8 -> string).

(** [None] in the result is a panic. *)
Definition build_csr_der (key : K) (common_name : string)
    : K * option (result (list u8) DeviceKeyError) :=
  let '(key, p) := public_point key in
  match p with
  | Err e => (key, Some (Err e))
  | Ok point =>
      match spki_p256 point ≫= fun spki => certification_request_info spki common_name with
      | None => (key, None)
      | Some info =>
          let '(key, s) := sign key info in
          match s with
          | Err e => (key, Some (Err e))
          | Ok signature =>
              (key, o ← oid ECDSA_WITH_SHA256;
                    Some (Ok (sequence [info; sequence [o]; bit_string signature])))
          end
      end
  end.

Definition build_csr_pem (key : K) (common_name : string)
    : K * option (result string DeviceKeyError) :=
  let '(key, r) := build_csr_der key common_name in
  (key, res_map (to_pem b64 "CERTIFICATE REQUEST") <$> r).
End csr.

(** ** The reader *)

Definition read_known_oid (arcs : list Z) (l : list u8) : option (list u8) :=
  '(b, rest) ← read_tag tag.OID l; a ← read_oid b;
  if bool_decide (a = arcs) then Some rest else None.

(** Everything of [l] belongs to what was read. *)
Definition done_reading (l : list u8) : option unit :=
  if bool_decide (l = []) then Some tt else None.

(** A BIT STRING with no unused bits. *)
Definition read_bits (l : list u8) : option (list u8 * list u8) :=
  '(b, rest) ← read_tag tag.BIT_STRING l;
  match b with
  | z :: bits => if b2z z =? 0 then Some (bits, rest) else None
  | [] => None
  end.

(** One relative distinguished name with the given attribute. *)
Definition read_rdn (arcs : list Z) (l : list u8) : option (string * list u8) :=
  '(s, rest) ← read_tag tag.SET l; '(a, r1) ← read_tag tag.SEQUENCE s;
  r2 ← read_known_oid arcs a; '(v, r3) ← read_tag tag.UTF8_STRING r2;
  _ ← done_reading r1; _ ← done_reading r3; Some (String.string_of_list_byte v, rest).

(** A named-curve public key. *)
Definition read_spki (l : list u8) : option (list u8 * list u8) :=
  '(s, rest) ← read_tag tag.SEQUENCE l; '(alg, s1) ← read_tag tag.SEQUENCE s;
  c ← read_known_oid ID_EC_PUBLIC_KEY alg; c ← read_known_oid PRIME256V1 c;
  '(point, s2) ← read_bits s1; _ ← done_reading c; _ ← done_reading s2; Some (point, rest).

Record CsrParts := {
  csr_common_name : string;
  csr_organization : string;
  csr_point : list u8;
  csr_signed : list u8;   (** the bytes the signature covers *)
  csr_signature : list u8;
}.

(** Subject, public key and (empty) attributes of the request info. *)
Definition read_info (l : list u8) : option (string * string * list u8) :=
  '(v, i) ← read_int l;
  '(name, i) ← read_tag tag.SEQUENCE i;
  '(cn, n) ← read_rdn COMMON_NAME name; '(org, n) ← read_rdn ORGANIZATION n; _ ← done_reading n;
  '(point, i) ← read_spki i;
  '(attrs, i) ← read_tag tag.CONTEXT_0_CONSTRUCTED i; _ ← done_reading i;
  if bool_decide (v = 0 /\ attrs = []) then Some (cn, org, point) else None.

Definition read_csr (der : list u8) : option CsrParts :=
  '(body, rest) ← read_tag tag.SEQUENCE der; _ ← done_reading rest;
  '(info, r1) ← read_tag tag.SEQUENCE body;
  '(alg, r2) ← read_tag tag.SEQUENCE r1;
  a ← read_known_oid ECDSA_WITH_SHA256 alg; _ ← done_reading a;
  '(sig, r3) ← read_bits r2; _ ← done_reading r3;
  '(cn, org, point) ← read_info info;
  Some {| csr_common_name := cn; csr_organization := org; csr_point := point;
          csr_signed := take (length body - length r1) body; csr_signature := sig |}.

(** ** Reading back what was built *)

(** Lengths up to [2^62] leave room for every enclosing block. *)
Definition fits (n : Z) : Prop := n < 2 ^ 62.

Lemma len_tlv t body m : len body <= m -> fits m -> len (tlv t body) <= m + 10.
Proof. unfold fits. intros. pose proof (length_tlv t body ltac:(unfold in_usize; lia)). lia. Qed.

(** Side conditions on sizes. *)
Ltac sizes := unfold in_usize, fits in *; rewrite ?length_app in *; cbn [length] in *; lia.
(** One step of a reader on a block it expects. *)
Ltac read_block := rewrite read_tag_tlv by sizes; cbn [mbind option_bind].

Lemma done_nil : done_reading [] = Some tt.
Proof. reflexivity. Qed.

Lemma known_oid arcs : oid_ok arcs -> (length arcs <= 8)%nat ->
  exists o, oid arcs = Some o /\ len o <= 50 /\
    forall rest, read_known_oid arcs (o ++ rest) = Some rest.
Proof.
  intros Hok Hl. destruct (oid_read arcs Hok) as (body & -> & Hr & Hb).
  pose proof (len_tlv tag.OID body 40 ltac:(lia) ltac:(unfold fits; lia)).
  eexists. split; [done|]. split; [lia|]. intros rest. unfold read_known_oid. read_block.
  rewrite Hr. cbn [mbind option_bind]. by rewrite bool_decide_eq_true_2.
Qed.

(** Closes [oid_ok] of a literal. *)
Ltac oid_lit :=
  do 3 eexists; split; [reflexivity|split; [lia|split; [lia|repeat constructor; unfold in_u32, u32_max; lia]]].

Definition str_bytes (s : string) : Z := len (String.list_byte_of_string s).

Lemma read_rdn_rdn arcs value : oid_ok arcs -> (length arcs <= 8)%nat -> str_bytes value < 2 ^ 61 ->
  exists l, rdn arcs value = Some l /\ len l <= str_bytes value + 90 /\
    forall rest, read_rdn arcs (l ++ rest) = Some (value, rest).
Proof.
  unfold str_bytes. intros Hok Hl Hv. unfold rdn.
  destruct (known_oid arcs Hok Hl) as (o & -> & Ho & Hr). cbn [mbind option_bind].
  unfold set. cbn [length]. change (1 <=? 1) with true. eexists. split; [done|].
  set (bs := String.list_byte_of_string value) in *.
  unfold sequence, utf8_string. fold bs. cbn [concat]. rewrite !app_nil_r.
  pose proof (len_tlv tag.UTF8_STRING bs (len bs) ltac:(lia) ltac:(unfold fits; lia)) as H1.
  set (inner := o ++ tlv tag.UTF8_STRING bs) in *.
  assert (Hi : len inner <= len bs + 60) by (unfold inner; sizes).
  pose proof (len_tlv tag.SEQUENCE inner (len bs + 60) Hi ltac:(unfold fits; lia)) as H2.
  pose proof (len_tlv tag.SET _ (len bs + 70) ltac:(etrans; [exact H2|lia]) ltac:(unfold fits; lia)) as H3.
  split; [lia|]. intros rest. unfold read_rdn. read_block.
  rewrite <- (app_nil_r (tlv tag.SEQUENCE inner)). read_block. unfold inner at 1. rewrite Hr.
  cbn [mbind option_bind]. rewrite <- (app_nil_r (tlv tag.UTF8_STRING bs)). read_block.
  cbn [mbind option_bind]. rewrite done_nil. cbn [mbind option_bind].
  unfold bs. by rewrite String.string_of_list_byte_of_string.
Qed.

Lemma read_bits_bit_string bits rest :
  len bits < 2 ^ 62 -> read_bits (bit_string bits ++ rest) = Some (bits, rest).
Proof. intros. unfold read_bits, bit_string. by read_block. Qed.

Lemma read_spki_p256 point : length point = 65%nat ->
  exists l, spki_p256 point = Some l /\ len l <= 300 /\
    forall rest, read_spki (l ++ rest) = Some (point, rest).
Proof.
  intros Hp. unfold spki_p256.
  destruct (known_oid ID_EC_PUBLIC_KEY ltac:(oid_lit) ltac:(simpl; lia)) as (o1 & -> & L1 & R1).
  destruct (known_oid PRIME256V1 ltac:(oid_lit) ltac:(simpl; lia)) as (o2 & -> & L2 & R2).
  cbn [mbind option_bind]. eexists. split; [done|].
  unfold sequence. cbn [concat]. rewrite !app_nil_r.
  pose proof (len_tlv tag.SEQUENCE (o1 ++ o2) 100 ltac:(sizes) ltac:(unfold fits; lia)) as H1.
  pose proof (len_tlv tag.BIT_STRING (z2b 0 :: point) 66 ltac:(sizes) ltac:(unfold fits; lia)) as H2.
  fold (bit_string point) in H2.
  pose proof (len_tlv tag.SEQUENCE (tlv tag.SEQUENCE (o1 ++ o2) ++ bit_string point) 190
    ltac:(sizes) ltac:(unfold fits; lia)) as H3.
  split; [lia|]. intros rest. unfold read_spki. read_block. read_block.
  rewrite R1. cbn [mbind option_bind]. rewrite <- (app_nil_r o2), R2. cbn [mbind option_bind].
  rewrite <- (app_nil_r (bit_string point)), read_bits_bit_string by sizes. by cbn [mbind option_bind].
Qed.

Lemma read_small_integer rest : read_int (small_integer (z2b 0) ++ rest) = Some (0, rest).
Proof. unfold read_int, small_integer. by read_block. Qed.

Lemma read_info_info point cn : length point = 65%nat -> str_bytes cn < 2 ^ 60 ->
  exists spki info, spki_p256 point = Some spki /\
    certification_request_info spki cn = Some (tlv tag.SEQUENCE info) /\
    len info <= str_bytes cn + 600 /\ read_info info = Some (cn, ORGANIZATION_NAME, point).
Proof.
  intros Hp Hcn. destruct (read_spki_p256 point Hp) as (spki & Hs & Ls & Rs).
  exists spki. unfold certification_request_info, name_rdn_sequence.
  destruct (read_rdn_rdn COMMON_NAME cn ltac:(oid_lit) ltac:(simpl; lia) ltac:(lia)) as (n1 & -> & L1 & R1).
  destruct (read_rdn_rdn ORGANIZATION ORGANIZATION_NAME ltac:(oid_lit) ltac:(simpl; lia) ltac:(by vm_compute))
    as (n2 & -> & L2 & R2).
  change (str_bytes ORGANIZATION_NAME) with 20 in L2. cbn [mbind option_bind].
  unfold sequence. cbn [concat]. rewrite !app_nil_r.
  assert (Hnn : 0 <= str_bytes cn) by (unfold str_bytes; lia).
  pose proof (len_tlv tag.SEQUENCE (n1 ++ n2) (str_bytes cn + 200) ltac:(sizes) ltac:(unfold fits; lia)) as H1.
  change (small_integer (z2b 0)) with (z2b <$> [2; 1; 0]).
  change (tlv tag.CONTEXT_0_CONSTRUCTED []) with (z2b <$> [160; 0]).
  eexists. split; [done|]. split; [done|]. split; [rewrite !length_app, !length_fmap; sizes|].
  change (z2b <$> [2; 1; 0]) with (small_integer (z2b 0)).
  change (z2b <$> [160; 0]) with (tlv tag.CONTEXT_0_CONSTRUCTED []).
  unfold read_info. rewrite read_small_integer. cbn [mbind option_bind]. read_block.
  rewrite R1. cbn [mbind option_bind]. rewrite <- (app_nil_r n2), R2. cbn [mbind option_bind].
  rewrite done_nil. cbn [mbind option_bind]. rewrite Rs. cbn [mbind option_bind].
  rewrite <- (app_nil_r (tlv tag.CONTEXT_0_CONSTRUCTED [])). read_block.
  rewrite done_nil. cbn [mbind option_bind]. by rewrite bool_decide_eq_true_2.
Qed.

Lemma read_csr_sequence info o sig cn org point :
  oid ECDSA_WITH_SHA256 = Some o -> len info <= 2 ^ 61 -> len sig <= 2 ^ 61 ->
  read_info info = Some (cn, org, point) ->
  read_csr (sequence [tlv tag.SEQUENCE info; sequence [o]; bit_string sig]) =
  Some {| csr_common_name := cn; csr_organization := org; csr_point := point;
          csr_signed := tlv tag.SEQUENCE info; csr_signature := sig |}.
Proof.
  intros Ho Hi Hs Hr.
  destruct (known_oid ECDSA_WITH_SHA256 ltac:(oid_lit) ltac:(simpl; lia)) as (o' & Ho' & Lo & Ro).
  rewrite Ho in Ho'. injection Ho' as <-. unfold sequence. cbn [concat]. rewrite !app_nil_r.
  pose proof (len_tlv tag.SEQUENCE info (2 ^ 61) Hi ltac:(unfold fits; lia)) as H1.
  pose proof (len_tlv tag.SEQUENCE o 50 Lo ltac:(unfold fits; lia)) as H2.
  pose proof (len_tlv tag.BIT_STRING (z2b 0 :: sig) (2 ^ 61 + 1) ltac:(sizes) ltac:(unfold fits; lia)) as H3.
  fold (bit_string sig) in H3. unfold read_csr.
  set (body := tlv tag.SEQUENCE info ++ tlv tag.SEQUENCE o ++ bit_string sig).
  assert (Hb : in_usize (len body)) by (unfold body; sizes).
  rewrite <- (app_nil_r (tlv tag.SEQUENCE body)), read_tag_tlv by done. cbn [mbind option_bind].
  rewrite done_nil. cbn [mbind option_bind]. unfold body. read_block. read_block.
  rewrite <- (app_nil_r o), Ro. cbn [mbind option_bind]. rewrite done_nil, app_nil_r. cbn [mbind option_bind].
  rewrite <- (app_nil_r (bit_string sig)) at 1. rewrite read_bits_bit_string by sizes. cbn [mbind option_bind].
  rewrite done_nil. cbn [mbind option_bind]. rewrite Hr. cbn [mbind option_bind]. do 2 f_equal.
  rewrite length_app. replace (length _ + length _ - length _)%nat with (length (tlv tag.SEQUENCE info)) by lia.
  apply take_app_length.
Qed.

Section correct.
Context {K : Type} `{!DeviceKey K} `{!DeviceKeyLaws K} (b64 : list u8 -> string).

(** C25: The gateway reads the request as built: when the key answers, the PEM has
    the required label, its lines hold the DER whole, and a strict reader finds
    the machine's name, our organization, this key's point, and a signature made
    over the very bytes it stands next to; the builder neither panics nor fails on
    its own account. *)
Theorem csr_reads_back k k1 cn point :
  public_point k = (k1, Ok point) -> str_bytes cn < 2 ^ 60 ->
  exists info, forall k2 sig,
    sign k1 info = (k2, Ok sig) -> len sig <= 2 ^ 61 ->
    exists der,
      build_csr_pem b64 k cn = (k2, Some (Ok (to_pem b64 "CERTIFICATE REQUEST" der))) /\
      (lacks newline (b64 der) ->
       read_pem "CERTIFICATE REQUEST" (to_pem b64 "CERTIFICATE REQUEST" der) = Some (b64 der)) /\
      read_csr der = Some {|
        csr_common_name := cn; csr_organization := ORGANIZATION_NAME; csr_point := point;
        csr_signed := info; csr_signature := sig |}.
Proof.
  intros Hp Hcn. pose proof (public_point_65 k k1 point Hp) as H65.
  destruct (read_info_info point cn H65 Hcn) as (spki & info & Hs & Hinfo & Hl & Hr).
  exists (tlv tag.SEQUENCE info). intros k2 sig Hsig Hsl.
  destruct (known_oid ECDSA_WITH_SHA256 ltac:(oid_lit) ltac:(simpl; lia)) as (o & Ho & _).
  exists (sequence [tlv tag.SEQUENCE info; sequence [o]; bit_string sig]).
  split; [|split].
  - unfold build_csr_pem, build_csr_der. rewrite Hp, Hs. cbn [mbind option_bind].
    rewrite Hinfo, Hsig, Ho. done.
  - intros Hb. apply read_to_pem; [lacks_lit|done].
  - apply read_csr_sequence; [done|lia|done|done].
Qed.
End correct.

(** ** A key for the examples *)

#[export] Instance demo_key : DeviceKey unit := {|
  public_point k := (k, Ok (replicate 65 (z2b 4)));
  sign k m := (k, Ok [z2b (len m); z2b 255]);
  kind _ := Cng;
|}.
#[export] Instance demo_key_laws : DeviceKeyLaws unit.
Proof. split. intros k k' p [= <- <-]. done. Qed.

Lemma csr_reads_back_witness :
  exists info, forall k2 sig,
    sign tt info = (k2, Ok sig) -> len sig <= 2 ^ 61 ->
    exists der,
      build_csr_pem (fun _ => "QUJD") tt "{4c4c4544}" =
        (k2, Some (Ok (to_pem (fun _ => "QUJD") "CERTIFICATE REQUEST" der))) /\
      (lacks newline "QUJD" ->
       read_pem "CERTIFICATE REQUEST" (to_pem (fun _ => "QUJD") "CERTIFICATE REQUEST" der) = Some "QUJD") /\
      read_csr der = Some {|
        csr_common_name := "{4c4c4544}"; csr_organization := ORGANIZATION_NAME;
        csr_point := replicate 65 (z2b 4); csr_signed := info; csr_signature := sig |}.
Proof.
  apply (csr_reads_back (fun _ => "QUJD") tt tt "{4c4c4544}" (replicate 65 (z2b 4))); [reflexivity|].
  vm_compute. reflexivity.
Defined.
