(* ===== verification/Update.v ===== *)
(** Update staging and crash-dump collection (sentinel-service/src/update.rs and
    crashdump.rs): version order, the decision to apply, the hash check, the staged
    file name, and which dumps are shipped or dropped. *)

From S2P Require Import Prelude Text Files.

(** ** Versions *)

(** Field-wise order of [Vec<u64>]: lexicographic, a proper prefix is smaller. *)
Fixpoint version_le (a b : list Z) : bool :=
  match a, b with
  | [], _ => true
  | _ :: _, [] => false
  | x :: a', y :: b' => (x <? y) || ((x =? y) && version_le a' b')
  end.

(** [while parts.len() < 3 { parts.push(0) }] *)
Definition pad3 (parts : list Z) : list Z := parts ++ replicate (3 - length parts) 0.

Definition Version_parse (s : string) : option (list Z) :=
  parts ← mapM (fun p => parse_u u64_max (trim p)) (split "."%char s);
  if bool_decide (parts = []) then None else Some (pad3 parts).

Record UpdateManifest := {
  um_version : string;
  um_msi_url : string;
  um_sha256 : string;
  um_mandatory : bool;
}.

Inductive ApplyDecision := Apply | DeferInCall | ApplyNothing.

Definition decide_update (current : string) (staged : option string) (agent_in_call mandatory : bool)
    : ApplyDecision :=
  match staged ≫= Version_parse, Version_parse current with
  | Some staged, Some current =>
      if version_le staged current then ApplyNothing
      else if agent_in_call then DeferInCall
      else Apply
  | _, _ => ApplyNothing
  end.

(** ** The hash check *)

Definition hex_lower_digit (n : Z) : ascii := if n <? 10 then chr (48 + n) else chr (87 + n).

(** [write!(s, "{b:02x}")] for each byte. *)
Definition hex_lower (bytes : list u8) : string :=
  str (bytes ≫= fun b => [hex_lower_digit (b2z b / 16); hex_lower_digit (b2z b mod 16)]).

Section hash.
(** [Sha256::digest] *)
Context (sha256 : string -> list u8).

Definition verify_sha256 (name expected_hex : string) (d : Disk) : Disk * result bool IoError :=
  let '(d, r) := fs_read name d in
  (d, let? bytes := r in
      Ok (bool_decide (hex_lower (sha256 bytes) = to_ascii_lowercase (trim expected_hex)))).
End hash.

(** ** The staged file's name *)

Definition safe_char (c : ascii) : bool :=
  is_ascii_alphanumeric c || bool_decide (c = "."%char) || bool_decide (c = "-"%char).

Definition is_dot (c : ascii) : bool := bool_decide (c = "."%char).

(** [safe.contains("..")] *)
Fixpoint contains_dots (l : list ascii) : bool :=
  match l with
  | a :: ((b :: _) as l') => (is_dot a && is_dot b) || contains_dots l'
  | _ => false
  end.

(** [safe.replace("..", ".")]: left to right, without overlap. *)
Fixpoint replace_dots (l : list ascii) : list ascii :=
  match l with
  | a :: ((b :: l'') as l') =>
      if is_dot a && is_dot b then "."%char :: replace_dots l'' else a :: replace_dots l'
  | _ => l
  end.

(** The [while] loop; [None] when the fuel runs out. *)
Fixpoint collapse_dots (fuel : nat) (l : list ascii) : option (list ascii) :=
  if contains_dots l then
    match fuel with O => None | S fuel' => collapse_dots fuel' (replace_dots l) end
  else Some l.

(** The file name inside the staging root. *)
Definition staging_path (version : string) : option string :=
  let safe := base.filter (fun c => safe_char c) (chars version) in
  safe ← collapse_dots (length safe) safe;
  Some ("SentinelAgent-" +:+ str safe +:+ ".msi").

(** ** Crash dumps *)

(** Times are milliseconds; [dump_modified] is the file's modification time. *)
Definition MAX_DUMP_AGE_MS : Z := 30 * 24 * 3600 * 1000.
Definition MAX_DUMPS : nat := 20.

Record Dump := { dump_path : string; dump_modified : Z; dump_bytes : Z }.

(** [sort_by_key(|a| Reverse(a.modified))], a stable sort. *)
Fixpoint insert_newest (x : Dump) (l : list Dump) : list Dump :=
  match l with
  | [] => [x]
  | y :: l' => if dump_modified y <=? dump_modified x then x :: l else y :: insert_newest x l'
  end.
Definition sort_newest (l : list Dump) : list Dump := foldr insert_newest [] l.

(** [now.duration_since(modified)] fails for a time in the future, which is not old. *)
Definition too_old (now : Z) (d : Dump) : bool :=
  if dump_modified d <=? now then MAX_DUMP_AGE_MS <? now - dump_modified d else false.

Definition triage_step (now : Z) (acc : list Dump * list Dump) (d : Dump) : list Dump * list Dump :=
  let '(ship, drop) := acc in
  if too_old now d || (MAX_DUMPS <=? length ship)%nat then (ship, drop ++ [d])
  else (ship ++ [d], drop).

Definition triage (dumps : list Dump) (now : Z) : list Dump * list Dump :=
  fold_left (triage_step now) (sort_newest dumps) ([], []).

(** A directory entry: its name, and what [metadata] says (modification time, if
    the platform has one, and size). *)
Record DirEntry := { de_name : string; de_meta : result (option Z * Z) IoError }.

Fixpoint scan_entries (out : list Dump) (es : list (result DirEntry IoError)) : result (list Dump) IoError :=
  match es with
  | [] => Ok out
  | Err _ :: es' => scan_entries out es'
  | Ok e :: es' =>
      if negb (bool_decide (extension (de_name e) = Some "dmp")) then scan_entries out es'
      else match de_meta e with
           | Err x => Err x
           | Ok (m, n) =>
               scan_entries (out ++ [{| dump_path := de_name e; dump_modified := default 0 m;
                                        dump_bytes := n |}]) es'
           end
  end.

(** [scan]: over what [read_dir] answers. *)
Definition scan (read_dir : result (list (result DirEntry IoError)) IoError) : result (list Dump) IoError :=
  match read_dir with
  | Ok es => scan_entries [] es
  | Err IoNotFound => Ok []
  | Err e => Err e
  end.

(** ** The version order *)

Lemma version_le_refl a : version_le a a = true.
Proof. induction a as [|x a IH]; [done|]. cbn. by rewrite Z.eqb_refl, IH, orb_true_r. Qed.

Lemma version_le_antisym a b : version_le a b = true -> version_le b a = true -> a = b.
Proof.
  revert b. induction a as [|x a IH]; intros [|y b]; cbn; try done.
  intros H1 H2. destruct (Z.ltb_spec x y), (Z.ltb_spec y x), (Z.eqb_spec x y), (Z.eqb_spec y x);
    cbn in *; try done; try lia. subst. f_equal. by apply IH.
Qed.

(** Three fields below [2^64] compare like one number. *)
Definition version_value (a b c : Z) : Z := (a * 2 ^ 64 + b) * 2 ^ 64 + c.

Lemma version_le_value a b c a' b' c' :
  in_u64 a -> in_u64 b -> in_u64 c -> in_u64 a' -> in_u64 b' -> in_u64 c' ->
  version_le [a; b; c] [a'; b'; c'] = (version_value a b c <=? version_value a' b' c').
Proof.
  unfold in_u64, u64_max, version_value. intros. cbn [version_le]. rewrite andb_true_r.
  apply eq_true_iff_eq. rewrite !orb_true_iff, !andb_true_iff, !orb_true_iff,
    !Z.ltb_lt, !Z.eqb_eq, Z.leb_le. lia.
Qed.

(** What the build prints as its version. *)
Definition print_version (a b c : Z) : string :=
  fmt_u a +:+ "." +:+ fmt_u b +:+ "." +:+ fmt_u c.

Lemma parse_print_version a b c : in_u64 a -> in_u64 b -> in_u64 c ->
  Version_parse (print_version a b c) = Some [a; b; c].
Proof.
  unfold in_u64. intros Ha Hb Hc. unfold Version_parse, print_version.
  assert (Hdot : forall z, 0 <= z -> lacks "."%char (fmt_u z)) by (intros; by apply lacks_fmt_u).
  change ("." +:+ fmt_u b +:+ "." +:+ fmt_u c) with (String "." (fmt_u b +:+ String "." (fmt_u c))).
  rewrite split_here, split_here, split_last by (apply Hdot; lia).
  cbn [mapM]. rewrite !trim_fmt_u, !parse_fmt_u by lia. done.
Qed.

(** Between versions as the build prints them, an update is applied exactly
    when it is numerically newer, field by field, and no call is in progress; a
    call defers it whether or not it is mandatory. *)
Theorem update_decision a b c a' b' c' in_call mandatory :
  in_u64 a -> in_u64 b -> in_u64 c -> in_u64 a' -> in_u64 b' -> in_u64 c' ->
  decide_update (print_version a b c) (Some (print_version a' b' c')) in_call mandatory =
  if version_value a' b' c' <=? version_value a b c then ApplyNothing
  else if in_call then DeferInCall else Apply.
Proof.
  intros. unfold decide_update. cbn [mbind option_bind].
  rewrite !parse_print_version, version_le_value by done. done.
Qed.

Lemma update_decision_witness :
  decide_update "0.9.0" (Some "0.10.0") true true = DeferInCall.
Proof.
  apply (update_decision 0 9 0 0 10 0 true true); unfold in_u64, u64_max; lia.
Defined.

(** ** The staged name *)

(** Runs of dots squeezed to one. *)
Fixpoint squeeze (l : list ascii) : list ascii :=
  match l with
  | [] => []
  | a :: l' => if is_dot a then a :: match squeeze l' with b :: r => if is_dot b then r else b :: r | [] => [] end
               else a :: squeeze l'
  end.

Lemma squeeze_fixed l : contains_dots l = false -> squeeze l = l.
Proof.
  induction l as [|a l IH]; [done|]. intros H. cbn [squeeze].
  assert (Hl : contains_dots l = false) by (destruct l; [done|]; cbn in H; by bool_hyps).
  rewrite (IH Hl). destruct (is_dot a) eqn:Ha; [|done]. f_equal.
  destruct l as [|b l]; [done|]. cbn [contains_dots] in H. rewrite Ha in H.
  destruct (is_dot b) eqn:Hb; [done|done].
Qed.

Lemma is_dot_true a : is_dot a = true -> a = "."%char.
Proof. unfold is_dot. intros. by bool_hyps. Qed.

Lemma squeeze_two_dots l : squeeze ("."%char :: "."%char :: l) = squeeze ("."%char :: l).
Proof. cbn [squeeze]. change (is_dot "."%char) with true. cbn. done. Qed.

Lemma replace_dots_ind (P : list ascii -> Prop) :
  P [] -> (forall a, P [a]) ->
  (forall a b l, P l -> P (b :: l) -> P (a :: b :: l)) -> forall l, P l.
Proof.
  intros H0 H1 H2 l. enough (P l /\ forall a, P (a :: l)) as [? _] by done.
  induction l as [|b l [IH1 IH2]]; [by split|]. split; [done|]. intros a. by apply H2.
Qed.

Lemma replace_dots_cons a b l :
  replace_dots (a :: b :: l) =
  if is_dot a && is_dot b then "."%char :: replace_dots l else a :: replace_dots (b :: l).
Proof. reflexivity. Qed.

Lemma squeeze_cons a l :
  squeeze (a :: l) =
  if is_dot a then a :: match squeeze l with b :: r => if is_dot b then r else b :: r | [] => [] end
  else a :: squeeze l.
Proof. reflexivity. Qed.

Lemma squeeze_replace l : squeeze (replace_dots l) = squeeze l.
Proof.
  induction l as [|a|a b l IH1 IH2] using replace_dots_ind; [done|done|].
  rewrite replace_dots_cons. destruct (is_dot a && is_dot b) eqn:Hd.
  - apply andb_true_iff in Hd as [->%is_dot_true ->%is_dot_true].
    rewrite squeeze_two_dots, !squeeze_cons. by rewrite IH1.
  - rewrite (squeeze_cons a (replace_dots _)), (squeeze_cons a (b :: l)). by rewrite IH2.
Qed.

Lemma length_replace_dots l :
  (length (replace_dots l) <= length l)%nat /\
  (contains_dots l = true -> (length (replace_dots l) < length l)%nat).
Proof.
  induction l as [|a|a b l [IH1 _] [IH3 IH4]] using replace_dots_ind; [by cbn|cbn; split; [lia|done]|].
  rewrite replace_dots_cons. destruct (is_dot a && is_dot b) eqn:Hd.
  - cbn [length]. lia.
  - change (contains_dots (a :: b :: l)) with (is_dot a && is_dot b || contains_dots (b :: l)).
    rewrite Hd. cbn [length orb] in *.
    split; [lia|]. intros H. specialize (IH4 H). lia.
Qed.

Lemma collapse_dots_total fuel l : (length l <= fuel)%nat -> collapse_dots fuel l = Some (squeeze l).
Proof.
  revert l. induction fuel as [|fuel IH]; intros l Hl; cbn [collapse_dots].
  - destruct l; [done|simpl in Hl; lia].
  - destruct (contains_dots l) eqn:Hc; [|by rewrite squeeze_fixed].
    destruct (length_replace_dots l) as [_ Hlt]. specialize (Hlt Hc).
    rewrite IH by lia. by rewrite squeeze_replace.
Qed.

Lemma squeeze_incl l : Forall (fun c => safe_char c = true) l -> Forall (fun c => safe_char c = true) (squeeze l).
Proof.
  induction 1 as [|a l Ha _ IH]; [constructor|]. cbn [squeeze].
  destruct (is_dot a); constructor; try done. destruct (squeeze l) as [|b r]; [done|].
  destruct (is_dot b); [|done]. by apply Forall_cons in IH as [_ ?].
Qed.

Lemma squeeze_no_dots l : contains_dots (squeeze l) = false.
Proof.
  pose proof (collapse_dots_total (length l) l ltac:(lia)) as H.
  enough (forall fuel l r, collapse_dots fuel l = Some r -> contains_dots r = false) as Hc by by eapply Hc.
  clear. induction fuel as [|fuel IH]; intros l r; cbn [collapse_dots];
    destruct (contains_dots l) eqn:E; try done; [by intros [= <-]|apply IH|by intros [= <-]].
Qed.

(** Naming the staged installer always ends, and the version cannot steer it:
    the name is the fixed prefix and suffix around text with no separator, no
    [..] and nothing but letters, digits, dots and dashes, namely the version's
    own such characters with runs of dots squeezed. *)
Theorem staging_path_total version :
  exists safe, staging_path version = Some ("SentinelAgent-" +:+ str safe +:+ ".msi") /\
    safe = squeeze (base.filter (fun c => safe_char c) (chars version)) /\
    Forall (fun c => safe_char c = true) safe /\ contains_dots safe = false.
Proof.
  unfold staging_path. rewrite collapse_dots_total by done. cbn [mbind option_bind].
  eexists. split; [done|]. split; [done|]. split; [|apply squeeze_no_dots].
  apply squeeze_incl, Forall_forall. intros c Hc. apply list_elem_of_filter in Hc as [Hc _].
  by apply Is_true_true.
Qed.

Example staging_path_traversal :
  staging_path "../../0.3.0....1" = Some "SentinelAgent-.0.3.0.1.msi".
Proof. reflexivity. Qed.

(** ** Crash dumps *)

Definition newer (x y : Dump) : Prop := dump_modified y <= dump_modified x.
#[export] Instance newer_trans : Transitive newer.
Proof. unfold newer. intros x y z. lia. Qed.

Lemma insert_newest_perm x l : insert_newest x l ≡ₚ x :: l.
Proof.
  induction l as [|y l IH]; [done|]. cbn. destruct (_ <=? _); [done|].
  rewrite IH. apply perm_swap.
Qed.

Lemma sort_newest_perm l : sort_newest l ≡ₚ l.
Proof. induction l as [|x l IH]; [done|]. cbn. by rewrite insert_newest_perm, IH. Qed.

Lemma insert_newest_sorted x l :
  StronglySorted newer l -> StronglySorted newer (insert_newest x l).
Proof.
  induction 1 as [|y l Hl IH Hy]; cbn; [by repeat constructor|].
  destruct (Z.leb_spec (dump_modified y) (dump_modified x)).
  - constructor; [by constructor|]. constructor; [done|].
    eapply Forall_impl; [exact Hy|]. unfold newer. intros z ?. lia.
  - constructor; [done|]. rewrite insert_newest_perm. constructor; [unfold newer; lia|done].
Qed.

Lemma sort_newest_sorted l : StronglySorted newer (sort_newest l).
Proof. induction l; cbn; [constructor|]. by apply insert_newest_sorted. Qed.

Lemma StronglySorted_filter {A} (R : relation A) (P : A -> Prop) `{!forall x, Decision (P x)} l :
  StronglySorted R l -> StronglySorted R (base.filter P l).
Proof.
  induction 1 as [|x l Hl IH Hx]; [constructor|]. rewrite filter_cons.
  destruct (decide (P x)); [|done]. constructor; [done|].
  rewrite Forall_forall in *. intros y Hy. apply list_elem_of_filter in Hy as [_ Hy]. by apply Hx.
Qed.

Definition fresh (now : Z) (d : Dump) : Prop := too_old now d = false.
#[export] Instance fresh_dec now d : Decision (fresh now d).
Proof. unfold fresh. apply _. Defined.

(** The loop keeps the first [MAX_DUMPS] fresh dumps it meets, in order, and loses
    none. *)
Lemma triage_fold now l ship drop : (length ship <= MAX_DUMPS)%nat ->
  exists ship' drop', fold_left (triage_step now) l (ship, drop) = (ship', drop') /\
    ship' = take MAX_DUMPS (ship ++ base.filter (fresh now) l) /\
    ship' ++ drop' ≡ₚ (ship ++ drop) ++ l.
Proof.
  revert ship drop. induction l as [|d l IH]; intros ship drop Hs.
  - exists ship, drop. cbn. rewrite app_nil_r, take_ge by done. by rewrite app_nil_r.
  - cbn [fold_left]. unfold triage_step at 2.
    destruct (too_old now d || (MAX_DUMPS <=? length ship)%nat) eqn:Hd.
    + destruct (IH ship (drop ++ [d]) Hs) as (s' & d' & -> & -> & Hp).
      do 2 eexists. split; [done|]. split.
      * rewrite filter_cons. destruct (decide (fresh now d)) as [Hf|]; [|done].
        unfold fresh in Hf. rewrite Hf in Hd. cbn [orb] in Hd. apply Nat.leb_le in Hd.
        rewrite !take_app_le by lia. done.
      * rewrite Hp, <- !(assoc_L (++)). done.
    + apply orb_false_iff in Hd as [Hf Hlt]. apply Nat.leb_gt in Hlt.
      destruct (IH (ship ++ [d]) drop) as (s' & d' & -> & -> & Hp); [rewrite length_app; simpl; lia|].
      do 2 eexists. split; [done|]. split.
      * rewrite filter_cons, decide_True by done. by rewrite <- (assoc_L (++)).
      * rewrite Hp. solve_Permutation.
Qed.

(** Triage partitions the dumps: what is shipped is the newest (at most twenty)
    dumps within the retention window, newest first, and everything dropped is
    past the window or no newer than twenty shipped ones. *)
Theorem triage_spec dumps now : let '(ship, drop) := triage dumps now in
  ship ++ drop ≡ₚ dumps /\ StronglySorted newer ship /\
  (length ship <= MAX_DUMPS)%nat /\ Forall (fun d => too_old now d = false) ship /\
  Forall (fun d => too_old now d = true \/
                   (length ship = MAX_DUMPS /\ Forall (fun s => newer s d) ship)) drop.
Proof.
  unfold triage.
  destruct (triage_fold now (sort_newest dumps) [] []) as (ship & drop & -> & Hs & Hp); [cbn; lia|].
  cbn [app] in *. set (fr := base.filter (fresh now) (sort_newest dumps)) in *.
  assert (Hfr : StronglySorted newer fr) by (apply StronglySorted_filter, sort_newest_sorted).
  assert (Hall : ship ++ drop ≡ₚ sort_newest dumps) by exact Hp.
  split; [by rewrite Hall, sort_newest_perm|].
  rewrite <- (take_drop MAX_DUMPS fr), <- Hs in Hfr.
  apply StronglySorted_app in Hfr as (Hcross & Hship & _).
  split; [done|]. split; [rewrite Hs, length_take; lia|]. split.
  - rewrite Hs. apply Forall_take, Forall_forall. intros d Hd. by apply list_elem_of_filter in Hd as [? _].
  - apply Forall_forall. intros d Hd. destruct (too_old now d) eqn:Ho; [by left|right].
    assert (Hin : d ∈ list.drop MAX_DUMPS fr).
    { assert (Hd' : drop ≡ₚ list.drop MAX_DUMPS fr ++ base.filter (fun d => ~ fresh now d) (sort_newest dumps)).
      { apply (Permutation_app_inv_l ship). rewrite Hall, (assoc_L (++)), Hs, take_drop. symmetry.
        apply filter_app_complement. }
      rewrite Hd' in Hd. apply elem_of_app in Hd as [?|Hd]; [done|].
      apply list_elem_of_filter in Hd as [Hd _]. by destruct Hd. }
    assert (MAX_DUMPS < length fr)%nat.
    { destruct (decide (MAX_DUMPS < length fr)%nat); [done|]. rewrite drop_ge in Hin by lia.
      by apply elem_of_nil in Hin. }
    split; [rewrite Hs, length_take; lia|]. apply Forall_forall. intros s Hsin. by apply Hcross.
Qed.
