(* ===== verification/ConfigSync.v ===== *)
(** The service's configuration cache (sentinel-service/src/config_sync.rs): the
    machine's configuration and the last policy, in memory and in two files of the
    data directory. serde_json is the interface [FileJson]; fetching a policy is the
    [PolicyFetch] interface; the installer's registry values are a parameter. *)

From S2P Require Import Prelude Text Utf8 Config Files.

#[export] Instance VadConfig_eq_dec : EqDecision VadConfig.
Proof. solve_decision. Defined.
#[export] Instance PinnedDevice_eq_dec : EqDecision PinnedDevice.
Proof. solve_decision. Defined.
#[export] Instance SoftphoneConfig_eq_dec : EqDecision SoftphoneConfig.
Proof. solve_decision. Defined.
#[export] Instance Retention_eq_dec : EqDecision Retention.
Proof. solve_decision. Defined.
#[export] Instance Policy_eq_dec : EqDecision Policy.
Proof. solve_decision. Defined.

(** [serde_json::to_vec_pretty] and [from_str] for one type. *)
Class FileJson (A : Type) := {
  to_vec_pretty : A -> result string string;
  file_from_str : string -> option A;
}.
(** What serde promises of the derived implementations: text is UTF-8 and reads
    back as the value it was written from. *)
Class FileJsonLaws (A : Type) `{!FileJson A} := {
  file_roundtrip a s : to_vec_pretty a = Ok s -> file_from_str s = Some a;
  file_utf8 (a : A) s : to_vec_pretty a = Ok s -> is_utf8 s = true;
}.

(** The error of an [anyhow::Result]. *)
Inductive SyncError :=
| SyncIo (e : IoError)
| SyncJson (m : string)
| SyncFetch (m : string).

(** [PolicyFetch::fetch] *)
Class PolicyFetch (F : Type) := fetch : F -> F * result Policy string.

Record ConfigStore := {
  cs_local : LocalConfig;
  cs_policy : option Policy;
}.
#[export] Instance ConfigStore_rebuild : Rebuild ConfigStore := fun r =>
  {| cs_local := cs_local r; cs_policy := cs_policy r |}.

Section store.
Context `{!FileJson LocalConfig} `{!FileJson Policy}.

(** [read_to_string(..).ok().and_then(from_str)] *)
Definition load_json {A} `{!FileJson A} (name : string) (d : Disk) : Disk * option A :=
  let '(d, r) := fs_read_to_string name d in (d, res_ok r ≫= file_from_str).

(** [installed_config] is what the installer left in the registry. *)
Definition ConfigStore_open (installed_config : option LocalConfig) (windows : bool)
    (programdata : option string) (d : Disk) : Disk * ConfigStore :=
  let '(d, l) := load_json "config.json" d in
  let local := default (LocalConfig_default windows programdata)
    (match l with Some l => Some l | None => installed_config end) in
  let '(d, p) := load_json "policy.json" d in
  (d, {| cs_local := local; cs_policy := p |}).

(** Encode, then write-then-rename in the data directory. *)
Definition save_json {A} `{!FileJson A} (name : string) (a : A) (d : Disk) : Disk * result unit SyncError :=
  let '(d, r) := fs_create_dir_all d in
  match r with
  | Err e => (d, Err (SyncIo e))
  | Ok _ =>
      match to_vec_pretty a with
      | Err m => (d, Err (SyncJson m))
      | Ok text => let '(d, r) := publish (name +:+ ".tmp") name text d in (d, map_err SyncIo r)
      end
  end.

Definition persist_local (s : ConfigStore) : Disk -> Disk * result unit SyncError :=
  save_json "config.json" (cs_local s).

Definition persist_policy (p : Policy) : Disk -> Disk * result unit SyncError :=
  save_json "policy.json" p.

(** [refresh]: the store and the disk are updated together, or neither. *)
Definition refresh {F} `{!PolicyFetch F} (f : F) (s : ConfigStore) (d : Disk)
    : F * ConfigStore * Disk * result bool SyncError :=
  let '(f, r) := fetch f in
  match r with
  | Err m => (f, s, d, Err (SyncFetch m))
  | Ok fresh =>
      if bool_decide (cs_policy s = Some fresh) then (f, s, d, Ok false)
      else
        let '(d, r) := persist_policy fresh d in
        match r with
        | Err e => (f, s, d, Err e)
        | Ok _ => (f, s <| cs_policy := Some fresh |>, d, Ok true)
        end
  end.

(** ** Properties *)

(** What a start would load as the policy if its reads succeed. *)
Definition policy_on_disk (d : Disk) : option Policy :=
  c ← files d !! "policy.json"; if is_utf8 c then file_from_str c else None.

(** Memory and disk agree on the policy. *)
Definition synced (s : ConfigStore) (d : Disk) : Prop := cs_policy s = policy_on_disk d.

Context `{!FileJsonLaws Policy}.

Lemma save_json_policy p d d' r :
  save_json "policy.json" p d = (d', r) ->
  policy_on_disk d' = if is_ok r then Some p else policy_on_disk d.
Proof.
  unfold save_json. pose proof (fs_touch_files d) as Ht.
  destruct (fs_touch d) as [d1 [[]|e]]; cbn [fst] in Ht.
  2: { intros [= <- <-]. unfold policy_on_disk. by rewrite Ht. }
  destruct (to_vec_pretty p) as [text|m] eqn:Hp.
  2: { intros [= <- <-]. unfold policy_on_disk. by rewrite Ht. }
  destruct (publish _ _ text d1) as [d2 r2] eqn:Hpub. intros [= <- <-].
  apply publish_atomic in Hpub as [_ Hname]; [|done].
  unfold policy_on_disk. rewrite Hname, Ht. destruct r2 as [[]|e]; cbn [is_ok map_err]; [|done].
  cbn [mbind option_bind]. by rewrite (file_utf8 p text), (file_roundtrip p text).
Qed.

(** A start whose reads succeed loads what is on disk. *)
Lemma open_synced installed win pd d d' s :
  faults d = [] -> ConfigStore_open installed win pd d = (d', s) -> synced s d' /\ files d' = files d.
Proof.
  intros Hf. unfold ConfigStore_open, load_json, fs_read_to_string, fs_read, next_fault. rewrite Hf.
  cbn -[is_utf8]. rewrite Hf. cbn -[is_utf8]. intros [= <- <-]. split; [|done]. unfold synced, policy_on_disk. cbn -[is_utf8].
  destruct (files d !! "policy.json") as [c|]; cbn -[is_utf8]; [|done]. by destruct (is_utf8 c).
Qed.

(** The policy in memory and the policy a restart would load stay the same one
    through every refresh, whatever the fetch answers and wherever writing the
    file fails; a failed refresh keeps the cached policy, and a successful one has
    exactly the policy fetched. *)
Theorem refresh_keeps_disk_in_sync {F} `{!PolicyFetch F} (f f' : F) s d s' d' r :
  synced s d -> refresh f s d = (f', s', d', r) ->
  synced s' d' /\
  match r with
  | Ok changed => exists p, (fetch f).2 = Ok p /\ cs_policy s' = Some p /\
                   (changed = true <-> cs_policy s <> Some p)
  | Err _ => cs_policy s' = cs_policy s
  end.
Proof.
  unfold synced, refresh. intros Hs. destruct (fetch f) as [f1 [p|m]] eqn:Hf.
  2: by intros [= <- <- <- <-].
  case_bool_decide as Hp.
  - intros [= <- <- <- <-]. split; [done|]. exists p. split; [done|]. split; [done|].
    split; [done|]. intros []. done.
  - unfold persist_policy. destruct (save_json _ p d) as [d1 r1] eqn:Hsave.
    apply save_json_policy in Hsave. destruct r1 as [[]|e]; intros [= <- <- <- <-]; cbn in *.
    + split; [done|]. exists p. done.
    + split; [by rewrite Hs|done].
Qed.
End store.

(** ** An example *)

#[export] Instance demo_policy_json : FileJson Policy := {|
  to_vec_pretty p := if bool_decide (p = Policy_default) then Ok "{}" else Err "unencodable";
  file_from_str s := if bool_decide (s = "{}") then Some Policy_default else None;
|}.
#[export] Instance demo_policy_json_laws : FileJsonLaws Policy.
Proof. split; cbn; intros p s; case_bool_decide; try done; intros [= <-]; by subst. Qed.
#[export] Instance demo_fetch : PolicyFetch bool := fun f =>
  (negb f, if f then Ok Policy_default else Err "offline").

Lemma refresh_witness :
  let s := {| cs_local := LocalConfig_default true None; cs_policy := None |} in
  let d := {| files := ∅; faults := [] |} in
  let '(f', s', d', r) := refresh true s d in
  synced s' d' /\
  match r with
  | Ok changed => exists p, (fetch true).2 = Ok p /\ cs_policy s' = Some p /\
                   (changed = true <-> cs_policy s <> Some p)
  | Err _ => cs_policy s' = cs_policy s
  end.
Proof.
  exact (refresh_keeps_disk_in_sync true _ {| cs_local := LocalConfig_default true None; cs_policy := None |}
    {| files := ∅; faults := [] |} _ _ _ eq_refl eq_refl).
Defined.
