(* ===== verification/SpoolKey.v ===== *)
(** The spool's encryption key (sentinel-service/src/spoolkey.rs): generated at
    enrollment, wrapped, stored beside the certificate, and read back by the agent.
    DPAPI is behind the [KeyWrapper] interface, the system's randomness is a
    parameter; the development wrapper is modelled in full. *)

From S2P Require Import Prelude Text Files Update.
From Stdlib.Strings Require Import Byte.

Definition SPOOL_KEY_FILE : string := "spool.key".
Definition KEY_BYTES : nat := 32.

Inductive SpoolKeyError :=
| SpoolKeyNotFound
| SpoolKeyIo (e : IoError)
| Unwrap (m : string)
| Wrap (m : string)
| SpoolKeyMalformed
| PlaintextNotPermitted.

(** A blob is what a file holds; key material is bytes. *)
Class KeyWrapper (W : Type) := {
  wrap : W -> list u8 -> result string SpoolKeyError;
  unwrap_blob : W -> string -> result (list u8) SpoolKeyError;
  binds_to_machine : W -> bool;
}.
(** What wrapping promises on one machine. *)
Class KeyWrapperLaws (W : Type) `{!KeyWrapper W} :=
  unwrap_wrap w m b : wrap w m = Ok b -> unwrap_blob w b = Ok m.

(** [rand::rngs::OsRng.fill_bytes] on a buffer of the given size. *)
Class OsRng (R : Type) := {
  fill_random : nat -> R -> R * list u8;
  fill_random_length n r : length (fill_random n r).2 = n;
}.

Definition to_hex (bytes : list u8) : string := hex_lower bytes.

Section spool_key.
Context {W R : Type} `{!KeyWrapper W} `{!OsRng R}.

Definition generate_and_store (w : W) (s : Disk * R) : (Disk * R) * result string SpoolKeyError :=
  let '(d, r) := s in
  let '(r, material) := fill_random KEY_BYTES r in
  match wrap w material with
  | Err e => ((d, r), Err e)
  | Ok blob =>
      let '(d, x) := fs_create_dir_all d in
      match x with
      | Err e => ((d, r), Err (SpoolKeyIo e))
      | Ok _ =>
          let '(d, x) := publish (SPOOL_KEY_FILE +:+ ".tmp") SPOOL_KEY_FILE blob d in
          ((d, r), let? _ := map_err SpoolKeyIo x in Ok (to_hex material))
      end
  end.

Definition resolve (w : W) (d : Disk) : Disk * result string SpoolKeyError :=
  let '(d, x) := fs_read SPOOL_KEY_FILE d in
  (d, match x with
      | Err IoNotFound => Err SpoolKeyNotFound
      | Err e => Err (SpoolKeyIo e)
      | Ok blob =>
          let? material := unwrap_blob w blob in
          if negb (length material =? KEY_BYTES)%nat then Err SpoolKeyMalformed
          else Ok (to_hex material)
      end).
End spool_key.

(** ** The development wrapper *)

Module dev.
Definition MAGIC : string := "SENTINEL-DEV-UNWRAPPED-SPOOL-KEY" +:+ str [chr 0].

Record PlaintextWrapper := { pw_debug_assertions : bool; pw_feature : bool }.

Definition permitted (w : PlaintextWrapper) : bool := pw_debug_assertions w || pw_feature w.
Definition deny_if_not_permitted (w : PlaintextWrapper) : result unit SpoolKeyError :=
  if permitted w then Ok tt else Err PlaintextNotPermitted.

#[export] Instance plaintext_wrapper : KeyWrapper PlaintextWrapper := {|
  wrap w plaintext :=
    let? _ := deny_if_not_permitted w in
    Ok (MAGIC +:+ String.string_of_list_byte plaintext);
  unwrap_blob w blob :=
    let? _ := deny_if_not_permitted w in
    let? body := ok_or (strip_prefix MAGIC blob) (Unwrap "not a development key blob") in
    Ok (String.list_byte_of_string body);
  binds_to_machine _ := false;
|}.

Lemma strip_prefix_app p s : strip_prefix p (p +:+ s) = Some s.
Proof.
  unfold strip_prefix.
  assert (String.prefix p (p +:+ s) = true) as ->.
  { induction p as [|a p IH]; [by destruct s|].
    change (String a p +:+ s) with (String a (p +:+ s)). cbn. by destruct (ascii_dec a a). }
  rewrite chars_app, drop_app_length. by rewrite str_chars.
Qed.

#[export] Instance plaintext_wrapper_laws : KeyWrapperLaws PlaintextWrapper.
Proof.
  intros w m b. cbn. unfold deny_if_not_permitted. destruct (permitted w); [|done]. cbn.
  intros [= <-]. rewrite strip_prefix_app. cbn. by rewrite String.list_byte_of_string_of_list_byte.
Qed.
End dev.
#[export] Existing Instances dev.plaintext_wrapper dev.plaintext_wrapper_laws.

(** ** Properties *)

Section spool_key_props.
Context {W R : Type} `{!KeyWrapper W} `{!KeyWrapperLaws W} `{!OsRng R}.

Lemma generate_and_store_spec (w : W) d r d' r' x :
  generate_and_store w (d, r) = ((d', r'), x) ->
  (forall n, n <> SPOOL_KEY_FILE -> n <> SPOOL_KEY_FILE +:+ ".tmp" -> files d' !! n = files d !! n) /\
  match x with
  | Ok k => k = to_hex (fill_random KEY_BYTES r).2 /\
      exists blob, wrap w (fill_random KEY_BYTES r).2 = Ok blob /\ files d' !! SPOOL_KEY_FILE = Some blob
  | Err _ => files d' !! SPOOL_KEY_FILE = files d !! SPOOL_KEY_FILE
  end.
Proof.
  unfold generate_and_store. destruct (fill_random KEY_BYTES r) as [r1 m]. cbn [snd].
  destruct (wrap w m) as [blob|e]; [|by intros [= <- <- <-]].
  pose proof (fs_touch_files d) as Ht. destruct (fs_touch d) as [d1 [[]|e]]; cbn [fst] in Ht.
  2: { intros [= <- <- <-]. by rewrite Ht. }
  destruct (publish _ _ blob d1) as [d2 y] eqn:Hp. intros [= <- <- <-].
  apply publish_atomic in Hp as [Ho Hn]; [|done]. rewrite Ht in Hn. split.
  - intros n H1 H2. rewrite Ho by done. by rewrite Ht.
  - destruct y as [[]|e]; cbn in *; [|done]. split; [done|]. by exists blob.
Qed.

Lemma resolve_stored (w : W) d m blob :
  faults d = [] -> files d !! SPOOL_KEY_FILE = Some blob -> wrap w m = Ok blob -> length m = KEY_BYTES ->
  (resolve w d).2 = Ok (to_hex m).
Proof.
  intros Hf Hb Hw Hm. unfold resolve, fs_read, next_fault. rewrite Hf, Hb. cbn.
  rewrite (unwrap_wrap w m blob Hw). cbn. by rewrite Hm.
Qed.

(** The key the service generates is the key the agent opens the spool with, and
    a generation that fails, wherever it fails, leaves the key that was there. *)
Theorem spool_key_roundtrip (w : W) d r d' r' x :
  generate_and_store w (d, r) = ((d', r'), x) ->
  match x with
  | Ok k => faults d' = [] -> (resolve w d').2 = Ok k
  | Err _ => files d' !! SPOOL_KEY_FILE = files d !! SPOOL_KEY_FILE
  end.
Proof.
  intros Hg. apply generate_and_store_spec in Hg as [_ Hx]. destruct x as [k|e]; [|done].
  destruct Hx as (-> & blob & Hw & Hb). intros Hf.
  eapply resolve_stored; [done|done|done|apply fill_random_length].
Qed.
End spool_key_props.

(** ** An example *)

#[export] Instance demo_rng : OsRng Z.
Proof. refine {| fill_random n r := (r + 1, replicate n (z2b r)) |}. intros. apply length_replicate. Defined.

Lemma spool_key_roundtrip_witness :
  let w := {| dev.pw_debug_assertions := true; dev.pw_feature := false |} in
  let '((d, r), x) := generate_and_store w ({| files := ∅; faults := [] |}, 9) in
  match x with
  | Ok k => faults d = [] -> (resolve w d).2 = Ok k
  | Err _ => files d !! SPOOL_KEY_FILE = None
  end.
Proof.
  exact (spool_key_roundtrip {| dev.pw_debug_assertions := true; dev.pw_feature := false |}
    {| files := ∅; faults := [] |} 9 _ _ _ eq_refl).
Defined.
