(* ===== verification/Enroll.v ===== *)
(** Device identity and enrollment (sentinel-service/src/device.rs, enroll.rs, the
    status mapping of http.rs and [ensure_device_credential] of main.rs): the
    renewal decision, the one exchange with the gateway, and the files it leaves.

    The gateway's answer comes through the [EnrollTransport] interface, the key
    through [DeviceKey], the wrapper through [KeyWrapper]; serde_json, SHA-256,
    base64, RFC 3339 parsing and the derived error texts are parameters. *)

From S2P Require Import Prelude Text Utf8 Files ConfigSync.
From S2P Require Import Der DeviceKey Csr Update SpoolKey.
From Stdlib.Strings Require Import Byte.

(** ** Device identity *)

Definition RENEW_WHEN_REMAINING_MS : Z := 30 * 24 * 3600 * 1000.

Record DeviceIdentity := {
  di_device_id : string;
  di_machine_guid : string;
  di_hw_fingerprint : string;
  di_not_after : string;
  di_cert_path : string;
  di_ca_chain_path : string;
}.

(** [replace([':', '-'], "")] *)
Definition strip_mac (s : string) : string :=
  str (base.filter (fun c => negb (bool_decide (c = ":"%char) || bool_decide (c = "-"%char))) (chars s)).

Definition hw_fingerprint (sha256 : string -> list u8) (machine_guid baseboard_serial primary_mac : string)
    : string :=
  hex_lower (sha256
    (to_ascii_lowercase (trim machine_guid) +:+ str [chr 0] +:+
     to_ascii_lowercase (trim baseboard_serial) +:+ str [chr 0] +:+
     strip_mac (to_ascii_lowercase (trim primary_mac)))).

(** Milliseconds since the epoch; both times are far inside 64 bits. *)
Definition needs_renewal (not_after_ms : option Z) (now_ms : Z) : bool :=
  match not_after_ms with
  | None => true
  | Some exp => exp - now_ms <=? RENEW_WHEN_REMAINING_MS
  end.

Definition IDENTITY_FILE : string := "identity.json".

Section identity.
Context `{!FileJson DeviceIdentity}.

Definition load_identity (d : Disk) : Disk * result (option DeviceIdentity) IoError :=
  let '(d, r) := fs_read_to_string IDENTITY_FILE d in
  (d, match r with
      | Ok s => Ok (file_from_str s)
      | Err IoNotFound => Ok None
      | Err e => Err e
      end).

Definition save_identity (id : DeviceIdentity) (d : Disk) : Disk * result unit IoError :=
  let '(d, r) := fs_create_dir_all d in
  match r with
  | Err e => (d, Err e)
  | Ok _ =>
      match to_vec_pretty id with
      | Err m => (d, Err (IoOther m))
      | Ok text => publish (IDENTITY_FILE +:+ ".tmp") IDENTITY_FILE text d
      end
  end.
End identity.

(** ** The exchange *)

Definition CERT_FILE : string := "device.crt".
Definition CHAIN_FILE : string := "ca-chain.crt".
Definition RENEWAL_TOKEN_FILE : string := "renewal-token".

Record EnrollRequest := {
  er_enrollment_token : string;
  er_csr_pem : string;
  er_machine_guid : string;
  er_hw_fingerprint : string;
  er_os_build : string;
  er_capture_tier : string;
  er_agent_version : string;
}.

Record EnrollResponse := {
  rs_device_id : string;
  rs_certificate_pem : string;
  rs_ca_chain_pem : string;
  rs_not_after : string;
}.

Inductive EnrollError :=
| NoToken
| EnrollUnsupportedTier (t : option string)
| Unreachable (why : string)
| TokenUnusable
| NoCertificateAuthority
| EnrollRejected (status : Z) (rcode : string)
| EnrollDecode (why : string)
| BadCertificate
| EnrollKey (e : DeviceKeyError)
| EnrollSpoolKey (e : SpoolKeyError)
| EnrollIo (e : IoError).

Class EnrollTransport (T : Type) :=
  enroll_post : T -> string -> EnrollRequest -> T * result EnrollResponse EnrollError.

Record Enrolled := {
  en_identity : DeviceIdentity;
  en_key_kind : KeyKind;
  en_spool_key : string;
}.

Record MachineFacts := {
  mf_machine_guid : string;
  mf_hw_fingerprint : string;
  mf_os_build : string;
  mf_capture_tier : option string;
  mf_agent_version : string;
}.

Inductive RenewalDecision := NotEnrolled | Current | RenewNow | RenewBlockedNoToken.

Definition renewal_decision (identity : option DeviceIdentity) (not_after_ms : option Z) (now_ms : Z)
    (renewal_token_present : bool) : RenewalDecision :=
  match identity with
  | None => NotEnrolled
  | Some _ =>
      if negb (needs_renewal not_after_ms now_ms) then Current
      else if renewal_token_present then RenewNow else RenewBlockedNoToken
  end.

Definition read_renewal_token (d : Disk) : Disk * option string :=
  let '(d, r) := fs_read_to_string RENEWAL_TOKEN_FILE d in
  (d, token ← res_ok r; let token := trim token in
      if str_is_empty token then None else Some token).

Definition clear_renewal_token (d : Disk) : Disk * result unit IoError :=
  let '(d, r) := fs_remove_file RENEWAL_TOKEN_FILE d in
  (d, match r with Err IoNotFound => Ok tt | r => r end).

(** [write_atomic]: the temporary name replaces the extension. *)
Definition write_atomic (path content : string) : Disk -> Disk * result unit IoError :=
  publish (with_extension "tmp" path) path content.

(** [str::contains] *)
Fixpoint contains_l (p l : list ascii) : bool :=
  bool_decide (take (length p) l = p) ||
  match l with [] => false | _ :: l' => contains_l p l' end.
Definition contains (p s : string) : bool := contains_l (chars p) (chars s).

Definition looks_like_certificate_pem (pem : string) : bool :=
  contains "-----BEGIN CERTIFICATE-----" pem && contains "-----END CERTIFICATE-----" pem.

Inductive EnsureOutcome :=
| AlreadyEnrolled (device_id not_after : string)
| EnrolledNow (device_id not_after : string) (renewed : bool) (key_kind : KeyKind)
| NotEnrolledNoToken
| RenewalBlockedNoToken (not_after : string)
| EnrollFailed (why : string).

(** What the exchange acts on: the credential directory, the random source, the
    device key and the connection to the gateway. *)
Record Env (K T R : Type) := {
  e_disk : Disk;
  e_rng : R;
  e_key : K;
  e_transport : T;
}.
Arguments e_disk {K T R}.
Arguments e_rng {K T R}.
Arguments e_key {K T R}.
Arguments e_transport {K T R}.
Arguments Build_Env {K T R}.
#[export] Instance Env_rebuild {K T R} : Rebuild (Env K T R) := fun r =>
  {| e_disk := e_disk r; e_rng := e_rng r; e_key := e_key r; e_transport := e_transport r |}.

Section enroll.
Context {K T R W : Type}.
Context `{!DeviceKey K} `{!EnrollTransport T} `{!OsRng R} `{!KeyWrapper W} `{!FileJson DeviceIdentity}.
(** base64, RFC 3339 to milliseconds, and [Display] of [EnrollError]. *)
Context (b64 : list u8 -> string) (rfc3339_ms : string -> option Z) (display : EnrollError -> string).

Abbreviation Env := (Env K T R).

Definition not_after_ms (not_after : string) : option Z := rfc3339_ms (trim not_after).

(** A disk operation as a step of the exchange. *)
Definition io {A} (m : Disk -> Disk * result A IoError) (e : Env) : Env * result A EnrollError :=
  let '(d, r) := m (e_disk e) in (e <| e_disk := d |>, map_err EnrollIo r).

Definition persist (facts : MachineFacts) (response : EnrollResponse)
    : Env -> Env * result DeviceIdentity EnrollError :=
  if negb (looks_like_certificate_pem (rs_certificate_pem response)) then
    fun e => (e, Err BadCertificate)
  else
    let! _ := io fs_create_dir_all in
    let! _ := io (write_atomic CERT_FILE (rs_certificate_pem response)) in
    let! _ := io (write_atomic CHAIN_FILE (rs_ca_chain_pem response)) in
    let identity := {|
      di_device_id := rs_device_id response;
      di_machine_guid := mf_machine_guid facts;
      di_hw_fingerprint := mf_hw_fingerprint facts;
      di_not_after := rs_not_after response;
      di_cert_path := CERT_FILE;
      di_ca_chain_path := CHAIN_FILE |} in
    let! _ := io (save_identity identity) in
    ret identity.

Definition do_post (url : string) (req : EnrollRequest) (e : Env) : Env * result EnrollResponse EnrollError :=
  let '(t, r) := enroll_post (e_transport e) url req in (e <| e_transport := t |>, r).

Definition do_spool_key (w : W) (e : Env) : Env * result string EnrollError :=
  let '((d, r), x) := generate_and_store w (e_disk e, e_rng e) in
  (e <| e_disk := d |> <| e_rng := r |>, map_err EnrollSpoolKey x).

Definition enroll_url (api_base : string) : string :=
  trim_end_matches "/"%char api_base +:+ "/v1/devices/enroll".

(** What follows the CSR. *)
Definition exchange (api_base : string) (facts : MachineFacts) (w : W) (request : EnrollRequest)
    : Env -> Env * result Enrolled EnrollError :=
  let! response := do_post (enroll_url api_base) request in
  let! identity := persist facts response in
  let! spool_key := do_spool_key w in
  fun e => (e, Ok {| en_identity := identity; en_key_kind := kind (e_key e); en_spool_key := spool_key |}).

(** [facts.capture_tier.clone().filter(|t| t == "A" || t == "B")] *)
Definition enrollable_tier (facts : MachineFacts) : option string :=
  t ← mf_capture_tier facts; if bool_decide (t = "A") || bool_decide (t = "B") then Some t else None.

Definition enroll_request (token csr_pem tier : string) (facts : MachineFacts) : EnrollRequest := {|
  er_enrollment_token := trim token;
  er_csr_pem := csr_pem;
  er_machine_guid := mf_machine_guid facts;
  er_hw_fingerprint := mf_hw_fingerprint facts;
  er_os_build := mf_os_build facts;
  er_capture_tier := tier;
  er_agent_version := mf_agent_version facts |}.

(** [None] is a panic while the CSR is encoded. *)
Definition enroll (api_base token : string) (facts : MachineFacts) (w : W) (e : Env)
    : Env * option (result Enrolled EnrollError) :=
  if str_is_empty (trim token) then (e, Some (Err NoToken))
  else match enrollable_tier facts with
  | None => (e, Some (Err (EnrollUnsupportedTier (mf_capture_tier facts))))
  | Some tier =>
      let '(k, r) := build_csr_pem b64 (e_key e) (mf_machine_guid facts) in
      let e := e <| e_key := k |> in
      match r with
      | None => (e, None)
      | Some (Err x) => (e, Some (Err (EnrollKey x)))
      | Some (Ok csr_pem) =>
          let '(e, r) := exchange api_base facts w (enroll_request token csr_pem tier facts) e in
          (e, Some r)
      end
  end.

(** The two [expect]s are [None] branches. *)
Definition ensure_enrolled (api_base : string) (facts : MachineFacts) (now_ms : Z)
    (token : option string) (w : W) (e : Env) : Env * option EnsureOutcome :=
  let '(d, r) := load_identity (e_disk e) in
  let e := e <| e_disk := d |> in
  let identity := default None (res_ok r) in
  let expiry := identity ≫= fun i => not_after_ms (di_not_after i) in
  let token := t ← token; let t := trim t in if str_is_empty t then None else Some t in
  let go (renewing : bool) :=
    match token with
    | None => (e, None)
    | Some token =>
        let '(e, r) := enroll api_base token facts w e in
        (e, r ← r; Some match r with
            | Ok out => EnrolledNow (di_device_id (en_identity out)) (di_not_after (en_identity out))
                          renewing (en_key_kind out)
            | Err x => EnrollFailed (display x)
            end)
    end in
  match renewal_decision identity expiry now_ms (bool_decide (is_Some token)) with
  | Current => (e, id ← identity; Some (AlreadyEnrolled (di_device_id id) (di_not_after id)))
  | NotEnrolled => if bool_decide (token = None) then (e, Some NotEnrolledNoToken) else go false
  | RenewBlockedNoToken => (e, id ← identity; Some (RenewalBlockedNoToken (di_not_after id)))
  | RenewNow => go true
  end.
End enroll.
