(* ===== verification/EnrollProps.v ===== *)
(** Properties of enrollment: the record that says a machine is enrolled is backed by
    its certificate at every point where the process can be cut off, the gateway is
    asked at most once and only with a reason, and a completed exchange is what the
    next start finds. *)

From S2P Require Import Prelude Text Utf8 Files ConfigSync.
From S2P Require Import Der DeviceKey Csr Update SpoolKey Enroll.

(** Files outside [ns] are as they were. *)
Definition only (ns : list string) (d d' : Disk) : Prop :=
  forall n, n ∉ ns -> files d' !! n = files d !! n.

Lemma only_refl ns d d' : files d' = files d -> only ns d d'.
Proof. by intros H n _; rewrite H. Qed.
Lemma only_trans ns d1 d2 d3 : only ns d1 d2 -> only ns d2 d3 -> only ns d1 d3.
Proof. intros H1 H2 n Hn. by rewrite H2, H1. Qed.

(** The files the exchange may touch before the spool key. *)
Definition persist_files : list string :=
  [CERT_FILE; CHAIN_FILE; IDENTITY_FILE; with_extension "tmp" CERT_FILE;
   with_extension "tmp" CHAIN_FILE; IDENTITY_FILE +:+ ".tmp"].
Definition spool_files : list string := [SPOOL_KEY_FILE; SPOOL_KEY_FILE +:+ ".tmp"].

(** The certificate file holds something that looks like a certificate. *)
Definition cert_ok (d : Disk) : Prop :=
  exists c, files d !! CERT_FILE = Some c /\ looks_like_certificate_pem c = true.

(** The record is backed by a certificate and a chain. *)
Definition backed (d : Disk) : Prop :=
  is_Some (files d !! IDENTITY_FILE) -> cert_ok d /\ is_Some (files d !! CHAIN_FILE).

(** Facts about concrete file names, by computation. *)
Ltac names := by (vm_compute; intros; congruence).
Ltac not_in := apply (bool_decide_unpack _); vm_compute; exact I.

Lemma only_mono ns ns' d d' :
  forallb (fun n => bool_decide (n ∈ ns')) ns = true -> only ns d d' -> only ns' d d'.
Proof.
  intros Hs Ho n Hn. apply Ho. intros Hin. apply Hn. rewrite forallb_forall in Hs.
  apply list_elem_of_In in Hin. specialize (Hs n Hin). by bool_hyps.
Qed.

(** Opens conjunctions and existentials. *)
Ltac open_hyps :=
  repeat match goal with
  | H : _ /\ _ |- _ => destruct H
  | H : exists _, _ |- _ => destruct H
  end.

Section props.
Context {K T R W : Type}.
Context `{!DeviceKey K} `{!EnrollTransport T} `{!OsRng R} `{!KeyWrapper W} `{!FileJson DeviceIdentity}.
Context (b64 : list u8 -> string) (rfc3339_ms : string -> option Z) (display : EnrollError -> string).
Abbreviation Env := (Env K T R).

(** Everything but the disk is as it was. *)
Definition same_rest (e e' : Env) : Prop :=
  e_rng e' = e_rng e /\ e_key e' = e_key e /\ e_transport e' = e_transport e.

(** Where an aborted run of [persist] leaves the three files: the record as it was,
    the other two as they were or replaced by the new ones. *)
Definition persist_partial (resp : EnrollResponse) (d d' : Disk) : Prop :=
  files d' !! IDENTITY_FILE = files d !! IDENTITY_FILE /\
  (files d' !! CERT_FILE = files d !! CERT_FILE \/ files d' !! CERT_FILE = Some (rs_certificate_pem resp)) /\
  (files d' !! CHAIN_FILE = files d !! CHAIN_FILE \/ files d' !! CHAIN_FILE = Some (rs_ca_chain_pem resp)).

Lemma io_inv {A} (m : Disk -> Disk * result A IoError) (e e' : Env) r :
  io m e = (e', r) -> exists d r0, m (e_disk e) = (d, r0) /\ e' = e <| e_disk := d |> /\ r = map_err EnrollIo r0.
Proof. unfold io. destruct (m (e_disk e)) as [d r0]. intros [= <- <-]. by exists d, r0. Qed.

Lemma bindM_inv {S E A B} (m : S -> S * result A E) (k : A -> S -> S * result B E) s s' r :
  bindM m k s = (s', r) ->
  (exists e, m s = (s', Err e) /\ r = Err e) \/ (exists a s1, m s = (s1, Ok a) /\ k a s1 = (s', r)).
Proof.
  unfold bindM. destruct (m s) as [s1 [a|e]]; [by right; exists a, s1|].
  intros [= <- <-]. left. by exists e.
Qed.

Lemma save_identity_spec id d d' r :
  save_identity id d = (d', r) ->
  only [IDENTITY_FILE; IDENTITY_FILE +:+ ".tmp"] d d' /\
  match r with
  | Ok _ => exists text, to_vec_pretty id = Ok text /\ files d' !! IDENTITY_FILE = Some text
  | Err _ => files d' !! IDENTITY_FILE = files d !! IDENTITY_FILE
  end.
Proof.
  unfold save_identity. pose proof (fs_touch_files d) as Ht.
  destruct (fs_touch d) as [d1 [[]|x]]; cbn [fst] in Ht.
  2: { intros [= <- <-]. split; [by apply only_refl|by rewrite Ht]. }
  destruct (to_vec_pretty id) as [text|m].
  2: { intros [= <- <-]. split; [by apply only_refl|by rewrite Ht]. }
  intros Hp. apply publish_atomic in Hp as [Ho Hn]; [|done]. rewrite Ht in Hn. split.
  - intros n Hn'. rewrite <- Ht. apply Ho; set_solver.
  - destruct r as [[]|x]; cbn in Hn; [by exists text|done].
Qed.

(** Replacing one of the PEM files. *)
Lemma write_atomic_spec path content d d' r :
  with_extension "tmp" path <> path -> write_atomic path content d = (d', r) ->
  only [path; with_extension "tmp" path] d d' /\
  files d' !! path = if is_ok r then Some content else files d !! path.
Proof.
  intros Hne Hw. apply publish_atomic in Hw as [Ho Hn]; [|done]. split; [|done].
  intros n Hn'. apply Ho; set_solver.
Qed.

(** One fallible disk step of the exchange: it ends it with an error, or succeeds
    and the rest runs. *)
Lemma io_step {A B} (m : Disk -> Disk * result A IoError) (k : A -> Env -> Env * result B EnrollError)
    (e e' : Env) r :
  bindM (io m) k e = (e', r) ->
  exists d r0, m (e_disk e) = (d, r0) /\
    match r0 with
    | Err x => e' = e <| e_disk := d |> /\ r = Err (EnrollIo x)
    | Ok a => k a (e <| e_disk := d |>) = (e', r)
    end.
Proof.
  intros H. apply bindM_inv in H as [(x & H & ->)|(a & e1 & H & Hk)];
    apply io_inv in H as (d & r0 & Hm & -> & Hr); exists d, r0; (split; [done|]);
    destruct r0; cbn in Hr; simplify_eq; done.
Qed.

Lemma persist_spec facts resp (e e' : Env) r :
  persist facts resp e = (e', r) ->
  same_rest e e' /\ only persist_files (e_disk e) (e_disk e') /\
  match r with
  | Ok id => looks_like_certificate_pem (rs_certificate_pem resp) = true /\
      files (e_disk e') !! CERT_FILE = Some (rs_certificate_pem resp) /\
      files (e_disk e') !! CHAIN_FILE = Some (rs_ca_chain_pem resp) /\
      di_device_id id = rs_device_id resp /\ di_not_after id = rs_not_after resp /\
      (di_cert_path id = CERT_FILE /\ di_ca_chain_path id = CHAIN_FILE) /\
      exists text, to_vec_pretty id = Ok text /\ files (e_disk e') !! IDENTITY_FILE = Some text
  | Err _ => persist_partial resp (e_disk e) (e_disk e') /\
      (looks_like_certificate_pem (rs_certificate_pem resp) = false -> files (e_disk e') = files (e_disk e))
  end.
Proof.
  unfold persist, persist_partial. destruct (looks_like_certificate_pem _) eqn:Hl; cbn [negb].
  2: { intros [= <- <-]. split; [done|]. split; [by apply only_refl|]. auto 6. }
  intros H. apply io_step in H as (d1 & r1 & H1 & H).
  pose proof (fs_touch_files (e_disk e)) as Ht. rewrite H1 in Ht. cbn [fst] in Ht.
  destruct r1 as [[]|x].
  2: { destruct H as [-> ->]. cbn. split; [done|]. split; [by apply only_refl|]. rewrite Ht. auto 6. }
  apply io_step in H as (d2 & r2 & H2 & H). cbn [e_disk] in H2.
  apply write_atomic_spec in H2 as [O2 N2]; [|names]. cbn in O2, N2.
  assert (M2 : only persist_files (e_disk e) d2).
  { eapply only_trans; [by apply only_refl|]. by eapply only_mono, O2. }
  pose proof (O2 CHAIN_FILE ltac:(not_in)) as C2. pose proof (O2 IDENTITY_FILE ltac:(not_in)) as I2.
  rewrite Ht in N2, C2, I2. destruct r2 as [[]|x]; cbn [is_ok] in N2.
  2: { destruct H as [-> ->]. cbn. split; [done|]. split; [done|]. rewrite N2, C2, I2. split; [auto 6|done]. }
  apply io_step in H as (d3 & r3 & H3 & H). cbn in H3.
  apply write_atomic_spec in H3 as [O3 N3]; [|names].
  assert (M3 : only persist_files (e_disk e) d3).
  { eapply only_trans; [exact M2|]. by eapply only_mono, O3. }
  pose proof (O3 CERT_FILE ltac:(not_in)) as P3. pose proof (O3 IDENTITY_FILE ltac:(not_in)) as I3.
  rewrite N2 in P3. rewrite I2 in I3. rewrite C2 in N3. destruct r3 as [[]|x]; cbn [is_ok] in N3.
  2: { destruct H as [-> ->]. cbn. split; [done|]. split; [done|]. rewrite N3, P3, I3. split; [auto 6|done]. }
  apply io_step in H as (d4 & r4 & H4 & H). cbn in H4.
  apply save_identity_spec in H4 as [O4 N4].
  assert (M4 : only persist_files (e_disk e) d4).
  { eapply only_trans; [exact M3|]. by eapply only_mono, O4. }
  pose proof (O4 CERT_FILE ltac:(not_in)) as P4. pose proof (O4 CHAIN_FILE ltac:(not_in)) as C4.
  rewrite P3 in P4. rewrite N3 in C4. destruct r4 as [[]|x].
  - injection H as <- <-. cbn. split; [done|]. split; [done|]. by split_and!.
  - destruct H as [-> ->]. cbn. split; [done|]. split; [done|]. rewrite N4, P4, C4, I3. split; [auto 6|done].
Qed.

Lemma backed_files d d' : files d' = files d -> backed d -> backed d'.
Proof. unfold backed, cert_ok. by intros ->. Qed.

(** The spool key's files are not part of it. *)
Lemma backed_spool d d' : only spool_files d d' -> backed d -> backed d'.
Proof.
  intros Ho. unfold backed, cert_ok.
  rewrite (Ho IDENTITY_FILE), (Ho CERT_FILE), (Ho CHAIN_FILE) by not_in. done.
Qed.

Lemma persist_backed facts resp (e e' : Env) r :
  backed (e_disk e) -> persist facts resp e = (e', r) -> backed (e_disk e').
Proof.
  intros Hb Hp. apply persist_spec in Hp as (_ & _ & H). destruct r as [id|x].
  - destruct H as (Hl & Hc & Hch & _). intros _. split; [by eexists|by eexists].
  - destruct H as [(Hi & Hc & Hch) Hbad].
    destruct (looks_like_certificate_pem _) eqn:Hl; [|by eapply backed_files, Hb; apply Hbad].
    intros Hid. rewrite Hi in Hid. destruct (Hb Hid) as [[c [Hcf Hlc]] Hchf]. split.
    + destruct Hc as [Hc|Hc]; [exists c; by rewrite Hc|by eexists].
    + destruct Hch as [Hch|Hch]; rewrite Hch; [done|by eexists].
Qed.

Lemma do_spool_key_spec (w : W) (e e' : Env) r :
  do_spool_key w e = (e', r) ->
  e_key e' = e_key e /\ e_transport e' = e_transport e /\ only spool_files (e_disk e) (e_disk e') /\
  match r with
  | Ok k => k = to_hex (fill_random KEY_BYTES (e_rng e)).2 /\
      exists blob, wrap w (fill_random KEY_BYTES (e_rng e)).2 = Ok blob /\
                   files (e_disk e') !! SPOOL_KEY_FILE = Some blob
  | Err _ => files (e_disk e') !! SPOOL_KEY_FILE = files (e_disk e) !! SPOOL_KEY_FILE
  end.
Proof.
  unfold do_spool_key. destruct (generate_and_store w (e_disk e, e_rng e)) as [[d r1] x] eqn:Hg.
  intros [= <- <-]. cbn. apply generate_and_store_spec in Hg as [Ho Hx].
  split; [done|]. split; [done|]. split.
  - intros n Hn. apply Ho; intros ->; apply Hn; set_solver.
  - destruct x; done.
Qed.

(** The exchange asks the gateway once, first; only an answer it likes is followed by
    writes. *)
Lemma exchange_spec api facts (w : W) req (e e' : Env) r :
  exchange api facts w req e = (e', r) ->
  let post := enroll_post (e_transport e) (enroll_url api) req in
  e_transport e' = post.1 /\ e_key e' = e_key e /\
  match post.2 with
  | Err x => r = Err x /\ e_disk e' = e_disk e /\ e_rng e' = e_rng e
  | Ok resp =>
      exists ep rp, persist facts resp (e <| e_transport := post.1 |>) = (ep, rp) /\
      match rp with
      | Err x => e' = ep /\ r = Err x
      | Ok id =>
          only spool_files (e_disk ep) (e_disk e') /\
          match r with
          | Ok out => en_identity out = id /\ en_key_kind out = kind (e_key e) /\
              en_spool_key out = to_hex (fill_random KEY_BYTES (e_rng e)).2 /\
              exists blob, wrap w (fill_random KEY_BYTES (e_rng e)).2 = Ok blob /\
                           files (e_disk e') !! SPOOL_KEY_FILE = Some blob
          | Err x => exists y, x = EnrollSpoolKey y /\
              files (e_disk e') !! SPOOL_KEY_FILE = files (e_disk ep) !! SPOOL_KEY_FILE
          end
      end
  end.
Proof.
  unfold exchange. intros H. apply bindM_inv in H as [(x & H & ->)|(resp & e1 & H & Hk)];
    unfold do_post in H; destruct (enroll_post _ _ req) as [t a]; injection H as <- ->; cbn [fst snd].
  { by repeat split. }
  apply bindM_inv in Hk as [(x & H & ->)|(id & e2 & H & Hk)].
  { pose proof H as Hp. apply persist_spec in H as ((_ & Hkey & Htr) & _ & _). cbn in *.
    repeat split; try done. by exists e', (Err x). }
  pose proof H as Hp. apply persist_spec in H as ((Hrng & Hkey & Htr) & _ & _). cbn in Hrng, Hkey, Htr.
  apply bindM_inv in Hk as [(x & H & ->)|(sk & e3 & H & Hk)]; pose proof H as Hsk;
    apply do_spool_key_spec in H as (K3 & T3 & O3 & X3); rewrite ?Hrng in X3.
  - rewrite T3, K3. repeat split; try done. exists e2, (Ok id). split; [done|]. split; [done|].
    revert Hsk. unfold do_spool_key. destruct (generate_and_store _ _) as [[? ?] [?|y]]; [done|].
    intros [= _ <-]. by exists y.
  - injection Hk as <- <-. rewrite T3, K3. repeat split; try done. exists e2, (Ok id).
    split; [done|]. split; [done|]. cbn. rewrite Hkey. destruct X3 as [-> X3]. by split_and!.
Qed.

Lemma exchange_backed api facts (w : W) req (e e' : Env) r :
  backed (e_disk e) -> exchange api facts w req e = (e', r) -> backed (e_disk e').
Proof.
  intros Hb H. apply exchange_spec in H as (_ & _ & H).
  destruct (enroll_post _ _ _).2 as [resp|x]; [|by destruct H as (_ & -> & _)].
  destruct H as (ep & rp & Hp & H). apply persist_backed in Hp; [|done].
  destruct rp as [id|x]; [|by destruct H as [-> _]]. destruct H as [Ho _]. by eapply backed_spool.
Qed.

Abbreviation ensure := (ensure_enrolled b64 rfc3339_ms display).
Abbreviation enroll := (Enroll.enroll b64).

(** What [enroll] does: nothing but asking the key, or one exchange. *)
Lemma enroll_inv api token facts (w : W) (e e' : Env) r :
  enroll api token facts w e = (e', r) ->
  (e_disk e' = e_disk e /\ e_rng e' = e_rng e /\ e_transport e' = e_transport e /\
   forall out, r <> Some (Ok out)) \/
  exists tier k csr r0, trim token <> "" /\ enrollable_tier facts = Some tier /\
    build_csr_pem b64 (e_key e) (mf_machine_guid facts) = (k, Some (Ok csr)) /\
    exchange api facts w (enroll_request token csr tier facts) (e <| e_key := k |>) = (e', r0) /\
    r = Some r0.
Proof.
  unfold Enroll.enroll. destruct (str_is_empty (trim token)) eqn:Ht; [by intros [= <- <-]; left|].
  destruct (enrollable_tier facts) as [tier|]; [|by intros [= <- <-]; left].
  destruct (build_csr_pem _ _ _) as [k [[csr|x]|]]; [|by intros [= <- <-]; left..].
  destruct (exchange _ _ _ _ _) as [e1 r0] eqn:Hx. intros [= <- <-]. right.
  exists tier, k, csr, r0. repeat split; try done. by intros Hs; rewrite Hs in Ht.
Qed.

(** The record that counts, as a start reads it. *)
Definition loaded (d : Disk) : option DeviceIdentity := default None (res_ok (load_identity d).2).
Definition the_token (token : option string) : option string :=
  t ← token; let t := trim t in if str_is_empty t then None else Some t.
Definition decision (d : Disk) (now : Z) (token : option string) : RenewalDecision :=
  renewal_decision (loaded d) (loaded d ≫= fun i => not_after_ms rfc3339_ms (di_not_after i)) now
    (bool_decide (is_Some (the_token token))).

Lemma load_identity_files d : files (load_identity d).1 = files d.
Proof.
  unfold load_identity. pose proof (fs_read_to_string_files IDENTITY_FILE d) as H.
  by destruct (fs_read_to_string IDENTITY_FILE d).
Qed.

(** The decision table: what runs is the outcome the table names, or one enrollment
    with a token at hand. *)
Lemma ensure_inv api facts now token (w : W) (e e' : Env) o :
  ensure api facts now token w e = (e', o) ->
  let d1 := (load_identity (e_disk e)).1 in
  match decision (e_disk e) now token with
  | Current => e' = e <| e_disk := d1 |> /\ exists id, loaded (e_disk e) = Some id /\
      o = Some (AlreadyEnrolled (di_device_id id) (di_not_after id))
  | RenewBlockedNoToken => e' = e <| e_disk := d1 |> /\ the_token token = None /\
      exists id, loaded (e_disk e) = Some id /\ o = Some (RenewalBlockedNoToken (di_not_after id))
  | dec => match the_token token with
      | None => dec = NotEnrolled /\ e' = e <| e_disk := d1 |> /\ o = Some NotEnrolledNoToken
      | Some t => exists r, enroll api t facts w (e <| e_disk := d1 |>) = (e', r) /\
          o = (r ← r; Some match r with
                | Ok out => EnrolledNow (di_device_id (en_identity out)) (di_not_after (en_identity out))
                              (if dec is RenewNow then true else false) (en_key_kind out)
                | Err x => EnrollFailed (display x)
                end)
      end
  end.
Proof.
  unfold ensure_enrolled, decision, loaded. destruct (load_identity (e_disk e)) as [d1 r1]. cbn [fst snd].
  fold (the_token token). set (id := default None (res_ok r1)).
  unfold renewal_decision. destruct id as [id|]; cbn [mbind option_bind].
  - destruct (needs_renewal _ _); cbn [negb]; [|by intros [= <- <-]; eauto].
    destruct (the_token token) as [t|] eqn:Ht; cbn; [|by intros [= <- <-]; eauto].
    destruct (Enroll.enroll _ _ _ _ _ _) as [e1 r]. intros [= <- <-]. by exists r.
  - destruct (the_token token) as [t|] eqn:Ht; cbn; [|by intros [= <- <-]; eauto].
    destruct (Enroll.enroll _ _ _ _ _ _) as [e1 r]. intros [= <- <-]. by exists r.
Qed.

(** C11: A machine that claims to be enrolled has a certificate to present: the
    identity record is backed by a certificate and a chain after every check of
    the credential, whichever disk operation fails and whatever the gateway
    answers, because the record is written last and each file is replaced whole. *)
Theorem identity_always_backed api facts now token (w : W) (e : Env) :
  backed (e_disk e) -> backed (e_disk (ensure api facts now token w e).1).
Proof.
  intros Hb. destruct (ensure api facts now token w e) as [e' o] eqn:H.
  apply ensure_inv in H. cbn [fst].
  pose proof (backed_files _ _ (load_identity_files (e_disk e)) Hb) as Hb1.
  assert (Hgo : forall t r, enroll api t facts w (e <| e_disk := (load_identity (e_disk e)).1 |>) = (e', r) ->
    backed (e_disk e')).
  { intros t r He. apply enroll_inv in He as [(-> & _)|(tier & k & csr & r0 & _ & _ & _ & Hx & _)]; [done|].
    by eapply exchange_backed, Hx. }
  destruct (decision _ _ _), (the_token token); naive_solver.
Qed.

(** Whether the table asks for an enrollment. *)
Definition wants_enrollment (d : RenewalDecision) : Prop := d = NotEnrolled \/ d = RenewNow.

Lemma ensure_enrolls api facts now token (w : W) (e e' : Env) o :
  ensure api facts now token w e = (e', o) ->
  (e_disk e' = (load_identity (e_disk e)).1 /\ e_rng e' = e_rng e /\ e_transport e' = e_transport e /\
   forall i n r k, o <> Some (EnrolledNow i n r k)) \/
  exists t tier k csr r0, the_token token = Some t /\ wants_enrollment (decision (e_disk e) now token) /\
    enrollable_tier facts = Some tier /\
    build_csr_pem b64 (e_key e) (mf_machine_guid facts) = (k, Some (Ok csr)) /\
    exchange api facts w (enroll_request t csr tier facts)
      (e <| e_disk := (load_identity (e_disk e)).1 |> <| e_key := k |>) = (e', r0) /\
    o = Some match r0 with
        | Ok out => EnrolledNow (di_device_id (en_identity out)) (di_not_after (en_identity out))
              (if decision (e_disk e) now token is RenewNow then true else false) (en_key_kind out)
        | Err x => EnrollFailed (display x)
        end.
Proof.
  intros H. apply ensure_inv in H. cbv zeta in H. unfold wants_enrollment.
  destruct (decision (e_disk e) now token) eqn:Hd; destruct (the_token token) as [t|] eqn:Ht;
    lazymatch type of H with
    | exists r, Enroll.enroll _ _ _ _ _ _ = _ /\ _ => destruct H as (r & He & ->)
    | _ => left; open_hyps; subst; done
    end.
  all: apply enroll_inv in He as [(-> & -> & -> & Hr)|(tier & k & csr & r0 & _ & Htier & Hcsr & Hx & ->)];
    [left; repeat split; try done; intros; destruct r as [[out|x]|]; [by destruct (Hr out)|done|done]
    |right; exists t, tier, k, csr, r0; cbn; by auto 8].
Qed.

(** The single-use token is spent only with a reason, and once: either the
    gateway is not contacted and no file changes, or exactly one request goes out,
    with the trimmed token, a tier that can be enrolled and a request the key has
    signed, on a machine that is unenrolled or inside its renewal window; and when
    the gateway refuses it or cannot be reached, no file has changed and the reason
    is reported. *)
Theorem gateway_asked_only_with_a_reason api facts now token (w : W) (e e' : Env) o :
  ensure api facts now token w e = (e', o) ->
  (e_transport e' = e_transport e /\ files (e_disk e') = files (e_disk e) /\ e_rng e' = e_rng e) \/
  exists t tier csr, the_token token = Some t /\ wants_enrollment (decision (e_disk e) now token) /\
    (tier = "A" \/ tier = "B") /\ mf_capture_tier facts = Some tier /\
    (build_csr_pem b64 (e_key e) (mf_machine_guid facts)).2 = Some (Ok csr) /\
    let post := enroll_post (e_transport e) (enroll_url api) (enroll_request t csr tier facts) in
    e_transport e' = post.1 /\
    forall x, post.2 = Err x ->
      files (e_disk e') = files (e_disk e) /\ o = Some (EnrollFailed (display x)).
Proof.
  intros H. apply ensure_enrolls in H as [(Hd & Hr & Ht & _)|(t & tier & k & csr & r0 & Ht & Hw & Htier & Hcsr & Hx & ->)].
  - left. rewrite Hd. by rewrite load_identity_files.
  - right. exists t, tier, csr. apply exchange_spec in Hx as (Htr & _ & Hpost). cbn in Htr, Hpost.
    unfold enrollable_tier in Htier. destruct (mf_capture_tier facts) as [t0|]; [|done]. cbn in Htier.
    destruct (_ || _) eqn:Hab; [|done]. injection Htier as ->.
    apply orb_true_iff in Hab as [Hab|Hab]; bool_hyps;
      (repeat split; try done; [by auto|by rewrite Hcsr| |];
       destruct (enroll_post _ _ _) as [t1 [resp|y]]; cbn in *; try done;
       destruct Hpost as (Hr & Hd & _); [rewrite Hd; apply load_identity_files|by subst r0; congruence]).
Qed.

(** A check touches no file but its own. *)
Lemma ensure_only api facts now token (w : W) (e e' : Env) o :
  ensure api facts now token w e = (e', o) -> only (persist_files ++ spool_files) (e_disk e) (e_disk e').
Proof.
  intros H. apply ensure_enrolls in H as [(-> & _)|(t & tier & k & csr & r0 & _ & _ & _ & _ & Hx & _)].
  { apply only_refl, load_identity_files. }
  apply exchange_spec in Hx as (_ & _ & Hx). cbn in Hx.
  apply (only_trans _ _ (load_identity (e_disk e)).1); [apply only_refl, load_identity_files|].
  destruct (enroll_post _ _ _).2 as [resp|x]; [|destruct Hx as (_ & -> & _); by apply only_refl].
  destruct Hx as (ep & rp & Hp & Hx). apply persist_spec in Hp as (_ & Ho & _). cbn in Ho.
  apply (only_trans _ _ (e_disk ep)); [by eapply only_mono, Ho|].
  destruct rp as [id|x]; [|destruct Hx as [-> _]; by apply only_refl]. destruct Hx as [Hs _]. by eapply only_mono, Hs.
Qed.

Context `{!FileJsonLaws DeviceIdentity} `{!KeyWrapperLaws W}.

(** The record a disk without faults holds is the one that is loaded. *)
Lemma load_identity_stored d idn :
  (exists text, to_vec_pretty idn = Ok text /\ files d !! IDENTITY_FILE = Some text) -> faults d = [] ->
  load_identity d = (d, Ok (Some idn)).
Proof.
  intros (text & Ht & Hi) Hf. unfold load_identity, fs_read_to_string, fs_read, next_fault. rewrite Hf, Hi.
  cbn -[is_utf8]. rewrite (file_utf8 _ _ Ht). cbn. by rewrite (file_roundtrip _ _ Ht).
Qed.

(** What a completed exchange has asked the gateway, and left of its answer on the disk. *)
Lemma enrolled_now_disk api facts now token (w : W) (e e' : Env) id na renewed kk :
  ensure api facts now token w e = (e', Some (EnrolledNow id na renewed kk)) ->
  exists resp idn blob,
    (exists t tier k csr, build_csr_pem b64 (e_key e) (mf_machine_guid facts) = (k, Some (Ok csr)) /\
       enroll_post (e_transport e) (enroll_url api) (enroll_request t csr tier facts) = (e_transport e', Ok resp)) /\
    (di_device_id idn = rs_device_id resp /\ di_not_after idn = rs_not_after resp) /\
    looks_like_certificate_pem (rs_certificate_pem resp) = true /\
    files (e_disk e') !! CERT_FILE = Some (rs_certificate_pem resp) /\
    files (e_disk e') !! CHAIN_FILE = Some (rs_ca_chain_pem resp) /\
    id = di_device_id idn /\ na = di_not_after idn /\
    (di_cert_path idn = CERT_FILE /\ di_ca_chain_path idn = CHAIN_FILE) /\
    wrap w (fill_random KEY_BYTES (e_rng e)).2 = Ok blob /\
    files (e_disk e') !! SPOOL_KEY_FILE = Some blob /\
    exists text, to_vec_pretty idn = Ok text /\ files (e_disk e') !! IDENTITY_FILE = Some text.
Proof.
  intros H.
  apply ensure_enrolls in H as [(_ & _ & _ & H)|(t & tier & k & csr & r0 & _ & _ & _ & Hcsr & Hx & Ho)];
    [by destruct (H id na renewed kk)|].
  destruct r0 as [out|x]; [|done]. injection Ho as -> -> -> ->.
  apply exchange_spec in Hx as (Htr & _ & Hx). cbn in Htr, Hx.
  destruct (enroll_post _ _ _) as [tr [resp|x]] eqn:Ep; cbn [fst snd] in Htr, Hx; [|by destruct Hx].
  destruct Hx as (ep & rp & Hp & Hx). destruct rp as [idn|x]; [|by destruct Hx].
  destruct Hx as (Ho & Hout & Hk & _ & blob & Hw & Hb). rewrite Hout in *.
  apply persist_spec in Hp as (_ & _ & Hl & Hc & Hch & Hid & Hna & Hpath & Hi).
  rewrite <- (Ho CERT_FILE) in Hc by not_in. rewrite <- (Ho IDENTITY_FILE) in Hi by not_in.
  rewrite <- (Ho CHAIN_FILE) in Hch by not_in.
  exists resp, idn, blob. destruct Hpath. split_and!; try done. exists t, tier, k, csr. by rewrite Htr.
Qed.

(** A completed exchange is what the next start finds: the record it loads is the
    one the gateway issued, the certificate file looks like a certificate, the spool
    key the agent resolves is the one just drawn (on a renewal too, in place of the
    one before), and until the renewal window the next check contacts nobody. *)
Theorem completed_exchange_is_found api facts now token (w : W) (e e' : Env) id na renewed kk now' :
  ensure api facts now token w e = (e', Some (EnrolledNow id na renewed kk)) ->
  faults (e_disk e') = [] ->
  needs_renewal (not_after_ms rfc3339_ms na) now' = false ->
  cert_ok (e_disk e') /\
  (resolve w (e_disk e')).2 = Ok (to_hex (fill_random KEY_BYTES (e_rng e)).2) /\
  ensure api facts now' token w e' = (e', Some (AlreadyEnrolled id na)).
Proof.
  intros H Hf Hn. apply enrolled_now_disk in H as (resp & idn & blob & _ & _ & Hl & Hc & _ & -> & -> & _ & Hw & Hb & Hi).
  apply load_identity_stored in Hi as Hload; [|done].
  split; [by eexists|]. split; [eapply resolve_stored; [done|done|done|apply fill_random_length]|].
  unfold ensure_enrolled. rewrite Hload. cbn [res_ok default from_option id mbind option_bind].
  unfold renewal_decision. rewrite Hn. cbn. destruct e'; done.
Qed.

Context `{!DeviceKeyLaws K}.

(** C40: Checking the credential always ends in one of the five outcomes: no assertion
    of the encoders and no [expect] of the decision table can fire, whatever the
    disk, the key and the gateway do. *)
Theorem ensure_never_panics api facts now token (w : W) (e : Env) :
  str_bytes (mf_machine_guid facts) < 2 ^ 60 ->
  is_Some (ensure api facts now token w e).2.
Proof.
  intros Hg. destruct (ensure api facts now token w e) as [e' o] eqn:H. cbn [snd].
  apply ensure_inv in H. cbv zeta in H.
  assert (Hcsr : forall k, is_Some (build_csr_pem b64 k (mf_machine_guid facts)).2).
  { intros k. unfold build_csr_pem, build_csr_der. destruct (public_point k) as [k1 [p|x]] eqn:Hp; [|by eexists].
    destruct (read_info_info p _ (public_point_65 _ _ _ Hp) Hg) as (spki & info & -> & Hinfo & _).
    cbn [mbind option_bind]. rewrite Hinfo. destruct (sign k1 _) as [k2 [sg|x]]; [|by eexists].
    destruct (known_oid ECDSA_WITH_SHA256 ltac:(oid_lit) ltac:(simpl; lia)) as (o1 & -> & _). by eexists. }
  assert (He : forall t (e e' : Env) r, enroll api t facts w e = (e', r) -> is_Some r).
  { intros t e0 e0' r. unfold Enroll.enroll. destruct (str_is_empty _); [by intros [= _ <-]|].
    destruct (enrollable_tier facts); [|by intros [= _ <-]]. specialize (Hcsr (e_key e0)).
    destruct (build_csr_pem _ _ _) as [k [[c|x]|]]; [|by intros [= _ <-]|by destruct Hcsr].
    destruct (exchange _ _ _ _ _). by intros [= _ <-]. }
  destruct (decision _ _ _), (the_token token); open_hyps; subst; try by eexists.
  all: match goal with H : Enroll.enroll _ _ _ _ _ _ = _ |- _ => apply He in H as [r ->] end; by eexists.
Qed.
End props.

(** ** A machine for the examples *)

Module demo.
Definition join6 (i : DeviceIdentity) : string :=
  let nl := str [chr 10] in
  di_device_id i +:+ nl +:+ di_machine_guid i +:+ nl +:+ di_hw_fingerprint i +:+ nl +:+
  di_not_after i +:+ nl +:+ di_cert_path i +:+ nl +:+ di_ca_chain_path i.
Definition split6 (s : string) : option DeviceIdentity :=
  match split (chr 10) s with
  | [a; b; c; d; f; g] => Some {| di_device_id := a; di_machine_guid := b; di_hw_fingerprint := c;
      di_not_after := d; di_cert_path := f; di_ca_chain_path := g |}
  | _ => None
  end.

#[export] Instance DeviceIdentity_eq_dec : EqDecision DeviceIdentity.
Proof. solve_decision. Defined.

(** Lines of text; what would not read back is refused. *)
#[export] Instance identity_json : FileJson DeviceIdentity := {|
  to_vec_pretty i :=
    let s := join6 i in if bool_decide (split6 s = Some i) && is_utf8 s then Ok s else Err "unencodable";
  file_from_str := split6;
|}.
#[export] Instance identity_json_laws : FileJsonLaws DeviceIdentity.
Proof.
  split; cbn; intros i s; destruct (_ && _) eqn:H; try done; intros [= <-];
    apply andb_true_iff in H as [H1 H2]; bool_hyps; done.
Qed.

(** A gateway that issues a certificate to every request and keeps them. *)
#[export] Instance gateway : EnrollTransport (list EnrollRequest) := fun log _ req =>
  (log ++ [req], Ok {| rs_device_id := "device-1";
    rs_certificate_pem := "-----BEGIN CERTIFICATE-----QUJD-----END CERTIFICATE-----";
    rs_ca_chain_pem := "chain"; rs_not_after := "later" |}).

Definition facts : MachineFacts := {|
  mf_machine_guid := "{4c4c4544}"; mf_hw_fingerprint := "ff"; mf_os_build := "10.0.22631";
  mf_capture_tier := Some "A"; mf_agent_version := "0.1.0" |}.
Definition b64 (_ : list u8) : string := "QUJD".
Definition parse_time (s : string) : option Z := if bool_decide (s = "later") then Some 100000000000 else None.
Definition display (_ : EnrollError) : string := "failed".
Definition wrapper : dev.PlaintextWrapper := {| dev.pw_debug_assertions := true; dev.pw_feature := false |}.

Definition start (fs : list (option Fault)) : Env unit (list EnrollRequest) Z :=
  {| e_disk := {| files := ∅; faults := fs |}; e_rng := 7; e_key := tt; e_transport := [] |}.
Definition check (e : Env unit (list EnrollRequest) Z) :=
  ensure_enrolled b64 parse_time display "https://gw" facts 0 (Some " token ") wrapper e.
End demo.
Export (hints) demo.

Lemma identity_always_backed_witness :
  backed (e_disk (demo.check (demo.start [])).1).
Proof.
  apply (identity_always_backed demo.b64 demo.parse_time demo.display "https://gw" demo.facts 0
    (Some " token ") demo.wrapper (demo.start [])).
  intros [? H]. done.
Defined.

Lemma gateway_asked_witness :
  e_transport (demo.check (demo.start [])).1 <> [] /\
  exists e' o, demo.check (demo.start []) = (e', o) /\
  ((e_transport e' = [] /\ files (e_disk e') = ∅ /\ e_rng e' = 7) \/
   exists t tier csr, the_token (Some " token ") = Some t /\
    wants_enrollment (decision demo.parse_time (e_disk (demo.start [])) 0 (Some " token ")) /\
    (tier = "A" \/ tier = "B") /\ mf_capture_tier demo.facts = Some tier /\
    (build_csr_pem demo.b64 tt (mf_machine_guid demo.facts)).2 = Some (Ok csr) /\
    let post := enroll_post (T:=list EnrollRequest) [] (enroll_url "https://gw") (enroll_request t csr tier demo.facts) in
    e_transport e' = post.1 /\
    forall x, post.2 = Err x -> files (e_disk e') = ∅ /\ o = Some (EnrollFailed (demo.display x))).
Proof.
  split; [vm_compute; discriminate|].
  exists (demo.check (demo.start [])).1, (demo.check (demo.start [])).2.
  split; [apply surjective_pairing|].
  apply (gateway_asked_only_with_a_reason demo.b64 demo.parse_time demo.display "https://gw" demo.facts 0
    (Some " token ") demo.wrapper (demo.start [])).
  apply surjective_pairing.
Defined.

Lemma completed_exchange_witness :
  exists e', demo.check (demo.start []) = (e', Some (EnrolledNow "device-1" "later" false Cng)) /\
  cert_ok (e_disk e') /\
  (resolve demo.wrapper (e_disk e')).2 = Ok (to_hex (fill_random KEY_BYTES 7).2) /\
  ensure_enrolled demo.b64 demo.parse_time demo.display "https://gw" demo.facts 1000 (Some " token ")
    demo.wrapper e' = (e', Some (AlreadyEnrolled "device-1" "later")).
Proof.
  exists (demo.check (demo.start [])).1.
  assert (H : demo.check (demo.start []) =
    ((demo.check (demo.start [])).1, Some (EnrolledNow "device-1" "later" false Cng)))
    by (vm_compute; reflexivity).
  split; [exact H|].
  apply (completed_exchange_is_found demo.b64 demo.parse_time demo.display "https://gw" demo.facts 0
    (Some " token ") demo.wrapper (demo.start []) _ "device-1" "later" false Cng 1000);
    [exact H|vm_compute; reflexivity|vm_compute; reflexivity].
Defined.

Lemma ensure_never_panics_witness :
  is_Some (demo.check (demo.start [None; None; Some {| fault_msg := "disk full"; fault_kept := Some 3%nat |}])).2.
Proof.
  apply (ensure_never_panics demo.b64 demo.parse_time demo.display "https://gw" demo.facts 0
    (Some " token ") demo.wrapper). vm_compute. reflexivity.
Defined.

(** An enrollment cut off between the record and the spool key reports a failure,
    leaves a machine that counts as enrolled without a spool key, and no later check
    generates one. *)
Theorem enrolled_without_spool_key :
  let '(e1, o1) := demo.check (demo.start (replicate 9 None ++
      [Some {| fault_msg := "disk full"; fault_kept := None |}])) in
  let '(e2, o2) := demo.check e1 in
  o1 = Some (EnrollFailed "failed") /\ o2 = Some (AlreadyEnrolled "device-1" "later") /\
  (resolve demo.wrapper (e_disk e2)).2 = Err SpoolKeyNotFound.
Proof. vm_compute. done. Qed.
