(* ===== verification/Service.v ===== *)
(** The SYSTEM service around the supervisor and the pipe (sentinel-service/src/main.rs,
    windows/machine.rs, windows/scm.rs and the enrollment transport of http.rs): the
    facts it reads from the registry, the credential check, and one pass of its loop.

    Windows itself enters as values: registry strings, which processes have exited,
    whether a launch succeeds, the clock's readings, and the event received. *)

From S2P Require Import Prelude Text Config Backoff Supervisor Files.
From S2P Require Import DeviceKey Update SpoolKey ConfigSync Enroll Ipc.

(** ** machine.rs *)

(** [read_string] on a value as the registry holds it. *)
Definition read_string (raw : option string) : option string :=
  s ← raw; let s := trim s in if str_is_empty s then None else Some s.

Definition is_oem_placeholder (s : string) : bool :=
  bool_decide (to_ascii_lowercase s ∈
    ["default string"; "to be filled by o.e.m."; "to be filled by oem"; "none"; "not applicable";
     "system serial number"; "0"]).

(** Registry values by name. *)
Definition Registry : Type := string -> option string.

Definition machine_guid (reg : Registry) : option string := read_string (reg "MachineGuid").
Definition baseboard_serial (reg : Registry) : option string :=
  s ← read_string (reg "BaseBoardSerialNumber"); if is_oem_placeholder s then None else Some s.
Definition primary_mac : string := "".

Definition machine_facts (sha256 : string -> list u8) (version : string) (reg : Registry)
    (capture_tier : option string) (os_build : string) : MachineFacts :=
  let guid := default "" (machine_guid reg) in
  let serial := default "" (baseboard_serial reg) in
  {| mf_machine_guid := guid;
     mf_hw_fingerprint := hw_fingerprint sha256 guid serial primary_mac;
     mf_os_build := os_build; mf_capture_tier := capture_tier; mf_agent_version := version |}.

Definition enrollment_token (reg : Registry) : option string := read_string (reg "Token").

Definition local_config_from_registry (windows : bool) (programdata : option string) (reg : Registry)
    : option LocalConfig :=
  api ← read_string (reg "ApiBaseUrl");
  let c := LocalConfig_default windows programdata in
  Some (c <| api_base_url := api |>
          <| tenant_hint := read_string (reg "TenantHint") |>
          <| oidc := {|
               authorize_endpoint := default "" (read_string (reg "OidcAuthorizeEndpoint"));
               oidc_token_endpoint := read_string (reg "OidcTokenEndpoint");
               client_id := default "" (read_string (reg "OidcClientId"));
               identity_platform_tenant := read_string (reg "OidcTenant");
               scopes := scopes (oidc c) |} |>
          <| telemetry := {|
               telemetry_enabled := bool_decide
                 (to_ascii_lowercase (default "" (read_string (reg "TelemetryEnabled")))
                    ∈ ["1"; "true"; "yes"]);
               otlp_endpoint := read_string (reg "TelemetryEndpoint") |} |>).

(** ** http.rs: the enrollment transport *)

(** What the HTTP client answers: a body that may not decode, a status, or a failure
    of its own. *)
Inductive UreqAnswer :=
| UreqBody (json : result EnrollResponse string)
| UreqStatus (status : Z)
| UreqFailed (why : string).

Definition post_result (a : UreqAnswer) : result EnrollResponse EnrollError :=
  match a with
  | UreqBody json => map_err EnrollDecode json
  | UreqStatus 401 => Err TokenUnusable
  | UreqStatus 503 => Err NoCertificateAuthority
  | UreqStatus status => Err (EnrollRejected status "")
  | UreqFailed why => Err (Unreachable why)
  end.

(** ** The credential check *)

Definition CREDENTIAL_CHECK_INTERVAL_MS : Z := 6 * 3600 * 1000.

Section credential.
Context {K T R W : Type}.
Context `{!DeviceKey K} `{!EnrollTransport T} `{!OsRng R} `{!KeyWrapper W} `{!FileJson DeviceIdentity}.
Context (b64 : list u8 -> string) (rfc3339_ms : string -> option Z) (display : EnrollError -> string).
(** [devicekey::open_or_create] on the credential directory. *)
Context (open_key : Disk * R -> (Disk * R) * result K DeviceKeyError).

(** The credential directory, the random source, the gateway, and the installer's
    token in the registry. *)
Record Machine := {
  ma_disk : Disk;
  ma_rng : R;
  ma_transport : T;
  ma_reg_token : option string;
}.

(** [ensure_device_credential]; the outcome is [None] when there is no key. The
    registry value counts as [machine::enrollment_token] reads it. *)
Definition ensure_device_credential (facts : MachineFacts) (api_base : string) (now_ms : Z) (w : W)
    (m : Machine) : Machine * option EnsureOutcome :=
  let '((d, r), k) := open_key (ma_disk m, ma_rng m) in
  match k with
  | Err _ => ({| ma_disk := d; ma_rng := r; ma_transport := ma_transport m;
                 ma_reg_token := ma_reg_token m |}, None)
  | Ok key =>
      let '(d, renewal) := read_renewal_token d in
      let token := match renewal with Some t => Some t | None => read_string (ma_reg_token m) end in
      let '(e, outcome) := ensure_enrolled b64 rfc3339_ms display api_base facts now_ms token w
        {| e_disk := d; e_rng := r; e_key := key; e_transport := ma_transport m |} in
      let '(d, reg) :=
        match outcome with
        | Some (EnrolledNow _ _ _ _) =>
            match renewal with
            | Some _ => ((clear_renewal_token (e_disk e)).1, ma_reg_token m)
            | None => (e_disk e, None)
            end
        | _ => (e_disk e, ma_reg_token m)
        end in
      ({| ma_disk := d; ma_rng := e_rng e; ma_transport := e_transport e; ma_reg_token := reg |}, outcome)
  end.
End credential.
Arguments Machine : clear implicits.

(** ** The loop *)

Inductive ServiceEvent :=
| SessionLogon (s : Z)
| SessionLogoff (s : Z)
| EvStop.

(** What [recv_timeout] returns. *)
Inductive Received :=
| Got (e : ServiceEvent)
| TimedOut
| Disconnected.

Definition agent_in_call (s : ServiceState) : bool := bool_decide (ss_agent_state s = "IN_CALL").

Definition take_update_request (s : ServiceState) : ServiceState * bool :=
  (s <| ss_update_requested := false |>, ss_update_requested s).

(** The outside world during one pass. [in_now i] is the clock's [i]-th reading;
    [in_requests] are the pipe's requests handled since the last pass. *)
Record PassInput := {
  in_requests : list Request;
  in_now : nat -> Z;
  in_exited : Z -> bool;       (** [has_exited] of the process with this pid *)
  in_launch : Z -> result Z string;
  in_draw : Z -> Z;
  in_recv : Received;
  in_stopping : bool;
}.

Record Service (C : Type) := {
  sv_state : ServiceState;
  sv_cred : C;
  sv_last_check : Z;
  sv_sup : Supervisor;
  sv_procs : gmap Z Z;          (** session to pid *)
}.
Arguments sv_state {C}.
Arguments sv_cred {C}.
Arguments sv_last_check {C}.
Arguments sv_sup {C}.
Arguments sv_procs {C}.
#[export] Instance Service_rebuild {C} : Rebuild (Service C) := fun r =>
  {| sv_state := sv_state r; sv_cred := sv_cred r; sv_last_check := sv_last_check r;
     sv_sup := sv_sup r; sv_procs := sv_procs r |}.

(** What a pass did that the rest of the machine can see. *)
Inductive Effect :=
| Launched (session pid : Z)
| LaunchFailed (session : Z)
| UpdateDecision (d : ApplyDecision)
| CredentialChecked.

Section pass.
Context {C : Type} (cred_check : ServiceState -> C -> C) (version : string).

(** The stop flag is still clear inside the loop. *)
Definition reap (i : PassInput) (s : Service C) (session : Z) : Service C :=
  let sup := on_exited (in_draw i) (sv_sup s) session (in_now i 0) false in
  s <| sv_procs := delete session (sv_procs s) |>
    <| sv_sup := sup |>
    <| sv_state := (sv_state s) <| ss_restarts := restarts sup |> |>.

(** Sessions whose process has exited, in the listing order of the map. *)
Definition dead (i : PassInput) (s : Service C) : list Z :=
  (base.filter (fun sp => in_exited i sp.2 = true) (map_to_list (sv_procs s))).*1.

Definition update_step (s : Service C) : Service C * list Effect :=
  let '(st, asked) := take_update_request (sv_state s) in
  let s := s <| sv_state := st |> in
  (s, if asked then [UpdateDecision (decide_update version (ss_staged_version st) (agent_in_call st) false)]
      else []).

Definition credential_step (i : PassInput) (s : Service C) : Service C * list Effect :=
  if CREDENTIAL_CHECK_INTERVAL_MS <=? in_now i 1 - sv_last_check s then
    (s <| sv_last_check := in_now i 1 |> <| sv_cred := cred_check (sv_state s) (sv_cred s) |>,
     [CredentialChecked])
  else (s, []).

(** Milliseconds to wait for the next event, and the launch if one is due. *)
Definition launch_step (i : PassInput) (s : Service C) : Service C * Z * list Effect :=
  let '(sup, act) := poll (sv_sup s) (in_now i 2) in
  let s := s <| sv_sup := sup |> in
  match act with
  | Launch sid =>
      match in_launch i sid with
      | Ok pid =>
          (s <| sv_procs := <[sid := pid]> (sv_procs s) |>
             <| sv_sup := on_launched sup sid (in_now i 3) |>, 200, [Launched sid pid])
      | Err _ =>
          (s <| sv_sup := on_exited (in_draw i) (on_launched sup sid (in_now i 3)) sid (in_now i 4) false |>,
           200, [LaunchFailed sid])
      end
  | ActIdle next =>
      (s, Z.min 2000 (match next with Some d => sat_sub d (in_now i 3) | None => 2000 end), [])
  end.

(** The event received; [true] ends the loop. *)
Definition event_step (i : PassInput) (s : Service C) : Service C * bool :=
  let '(s, stop) :=
    match in_recv i with
    | Got (SessionLogon sid) => (s <| sv_sup := on_logon (sv_sup s) sid (in_now i 5) |>, false)
    | Got (SessionLogoff sid) =>
        (s <| sv_sup := on_logoff (sv_sup s) sid |> <| sv_procs := delete sid (sv_procs s) |>, false)
    | Got EvStop => (s, true)
    | TimedOut => (s, false)
    | Disconnected => (s, true)
    end in
  (s, stop || in_stopping i).

(** One iteration of the loop of [service_body]. *)
Definition pass (i : PassInput) (s : Service C) : Service C * list Effect * bool :=
  let s := s <| sv_state := fold_left (fun st r => (handle version st r).1) (in_requests i) (sv_state s) |> in
  let s := fold_left (reap i) (dead i s) s in
  let '(s, e1) := update_step s in
  let '(s, e2) := credential_step i s in
  let '(s, _, e3) := launch_step i s in
  let '(s, stop) := event_step i s in
  (s, e1 ++ e2 ++ e3, stop).

(** [service_body]: the check before the watchdog, then passes until one says stop;
    [false] when the inputs ran out first. *)
Fixpoint service_loop (ins : list PassInput) (s : Service C) : Service C * list Effect * bool :=
  match ins with
  | [] => (s, [], false)
  | i :: ins' =>
      let '(s, es, stop) := pass i s in
      if stop then (s, es, true)
      else let '(s, es', b) := service_loop ins' s in (s, es ++ es', b)
  end.

Definition service_body (st : ServiceState) (c : C) (now0 : Z) (ins : list PassInput)
    : Service C * list Effect * bool :=
  service_loop ins
    {| sv_state := st; sv_cred := cred_check st c; sv_last_check := now0;
       sv_sup := Supervisor_new now0; sv_procs := ∅ |}.
End pass.
