(* ===== verification/ServiceProps.v ===== *)
(** Properties of the service's loop and of its credential check. *)

From S2P Require Import Prelude Text Config Backoff Supervisor Files.
From S2P Require Import DeviceKey Csr Update SpoolKey ConfigSync.
From S2P Require Import Enroll EnrollProps Ipc Service.

(** ** The loop *)

Section props.
Context {C : Type} (cred_check : ServiceState -> C -> C) (version : string).
Implicit Types (s : Service C) (i : PassInput).

(** The process table and the watchdog agree on which sessions have an agent. *)
Definition procs_match (s : Service C) : Prop :=
  forall sid, is_Some (sv_procs s !! sid) <-> is_running (sv_sup s) sid = true.

Lemma is_running_sessions sup sid : is_running sup sid = true -> is_Some (sessions sup !! sid).
Proof. unfold is_running. by destruct (sessions sup !! sid). Qed.

Lemma is_running_launched sup sid now sid' : is_Some (sessions sup !! sid) ->
  is_running (on_launched sup sid now) sid' = if decide (sid' = sid) then true else is_running sup sid'.
Proof.
  intros [sl Hsl]. unfold is_running, on_launched. cbn. destruct (decide (sid' = sid)) as [->|].
  - by rewrite lookup_alter_eq, Hsl.
  - by rewrite lookup_alter_ne.
Qed.

Lemma is_running_exited draw sup sid now x sid' :
  is_running (on_exited draw sup sid now x) sid' = if decide (sid' = sid) then false else is_running sup sid'.
Proof.
  unfold is_running, on_exited. destruct (sessions sup !! sid) as [sl|] eqn:Hsl.
  2: { destruct (decide (sid' = sid)) as [->|]; [by rewrite Hsl|done]. }
  destruct x; [|destruct (next_delay _ _) as [b d]]; cbn; destruct (decide (sid' = sid)) as [->|];
    rewrite ?lookup_insert_eq, ?lookup_insert_ne by done; done.
Qed.

Lemma is_running_logon sup sid now sid' : is_running (on_logon sup sid now) sid' = is_running sup sid'.
Proof.
  unfold is_running, on_logon. destruct (sessions sup !! sid) eqn:Hsl; [done|]. cbn.
  destruct (decide (sid' = sid)) as [->|]; [by rewrite lookup_insert_eq, Hsl|by rewrite lookup_insert_ne].
Qed.

Lemma is_running_logoff sup sid sid' :
  is_running (on_logoff sup sid) sid' = if decide (sid' = sid) then false else is_running sup sid'.
Proof.
  unfold is_running, on_logoff. cbn. destruct (decide (sid' = sid)) as [->|];
    [by rewrite lookup_delete_eq|by rewrite lookup_delete_ne].
Qed.

Lemma poll_sessions sup now : sessions (poll sup now).1 = sessions sup.
Proof. unfold poll. by destruct (_ <=? _). Qed.

Lemma poll_launch sup now sid : (poll sup now).2 = Launch sid ->
  is_Some (sessions sup !! sid) /\ is_running sup sid = false.
Proof.
  assert (Hp : (poll sup now).2 = poll_loop now None (in_order (sessions sup)))
    by (unfold poll; by destruct (_ <=? _)). rewrite Hp.
  pose proof (poll_loop_spec now None (in_order (sessions sup))) as H. intros Hl. rewrite Hl in H.
  destruct H as (sl & l1 & l2 & Hin & Hdue & _).
  assert (Hs : sessions sup !! sid = Some sl).
  { apply elem_of_in_order. rewrite Hin. set_solver. }
  split; [by rewrite Hs|]. unfold is_running. rewrite Hs. unfold due in Hdue. by bool_hyps.
Qed.

(** Splits on whether a lookup hits the changed session. *)
Ltac by_session sid' sid :=
  destruct (decide (sid' = sid)) as [->|];
  rewrite ?lookup_insert_eq, ?lookup_delete_eq, ?lookup_insert_ne, ?lookup_delete_ne by done;
  [by split; [intros []|]; eauto|done].

Lemma reap_match i s sid : procs_match s -> procs_match (reap i s sid).
Proof.
  intros H sid'. unfold reap. cbn. rewrite is_running_exited. specialize (H sid').
  by_session sid' sid.
Qed.

Lemma reap_all_match i l s : procs_match s -> procs_match (fold_left (reap i) l s).
Proof. revert s. induction l as [|x l IH]; intros s H; [done|]. cbn. apply IH. by apply reap_match. Qed.

Lemma launch_step_match i s s' w es :
  procs_match s -> launch_step i s = (s', w, es) ->
  procs_match s' /\ forall sid pid, Launched sid pid ∈ es -> sv_procs s !! sid = None.
Proof.
  intros H. unfold launch_step. pose proof (poll_sessions (sv_sup s) (in_now i 2)) as Hs.
  pose proof (poll_launch (sv_sup s) (in_now i 2)) as Hl.
  destruct (poll (sv_sup s) (in_now i 2)) as [sup act]. cbn [fst snd] in *.
  assert (Hrun : forall x, is_running sup x = is_running (sv_sup s) x)
    by (intros x; unfold is_running; by rewrite Hs).
  destruct act as [sid|next]; [|intros [= <- _ <-]; split; [intros x; cbn; by rewrite Hrun|set_solver]].
  destruct (Hl sid eq_refl) as [Hsome Hnot]. rewrite <- Hs in Hsome.
  assert (Hnone : sv_procs s !! sid = None).
  { destruct (sv_procs s !! sid) eqn:E; [|done].
    assert (is_running (sv_sup s) sid = true) by (apply H; by rewrite E). congruence. }
  destruct (in_launch i sid) as [pid|m]; intros [= <- _ <-]; (split; [|set_solver]); intros x; cbn.
  - rewrite is_running_launched by done. specialize (H x). rewrite Hrun. by_session x sid.
  - rewrite is_running_exited, is_running_launched by done. specialize (H x). rewrite Hrun.
    destruct (decide (x = sid)) as [->|]; [|done]. rewrite Hnone. split; [by intros []|done].
Qed.

Lemma event_step_match i s : procs_match s -> procs_match (event_step i s).1.
Proof.
  intros H. unfold event_step. destruct (in_recv i) as [[sid|sid|]| |]; try done; intros x; cbn; specialize (H x).
  - by rewrite is_running_logon.
  - rewrite is_running_logoff. by_session x sid.
Qed.

Lemma reap_procs i l s : sv_procs (fold_left (reap i) l s) = fold_left (fun m x => delete x m) l (sv_procs s).
Proof. revert s. induction l as [|x l IH]; intros s; [done|]. cbn. by rewrite IH. Qed.

Lemma deleted_all (m : gmap Z Z) l sid : sid ∉ l -> fold_left (fun m x => delete x m) l m !! sid = m !! sid.
Proof.
  revert m. induction l as [|x l IH]; intros m Hn; [done|]. cbn.
  rewrite IH by set_solver. apply lookup_delete_ne. set_solver.
Qed.

(** A process that is gone after reaping had exited. *)
Lemma reaped_exited i s sid pid :
  sv_procs s !! sid = Some pid -> sv_procs (fold_left (reap i) (dead i s) s) !! sid = None ->
  in_exited i pid = true.
Proof.
  intros Hs Hn. rewrite reap_procs in Hn. destruct (decide (sid ∈ dead i s)) as [Hd|Hd].
  - unfold dead in Hd. apply list_elem_of_fmap in Hd as ([a b] & -> & Hin).
    apply list_elem_of_filter in Hin as [Hx Hin]. apply elem_of_map_to_list in Hin. cbn in *. congruence.
  - rewrite deleted_all in Hn by done. congruence.
Qed.

Lemma pass_match i s s' es stop :
  procs_match s -> pass cred_check version i s = (s', es, stop) ->
  procs_match s' /\ forall sid pid, Launched sid pid ∈ es ->
    forall pid', sv_procs s !! sid = Some pid' -> in_exited i pid' = true.
Proof.
  intros H. unfold pass.
  set (s0 := s <| sv_state := _ |>). assert (H0 : procs_match s0) by done.
  set (s1 := fold_left (reap i) (dead i s0) s0).
  assert (H1 : procs_match s1) by by apply reap_all_match.
  destruct (update_step version s1) as [s2 e1] eqn:E2.
  assert (Hp2 : sv_procs s2 = sv_procs s1 /\ sv_sup s2 = sv_sup s1 /\ forall a b, Launched a b ∉ e1).
  { unfold update_step in E2. injection E2 as <- <-. repeat split. intros a b. destruct (ss_update_requested _); set_solver. }
  destruct (credential_step cred_check i s2) as [s3 e2] eqn:E3.
  assert (Hp3 : sv_procs s3 = sv_procs s2 /\ sv_sup s3 = sv_sup s2 /\ forall a b, Launched a b ∉ e2).
  { unfold credential_step in E3. destruct (_ <=? _); injection E3 as <- <-; repeat split; set_solver. }
  destruct Hp2 as (P2 & U2 & N2), Hp3 as (P3 & U3 & N3).
  assert (H3 : procs_match s3) by (unfold procs_match; by rewrite P3, P2, U3, U2).
  destruct (launch_step i s3) as [[s4 w] e3] eqn:E4. apply launch_step_match in E4 as [H4 L4]; [|done].
  destruct (event_step i s4) as [s5 st] eqn:E5. intros [= <- <- _].
  split; [change s5 with ((s5, st).1); rewrite <- E5; by apply event_step_match|].
  intros sid pid Hin pid' Hpid.
  assert (Hin3 : Launched sid pid ∈ e3) by (rewrite !elem_of_app in Hin; naive_solver).
  specialize (L4 sid pid Hin3). rewrite P3, P2 in L4.
  by apply (reaped_exited i s0 sid pid' Hpid).
Qed.

(** The states the service passes through. *)
Inductive svc_reach (st : ServiceState) (c : C) (now0 : Z) : Service C -> Prop :=
| svc_start : svc_reach st c now0
    {| sv_state := st; sv_cred := cred_check st c; sv_last_check := now0;
       sv_sup := Supervisor_new now0; sv_procs := ∅ |}
| svc_pass s i s' es : svc_reach st c now0 s -> pass cred_check version i s = (s', es, false) ->
    svc_reach st c now0 s'.

Lemma svc_reach_match st c now0 s : svc_reach st c now0 s -> procs_match s.
Proof.
  induction 1 as [|s i s' es _ IH Hp]; [|by eapply pass_match in Hp as [? _]].
  intros sid. cbn. rewrite lookup_empty. split; [by intros []|done].
Qed.

Lemma handled_pass_state i s s' es stop :
  pass cred_check version i s = (s', es, stop) ->
  forall d, UpdateDecision d ∈ es ->
  let st := fold_left (fun st r => (handle version st r).1) (in_requests i) (sv_state s) in
  d = decide_update version (ss_staged_version st) (agent_in_call st) false.
Proof.
  unfold pass. set (st := fold_left _ (in_requests i) (sv_state s)). set (s0 := s <| sv_state := st |>).
  assert (Hr : forall l (x : Service C), ss_staged_version (sv_state (fold_left (reap i) l x)) = ss_staged_version (sv_state x) /\
    ss_agent_state (sv_state (fold_left (reap i) l x)) = ss_agent_state (sv_state x)).
  { induction l as [|y l IH]; intros x; [done|]. cbn. destruct (IH (reap i x y)) as [-> ->]. done. }
  destruct (Hr (dead i s0) s0) as [Hsv Has]. set (s1 := fold_left (reap i) (dead i s0) s0) in *.
  unfold update_step, take_update_request. destruct (credential_step _ _ _) as [s3 e2] eqn:E3.
  assert (N3 : forall d, UpdateDecision d ∉ e2).
  { unfold credential_step in E3. destruct (_ <=? _); injection E3 as <- <-; set_solver. }
  destruct (launch_step i s3) as [[s4 w] e3] eqn:E4.
  assert (N4 : forall d, UpdateDecision d ∉ e3).
  { unfold launch_step in E4. destruct (poll _ _) as [sup []]; [destruct (in_launch i _)|];
      injection E4 as <- <- <-; set_solver. }
  destruct (event_step i s4) as [s5 b]. intros [= <- <- _] d. rewrite !elem_of_app.
  intros [Hd|[Hd|Hd]]; [|by destruct (N3 d)|by destruct (N4 d)].
  destruct (ss_update_requested _); [|by apply elem_of_nil in Hd].
  apply list_elem_of_singleton in Hd. injection Hd as ->. unfold agent_in_call. cbn. by rewrite Hsv, Has.
Qed.


Definition not_logon (i : PassInput) : Prop := forall sid, in_recv i <> Got (SessionLogon sid).

Lemma pass_no_sessions i s s' es stop :
  not_logon i -> sessions (sv_sup s) = ∅ -> sv_procs s = ∅ -> pass cred_check version i s = (s', es, stop) ->
  sessions (sv_sup s') = ∅ /\ sv_procs s' = ∅ /\
  Forall (fun e => match e with Launched _ _ | LaunchFailed _ => False | _ => True end) es.
Proof.
  intros Hn Hs Hp. unfold pass, dead. cbn -[launch_step event_step credential_step handle].
  rewrite Hp, map_to_list_empty.
  unfold update_step, take_update_request. cbn -[launch_step event_step credential_step handle].
  destruct (credential_step _ _ _) as [s3 e2] eqn:E3.
  assert (H3 : sessions (sv_sup s3) = ∅ /\ sv_procs s3 = ∅ /\ Forall (fun e => match e with Launched _ _ | LaunchFailed _ => False | _ => True end) e2).
  { unfold credential_step in E3. destruct (_ <=? _); injection E3 as <- <-; cbn; repeat constructor; done. }
  destruct H3 as (H3 & P3 & F3). destruct (launch_step i s3) as [[s4 w] e3] eqn:E4.
  assert (H4 : sessions (sv_sup s4) = ∅ /\ sv_procs s4 = ∅ /\ e3 = []).
  { unfold launch_step in E4.
    pose proof (poll_sessions (sv_sup s3) (in_now i 2)) as Hps. pose proof (poll_launch (sv_sup s3) (in_now i 2)) as Hpl.
    destruct (poll _ _) as [sup [sid|nx]]; cbn in Hps, Hpl.
    - destruct (Hpl sid eq_refl) as [Hx _]. rewrite H3, lookup_empty in Hx. by destruct Hx.
    - injection E4 as <- _ <-. cbn. by rewrite Hps. }
  destruct H4 as (H4 & P4 & ->). destruct (event_step i s4) as [s5 b] eqn:E5. intros [= <- <- _].
  assert (H5 : sessions (sv_sup s5) = ∅ /\ sv_procs s5 = ∅).
  { unfold event_step in E5. destruct (in_recv i) as [[sid|sid|]| |] eqn:Hrcv; [by destruct (Hn sid)|..];
      injection E5 as <- _; cbn; by rewrite ?H4, ?P4, ?delete_empty. }
  destruct H5. split; [done|]. split; [done|]. rewrite app_nil_r. apply Forall_app. split; [|done].
  by destruct (ss_update_requested _); repeat constructor.
Qed.

(** An agent is launched only into a session whose logon the service has seen: a
    service that starts when the user is already at the desk, and gets no further
    logon event, never launches anything. *)
Theorem no_logon_no_agent st c now0 ins s es b :
  Forall not_logon ins -> service_body cred_check version st c now0 ins = (s, es, b) ->
  Forall (fun e => match e with Launched _ _ | LaunchFailed _ => False | _ => True end) es.
Proof.
  unfold service_body. set (s0 := {| sv_state := st |}).
  assert (H0 : sessions (sv_sup s0) = ∅ /\ sv_procs s0 = ∅) by done. clearbody s0. destruct H0 as [H0 P0].
  intros Hn. revert s0 H0 P0 s es b. induction Hn as [|i ins Hi _ IH]; intros s0 H0 P0 s es b; cbn [service_loop].
  { intros [= <- <- <-]. constructor. }
  destruct (pass cred_check version i s0) as [[s1 e1] stop] eqn:E1.
  apply pass_no_sessions in E1 as (H1 & P1 & F1); [|done..].
  destruct stop; [by intros [= <- <- <-]|].
  destruct (service_loop cred_check version ins s1) as [[s2 e2] b2] eqn:E2. intros [= <- <- <-].
  apply Forall_app. split; [done|]. by eapply IH.
Qed.
End props.


(** ** Tokens *)

Section tokens.
Context {K T R W : Type}.
Context `{!DeviceKey K} `{!EnrollTransport T} `{!OsRng R} `{!KeyWrapper W} `{!FileJson DeviceIdentity}.
Context (b64 : list u8 -> string) (rfc3339_ms : string -> option Z) (display : EnrollError -> string).
Context (open_key : Disk * R -> (Disk * R) * result K DeviceKeyError).

(** Opening the key leaves the renewal token alone. *)
Definition key_keeps_token : Prop :=
  forall d r, files (open_key (d, r)).1.1 !! RENEWAL_TOKEN_FILE = files d !! RENEWAL_TOKEN_FILE.

Definition enrolled (o : option EnsureOutcome) : bool :=
  match o with Some (EnrolledNow _ _ _ _) => true | _ => false end.

Lemma read_renewal_token_files d : files (read_renewal_token d).1 = files d.
Proof.
  unfold read_renewal_token. pose proof (fs_read_to_string_files RENEWAL_TOKEN_FILE d) as H.
  by destruct (fs_read_to_string RENEWAL_TOKEN_FILE d).
Qed.

(** The token a check uses: the file's before the registry's. *)
Definition token_in_use (m : Machine T R) : option string :=
  match (read_renewal_token (open_key (ma_disk m, ma_rng m)).1.1).2 with
  | Some t => Some t
  | None => read_string (ma_reg_token m)
  end.

(** Tokens outlive a failed exchange: neither the renewal file nor the installer's
    registry value is touched unless the check enrolled the machine, and then only
    the one it used is removed; a machine whose key does not open asks the gateway
    nothing and changes neither. *)
Theorem tokens_kept_until_enrolled facts api now (w : W) (m m' : Machine T R) o :
  key_keeps_token ->
  ensure_device_credential b64 rfc3339_ms display open_key facts api now w m = (m', o) ->
  let file m := files (ma_disk m) !! RENEWAL_TOKEN_FILE in
  let used_file := bool_decide (is_Some (read_renewal_token (open_key (ma_disk m, ma_rng m)).1.1).2) in
  (enrolled o && used_file = false -> file m' = file m) /\
  (enrolled o && negb used_file = false -> ma_reg_token m' = ma_reg_token m) /\
  (forall e, (open_key (ma_disk m, ma_rng m)).2 = Err e -> o = None /\ ma_transport m' = ma_transport m).
Proof.
  intros Hk. unfold ensure_device_credential. specialize (Hk (ma_disk m) (ma_rng m)).
  destruct (open_key (ma_disk m, ma_rng m)) as [[d r] [key|x]]; cbn [fst snd] in *.
  2: { intros [= <- <-]. cbn. by repeat split. }
  pose proof (read_renewal_token_files d) as Hf. destruct (read_renewal_token d) as [d1 ren]. cbn [fst snd] in *.
  destruct (ensure_enrolled _ _ _ _ _ _ _ _ _) as [e o1] eqn:He.
  apply ensure_only in He. cbn in He. specialize (He RENEWAL_TOKEN_FILE ltac:(not_in)). rewrite Hf in He.
  destruct o1 as [[]|]; try (intros [= <- <-]; cbn; rewrite He, Hk; by repeat split).
  destruct ren as [t|]; intros [= <- <-]; cbn; repeat split; try done; by rewrite He, Hk.
Qed.
End tokens.

(** ** Examples *)

Module demo_service.
Definition state : ServiceState := {|
  ss_local := LocalConfig_default true None; ss_policy := None; ss_tier := Some "A";
  ss_os_build := "10.0.22631"; ss_restarts := 0; ss_agent_state := "BLOCKED";
  ss_update_requested := false; ss_staged_version := None |}.
Definition input (t : Z) (r : Received) : PassInput := {|
  in_requests := []; in_now := fun k => t + Z.of_nat k; in_exited := fun _ => false;
  in_launch := fun _ => Ok 4711; in_draw := fun d => d; in_recv := r; in_stopping := false |}.
Definition check (_ : ServiceState) (c : unit) : unit := c.
Definition start : Service unit := {| sv_state := state; sv_cred := tt; sv_last_check := 0;
  sv_sup := Supervisor_new 0; sv_procs := ∅ |}.
Definition step (t : Z) (r : Received) (s : Service unit) := pass check "0.1.0" (input t r) s.
Definition logged_on : Service unit := (step 0 (Got (SessionLogon 2)) start).1.1.
End demo_service.


Lemma no_logon_witness :
  Forall (fun e => match e with Launched _ _ | LaunchFailed _ => False | _ => True end)
    (service_body demo_service.check "0.1.0" demo_service.state tt 0
       [demo_service.input 10 TimedOut; demo_service.input 20 (Got (SessionLogoff 2)); demo_service.input 10 TimedOut]).1.2.
Proof.
  eapply (no_logon_no_agent demo_service.check "0.1.0" demo_service.state tt 0
    [demo_service.input 10 TimedOut; demo_service.input 20 (Got (SessionLogoff 2)); demo_service.input 10 TimedOut]).
  - repeat constructor; by intros sid.
  - reflexivity.
Defined.

Definition demo_machine : Machine (list EnrollRequest) Z := {|
  ma_disk := {| files := {[ RENEWAL_TOKEN_FILE := "renew-me" ]}; faults := [] |};
  ma_rng := 7; ma_transport := []; ma_reg_token := Some "installer" |}.
Definition demo_open (s : Disk * Z) : (Disk * Z) * result unit DeviceKeyError := (s, Ok tt).

Definition demo_check : Machine (list EnrollRequest) Z * option EnsureOutcome :=
  ensure_device_credential demo.b64 demo.parse_time demo.display demo_open demo.facts
    "https://gw" 0 demo.wrapper demo_machine.

Lemma tokens_kept_witness :
  demo_check.2 = Some (EnrolledNow "device-1" "later" false Cng) /\
  let file (m : Machine (list EnrollRequest) Z) := files (ma_disk m) !! RENEWAL_TOKEN_FILE in
  let used_file := bool_decide
    (is_Some (read_renewal_token (demo_open (ma_disk demo_machine, ma_rng demo_machine)).1.1).2) in
  (enrolled demo_check.2 && used_file = false -> file demo_check.1 = file demo_machine) /\
  (enrolled demo_check.2 && negb used_file = false ->
     ma_reg_token demo_check.1 = ma_reg_token demo_machine) /\
  (forall e, (demo_open (ma_disk demo_machine, ma_rng demo_machine)).2 = Err e ->
     demo_check.2 = None /\ ma_transport demo_check.1 = ma_transport demo_machine).
Proof.
  split; [vm_compute; reflexivity|].
  apply (tokens_kept_until_enrolled demo.b64 demo.parse_time demo.display demo_open demo.facts "https://gw" 0
    demo.wrapper demo_machine); [by intros d r|apply surjective_pairing].
Defined.
