(* ===== verification/Telemetry.v ===== *)
(** Endpoint telemetry (sentinel-service/src/telemetry/mod.rs, otlp.rs and layer.rs):
    which attributes may leave the machine, the OTLP JSON, the tracing layer that
    enqueues and the exporter that batches and ships.

    The channel is the queue of the state; the interleaving of the emitting threads
    with the exporter is a sequence of steps. Printing JSON, floating-point numbers
    and the HTTP client are parameters. *)

From S2P Require Import Prelude Text.

Definition TARGET : string := "sentinel.telemetry".

Definition FORBIDDEN_ATTRIBUTES : list string :=
  ["user_uid"; "uid"; "firebase_uid"; "user.id"; "enduser.id"; "email"; "display_name";
   "account_ref"; "account"; "borrower"; "phone"; "msisdn";
   "transcript"; "text"; "utterance"; "summary"; "audio"; "payload";
   "token"; "id_token"; "refresh_token"; "authorization"; "enrollment_token"; "spool_key"; "private_key"].

(** [rsplit('.').next()]: what follows the last dot. *)
Definition last_segment (s : string) : string := default s (last (split "."%char s)).

Definition attribute_permitted (key : string) : bool :=
  let lower := to_ascii_lowercase key in
  let seg := last_segment lower in
  negb (existsb (fun f => bool_decide (lower = f) || bool_decide (seg = f)) FORBIDDEN_ATTRIBUTES).

(** ** OTLP *)

(** [serde_json::Value], with the fields of an object in the order they are inserted. *)
Inductive Json (Fl : Type) :=
| JBool (b : bool)
| JNum (z : Z)
| JFloat (f : Fl)
| JStr (s : string)
| JArr (l : list (Json Fl))
| JObj (l : list (string * Json Fl)).
Arguments JBool {Fl}.
Arguments JNum {Fl}.
Arguments JFloat {Fl}.
Arguments JStr {Fl}.
Arguments JArr {Fl}.
Arguments JObj {Fl}.

(** [i64::to_string] *)
Definition fmt_i (z : Z) : string := if z <? 0 then "-" +:+ fmt_u (- z) else fmt_u z.

Section otlp.
(** The type of [f64]. *)
Context {Fl : Type}.

Inductive AttrValue :=
| AStr (s : string)
| AInt (i : Z)
| ABool (b : bool)
| AFloat (f : Fl).

Definition to_any_value (v : AttrValue) : Json Fl :=
  match v with
  | AStr s => JObj [("stringValue", JStr s)]
  | AInt i => JObj [("intValue", JStr (fmt_i i))]
  | ABool b => JObj [("boolValue", JBool b)]
  | AFloat f => JObj [("doubleValue", JFloat f)]
  end.

Inductive Severity := SevTrace | SevDebug | SevInfo | SevWarn | SevError.
Inductive Level := TRACE | DEBUG | INFO | WARN | ERROR.

Definition severity_number (s : Severity) : Z :=
  match s with SevTrace => 1 | SevDebug => 5 | SevInfo => 9 | SevWarn => 13 | SevError => 17 end.
Definition from_tracing (l : Level) : Severity :=
  match l with TRACE => SevTrace | DEBUG => SevDebug | INFO => SevInfo | WARN => SevWarn | ERROR => SevError end.
Definition severity_text (s : Severity) : string :=
  match s with
  | SevTrace => "TRACE" | SevDebug => "DEBUG" | SevInfo => "INFO" | SevWarn => "WARN" | SevError => "ERROR"
  end.

Record TelRecord := {
  tr_time_unix_nano : Z;
  tr_severity : Severity;
  tr_body : string;
  tr_attributes : list (string * AttrValue);
}.

Record Resource := {
  res_service_name : string;
  res_service_version : string;
  res_tenant_id : option string;
  res_device_id : option string;
}.

Definition attr (key : string) (value : AttrValue) : Json Fl :=
  JObj [("key", JStr key); ("value", to_any_value value)].

Definition resource_to_json (r : Resource) : Json Fl :=
  JObj [("attributes", JArr (
    [attr "service.name" (AStr (res_service_name r)); attr "service.version" (AStr (res_service_version r))] ++
    match res_tenant_id r with Some t => [attr "tenant.id" (AStr t)] | None => [] end ++
    match res_device_id r with Some d => [attr "device.id" (AStr d)] | None => [] end))].

Definition record_json (r : TelRecord) : Json Fl :=
  JObj [("timeUnixNano", JStr (fmt_u (tr_time_unix_nano r)));
        ("observedTimeUnixNano", JStr (fmt_u (tr_time_unix_nano r)));
        ("severityNumber", JNum (severity_number (tr_severity r)));
        ("severityText", JStr (severity_text (tr_severity r)));
        ("body", JObj [("stringValue", JStr (tr_body r))]);
        ("attributes", JArr ((fun kv => attr kv.1 kv.2) <$> tr_attributes r))].

(** The value [encode] prints. *)
Definition encode_value (resource : Resource) (records : list TelRecord) : Json Fl :=
  JObj [("resourceLogs", JArr [JObj [
    ("resource", resource_to_json resource);
    ("scopeLogs", JArr [JObj [
      ("scope", JObj [("name", JStr (res_service_name resource)); ("version", JStr (res_service_version resource))]);
      ("logRecords", JArr (record_json <$> records))]])]])].

(** ** The layer *)

Definition QUEUE_CAPACITY : nat := 1024.
Definition MAX_BATCH : nat := 128.
Definition FLUSH_INTERVAL_MS : Z := 30000.

(** The value of a field as tracing hands it to the visitor. *)
Inductive FieldValue :=
| FStr (s : string)
| FI64 (z : Z)
| FU64 (z : Z)
| FBool (b : bool)
| FF64 (f : Fl)
| FDebug (s : string)
| FErr (s : string).

Record FieldVisitor := {
  fv_message : option string;
  fv_attributes : list (string * AttrValue);
}.
#[export] Instance FieldVisitor_rebuild : Rebuild FieldVisitor := fun r =>
  {| fv_message := fv_message r; fv_attributes := fv_attributes r |}.

Definition push_field (v : FieldVisitor) (name : string) (value : AttrValue) : FieldVisitor :=
  if bool_decide (name = "message") then
    match value with AStr s => v <| fv_message := Some s |> | _ => v end
  else if negb (attribute_permitted name) then
    v <| fv_attributes := fv_attributes v ++ [("telemetry.dropped_attribute", AStr name)] |>
  else v <| fv_attributes := fv_attributes v ++ [(name, value)] |>.

(** [Visit]: one method per type. *)
Definition visit (v : FieldVisitor) (f : string * FieldValue) : FieldVisitor :=
  push_field v f.1
    match f.2 with
    | FStr s => AStr s
    | FI64 z => AInt z
    | FU64 z => AInt (Z.min z i64_max)
    | FBool b => ABool b
    | FF64 x => AFloat x
    | FDebug s => AStr s
    | FErr s => AStr s
    end.

Record TelEvent := {
  te_target : string;
  te_level : Level;
  te_name : string;
  te_fields : list (string * FieldValue);
  te_time : Z;
}.

(** The record of an event, when its target is exported. *)
Definition event_record (e : TelEvent) : option TelRecord :=
  if negb (bool_decide (te_target e = TARGET)) then None
  else
    let v := fold_left visit (te_fields e) {| fv_message := None; fv_attributes := [] |} in
    Some {| tr_time_unix_nano := te_time e;
            tr_severity := from_tracing (te_level e);
            tr_body := default (te_name e) (fv_message v);
            tr_attributes := fv_attributes v |}.

(** ** The exporter *)

(** The queue between the threads and the exporter's own variables. [ex_posts] is every
    batch handed to the shipper, oldest first, with whether the shipper took it: one it
    did not take is not kept. A sender is held by the layer and one by the handle. *)
Record Exporter := {
  ex_queue : list TelRecord;
  ex_layer_sender : bool;
  ex_handle_sender : bool;
  ex_dropped : Z;
  ex_batch : list TelRecord;
  ex_reported_drops : Z;
  ex_endpoint_failing : bool;
  ex_posts : list (list TelRecord * bool);
}.
#[export] Instance Exporter_rebuild : Rebuild Exporter := fun r =>
  {| ex_queue := ex_queue r; ex_layer_sender := ex_layer_sender r; ex_handle_sender := ex_handle_sender r;
     ex_dropped := ex_dropped r; ex_batch := ex_batch r; ex_reported_drops := ex_reported_drops r;
     ex_endpoint_failing := ex_endpoint_failing r; ex_posts := ex_posts r |}.

Definition Exporter_new : Exporter :=
  {| ex_queue := []; ex_layer_sender := true; ex_handle_sender := true; ex_dropped := 0; ex_batch := [];
     ex_reported_drops := 0; ex_endpoint_failing := false; ex_posts := [] |}.

(** Everything that left the exporter, taken or not. *)
Definition ex_shipped (x : Exporter) : list (list TelRecord) := (ex_posts x).*1.

(** [on_event]: enqueue if there is room, count otherwise. *)
Definition on_event (e : TelEvent) (x : Exporter) : Exporter :=
  match event_record e with
  | None => x
  | Some r =>
      if (length (ex_queue x) <? QUEUE_CAPACITY)%nat then x <| ex_queue := ex_queue x ++ [r] |>
      else x <| ex_dropped := ex_dropped x + 1 |>
  end.

Definition drop_report (now n : Z) : TelRecord :=
  {| tr_time_unix_nano := now; tr_severity := SevWarn;
     tr_body := "telemetry records were dropped because the export queue was full";
     tr_attributes := [("event", AStr "telemetry.dropped"); ("dropped", AInt (as_i64 n))] |}.

(** [flush]; [ok] is whether the shipper accepts this batch. *)
Definition flush (now : Z) (ok : bool) (x : Exporter) : Exporter :=
  let x := if ex_reported_drops x <? ex_dropped x then
      x <| ex_batch := ex_batch x ++ [drop_report now (ex_dropped x - ex_reported_drops x)] |>
        <| ex_reported_drops := ex_dropped x |>
    else x in
  match ex_batch x with
  | [] => x
  | batch =>
      x <| ex_batch := [] |> <| ex_posts := ex_posts x ++ [(batch, ok)] |>
        <| ex_endpoint_failing := negb ok |>
  end.

(** [recv_timeout]: a record, the interval passing on an empty queue, or the closed
    channel. *)
Inductive RecvResult := RecvOk (r : TelRecord) | RecvTimeout | RecvDisconnected.
Definition recv (x : Exporter) : Exporter * RecvResult :=
  match ex_queue x with
  | r :: q => (x <| ex_queue := q |>, RecvOk r)
  | [] => (x, if ex_layer_sender x || ex_handle_sender x then RecvTimeout else RecvDisconnected)
  end.

(** One turn of [export_loop]; [true] when it returns. *)
Definition export_turn (now : Z) (ok : bool) (x : Exporter) : Exporter * bool :=
  let '(x, r) := recv x in
  match r with
  | RecvOk r =>
      let x := x <| ex_batch := ex_batch x ++ [r] |> in
      if (length (ex_batch x) <? MAX_BATCH)%nat then (x, false) else (flush now ok x, false)
  | RecvTimeout => (flush now ok x, false)
  | RecvDisconnected => (flush now ok x, true)
  end.

(** [TelemetryHandle::stop]: the handle's sender is dropped. *)
Definition handle_stop (x : Exporter) : Exporter := x <| ex_handle_sender := false |>.
End otlp.
Arguments AttrValue : clear implicits.
Arguments TelRecord : clear implicits.
Arguments TelEvent : clear implicits.
Arguments Exporter : clear implicits.
Arguments FieldValue : clear implicits.
