(* ===== verification/TelemetryProps.v ===== *)
(** Properties of the telemetry export: what can leave the machine, that every
    accepted record is posted once and in order with the drops accounted for, what a
    post that fails costs, and that a collector reads back what was encoded. *)

From S2P Require Import Prelude Text Telemetry.

Section props.
Context {Fl : Type}.
Abbreviation TelRecord := (TelRecord Fl).
Abbreviation TelEvent := (TelEvent Fl).
Abbreviation Exporter := (Exporter Fl).

(** ** What leaves the machine *)

(** A field with its value blanked when its name is forbidden. *)
Definition redact (f : string * FieldValue Fl) : string * FieldValue Fl :=
  if bool_decide (f.1 = "message") || attribute_permitted f.1 then f else (f.1, FStr "").
Definition redact_event (e : TelEvent) : TelEvent :=
  {| te_target := te_target e; te_level := te_level e; te_name := te_name e;
     te_fields := redact <$> te_fields e; te_time := te_time e |}.

Lemma visit_redact v f : visit v (redact f) = visit v f.
Proof.
  unfold redact. destruct (_ || _) eqn:H; [done|]. apply orb_false_iff in H as [H1 H2].
  unfold visit, push_field. cbn [fst]. by rewrite H1, H2.
Qed.

Lemma fold_visit_redact fs v : fold_left visit (redact <$> fs) v = fold_left visit fs v.
Proof. revert v. induction fs as [|f fs IH]; intros v; [done|]. cbn. by rewrite visit_redact, IH. Qed.

Definition permitted_attrs (r : TelRecord) : Prop :=
  Forall (fun kv => attribute_permitted kv.1 = true) (tr_attributes r).

Lemma visit_permitted fs (v : FieldVisitor (Fl:=Fl)) :
  Forall (fun kv => attribute_permitted kv.1 = true) (fv_attributes v) ->
  Forall (fun kv => attribute_permitted kv.1 = true) (fv_attributes (fold_left visit fs v)).
Proof.
  revert v. induction fs as [|[n x] fs IH]; intros v Hv; [done|]. cbn. apply IH.
  unfold visit, push_field. cbn [fst snd]. case_bool_decide; [by destruct x|].
  destruct (attribute_permitted n) eqn:Hn; cbn [negb]; apply Forall_app; (split; [done|]); by repeat constructor.
Qed.

(** ** Runs *)

(** What happens to the exporter: an event is emitted, its thread takes a turn, the
    handle is dropped, or the subscriber that owns the layer is. *)
Inductive TelStep :=
| Emit (e : TelEvent)
| Turn (now : Z) (ok : bool)
| StopHandle
| DropLayer.

Definition drop_layer (x : Exporter) : Exporter := x <| ex_layer_sender := false |>.

Definition tel_step (x : Exporter) (s : TelStep) : Exporter :=
  match s with
  | Emit e => on_event e x
  | Turn now ok => (export_turn now ok x).1
  | StopHandle => handle_stop x
  | DropLayer => drop_layer x
  end.
Definition tel_run (l : list TelStep) : Exporter := fold_left tel_step l Exporter_new.

(** The records the layer made and did not have to drop, and how many it dropped. *)
Fixpoint accepted (l : list TelStep) (x : Exporter) : list TelRecord :=
  match l with
  | [] => []
  | s :: l' =>
      match s with
      | Emit e => if (length (ex_queue x) <? QUEUE_CAPACITY)%nat then option_list (event_record e) else []
      | _ => []
      end ++ accepted l' (tel_step x s)
  end.
Fixpoint refused (l : list TelStep) (x : Exporter) : Z :=
  match l with
  | [] => 0
  | s :: l' =>
      match s with
      | Emit e => if (length (ex_queue x) <? QUEUE_CAPACITY)%nat then 0 else len (option_list (event_record e))
      | _ => 0
      end + refused l' (tel_step x s)
  end.

(** A shipped record is an event's or a report of drops. *)
Inductive Tagged := OfEvent (r : TelRecord) | Report (now n : Z).
Definition render (t : Tagged) : TelRecord :=
  match t with OfEvent r => r | Report now n => drop_report now n end.
Definition event_of (t : Tagged) : option TelRecord := match t with OfEvent r => Some r | _ => None end.
Definition reported (t : Tagged) : Z := match t with Report _ n => n | _ => 0 end.
Definition total (l : list Tagged) : Z := foldr Z.add 0 (reported <$> l).

Lemma total_app l1 l2 : total (l1 ++ l2) = total l1 + total l2.
Proof. unfold total. induction l1 as [|a l1 IH]; cbn; lia. Qed.

Lemma total_cons a l : total (a :: l) = reported a + total l.
Proof. done. Qed.

(** The records of the posts with one outcome: taken by the shipper, or thrown away. *)
Definition outcome (ok : bool) (ts : list (list Tagged * bool)) : list Tagged :=
  concat (filter (fun p => p.2 = ok) ts).*1.

Lemma total_outcomes ts : total (concat ts.*1) = total (outcome true ts) + total (outcome false ts).
Proof.
  unfold outcome. induction ts as [|[t ok] ts IH]; [done|]. rewrite !filter_cons. cbn [fmap list_fmap concat fst snd].
  rewrite total_app, IH. destruct ok; repeat case_decide; try done; cbn [fmap list_fmap concat]; cbn [fst]; rewrite total_app; lia.
Qed.

Definition post_of (p : list Tagged * bool) : list TelRecord * bool := (render <$> p.1, p.2).

(** The exporter accounts for [acc] accepted records and [nd] refused ones: its posts and
    its batch are those records in order, with reports of drops between them. *)
Definition accounts (acc : list TelRecord) (nd : Z) (x : Exporter) : Prop :=
  ex_dropped x = nd /\ 0 <= ex_reported_drops x <= ex_dropped x /\
  exists (ts : list (list Tagged * bool)) (cur : list Tagged), ex_posts x = post_of <$> ts /\ ex_batch x = render <$> cur /\
    omap event_of (concat ts.*1 ++ cur) ++ ex_queue x = acc /\ total (concat ts.*1 ++ cur) = ex_reported_drops x.

Lemma flush_accounts now ok acc nd x : accounts acc nd x -> accounts acc nd (flush now ok x).
Proof.
  intros (Hd & Hr & ts & cur & Hp & Hb & Ha & Ht). unfold flush.
  assert (Hgo : forall x', accounts acc nd x' -> accounts acc nd (match ex_batch x' with
    | [] => x' | batch => x' <| ex_batch := [] |> <| ex_posts := ex_posts x' ++ [(batch, ok)] |>
                            <| ex_endpoint_failing := negb ok |> end)).
  { intros x' H. destruct (ex_batch x') as [|b bs] eqn:Eb; [done|].
    destruct H as (? & ? & ts' & cur' & Hp' & Hb' & Ha' & Ht'). split; [done|]. split; [done|].
    exists (ts' ++ [(cur', ok)]), []. cbn. rewrite !fmap_app, concat_app. cbn. unfold post_of at 2. cbn.
    rewrite !app_nil_r, <- Hb', Eb, Hp'. by split_and!. }
  destruct (Z.ltb_spec (ex_reported_drops x) (ex_dropped x)); apply Hgo; [|by split; [|split; [|exists ts, cur]]].
  split; [done|]. cbn. split; [lia|]. exists ts, (cur ++ [Report now (ex_dropped x - ex_reported_drops x)]).
  rewrite fmap_app, <- Hb, app_assoc, omap_app, total_app, Ht. cbn. rewrite app_nil_r. split_and!; try done.
  unfold total. cbn. lia.
Qed.

Lemma export_turn_accounts now ok acc nd x : accounts acc nd x -> accounts acc nd (export_turn now ok x).1.
Proof.
  intros H. unfold export_turn, recv. destruct (ex_queue x) as [|r q] eqn:Hq.
  - destruct (_ || _); by apply flush_accounts.
  - assert (H' : accounts acc nd (x <| ex_queue := q |> <| ex_batch := ex_batch x ++ [r] |>)).
    { destruct H as (? & ? & ts & cur & Hp & Hb & Ha & Ht). split; [done|]. split; [done|].
      exists ts, (cur ++ [OfEvent r]). cbn. rewrite Hq in Ha.
      rewrite fmap_app, <- Hb, app_assoc, omap_app, total_app, Ht. cbn. split; [done|]. split; [done|].
      split; [by rewrite <- app_assoc|]. unfold total. cbn. lia. }
    cbn -[Nat.ltb flush MAX_BATCH]. destruct (_ <? _)%nat; [done|]. by apply flush_accounts.
Qed.

Lemma on_event_accounts e acc nd x : accounts acc nd x ->
  accounts (acc ++ if (length (ex_queue x) <? QUEUE_CAPACITY)%nat then option_list (event_record e) else [])
    (nd + if (length (ex_queue x) <? QUEUE_CAPACITY)%nat then 0 else len (option_list (event_record e)))
    (on_event e x).
Proof.
  intros (Hd & Hr & ts & cur & Hp & Hb & Ha & Ht). unfold on_event. destruct (event_record e) as [r|].
  - destruct (_ <? _)%nat; cbn [option_list length].
    + split; [cbn; lia|]. split; [done|]. exists ts, cur. cbn. by rewrite app_assoc, Ha.
    + split; [cbn; lia|]. split; [cbn; lia|]. exists ts, cur. cbn. by rewrite app_nil_r.
  - cbn [option_list length]. destruct (_ <? _)%nat; rewrite app_nil_r, Z.add_0_r; by split; [|split; [|exists ts, cur]].
Qed.

Lemma tel_run_accounts l acc nd x : accounts acc nd x ->
  accounts (acc ++ accepted l x) (nd + refused l x) (fold_left tel_step l x).
Proof.
  revert acc nd x. induction l as [|s l IH]; intros acc nd x H; cbn [accepted refused fold_left].
  { by rewrite app_nil_r, Z.add_0_r. }
  rewrite app_assoc, Z.add_assoc. apply IH. destruct s as [e|now ok| |].
  - by apply on_event_accounts.
  - rewrite app_nil_r, Z.add_0_r. by apply export_turn_accounts.
  - rewrite app_nil_r, Z.add_0_r. exact H.
  - rewrite app_nil_r, Z.add_0_r. exact H.
Qed.

Lemma accepted_from l x r : r ∈ accepted l x -> exists e, Emit e ∈ l /\ event_record e = Some r.
Proof.
  revert x. induction l as [|s l IH]; intros x; cbn [accepted]; [by intros ?%elem_of_nil|].
  rewrite elem_of_app. intros [H|H].
  - destruct s as [e|now ok| |]; [|by apply elem_of_nil in H..].
    destruct (_ <? _)%nat; [|by apply elem_of_nil in H]. exists e. split; [by left|].
    destruct (event_record e); cbn in H; [|by apply elem_of_nil in H].
    by apply list_elem_of_singleton in H as ->.
  - destruct (IH _ H) as (e & ? & ?). exists e. split; [by right|done].
Qed.

(** The exporter at the start of the process accounts for nothing. *)
Lemma accounts_new : accounts [] 0 Exporter_new.
Proof. split; [done|]. split; [cbn; lia|]. by exists [], []. Qed.

Lemma event_record_inv e r : event_record e = Some r ->
  te_target e = TARGET /\ event_record (redact_event e) = Some r /\ permitted_attrs r.
Proof.
  unfold event_record, redact_event. cbn. rewrite fold_visit_redact. case_bool_decide as Ht; [|done].
  cbn. intros [= <-]. split; [done|]. split; [done|]. unfold permitted_attrs. cbn.
  apply visit_permitted. constructor.
Qed.

(** C27: Only what is permitted leaves the machine: whatever is emitted and however the
    exporter's turns fall, every record handed to the shipper is a count of drops
    or comes from an event on the export target, carries no attribute under a
    forbidden name, and is the same record whatever value the forbidden fields of
    that event held. *)
Theorem only_permitted_leaves l r :
  r ∈ concat (ex_shipped (tel_run l)) ->
  (exists now n, r = drop_report now n) \/
  exists e, Emit e ∈ l /\ te_target e = TARGET /\
    event_record (redact_event e) = Some r /\ permitted_attrs r.
Proof.
  intros Hr. destruct (tel_run_accounts l [] 0 _ accounts_new) as (_ & _ & ts & cur & Hp & Hb & Ha & _).
  cbn [app] in Ha. set (t := concat ts.*1 ++ cur) in *.
  assert (Hin : r ∈ render <$> t).
  { unfold t. rewrite fmap_app. apply elem_of_app. left. unfold ex_shipped, tel_run in Hr. rewrite Hp in Hr.
    rewrite <- list_fmap_compose in Hr. revert Hr. clear. induction ts as [|[t ok] ts IH]; [done|].
    cbn. rewrite fmap_app, !elem_of_app. intros [H|H]; [by left|right; by apply IH]. }
  apply list_elem_of_fmap in Hin as ([r'|now n] & -> & Ht); [|left; by exists now, n].
  right. assert (Hacc : r' ∈ accepted l Exporter_new).
  { rewrite <- Ha. apply elem_of_app. left. apply list_elem_of_omap. by exists (OfEvent r'). }
  apply accepted_from in Hacc as (e & He & Hrec). exists e. split; [done|]. by apply event_record_inv.
Qed.

(** Without a failing post none is thrown away. *)
Lemma posts_taken l : (forall now, Turn now false ∉ l) -> Forall (fun p => p.2 = true) (ex_posts (tel_run l)).
Proof.
  unfold tel_run. assert (Forall (fun p => p.2 = true) (ex_posts (Exporter_new (Fl:=Fl)))) as H by constructor.
  revert H. generalize (Exporter_new (Fl:=Fl)). induction l as [|s l IH]; intros x H Hl; [done|].
  apply IH; [|intros now Hin; by apply (Hl now); right].
  assert (forall now ok y, ok = true -> ex_posts y = ex_posts x -> Forall (fun p => p.2 = true) (ex_posts (flush now ok y))) as Hf.
  { intros now ok y -> E. unfold flush. destruct (_ <? _); cbn [ex_batch]; [destruct (ex_batch y ++ _)|destruct (ex_batch y)];
      cbn; rewrite ?E; try done; apply Forall_app; (split; [done|by repeat constructor]). }
  destruct s as [e|now ok| |]; cbn [tel_step]; [| |done|done].
  - unfold on_event. destruct (event_record e); [|done]. by destruct (_ <? _)%nat.
  - assert (ok = true) as -> by (destruct ok; [done|]; exfalso; apply (Hl now); left).
    unfold export_turn, recv. destruct (ex_queue x) as [|r q].
    + destruct (_ || _); by apply Hf.
    + cbn -[Nat.ltb flush MAX_BATCH]. destruct (_ <? _)%nat; [done|]. by apply Hf.
Qed.

(** C26: Every record is accounted for, and every drop. At any moment the batches posted,
    each with whether the shipper took it, then the batch under way, then the queue are
    exactly the accepted records, each once and in order, with reports of drops between
    them; the drops not yet reported are those counted since the last report; and the
    drops reported are those in batches taken, those in batches thrown away because their
    post failed, and those in the batch under way. A batch whose post failed is gone with
    its records and its report, which no later batch repeats; when no post fails none is. *)
Theorem export_accounts_for_every_record l :
  let x := tel_run l in
  ex_dropped x = refused l Exporter_new /\ 0 <= ex_reported_drops x <= ex_dropped x /\
  exists (ts : list (list Tagged * bool)) (cur : list Tagged),
    ex_posts x = post_of <$> ts /\ ex_batch x = render <$> cur /\
    omap event_of (concat ts.*1 ++ cur) ++ ex_queue x = accepted l Exporter_new /\
    total (outcome true ts) + total (outcome false ts) + total cur = ex_reported_drops x /\
    ((forall now, Turn now false ∉ l) -> outcome false ts = []).
Proof.
  intros x. destruct (tel_run_accounts l [] 0 _ accounts_new) as (Hd & Hr & ts & cur & Hp & Hb & Ha & Ht).
  split; [done|]. split; [done|]. exists ts, cur. split_and!; [done|done|done| |].
  - rewrite <- total_outcomes, <- total_app. exact Ht.
  - intros Hl. pose proof (posts_taken l Hl) as Hf. unfold tel_run in Hf. rewrite Hp, Forall_fmap in Hf.
    unfold outcome. clear - Hf. induction Hf as [|p ts Hp _ IH]; [done|]. rewrite filter_cons_False; [done|].
    cbn in Hp. by rewrite Hp.
Qed.

(** Sizes kept by every step. *)
Definition bounded (x : Exporter) : Prop :=
  (length (ex_queue x) <= QUEUE_CAPACITY)%nat /\ (length (ex_batch x) < MAX_BATCH)%nat /\
  Forall (fun p => (0 < length p.1 <= S MAX_BATCH)%nat) (ex_posts x).

Lemma MAX_BATCH_pos : (0 < MAX_BATCH)%nat.
Proof. unfold MAX_BATCH. lia. Qed.

Lemma flush_bounded now ok x :
  (length (ex_queue x) <= QUEUE_CAPACITY)%nat -> (length (ex_batch x) <= MAX_BATCH)%nat ->
  Forall (fun p => (0 < length p.1 <= S MAX_BATCH)%nat) (ex_posts x) -> bounded (flush now ok x).
Proof.
  intros Hq Hb Hs. pose proof MAX_BATCH_pos. unfold flush, bounded.
  destruct (_ <? _); cbn -[MAX_BATCH QUEUE_CAPACITY].
  - destruct (ex_batch x ++ _) as [|a b] eqn:E; [by destruct (ex_batch x)|]. cbn -[MAX_BATCH QUEUE_CAPACITY].
    split; [done|]. split; [cbn -[MAX_BATCH]; lia|]. apply Forall_app. split; [done|]. apply Forall_singleton.
    cbn [fst]. rewrite <- E, length_app. cbn -[MAX_BATCH]. lia.
  - destruct (ex_batch x) as [|a b] eqn:E.
    + rewrite E. split; [done|]. split; [cbn -[MAX_BATCH]; lia|done].
    + cbn -[MAX_BATCH QUEUE_CAPACITY]. split; [done|]. split; [cbn -[MAX_BATCH]; lia|]. apply Forall_app. split; [done|].
      apply Forall_singleton. cbn -[MAX_BATCH] in *. lia.
Qed.

(** The export never grows without bound: whatever is emitted, the queue holds at
    most its capacity, the batch under way stays below a full one, and every request
    carries between one record and a full batch with one report of drops. *)
Theorem export_is_bounded l : bounded (tel_run l).
Proof.
  unfold tel_run. assert (H : bounded (Exporter_new (Fl:=Fl))).
  { split; [cbn -[QUEUE_CAPACITY]; lia|]. split; [apply MAX_BATCH_pos|constructor]. }
  revert H. generalize (Exporter_new (Fl:=Fl)). induction l as [|s l IH]; intros x H; [done|].
  apply IH. destruct H as (Hq & Hb & Hs). destruct s as [e|now ok| |]; cbn [tel_step]; [| |done|done].
  - unfold on_event. destruct (event_record e); [|done]. destruct (Nat.ltb_spec (length (ex_queue x)) QUEUE_CAPACITY); [|done].
    split; [cbn -[QUEUE_CAPACITY]; rewrite length_app; cbn -[QUEUE_CAPACITY]; lia|done].
  - unfold export_turn, recv. destruct (ex_queue x) as [|r q] eqn:E.
    + destruct (_ || _); apply flush_bounded; try done; rewrite ?E; cbn -[MAX_BATCH]; lia.
    + cbn -[Nat.ltb flush MAX_BATCH]. destruct (Nat.ltb_spec (length (ex_batch x ++ [r])) MAX_BATCH).
      * split; [cbn -[QUEUE_CAPACITY] in *; lia|done].
      * apply flush_bounded; cbn -[MAX_BATCH QUEUE_CAPACITY] in *; [lia| |done].
        rewrite length_app in *. cbn -[MAX_BATCH] in *. lia.
Qed.

(** The layer keeps a sender of its own, so stopping the handle does not close the
    channel: the exporter thread never returns, and what is in the batch is not
    flushed by the stop. *)
Theorem stop_does_not_close_the_channel now ok (x : Exporter) :
  ex_layer_sender x = true ->
  (export_turn now ok (handle_stop x)).2 = false.
Proof.
  intros H. unfold export_turn, recv, handle_stop. cbn -[Nat.ltb MAX_BATCH]. destruct (ex_queue x); cbn -[Nat.ltb MAX_BATCH].
  - by rewrite H.
  - by destruct (_ <? _)%nat.
Qed.

(** ** A collector's reading *)

Fixpoint assoc (k : string) (l : list (string * Json Fl)) : option (Json Fl) :=
  match l with [] => None | (k', v) :: l' => if String.eqb k k' then Some v else assoc k l' end.
Definition field (k : string) (j : Json Fl) : option (Json Fl) :=
  match j with JObj l => assoc k l | _ => None end.
Definition as_str (j : Json Fl) : option string := match j with JStr s => Some s | _ => None end.
Definition as_arr (j : Json Fl) : option (list (Json Fl)) := match j with JArr l => Some l | _ => None end.
Definition as_num (j : Json Fl) : option Z := match j with JNum z => Some z | _ => None end.

(** [i64] parsing. *)
Definition parse_i (s : string) : option Z :=
  match s with
  | String "-" t => z ← parse_u (2 ^ 63) t; Some (- z)
  | _ => parse_u i64_max s
  end.

Definition read_value (j : Json Fl) : option (AttrValue Fl) :=
  match j with
  | JObj [(k, JStr s)] =>
      if String.eqb k "stringValue" then Some (AStr s)
      else if String.eqb k "intValue" then AInt <$> parse_i s else None
  | JObj [(k, JBool b)] => if String.eqb k "boolValue" then Some (ABool b) else None
  | JObj [(k, JFloat f)] => if String.eqb k "doubleValue" then Some (AFloat f) else None
  | _ => None
  end.

Definition read_attr (j : Json Fl) : option (string * AttrValue Fl) :=
  kj ← field "key" j; k ← as_str kj; vj ← field "value" j; v ← read_value vj; Some (k, v).

Definition read_severity (n : Z) : option Severity :=
  if n =? 1 then Some SevTrace else if n =? 5 then Some SevDebug else if n =? 9 then Some SevInfo
  else if n =? 13 then Some SevWarn else if n =? 17 then Some SevError else None.

Definition read_attrs (j : Json Fl) : option (list (string * AttrValue Fl)) :=
  aj ← field "attributes" j; l ← as_arr aj; mapM read_attr l.

Definition read_record (j : Json Fl) : option TelRecord :=
  tj ← field "timeUnixNano" j; ts ← as_str tj; t ← parse_u (2 ^ 128 - 1) ts;
  nj ← field "severityNumber" j; n ← as_num nj; sev ← read_severity n;
  bj ← field "body" j; sj ← field "stringValue" bj; body ← as_str sj;
  attrs ← read_attrs j;
  Some {| tr_time_unix_nano := t; tr_severity := sev; tr_body := body; tr_attributes := attrs |}.

(** Resource attributes and log records of a request. *)
Definition read_request (j : Json Fl) : option (list (string * AttrValue Fl) * list TelRecord) :=
  rs ← field "resourceLogs" j; rl ← as_arr rs; r ← hd_error rl;
  rj ← field "resource" r; res ← read_attrs rj;
  ss ← field "scopeLogs" r; sl ← as_arr ss; s ← hd_error sl;
  lj ← field "logRecords" s; ls ← as_arr lj; recs ← mapM read_record ls;
  Some (res, recs).

(** Integers of their Rust types. *)
Definition attr_in_range (v : AttrValue Fl) : Prop := match v with AInt i => in_i64 i | _ => True end.
Definition record_in_range (r : TelRecord) : Prop :=
  0 <= tr_time_unix_nano r < 2 ^ 128 /\ Forall (fun kv => attr_in_range kv.2) (tr_attributes r).

Lemma parse_fmt_i z : in_i64 z -> parse_i (fmt_i z) = Some z.
Proof.
  unfold in_i64, i64_min, i64_max, fmt_i. intros Hz. destruct (Z.ltb_spec z 0).
  - change ("-" +:+ fmt_u (- z)) with (String "-" (fmt_u (- z))). cbn [parse_i].
    rewrite parse_fmt_u by lia. cbn. f_equal. lia.
  - destruct (fmt_u_digits i64_max z ltac:(unfold i64_max; lia)) as (c & ds & Hs & Hd & _).
    assert (Hp : parse_u i64_max (fmt_u z) = Some z) by (apply parse_fmt_u; unfold i64_max; lia).
    apply Forall_cons in Hd as [Hc _]. unfold parse_i. destruct (fmt_u z) as [|a s]; [done|].
    injection Hs as -> _. destruct (decide (c = "-"%char)) as [->|Hn]; [done|].
    destruct c as [[] [] [] [] [] [] [] []]; done.
Qed.

Lemma read_to_any_value v : attr_in_range v -> read_value (to_any_value v) = Some v.
Proof. destruct v; cbn; try done. intros H. by rewrite parse_fmt_i. Qed.

Lemma read_attr_attr k v : attr_in_range v -> read_attr (attr k v) = Some (k, v).
Proof. intros H. unfold read_attr, attr. cbn -[read_value to_any_value]. by rewrite read_to_any_value. Qed.

Lemma mapM_fmap_some {A B} (f : A -> B) (g : B -> option A) l :
  Forall (fun a => g (f a) = Some a) l -> mapM g (f <$> l) = Some l.
Proof. induction 1 as [|a l Ha _ IH]; [done|]. cbn. rewrite Ha. cbn. by rewrite IH. Qed.

Lemma read_record_json r : record_in_range r -> read_record (record_json r) = Some r.
Proof.
  intros [Ht Ha]. unfold read_record, record_json. cbn -[parse_u fmt_u attr read_attr read_severity severity_number Z.pow].
  rewrite parse_fmt_u by lia. cbn -[attr read_attr read_severity severity_number].
  assert (Hs : read_severity (severity_number (tr_severity r)) = Some (tr_severity r)) by by destruct (tr_severity r).
  rewrite Hs. cbn -[attr read_attr]. rewrite (mapM_fmap_some (fun kv => attr kv.1 kv.2)).
  - by destruct r.
  - eapply Forall_impl; [exact Ha|]. intros [k v] Hv. by apply read_attr_attr.
Qed.

(** A collector reads back what the exporter encoded: the service and its version
    always, tenant and device exactly when known, and every record whole, with
    64-bit numbers intact because they travel as decimal strings. *)
Theorem encode_reads_back res recs :
  Forall record_in_range recs ->
  read_request (encode_value res recs) = Some
    ([("service.name", AStr (res_service_name res)); ("service.version", AStr (res_service_version res))] ++
     match res_tenant_id res with Some t => [("tenant.id", AStr t)] | None => [] end ++
     match res_device_id res with Some d => [("device.id", AStr d)] | None => [] end, recs).
Proof.
  intros Hr. unfold read_request, encode_value.
  destruct res as [n v [t|] [d|]]; cbn;
    (rewrite mapM_fmap_some; [done|]; eapply Forall_impl; [exact Hr|]; apply read_record_json).
Qed.
End props.

(** ** Examples *)

(** An event on the target whose user id must not leave. *)
Definition demo_event : TelEvent unit := {|
  te_target := "sentinel.telemetry"; te_level := INFO; te_name := "event";
  te_fields := [("message", FDebug "signed in"); ("capture.User_UID", FStr "alice"); ("spool_depth", FU64 3)];
  te_time := 1 |}.

Lemma only_permitted_leaves_witness :
  exists r, event_record demo_event = Some r /\
  ((exists now n, r = drop_report now n) \/
   exists e, Emit e ∈ [Emit demo_event; Turn 0 true; Turn 0 true] /\ te_target e = TARGET /\
     event_record (redact_event e) = Some r /\ permitted_attrs r).
Proof.
  eexists. split; [reflexivity|].
  apply (only_permitted_leaves [Emit demo_event; Turn 0 true; Turn 0 true]).
  vm_compute. left.
Defined.

Lemma encode_reads_back_witness :
  read_request (Fl:=unit) (encode_value
    {| res_service_name := "sentinel-agent"; res_service_version := "0.1.0";
       res_tenant_id := Some "t1"; res_device_id := None |} [drop_report 5 7]) =
  Some ([("service.name", AStr "sentinel-agent"); ("service.version", AStr "0.1.0"); ("tenant.id", AStr "t1")],
        [drop_report 5 7]).
Proof.
  apply (encode_reads_back
    {| res_service_name := "sentinel-agent"; res_service_version := "0.1.0";
       res_tenant_id := Some "t1"; res_device_id := None |} [drop_report 5 7]).
  repeat constructor; vm_compute; congruence.
Defined.

(** One record too many for the queue, and the endpoint down for one batch: the report of
    the drop is in the batch thrown away. The endpoint recovers and everything else gets
    through, but no batch it takes says that a record was dropped. *)
Definition outage : list (TelStep (Fl := unit)) :=
  replicate (S QUEUE_CAPACITY) (Emit demo_event) ++ replicate MAX_BATCH (Turn 1 false) ++
  replicate (S QUEUE_CAPACITY) (Turn 2 true).
Definition plain_batch (b : list (TelRecord unit)) : bool := forallb (fun r => bool_decide (tr_body r = "signed in")) b.
Example drop_report_lost_with_its_batch :
  (fun x => (ex_dropped x, ex_reported_drops x, length (ex_batch x), length (ex_queue x),
             (fun p => (length p.1, plain_batch p.1, p.2)) <$> ex_posts x)) (tel_run outage) =
  (1, 1, 0%nat, 0%nat, (129%nat, false, false) :: replicate 7 (128%nat, true, true)).
Proof. vm_compute. reflexivity. Qed.
