(* ===== verification/Api.v ===== *)
(** The agent's HTTP clients (sentinel-agent/src/api.rs): the REST calls with their
    error mapping, and the OAuth token endpoint. ureq is the interface [Ureq], JSON
    bodies and base64url are parameters. *)

From S2P Require Import Prelude Text Config Utf8 Pkce Auth Heartbeat.

Inductive UreqError :=
| StatusCode (status : Z)
| UreqOther (why : string).

Record HttpRequest := {
  rq_method : string;
  rq_url : string;
  rq_headers : list (string * string);
  rq_body : option string;
}.

(** Performing a request: the body of a success, or ureq's error (a status of 400 or
    more is one). *)
Class Ureq (U : Type) := ureq_call : U -> HttpRequest -> U * result string UreqError.

(** [read_json] of a body, and [send_json]. *)
Class JsonBody (A : Type) := {
  read_json : string -> result A string;
  write_json : A -> string;
}.

Definition map_error (e : UreqError) : ApiError :=
  match e with
  | StatusCode 401 => ApiUnauthorized
  | StatusCode 403 => ApiForbidden
  | StatusCode s => ApiStatus s
  | UreqOther why => ApiTransport why
  end.

(** ** The REST client *)

Record SessionUser := {
  su_firebase_uid : string;
  su_tenant_id : string;
  su_role : string;
  su_display_name : string;
  su_status : string;
}.
Record SessionResponse := { sr_user : SessionUser; sr_policy : Policy; sr_server_time : string }.

Section rest.
Context {U : Type} `{!Ureq U}.
Context `{!JsonBody SessionResponse} `{!JsonBody Policy} `{!JsonBody HeartbeatAck} `{!JsonBody Heartbeat}.

Record HttpApi := { ha_base_url : string; ha_agent : U }.

Definition HttpApi_build (base_url : string) (agent : U) : HttpApi :=
  {| ha_base_url := trim_end_matches "/"%char base_url; ha_agent := agent |}.

Definition api_url (a : HttpApi) (path : string) : string := ha_base_url a +:+ path.

Definition bearer (id_token : string) : string * string := ("Authorization", "Bearer " +:+ id_token).

Definition api_call (a : HttpApi) (method path id_token : string) (body : option string)
    : HttpApi * result string ApiError :=
  let '(u, r) := ureq_call (ha_agent a)
    {| rq_method := method; rq_url := api_url a path; rq_headers := [bearer id_token]; rq_body := body |} in
  ({| ha_base_url := ha_base_url a; ha_agent := u |}, map_err map_error r).

Definition decode_body {A} `{!JsonBody A} (r : result string ApiError) : result A ApiError :=
  let? s := r in map_err ApiDecode (read_json s).

Definition open_session (a : HttpApi) (id_token : string) : HttpApi * result SessionResponse ApiError :=
  let '(a, r) := api_call a "POST" "/v1/sessions" id_token None in (a, decode_body r).
Definition get_policy (a : HttpApi) (id_token : string) : HttpApi * result Policy ApiError :=
  let '(a, r) := api_call a "GET" "/v1/policy" id_token None in (a, decode_body r).
Definition post_heartbeat (a : HttpApi) (id_token : string) (body : Heartbeat)
    : HttpApi * result HeartbeatAck ApiError :=
  let '(a, r) := api_call a "POST" "/v1/heartbeat" id_token (Some (write_json body)) in (a, decode_body r).
Definition end_session (a : HttpApi) (id_token : string) : HttpApi * result unit ApiError :=
  let '(a, r) := api_call a "DELETE" "/v1/sessions/current" id_token None in
  (a, res_map (fun _ => tt) r).

#[export] Instance http_api : SentinelApi HttpApi := post_heartbeat.
End rest.

(** ** The token endpoint *)

Definition encode_form (pairs : list (string * string)) : string :=
  join "&" ((fun kv => percent_encode kv.1 +:+ "=" +:+ percent_encode kv.2) <$> pairs).

Record TokenResponse := {
  tk_id_token : option string;
  tk_access_token : option string;
  tk_refresh_token : option string;
  tk_expires_in : option Z;
}.

(** A claim of a token: only strings matter. *)
Inductive Claim := ClStr (s : string) | ClOther.

Section token.
(** base64url without padding, and the claims of a JSON object by name. *)
Context (b64url_decode : string -> option string) (claims : string -> option (string -> option Claim)).

Definition subject_of (jwt : string) : option string :=
  payload ← split "."%char jwt !! 1%nat;
  bytes ← b64url_decode payload;
  v ← claims bytes;
  c ← match v "sub" with Some c => Some c | None => v "user_id" end;
  match c with ClStr s => Some s | ClOther => None end.

Definition into_token_set (t : TokenResponse) : result TokenSet AuthError :=
  let? id_token := ok_or (match tk_id_token t with Some i => Some i | None => tk_access_token t end)
    (AeToken "token response carried no id_token") in
  let? uid := ok_or (subject_of id_token) (AeToken "id_token has no subject claim") in
  Ok {| ts_id_token := id_token; ts_refresh_token := tk_refresh_token t;
        expires_in_s := default 3600 (tk_expires_in t); ts_uid := uid |}.

Context {U : Type} `{!Ureq U} `{!JsonBody TokenResponse} (ureq_display : UreqError -> string).

Record HttpTokenEndpoint := { te_agent : U }.

Definition token_request (url : string) (form : list (string * string)) : HttpRequest :=
  {| rq_method := "POST"; rq_url := url;
     rq_headers := [("Content-Type", "application/x-www-form-urlencoded")];
     rq_body := Some (encode_form form) |}.

Definition post_form (e : HttpTokenEndpoint) (url : string) (form : list (string * string))
    : HttpTokenEndpoint * result TokenSet AuthError :=
  let '(u, r) := ureq_call (te_agent e) (token_request url form) in
  ({| te_agent := u |},
   let? body := map_err (fun x => AeToken (ureq_display x)) r in
   let? raw := map_err (fun x => AeToken ("malformed token response: " +:+ x)) (read_json body) in
   into_token_set raw).

Definition code_form (cfg : OidcConfig) (c verifier redirect_uri : string) : list (string * string) :=
  [("grant_type", "authorization_code"); ("code", c); ("redirect_uri", redirect_uri);
   ("client_id", oc_client_id cfg); ("code_verifier", verifier)].
Definition refresh_form (cfg : OidcConfig) (refresh_token : string) : list (string * string) :=
  [("grant_type", "refresh_token"); ("refresh_token", refresh_token); ("client_id", oc_client_id cfg)].

#[export] Instance http_token_endpoint : TokenEndpoint HttpTokenEndpoint := {|
  exchange_code e cfg c verifier redirect_uri :=
    post_form e (oc_token_endpoint cfg) (code_form cfg c verifier redirect_uri);
  refresh e cfg refresh_token := post_form e (oc_token_endpoint cfg) (refresh_form cfg refresh_token);
|}.
End token.

(** ** Properties *)

(** A server's reading of a form body. *)
Definition read_pair (s : string) : option (string * string) :=
  '(k, v) ← split_once "="%char s; k ← percent_decode k; v ← percent_decode v; Some (k, v).
Definition read_form (body : string) : option (list (string * string)) :=
  mapM read_pair (split "&"%char body).

Definition utf8_pair (kv : string * string) : Prop := is_utf8 kv.1 = true /\ is_utf8 kv.2 = true.

Lemma read_encoded_pair kv : utf8_pair kv ->
  read_pair (percent_encode kv.1 +:+ "=" +:+ percent_encode kv.2) = Some kv.
Proof.
  destruct kv as [k v]. intros [Hk Hv]. cbn [fst snd] in *. unfold read_pair.
  change ("=" +:+ percent_encode v) with (String "=" (percent_encode v)).
  rewrite split_once_here by (apply lacks_encoded; vm_compute; set_solver).
  cbn [mbind option_bind]. by rewrite !percent_decode_encode.
Qed.

Lemma lacks_pair kv : lacks "&" (percent_encode kv.1 +:+ "=" +:+ percent_encode kv.2).
Proof.
  rewrite !lacks_app. repeat split; [apply lacks_encoded; vm_compute; set_solver|lacks_lit|].
  apply lacks_encoded. vm_compute. set_solver.
Qed.

(** A form is read back pair by pair, values with [&], [=], [%] and spaces included. *)
Lemma read_encode_form pairs : pairs <> [] -> Forall utf8_pair pairs ->
  read_form (encode_form pairs) = Some pairs.
Proof.
  unfold read_form, encode_form. intros Hne Hp. induction Hp as [|kv pairs Hkv Hp IH]; [done|].
  destruct pairs as [|kv' pairs].
  - cbn [fmap list_fmap join]. rewrite split_last by apply lacks_pair. cbn [mapM].
    rewrite read_encoded_pair by done. done.
  - specialize (IH ltac:(done)). cbn [fmap list_fmap join] in *.
    set (rest := match _ with [] => _ | _ => _ end) in *.
    change ("&" +:+ rest) with (String "&" rest). rewrite split_here by apply lacks_pair.
    cbn [mapM]. rewrite read_encoded_pair by done. cbn [mbind option_bind]. by rewrite IH.
Qed.

Section token_props.
Context (b64url_decode : string -> option string) (claims : string -> option (string -> option Claim)).
Context {U : Type} `{!Ureq U} `{!JsonBody TokenResponse} (ureq_display : UreqError -> string).

(** What a server must have been sent, and what the caller may then hold. *)
Definition post_form_spec (url : string) (form : list (string * string)) (e e' : HttpTokenEndpoint (U:=U))
    (r : result TokenSet AuthError) : Prop :=
  exists req body, te_agent e' = (ureq_call (te_agent e) req).1 /\
    rq_method req = "POST" /\ rq_url req = url /\ rq_body req = Some body /\ read_form body = Some form /\
    match r with
    | Ok ts => exists text raw, (ureq_call (te_agent e) req).2 = Ok text /\ read_json text = Ok raw /\
        (tk_id_token raw = Some (ts_id_token ts) \/
         tk_id_token raw = None /\ tk_access_token raw = Some (ts_id_token ts)) /\
        subject_of b64url_decode claims (ts_id_token ts) = Some (ts_uid ts) /\
        ts_refresh_token ts = tk_refresh_token raw /\ expires_in_s ts = default 3600 (tk_expires_in raw)
    | Err x => exists why, x = AeToken why
    end.

Lemma post_form_correct url form e e' r :
  form <> [] -> Forall utf8_pair form ->
  post_form b64url_decode claims ureq_display e url form = (e', r) -> post_form_spec url form e e' r.
Proof.
  intros Hne Hf. unfold post_form. destruct (ureq_call (te_agent e) (token_request url form)) as [u a] eqn:Hc.
  intros [= <- <-]. exists (token_request url form), (encode_form form). rewrite Hc. cbn [fst snd].
  repeat (split; [done|]). split; [by apply read_encode_form|].
  destruct a as [text|x]; cbn; [|by eexists]. destruct (read_json text) as [raw|x] eqn:Hj; cbn; [|by eexists].
  unfold into_token_set.
  destruct (tk_id_token raw) as [i|] eqn:Hi; [|destruct (tk_access_token raw) as [i|] eqn:Ha]; cbn;
    [| |by eexists]; destruct (subject_of _ _ i) as [uid|] eqn:Hs; cbn; try by eexists.
  all: exists text, raw; cbn; rewrite ?Hi, ?Ha; by auto 10.
Qed.

(** The token endpoint is sent exactly the grant: one POST whose form body a server
    decodes to the grant type, the code (or refresh token), the redirect, the client
    and the verifier, byte for byte; and what comes back is a token whose subject
    could be read, or an error. *)
Theorem token_requests_decode e cfg c verifier redirect rt :
  is_utf8 c = true -> is_utf8 verifier = true -> is_utf8 redirect = true -> is_utf8 rt = true ->
  is_utf8 (oc_client_id cfg) = true ->
  (let '(e', r) := exchange_code (TokenEndpoint := http_token_endpoint b64url_decode claims ureq_display)
      e cfg c verifier redirect in
   post_form_spec (oc_token_endpoint cfg)
     [("grant_type", "authorization_code"); ("code", c); ("redirect_uri", redirect);
      ("client_id", oc_client_id cfg); ("code_verifier", verifier)] e e' r) /\
  (let '(e', r) := Auth.refresh (TokenEndpoint := http_token_endpoint b64url_decode claims ureq_display) e cfg rt in
   post_form_spec (oc_token_endpoint cfg)
     [("grant_type", "refresh_token"); ("refresh_token", rt); ("client_id", oc_client_id cfg)] e e' r).
Proof.
  intros. split.
  - destruct (exchange_code e cfg c verifier redirect) as [e' r] eqn:H'.
    apply post_form_correct in H'; [exact H'|done|repeat constructor; done].
  - destruct (Auth.refresh e cfg rt) as [e' r] eqn:H'.
    apply post_form_correct in H'; [exact H'|done|repeat constructor; done].
Qed.
End token_props.

(** A server that keeps what it was sent and answers every request with the same token. *)
Definition recording_server : Ureq (list HttpRequest) := fun u req => (u ++ [req], Ok "a.alice.c").
Definition token_body : JsonBody TokenResponse := {|
  read_json s := Ok {| tk_id_token := Some s; tk_access_token := None;
                       tk_refresh_token := Some "r1"; tk_expires_in := None |};
  write_json t := default "" (tk_id_token t);
|}.
Definition sub_claims (payload : string) : option (string -> option Claim) :=
  Some (fun k => if decide (k = "sub") then Some (ClStr payload) else None).
Definition demo_oidc : OidcConfig :=
  {| oc_authorize_endpoint := "https://id.example/authorize"; oc_token_endpoint := "https://id.example/token";
     oc_client_id := "magick agent"; oc_tenant_id := None; oc_scopes := ["openid"] |}.

Lemma token_requests_witness :
  (let '(e', r) := post_form (U := list HttpRequest) (Ureq0 := recording_server) (JsonBody0 := token_body)
      Some sub_claims (fun _ => "") {| te_agent := [] |} "https://id.example/token"
      (code_form demo_oidc "c&1" "v=1" "http://127.0.0.1:4000/cb") in
   r = Ok {| ts_id_token := "a.alice.c"; ts_refresh_token := Some "r1"; expires_in_s := 3600; ts_uid := "alice" |} /\
   (r ← head (te_agent e'); b ← rq_body r; read_form b) =
     Some (code_form demo_oidc "c&1" "v=1" "http://127.0.0.1:4000/cb")) /\
  (let '(e', r) := Auth.refresh (TokenEndpoint := http_token_endpoint (U := list HttpRequest)
        (Ureq0 := recording_server) (JsonBody0 := token_body) Some sub_claims (fun _ => ""))
      {| te_agent := [] |} demo_oidc "r1" in
   post_form_spec (U := list HttpRequest) (Ureq0 := recording_server) (JsonBody0 := token_body) Some sub_claims
     (oc_token_endpoint demo_oidc)
     [("grant_type", "refresh_token"); ("refresh_token", "r1"); ("client_id", oc_client_id demo_oidc)]
     {| te_agent := [] |} e' r).
Proof.
  split; [vm_compute; split; reflexivity|].
  refine (proj2 (token_requests_decode (U := list HttpRequest) (Ureq0 := recording_server)
    (JsonBody0 := token_body) Some sub_claims (fun _ => "") {| te_agent := [] |} demo_oidc
    "c&1" "v=1" "http://127.0.0.1:4000/cb" "r1" _ _ _ _ _)); vm_compute; reflexivity.
Defined.
