(* ===== verification/LiveSource.v ===== *)
(** The live capture source (sentinel-agent/src/windows/capture_source.rs): one adapter
    over process loopback and endpoint streams, with the session-wide downgrade from
    tier A and the sample buffer of each stream. The WASAPI streams themselves are the
    interface [AudioEngine]. *)

From S2P Require Import Prelude Text Protocol Config Capture Pkce.

Record CapturedBuffer := { cb_samples : list Z; cb_discontinuity : bool; cb_silent : bool }.

(** ** A loopback stream's read (sentinel-capture/src/windows/process_loopback.rs) *)

(** What [GetBuffer] answers: a packet with its flags, or an error; [S_FALSE] and an empty
    packet end the drain. [pk_release] is the answer of [ReleaseBuffer]. *)
Record Packet := {
  pk_frames : list Z;
  pk_discontinuity : bool;
  pk_silent : bool;
  pk_release : result unit string;
}.
Inductive GetBuffer :=
| GbPacket (p : Packet)
| GbEmpty
| GbInvalidated
| GbError (why : string).

(** The drain loop over the answers of [GetBuffer]; the engine has nothing after the
    last of them. *)
Fixpoint drain_packets (answers : list GetBuffer) (samples : list Z) (discontinuity silent : bool)
    : list GetBuffer * result CapturedBuffer CaptureErr :=
  match answers with
  | [] | GbEmpty :: _ => (tail answers, Ok (Build_CapturedBuffer samples discontinuity silent))
  | GbInvalidated :: l => (l, Err DeviceInvalidated)
  | GbError why :: l => (l, Err (Platform ("GetBuffer: " +:+ why)))
  | GbPacket p :: l =>
      if bool_decide (pk_frames p = []) then (l, Ok (Build_CapturedBuffer samples discontinuity silent))
      else
        let discontinuity := discontinuity || pk_discontinuity p in
        let silent := silent || pk_silent p in
        let samples := samples ++ if pk_silent p then repeat 0 (length (pk_frames p)) else pk_frames p in
        match pk_release p with
        | Err e => (l, Err (Platform ("ReleaseBuffer: " +:+ e)))
        | Ok _ => drain_packets l samples discontinuity silent
        end
  end.

(** [signalled] is whether the event fired before the timeout. *)
Definition process_read (signalled : bool) (answers : list GetBuffer)
    : list GetBuffer * result (option CapturedBuffer) CaptureErr :=
  if negb signalled then (answers, Ok None)
  else
    let '(l, r) := drain_packets answers [] false false in
    (l, let? b := r in if bool_decide (cb_samples b = []) then Ok None else Ok (Some b)).

(** ** The softphone (sentinel-capture/src/windows/session.rs) *)

Definition resolve_softphone_pid (process_names : list string)
    (running : result (list (Z * string)) CaptureErr) : result Z CaptureErr :=
  if bool_decide (process_names = []) then Err (SoftphoneNotFound "no process names configured")
  else
    let? running := running in
    match head (omap (fun want => fst <$> List.find (fun p => eq_ignore_ascii_case p.2 want) running) process_names) with
    | Some pid => Ok pid
    | None => Err (SoftphoneNotFound (join ", " process_names))
    end.

(** ** The adapter *)

(** The audio engine: opening either kind of stream, starting and reading one. *)
Class AudioEngine (G St : Type) := {
  process_open : G -> Z -> G * result St CaptureErr;
  endpoint_open : G -> string -> AudioDirection -> G * result St CaptureErr;
  stream_start : St -> St * result unit CaptureErr;
  stream_read : St -> St * result (option CapturedBuffer) CaptureErr;
  enumerate_endpoints : G -> result (list AudioDevice) CaptureErr;
}.

Section live.
Context {G St : Type} `{!AudioEngine G St}.

Record OpenStream := { os_stream : St; os_buffered : list Z }.
#[export] Instance rebuild_OpenStream : Rebuild OpenStream := fun o =>
  {| os_stream := os_stream o; os_buffered := os_buffered o |}.

Record WindowsCaptureSource := {
  lv_engine : G;
  lv_tier : CaptureTier;
  softphone_pid : option Z;
  lv_streams : gmap Z OpenStream;
  lv_next_handle : Z;
  lv_downgraded : bool;
  lv_subscribers : nat;        (** the sinks recorded; nothing is sent on them *)
}.
#[export] Instance rebuild_WindowsCaptureSource : Rebuild WindowsCaptureSource := fun s =>
  {| lv_engine := lv_engine s; lv_tier := lv_tier s; softphone_pid := softphone_pid s;
     lv_streams := lv_streams s; lv_next_handle := lv_next_handle s; lv_downgraded := lv_downgraded s;
     lv_subscribers := lv_subscribers s |}.

(** [com] is what [ComGuard::new] answered. *)
Definition WindowsCaptureSource_new (com : result unit string) (engine : G) (t : CaptureTier) (pid : option Z)
    : result WindowsCaptureSource CaptureErr :=
  let? _ := map_err (fun e => Platform ("CoInitializeEx: " +:+ e)) com in
  Ok {| lv_engine := engine; lv_tier := t; softphone_pid := pid; lv_streams := ∅; lv_next_handle := 1;
        lv_downgraded := false; lv_subscribers := 0 |}.

Definition live_effective_tier (s : WindowsCaptureSource) : CaptureTier :=
  if lv_downgraded s then TierB else lv_tier s.

Definition open_endpoint (id : string) (dir : AudioDirection) (s : WindowsCaptureSource)
    : WindowsCaptureSource * result St CaptureErr :=
  let '(g, r) := endpoint_open (lv_engine s) id dir in (s <| lv_engine := g |>, r).

(** The stream for one direction: process loopback only for tier A's far side. *)
Definition open_stream (id : string) (dir : AudioDirection) (s : WindowsCaptureSource)
    : WindowsCaptureSource * result St CaptureErr :=
  if bool_decide (lv_tier s = TierA) && bool_decide (dir = DirRender) && negb (lv_downgraded s) then
    match softphone_pid s with
    | Some pid =>
        let '(g, r) := process_open (lv_engine s) pid in
        let s := s <| lv_engine := g |> in
        match r with
        | Ok st => (s, Ok st)
        | Err _ => open_endpoint id dir (s <| lv_downgraded := true |>)
        end
    | None => open_endpoint id dir (s <| lv_downgraded := true |>)
    end
  else open_endpoint id dir s.

Definition live_open (s : WindowsCaptureSource) (id : string) (dir : AudioDirection)
    : WindowsCaptureSource * result Z CaptureErr :=
  let '(s, r) := open_stream id dir s in
  match r with
  | Err e => (s, Err e)
  | Ok st =>
      let '(st, r) := stream_start st in
      match r with
      | Err e => (s, Err e)
      | Ok _ =>
          let h := lv_next_handle s in
          (s <| lv_next_handle := h + 1 |>
             <| lv_streams := <[h := {| os_stream := st; os_buffered := [] |}]> (lv_streams s) |>, Ok h)
      end
  end.

(** What one buffer of the engine adds: a frame of silence for a gap, then its samples. *)
Definition expand (b : CapturedBuffer) : list Z :=
  (if cb_discontinuity b then repeat 0 FRAME_SAMPLES else []) ++ cb_samples b.

(** The top-up loop for [want] samples. A round that does not stop adds at least one
    sample, so [fuel] of [want] rounds is enough. *)
Fixpoint top_up (fuel want : nat) (o : OpenStream) : OpenStream * result unit CaptureErr :=
  match fuel with
  | O => (o, Ok tt)
  | S fuel' =>
      if (want <=? length (os_buffered o))%nat then (o, Ok tt)
      else
        let '(st, r) := stream_read (os_stream o) in
        let o := o <| os_stream := st |> in
        match r with
        | Err e => (o, Err e)
        | Ok None => (o, Ok tt)
        | Ok (Some b) =>
            let o := if cb_discontinuity b
                     then o <| os_buffered := os_buffered o ++ repeat 0 FRAME_SAMPLES |> else o in
            if bool_decide (cb_samples b = []) then (o, Ok tt)
            else top_up fuel' want (o <| os_buffered := os_buffered o ++ cb_samples b |>)
        end
  end.

Definition live_read_frames (s : WindowsCaptureSource) (h : Z) (want : nat)
    : WindowsCaptureSource * result (list Z) CaptureErr :=
  match lv_streams s !! h with
  | None => (s, Err (BadHandle h))
  | Some o =>
      let '(o, r) := top_up want want o in
      let put o := s <| lv_streams := <[h := o]> (lv_streams s) |> in
      match r with
      | Err e => (put o, Err e)
      | Ok _ => (put (o <| os_buffered := drop want (os_buffered o) |>), Ok (take want (os_buffered o)))
      end
  end.

Definition live_close (s : WindowsCaptureSource) (h : Z) : WindowsCaptureSource * result unit CaptureErr :=
  (s <| lv_streams := delete h (lv_streams s) |>, Ok tt).

Definition live_subscribe (s : WindowsCaptureSource) : WindowsCaptureSource * result unit CaptureErr :=
  (s <| lv_subscribers := S (lv_subscribers s) |>, Ok tt).

#[export] Instance live_source : CaptureSource WindowsCaptureSource := {|
  src_enumerate s := enumerate_endpoints (lv_engine s);
  src_open := live_open;
  src_read_frames := live_read_frames;
|}.

(** ** Properties *)

Definition packet_samples (p : Packet) : list Z :=
  if pk_silent p then repeat 0 (length (pk_frames p)) else pk_frames p.

(** Draining takes every packet in order and remembers a gap anywhere among them. *)
Lemma drain_packets_all ps samples disc sil :
  Forall (fun p => pk_frames p <> [] /\ pk_release p = Ok tt) ps ->
  drain_packets (GbPacket <$> ps) samples disc sil =
    ([], Ok {| cb_samples := samples ++ (ps ≫= packet_samples);
               cb_discontinuity := disc || existsb pk_discontinuity ps; cb_silent := sil || existsb pk_silent ps |}).
Proof.
  intros Hp. revert samples disc sil. induction Hp as [|p ps [Hf Hr] Hp IH]; intros samples disc sil.
  { cbn. by rewrite app_nil_r, !orb_false_r. }
  cbn [fmap list_fmap drain_packets]. rewrite bool_decide_eq_false_2 by done. rewrite Hr.
  rewrite (IH _ _ _). cbn [mbind list_bind existsb]. unfold packet_samples at 3.
  by rewrite <- (assoc_L (++)), !orb_assoc.
Qed.

(** A device lost in the middle of a drain takes the packets already drained with it. *)
Lemma invalidation_drops_drained ps :
  Forall (fun p => pk_frames p <> [] /\ pk_release p = Ok tt) ps ->
  (process_read true ((GbPacket <$> ps) ++ [GbInvalidated])).2 = Err DeviceInvalidated.
Proof.
  intros Hp.
  assert (forall samples disc sil,
    (drain_packets ((GbPacket <$> ps) ++ [GbInvalidated]) samples disc sil).2 = Err DeviceInvalidated) as H.
  { induction Hp as [|p ps [Hf Hr] Hp IH]; intros samples disc sil; [done|].
    cbn [fmap list_fmap app drain_packets]. rewrite bool_decide_eq_false_2 by done. rewrite Hr. apply IH. }
  unfold process_read. specialize (H [] false false). cbn [negb].
  destruct (drain_packets _ _ _ _) as [l r]. cbn in H. by subst r.
Qed.

(** The buffers taken from a stream, in order. *)
Inductive reads : St -> list CapturedBuffer -> St -> Prop :=
| reads_nil st : reads st [] st
| reads_some st st' st'' b bs : stream_read st = (st', Ok (Some b)) -> reads st' bs st'' -> reads st (b :: bs) st''
| reads_other st st' r : stream_read st = (st', r) -> (forall b, r <> Ok (Some b)) -> reads st [] st'.

(** The loop buffers what it reads, and stops for a reason. *)
Lemma top_up_spec fuel want o o' r :
  (want <= length (os_buffered o) + fuel)%nat -> top_up fuel want o = (o', r) ->
  exists bs, reads (os_stream o) bs (os_stream o') /\ os_buffered o' = os_buffered o ++ (bs ≫= expand) /\
    (r = Ok tt -> (length (os_buffered o') < want)%nat ->
       exists st, (stream_read st).1 = os_stream o' /\
         ((stream_read st).2 = Ok None \/ exists b, (stream_read st).2 = Ok (Some b) /\ cb_samples b = [])).
Proof.
  revert o. induction fuel as [|fuel IH]; intros o Hf; cbn [top_up].
  { intros [= <- <-]. exists []. split; [constructor|]. split; [by cbn; rewrite app_nil_r|]. lia. }
  destruct (Nat.leb_spec want (length (os_buffered o))).
  { intros [= <- <-]. exists []. split; [constructor|]. split; [by cbn; rewrite app_nil_r|]. lia. }
  destruct (stream_read (os_stream o)) as [st [[b|]|e]] eqn:Hr.
  - unfold expand in *. case_bool_decide as Hs.
    + intros [= <- <-]. exists [b]. destruct (cb_discontinuity b) eqn:Hd; cbn; rewrite ?Hd, Hs, ?(right_id_L [] (++));
        (split; [by eapply reads_some; [|constructor]|split; [done|]]); intros _ _; exists (os_stream o);
        rewrite Hr; split; try done; right; by eexists.
    + intros Ht. apply IH in Ht as (bs & Hrd & Hb & Hst).
      2: { destruct (cb_samples b); [done|]. destruct (cb_discontinuity b); cbn; rewrite ?length_app; cbn; lia. }
      exists (b :: bs). split; [eapply reads_some; [exact Hr|]; by destruct (cb_discontinuity b)|].
      split; [|exact Hst]. rewrite Hb. cbn [mbind list_bind].
      destruct (cb_discontinuity b); cbn [os_buffered upd]; rewrite <- !(assoc_L (++)); done.
  - intros [= <- <-]. exists []. split; [eapply reads_other; [exact Hr|done]|].
    split; [by cbn; rewrite app_nil_r|]. intros _ _. exists (os_stream o). rewrite Hr. auto.
  - intros [= <- <-]. exists []. split; [eapply reads_other; [exact Hr|done]|].
    split; [by cbn; rewrite app_nil_r|]. done.
Qed.

(** The far side of a tier A session is the softphone's own stream as long as the
    source still calls itself tier A. *)
Lemma tier_a_is_process s id s' h pid :
  lv_tier s = TierA -> live_open s id DirRender = (s', Ok h) -> live_effective_tier s' = TierA ->
  softphone_pid s = Some pid ->
  exists st, (process_open (lv_engine s) pid).2 = Ok st /\ lv_downgraded s = false.
Proof.
  intros Ht. unfold live_open, open_stream, live_effective_tier, open_endpoint. rewrite Ht.
  rewrite !bool_decide_eq_true_2 by done. intros H He Hp. rewrite Hp in H.
  destruct (lv_downgraded s) eqn:Hd; cbn [negb andb] in H.
  - exfalso. destruct (endpoint_open _ _ _) as [g [st|e]]; [|done]. destruct (stream_start st) as [st' [[]|e]]; [|done].
    injection H as <- _. cbn in He. by rewrite Hd in He.
  - destruct (process_open _ pid) as [g [st|e]]; [by exists st|]. exfalso.
    destruct (endpoint_open _ _ _) as [g' [st|e']]; [|done]. destruct (stream_start st) as [st' [[]|e']]; [|done].
    by injection H as <- _.
Qed.

(** C35: No sample is lost, reordered or invented by the live source: what a read hands
    out and what it keeps is, in order, what it had kept followed by what the engine
    delivered, with one frame of zeros where the engine reported a gap; when the engine fails in
    the middle of a read, what it had delivered before is kept; a short read means the engine had no more; and other streams
    are not touched. *)
Theorem live_read_in_order s h want o s' r :
  lv_streams s !! h = Some o -> src_read_frames s h want = (s', r) ->
  exists o' bs, lv_streams s' = <[h := o']> (lv_streams s) /\ reads (os_stream o) bs (os_stream o') /\
    match r with
    | Ok out => os_buffered o ++ (bs ≫= expand) = out ++ os_buffered o' /\ (length out <= want)%nat /\
        ((length out < want)%nat -> os_buffered o' = [] /\
           exists st, (stream_read st).1 = os_stream o' /\
             ((stream_read st).2 = Ok None \/ exists b, (stream_read st).2 = Ok (Some b) /\ cb_samples b = []))
    | Err _ => os_buffered o' = os_buffered o ++ (bs ≫= expand)
    end.
Proof.
  intros Ho. cbn [src_read_frames live_source]. unfold live_read_frames. rewrite Ho.
  destruct (top_up want want o) as [o1 x] eqn:Ht. apply top_up_spec in Ht as (bs & Hr & Hb & Hst); [|lia].
  destruct x as [[]|e]; intros [= <- <-].
  - exists (o1 <| os_buffered := drop want (os_buffered o1) |>), bs. split; [done|]. split; [done|].
    cbn. rewrite take_drop, length_take. split; [done|]. split; [lia|]. intros Hl.
    split; [apply drop_ge; lia|]. apply Hst; [done|lia].
  - exists o1, bs. by split_and!.
Qed.
End live.
Arguments WindowsCaptureSource : clear implicits.

(** An engine that plays a list of buffers. *)
#[export] Instance scripted_engine : AudioEngine unit (list CapturedBuffer) := {|
  process_open g _ := (g, Err (SoftphoneNotFound "none"));
  endpoint_open g _ _ := (g, Ok []);
  stream_start st := (st, Ok tt);
  stream_read st := match st with [] => ([], Ok None) | b :: st => (st, Ok (Some b)) end;
  enumerate_endpoints _ := Ok [];
|}.

Lemma live_read_witness :
  exists o' bs,
    reads (St := list CapturedBuffer) [{| cb_samples := [5; 6; 7]; cb_discontinuity := false; cb_silent := false |}] bs (os_stream o') /\
    [4] ++ (bs ≫= expand) = [4; 5] ++ os_buffered o'.
Proof.
  destruct (live_read_in_order
    {| lv_engine := tt; lv_tier := TierB; softphone_pid := None;
       lv_streams := {[ 1 := {| os_stream := [{| cb_samples := [5; 6; 7]; cb_discontinuity := false; cb_silent := false |}];
                                os_buffered := [4] |} ]};
       lv_next_handle := 2; lv_downgraded := false; lv_subscribers := 0 |} 1 2
    {| os_stream := [{| cb_samples := [5; 6; 7]; cb_discontinuity := false; cb_silent := false |}]; os_buffered := [4] |}
    {| lv_engine := tt; lv_tier := TierB; softphone_pid := None;
       lv_streams := {[ 1 := {| os_stream := []; os_buffered := [6; 7] |} ]};
       lv_next_handle := 2; lv_downgraded := false; lv_subscribers := 0 |} (Ok [4; 5]))
    as (o' & bs & _ & Hr & Hb & _); [reflexivity|reflexivity|].
  exists o', bs. split; [exact Hr|exact Hb].
Defined.
