(* ===== verification/Position.v ===== *)
(** Where the widget was left (sentinel-agent/src/widget/position.rs): one small file per
    user. The text form of a rectangle is a parameter, files are those of Files.v. *)

From S2P Require Import Prelude Text Utf8 Files Widget ConfigSync.

(** [state_dir]: the platform test and the environment are arguments. *)
Definition state_dir (windows : bool) (env : string -> option string) : string :=
  if windows then
    default "." (match env "LOCALAPPDATA" with Some b => Some b | None => env "APPDATA" end)
      +:+ "\MagickVoice\Sentinel"
  else default "/tmp" (env "XDG_STATE_HOME") +:+ "/magickvoice-sentinel".

Section position.
Context `{!FileJson Rect}.

Definition position_load (uid : string) (d : Disk) : Disk * Rect :=
  let '(d, r) := fs_read_to_string (path_for uid) d in
  (d, default DEFAULT_RECT (s ← res_ok r; file_from_str s)).

Definition position_save (uid : string) (rect : Rect) : Disk -> Disk * result unit IoError :=
  let! _ := fs_create_dir_all in
  let! text := fun d => (d, map_err IoOther (to_vec_pretty rect)) in
  fs_write (path_for uid) text.

(** ** Properties *)

(** What a file name keeps of a uid. *)
Definition uid_char (c : ascii) : bool :=
  is_ascii_alphanumeric c || bool_decide (c = "-"%char) || bool_decide (c = "_"%char).

(** The file stays in its directory: the name holds no separator, no drive, no [..]. *)
Lemma path_contained uid c :
  c ∈ chars (path_for uid) -> uid_char c = true \/ c = "."%char.
Proof.
  unfold path_for. rewrite !chars_app, chars_str, !elem_of_app. intros [H|[H|H]].
  - left. vm_compute in H. by repeat (apply elem_of_cons in H as [->|H]; [reflexivity|]); apply not_elem_of_nil in H.
  - left. apply elem_of_take in H as (i & H & _). apply list_elem_of_lookup_2, list_elem_of_filter in H as [H _].
    exact H.
  - change (chars ".json") with (["."; "j"; "s"; "o"; "n"]%char) in H.
    apply elem_of_cons in H as [->|H]; [by right|left].
    by repeat (apply elem_of_cons in H as [->|H]; [reflexivity|]); apply not_elem_of_nil in H.
Qed.

Context `{!FileJsonLaws Rect}.

(** A position that was saved is the one loaded, and the other users' are as they were. *)
Lemma position_roundtrip uid rect d d' :
  position_save uid rect d = (d', Ok tt) -> faults d' = [] ->
  (position_load uid d').2 = rect /\
  forall other, path_for other <> path_for uid -> files d' !! path_for other = files d !! path_for other.
Proof.
  unfold position_save, bindM. pose proof (fs_touch_files d) as H1. destruct (fs_touch d) as [d1 [[]|e]]; [|done].
  cbn [fst] in H1. destruct (to_vec_pretty rect) as [text|] eqn:Ht; [|done]. cbn [map_err].
  unfold fs_write, next_fault. destruct (faults d1) as [|[f|] fs] eqn:Hf1; [|done|]; intros [= <-] Hf; cbn in Hf.
  all: split; [|intros other Ho; cbn; rewrite lookup_insert_ne by congruence; by rewrite H1].
  all: unfold position_load, fs_read_to_string, fs_read, next_fault; cbn -[is_utf8]; rewrite ?Hf, ?Hf1; cbn -[is_utf8];
    rewrite lookup_insert_eq; cbn -[is_utf8]; rewrite (file_utf8 _ _ Ht); cbn; by rewrite (file_roundtrip _ _ Ht).
Qed.
End position.

(** Two names can still meet: what is dropped no longer tells them apart. *)
Lemma path_collision : path_for "a.b" = path_for "ab".
Proof. reflexivity. Qed.
