(* ===== verification/IpcClient.v ===== *)
(** The agent's side of the control pipe (sentinel-agent/src/ipc.rs) and the start-up
    configuration it fetches (load_config of sentinel-agent/src/main.rs). What the pipe
    does - the attempts to open it, the write, the reads - is an argument. *)

From S2P Require Import Prelude Text Config Utf8 Ipc.

Inductive IpcClientError :=
| ClUnavailable
| ClIo (why : string)
| ClService (ecode message : string)
| ClUnexpected.

(** [CreateFileW] on the pipe's name. *)
Inductive OpenAttempt := Opened | PipeBusy | NotOpened.

(** The pipe as one request sees it. *)
Record PipeIo := {
  pi_attempts : nat -> OpenAttempt;
  pi_write : list u8 -> result unit string;
  pi_reads : list (result (list u8) string);
}.

Definition OPEN_ATTEMPTS : nat := 3.

Fixpoint open_attempts (n k : nat) (attempts : nat -> OpenAttempt) : result unit IpcClientError :=
  match n with
  | O => Err ClUnavailable
  | S n' =>
      match attempts k with
      | Opened => Ok tt
      | PipeBusy => open_attempts n' (S k) attempts
      | NotOpened => Err ClUnavailable
      end
  end.
Definition open_control_pipe (attempts : nat -> OpenAttempt) : result unit IpcClientError :=
  open_attempts OPEN_ATTEMPTS 0 attempts.

Section client.
Context {Rq : IpcJson Request} {Rs : IpcJson Response}.

Definition ipc_io {A} (r : result A IpcError) : result A IpcClientError :=
  map_err (fun e => ClIo (ipc_error_string e)) r.

Definition reply_result (r : Response) : result Response IpcClientError :=
  match r with
  | RespError ecode message => Err (ClService ecode message)
  | other => Ok other
  end.

(** The read loop; the peer is gone at the end of the list. *)
Fixpoint read_reply (reads : list (result (list u8) string)) (r : FrameReader)
    : result Response IpcClientError :=
  match reads with
  | [] => Err ClUnavailable
  | rd :: reads' =>
      let? chunk := map_err ClIo rd in
      if bool_decide (chunk = []) then Err ClUnavailable
      else
        let '(r, f) := next_frame (feed_chunk r chunk) in
        let? f := ipc_io f in
        match f with
        | Some body => let? response := ipc_io (ipc_decode body) in reply_result response
        | None => read_reply reads' r
        end
  end.

Definition request (p : PipeIo) (req : Request) : result Response IpcClientError :=
  let? _ := open_control_pipe (pi_attempts p) in
  let? f := ipc_io (ipc_encode req) in
  let? _ := map_err ClIo (pi_write p f) in
  read_reply (pi_reads p) FrameReader_new.

(** [NullServiceClient] *)
Definition null_request (_ : Request) : result Response IpcClientError := Err ClUnavailable.

(** [service_client] and [load_config]; [None] is a build without the pipe. *)
Definition service_request (windows : bool) (p : PipeIo) : Request -> result Response IpcClientError :=
  if windows then request p else null_request.

Definition load_config (windows : bool) (programdata : option string) (p : PipeIo)
    : ConfigSnapshot * option string :=
  match service_request windows p GetConfig with
  | Ok (RespConfig c) => (c, None)
  | Ok _ | Err _ =>
      ({| snap_local := LocalConfig_default windows programdata; snap_policy := None;
          snap_capture_tier := None; snap_os_build := "0.0.0"; snap_service_version := "unknown";
          snap_agent_restarts := 0 |},
       Some "service config unavailable; continuing on local defaults")
  end.

(** ** Properties *)

Lemma open_busy attempts k : (k < OPEN_ATTEMPTS)%nat ->
  (forall i, (i < k)%nat -> attempts i = PipeBusy) -> attempts k = Opened -> open_control_pipe attempts = Ok tt.
Proof.
  unfold open_control_pipe. intros Hk Hb Ho.
  assert (forall n j, (j <= k)%nat -> (k - j < n)%nat -> open_attempts n j attempts = Ok tt) as H.
  { induction n as [|n IH]; intros j Hj Hn; [lia|]. cbn [open_attempts].
    destruct (decide (j = k)) as [->|]; [by rewrite Ho|]. rewrite Hb by lia. apply IH; lia. }
  apply H; lia.
Qed.

(** A reply is found in whatever pieces its bytes arrive. *)
Lemma read_reply_frame chunks r body extra :
  Forall (fun c => c <> []) chunks -> body_ok body ->
  buf r ++ concat chunks = frame body ++ extra -> next_frame r = (r, Ok None) ->
  read_reply (Ok <$> chunks) r = (let? response := ipc_io (ipc_decode body) in reply_result response).
Proof.
  intros Hne Hb. pose proof (next_frame_frame body extra Hb) as Hw. revert r.
  induction Hne as [|c chunks Hc Hne IH]; intros r Heq Hn.
  - cbn [concat] in Heq. rewrite (right_id_L [] (++)) in Heq. destruct r as [b]. cbn [buf] in Heq. subst b.
    by rewrite Hw in Hn.
  - cbn [fmap list_fmap read_reply map_err res_bind]. rewrite bool_decide_eq_false_2 by done.
    assert (feed_chunk (feed_chunk r c) (concat chunks) = {| buf := frame body ++ extra |}) as Hf.
    { unfold feed_chunk. cbn [upd buf]. rewrite <- (assoc_L (++)). f_equal. exact Heq. }
    pose proof (next_frame_stable (feed_chunk r c) (concat chunks)) as Hs.
    destruct (next_frame (feed_chunk r c)) as [r1 [[b|]|e]] eqn:H1; cbn [ipc_io map_err res_bind].
    + destruct Hs as [Hs _]. rewrite Hf, Hw in Hs. by injection Hs as _ ->.
    + subst r1. apply IH; [|by rewrite H1]. unfold feed_chunk in *. cbn [upd buf] in *.
      by injection Hf as ->.
    + destruct Hs as [_ Hs]. by rewrite Hf, Hw in Hs.
Qed.
End client.

Section roundtrip.
Context {Rq : IpcJson Request} {Rs : IpcJson Response} {Rql : IpcJsonLaws Request} {Rsl : IpcJsonLaws Response}.

Lemma ipc_decode_own {A} {Ij : IpcJson A} {Il : IpcJsonLaws A} (m : A) j : to_vec m = Ok j -> ipc_decode j = Ok m.
Proof.
  intros Hj. destruct (json_roundtrip m j Hj) as (Hne & Hu & Hr). unfold ipc_decode.
  destruct j; [done|]. by rewrite Hu, Hr.
Qed.

Lemma ipc_encode_ok {A} {Ij : IpcJson A} {Il : IpcJsonLaws A} (m : A) f :
  ipc_encode m = Ok f -> exists j, to_vec m = Ok j /\ f = frame j /\ body_ok j.
Proof.
  unfold ipc_encode. destruct (to_vec m) as [j|] eqn:Hj; [|done]. cbn.
  destruct (Z.ltb_spec MAX_FRAME_BYTES (len j)); [done|].
  intros [= <-]. exists j. split_and!; [done..|]. split; [by eapply json_roundtrip|done].
Qed.

(** The agent starts on the service's configuration: whichever way the pipe splits
    the request on its way up and the reply on its way down, the service answers the one
    request and [load_config] returns the snapshot of the service's state - also when the
    pipe's instances were all busy at first. *)
Theorem load_config_reads_the_service version s (p : PipeIo) f o up down busy programdata :
  (busy < OPEN_ATTEMPTS)%nat ->
  (forall i, (i < busy)%nat -> pi_attempts p i = PipeBusy) -> pi_attempts p busy = Opened ->
  ipc_encode GetConfig = Ok f -> len f <= MAX_FRAME_BYTES -> pi_write p f = Ok tt ->
  Forall (fun c => c <> []) up -> concat up = f ->
  ipc_encode (handle version s GetConfig).2 = Ok o ->
  Forall (fun c => c <> []) down -> concat down = o -> pi_reads p = Ok <$> down ->
  conn_pump version up FrameReader_new s [] = (s, [o], Finished) /\
  exists c, (handle version s GetConfig).2 = RespConfig c /\ load_config true programdata p = (c, None).
Proof.
  intros Hk Hb Hop Hf Hl Hw Hup Hcu Ho Hdn Hcd Hrd. split.
  - apply ipc_encode_ok in Hf as Hf'. destruct Hf' as (j & Hj & -> & Hbo). rewrite length_frame in Hl.
    eapply (conn_pump_drain version up FrameReader_new s [] [j] s [o]); try done.
    + repeat constructor; [apply Hbo|]. lia.
    + unfold feed_chunk. cbn [upd buf FrameReader_new app]. rewrite Hcu.
      pose proof (drain_frames [j]) as Hd. cbn in Hd. rewrite (right_id_L [] (++)) in Hd. apply Hd. by constructor.
    + cbn [answer_all]. unfold answer. rewrite (ipc_decode_own GetConfig j Hj).
      assert ((handle version s GetConfig).1 = s) as Hs by done.
      destruct (handle version s GetConfig) as [s1 r1]. cbn in Hs, Ho |- *. subst s1. by rewrite Ho.
  - eexists. split; [reflexivity|]. unfold load_config, service_request, request.
    rewrite (open_busy _ busy) by done. rewrite Hf. cbn [map_err ipc_io res_bind]. rewrite Hw. cbn [map_err res_bind].
    apply ipc_encode_ok in Ho as (j & Hj & Hfr & Hbo).
    rewrite Hrd, (read_reply_frame down FrameReader_new j []); [|done|done| |done].
    + rewrite (ipc_decode_own _ j Hj). done.
    + by rewrite (right_id_L [] (++)), Hcd.
Qed.
End roundtrip.

(** ** A concrete exchange *)

#[local] Instance VadConfig_eq_dec : EqDecision VadConfig.
Proof. solve_decision. Defined.
#[local] Instance PinnedDevice_eq_dec : EqDecision PinnedDevice.
Proof. solve_decision. Defined.
#[local] Instance SoftphoneConfig_eq_dec : EqDecision SoftphoneConfig.
Proof. solve_decision. Defined.
#[local] Instance Retention_eq_dec : EqDecision Retention.
Proof. solve_decision. Defined.
#[local] Instance Policy_eq_dec : EqDecision Policy.
Proof. solve_decision. Defined.
#[local] Instance SpoolLimits_eq_dec : EqDecision SpoolLimits.
Proof. solve_decision. Defined.
#[local] Instance OidcSettings_eq_dec : EqDecision OidcSettings.
Proof. solve_decision. Defined.
#[local] Instance TelemetrySettings_eq_dec : EqDecision TelemetrySettings.
Proof. solve_decision. Defined.
#[local] Instance LocalConfig_eq_dec : EqDecision LocalConfig.
Proof. solve_decision. Defined.
#[local] Instance ConfigSnapshot_eq_dec : EqDecision ConfigSnapshot.
Proof. solve_decision. Defined.

Definition demo_pipe_state : ServiceState :=
  {| ss_local := LocalConfig_default true None; ss_policy := None; ss_tier := Some "B";
     ss_os_build := "10.0.22631"; ss_restarts := 2; ss_agent_state := "IDLE";
     ss_update_requested := false; ss_staged_version := None |}.
Definition demo_snapshot : ConfigSnapshot :=
  {| snap_local := LocalConfig_default true None; snap_policy := None; snap_capture_tier := Some "B";
     snap_os_build := "10.0.22631"; snap_service_version := "0.1.0"; snap_agent_restarts := 2 |}.

(** A codec that knows one request and one reply. *)
Module wire.
#[export] Instance get_json : IpcJson Request := {|
  to_vec q := match q with GetConfig => Ok [Byte.x67] | _ => Err "not here" end;
  from_str s := if bool_decide (s = "g") then Ok GetConfig else Err "unknown";
|}.
#[export] Instance config_json : IpcJson Response := {|
  to_vec r := match r with
              | RespConfig c => if decide (c = demo_snapshot) then Ok [Byte.x63; Byte.x66; Byte.x67] else Err "not here"
              | _ => Err "not here"
              end;
  from_str s := if bool_decide (s = "cfg") then Ok (RespConfig demo_snapshot) else Err "unknown";
|}.
#[export] Instance get_laws : IpcJsonLaws Request.
Proof. intros [] j; cbn; try done. intros [= <-]. by vm_compute. Qed.
#[export] Instance config_laws : IpcJsonLaws Response.
Proof. intros [c| | |] j; cbn; try done. case_decide; [subst|done]. intros [= <-]. by vm_compute. Qed.
End wire.

Lemma load_config_witness :
  load_config (Rq := wire.get_json) (Rs := wire.config_json) true None
    {| pi_attempts i := match i with O => PipeBusy | _ => Opened end; pi_write _ := Ok tt;
       pi_reads := Ok <$> [[Byte.x03; Byte.x00]; [Byte.x00; Byte.x00; Byte.x63]; [Byte.x66; Byte.x67]] |}
  = (demo_snapshot, None).
Proof.
  pose proof (load_config_reads_the_service (Rql := wire.get_laws) (Rsl := wire.config_laws) "0.1.0" demo_pipe_state
    {| pi_attempts i := match i with O => PipeBusy | _ => Opened end; pi_write _ := Ok tt;
       pi_reads := Ok <$> [[Byte.x03; Byte.x00]; [Byte.x00; Byte.x00; Byte.x63]; [Byte.x66; Byte.x67]] |}
    [Byte.x01; Byte.x00; Byte.x00; Byte.x00; Byte.x67]
    [Byte.x03; Byte.x00; Byte.x00; Byte.x00; Byte.x63; Byte.x66; Byte.x67]
    [[Byte.x01; Byte.x00; Byte.x00]; [Byte.x00; Byte.x67]]
    [[Byte.x03; Byte.x00]; [Byte.x00; Byte.x00; Byte.x63]; [Byte.x66; Byte.x67]] 1 None) as H.
  destruct H as [_ (c & Hc & Hl)].
  - vm_compute. lia.
  - intros [|i] Hi; [done|lia].
  - done.
  - vm_compute. reflexivity.
  - vm_compute. discriminate.
  - done.
  - repeat constructor; discriminate.
  - done.
  - vm_compute. reflexivity.
  - repeat constructor; discriminate.
  - done.
  - done.
  - injection Hc as <-. exact Hl.
Defined.
