(* ===== verification/Socket.v ===== *)
(** The ingest socket (sentinel-agent/src/uplink/transport.rs, WsTransport) and the
    factory that opens it with the current token (WssFactory of
    sentinel-agent/src/main.rs). tungstenite, rustls, TCP and the platform's trust store
    are the interfaces [WsNet] and [WsSocket]. *)

From S2P Require Import Prelude Text Protocol Config Spool Backoff Uplink Credential.

Definition SUBPROTOCOL : string := "sentinel.v1".

Record ClientCertificate {K : Type} := { cc_certified_key : CertifiedKey K }.
Arguments ClientCertificate : clear implicits.

Record ConnectParams {K : Type} := {
  cp_url : string;
  bearer_token : string;
  client_cert : option (ClientCertificate K);
}.
Arguments ConnectParams : clear implicits.

(** rustls' client configuration: trust roots, and what the resolver answers. *)
Record MtlsConfig {K : Type} := { mt_roots : list string; mt_identity : CertifiedKey K }.
Arguments MtlsConfig : clear implicits.

(** The upgrade request and the TLS client it is sent through; no [hs_tls] is
    tungstenite's default connector, which presents no certificate. *)
Record Handshake {K : Type} := {
  hs_url : string;
  hs_headers : list (string * string);
  hs_addr : string;
  hs_tls : option (MtlsConfig K);
}.
Arguments Handshake : clear implicits.

Class WsNet (N S K : Type) := {
  into_client_request : string -> result unit string;
  header_value_ok : string -> bool;
  root_add_ok : string -> bool;
  load_native_certs : N -> N * (list string * list string);
  tcp_connect : N -> string -> N * result unit string;
  ws_handshake : N -> Handshake K -> N * result S string;
}.

(** What a read of the socket yields. *)
Inductive WsRead :=
| RdText (t : string)
| RdBinary (b : list u8)
| RdClose (code : option Z)
| RdOther
| RdWouldBlock
| RdGone
| RdError (why : string).

Class WsSocket (S : Type) := {
  ws_send_text : S -> string -> S * result unit string;
  ws_send_binary : S -> list u8 -> S * result unit string;
  ws_read : S -> Z -> S * WsRead;
  ws_close : S -> S;
}.

Section socket.
Context {N S K : Type} `{!WsNet N S K} `{!WsSocket S}.

Definition rustls_native_certs (n : N) : N * result (list string) TransportError :=
  let '(n, (certs, errors)) := load_native_certs n in
  (n, match certs, errors with
      | [], e :: _ => Err (TeConnect ("no system trust roots: " +:+ e))
      | _, _ => Ok certs
      end).

(** Roots the store refuses are left out. *)
Definition build_mtls_config (cert : ClientCertificate K) (n : N) : N * result (MtlsConfig K) TransportError :=
  let '(n, r) := rustls_native_certs n in
  (n, let? certs := r in
      if bool_decide (ck_cert (cc_certified_key cert) = []) then
        Err (TeConnect "device certificate chain is empty")
      else Ok {| mt_roots := base.filter root_add_ok certs; mt_identity := cc_certified_key cert |}).

Definition ws_request (p : ConnectParams K) : result (list (string * string)) TransportError :=
  let? _ := map_err TeConnect (into_client_request (cp_url p)) in
  let bearer := "Bearer " +:+ bearer_token p in
  if negb (header_value_ok bearer) then Err (TeConnect "malformed bearer token")
  else if negb (header_value_ok SUBPROTOCOL) then Err (TeConnect "bad subprotocol")
  else Ok [("Authorization", bearer); ("Sec-WebSocket-Protocol", SUBPROTOCOL)].

Definition ws_connector (c : option (ClientCertificate K)) : N -> N * result (option (MtlsConfig K)) TransportError :=
  match c with
  | Some cert => let! m := build_mtls_config cert in ret (Some m)
  | None => ret None
  end.

Definition net_op {A} (m : N -> N * result A string) : N -> N * result A TransportError :=
  fun n => let '(n, r) := m n in (n, map_err TeConnect r).

Definition WsTransport_connect (p : ConnectParams K) : N -> N * result S TransportError :=
  let! _ := fun n => (n, validate_url (cp_url p)) in
  let! headers := fun n => (n, ws_request p) in
  let! tls := ws_connector (client_cert p) in
  let! addr := fun n => (n, host_port (cp_url p)) in
  let! _ := net_op (fun n => tcp_connect n addr) in
  net_op (fun n => ws_handshake n {| hs_url := cp_url p; hs_headers := headers; hs_addr := addr; hs_tls := tls |}).

(** [impl Transport for WsTransport] *)
#[export] Instance ws_transport : Transport S := {|
  send_text s t := let '(s, r) := ws_send_text s t in (s, map_err TeIo r);
  send_binary s b := let '(s, r) := ws_send_binary s b in (s, map_err TeIo r);
  recv s timeout :=
    let '(s, r) := ws_read s timeout in
    (s, match r with
        | RdText t => Ok (Some (InText t))
        | RdBinary b => Ok (Some (InBinary b))
        | RdClose code => Ok (Some (InClosed code))
        | RdOther | RdWouldBlock => Ok None
        | RdGone => Ok (Some (InClosed None))
        | RdError why => Err (TeIo why)
        end);
  close s := (ws_close s, Ok tt);
|}.

(** ** The factory *)

(** [wf_token] is the cell shared with the main loop. *)
Record WssFactory := {
  wf_url : string;
  wf_token : string;
  wf_cert : option (ClientCertificate K);
  wf_net : N;
}.

#[export] Instance rebuild_WssFactory : Rebuild WssFactory := fun f =>
  {| wf_url := wf_url f; wf_token := wf_token f; wf_cert := wf_cert f; wf_net := wf_net f |}.

#[export] Instance wss_factory : TransportFactory WssFactory S := fun f =>
  let '(n, r) := WsTransport_connect
    {| cp_url := wf_url f; bearer_token := wf_token f; client_cert := wf_cert f |} (wf_net f) in
  (f <| wf_net := n |>, r).
End socket.
Arguments WssFactory : clear implicits.

(** ** Properties *)

Fixpoint take_till (p : ascii -> bool) (l : list ascii) : list ascii :=
  match l with [] => [] | a :: l' => if p a then [] else a :: take_till p l' end.

Lemma split_l_head p l cur : head (split_l p l cur) = Some (reverse cur ++ take_till p l).
Proof.
  revert cur. induction l as [|a l IH]; intros cur; cbn [split_l take_till head].
  - by rewrite (right_id_L [] (++)).
  - destruct (p a); [cbn; by rewrite (right_id_L [] (++))|]. rewrite IH, reverse_cons, <- (assoc_L (++)). done.
Qed.

Lemma split_on_head p s : head (split_on p s) = Some (str (take_till p (chars s))).
Proof.
  unfold split_on. pose proof (split_l_head p (chars s) []) as H. destruct (split_l _ _ _); [done|].
  cbn in H |- *. by injection H as ->.
Qed.

Lemma take_till_or p q l : take_till (fun a => p a || q a) l = take_till q (take_till p l).
Proof. induction l as [|a l IH]; [done|]. cbn. destruct (p a); [done|]. cbn. destruct (q a); [done|]. by rewrite IH. Qed.

Lemma take_till_cut c l : c ∈ l ->
  exists rest, l = take_till (fun a => bool_decide (a = c)) l ++ c :: rest.
Proof.
  induction l as [|a l IH]; [set_solver|]. cbn [take_till]. case_bool_decide as Ha; [subst; by exists l|].
  intros [?|Hc]%elem_of_cons; [done|]. destruct (IH Hc) as [rest Hr]. exists rest. cbn. f_equal. exact Hr.
Qed.

Lemma take_till_all c l : c ∉ l -> take_till (fun a => bool_decide (a = c)) l = l.
Proof.
  induction l as [|a l IH]; [done|]. cbn [take_till]. intros Hc. rewrite bool_decide_eq_false_2 by set_solver.
  rewrite IH by set_solver. done.
Qed.

Lemma strip_ws url rest : strip_prefix "ws://" url = Some rest -> chars url = chars "ws://" ++ chars rest.
Proof.
  unfold strip_prefix. destruct (String.prefix "ws://" url) eqn:Hp; [|done]. intros [= <-].
  rewrite chars_str. do 5 (destruct url as [|? url]; [done|]; cbn [String.prefix] in Hp;
    destruct (ascii_dec _ _) as [<-|]; [|done]). done.
Qed.

(** The address a plaintext URL is dialled at, when it passes the check. *)
Lemma plaintext_is_loopback url addr :
  validate_url url = Ok tt -> starts_with "wss://" url = false -> host_port url = Ok addr ->
  exists host port, (host = "127.0.0.1" \/ host = "localhost") /\ addr = host +:+ ":" +:+ port.
Proof.
  unfold validate_url. intros Hv Hw Ha. rewrite Hw in Hv.
  destruct (strip_prefix "ws://" url) as [rest|] eqn:Hs; [|done]. apply strip_ws in Hs.
  rewrite split_on_head, (take_till_or (fun a => bool_decide (a = "/"%char)) (fun a => bool_decide (a = ":"%char))) in Hv.
  revert Ha. unfold host_port. rewrite Hs.
  change (split_once_str (chars "://") (chars "ws://" ++ chars rest)) with (Some (chars "ws", chars rest)).
  unfold split. rewrite str_chars, split_on_head. cbn [default from_option id].
  set (auth := take_till (fun a => bool_decide (a = "/"%char)) (chars rest)) in *.
  destruct (str_is_empty (str auth)); [done|]. rewrite chars_str.
  change (bool_decide (str (chars "ws") = "wss")) with false. cbn [default from_option id] in Hv.
  set (host := str (take_till (fun a => bool_decide (a = ":"%char)) auth)) in *.
  assert (Hh : host = "127.0.0.1" \/ host = "localhost").
  { destruct (decide (host = "127.0.0.1")); [by left|]. destruct (decide (host = "localhost")); [by right|].
    rewrite !bool_decide_eq_false_2 in Hv by done. cbn [orb] in Hv. case_bool_decide as Hb; [|done].
    exfalso. apply (f_equal chars) in Hb. unfold host in Hb. rewrite chars_str in Hb.
    apply (f_equal (fun l => ":"%char ∈ l)) in Hb. assert (":"%char ∈ chars "[::1]") as Hin by (vm_compute; set_solver).
    rewrite <- Hb in Hin. clear -Hin. induction auth as [|a l IH]; cbn in Hin; [set_solver|].
    case_bool_decide; [set_solver|]. apply elem_of_cons in Hin as [?|?]; [done|auto]. }
  clear Hv. case_bool_decide as Hc; intros [= <-].
  - destruct (take_till_cut _ _ Hc) as [port Hp]. exists host, (str port). split; [done|].
    apply chars_inj. rewrite !chars_app, !chars_str. unfold host. rewrite chars_str. exact Hp.
  - exists host, "80". split; [done|]. unfold host. by rewrite take_till_all.
Qed.

Section socket_props.
Context {N S K : Type} `{!WsNet N S K}.

(** A handshake that carries the parameters and gives nothing away. *)
Record guarded (p : ConnectParams K) (h : Handshake K) : Prop := {
  gd_url : hs_url h = cp_url p;
  gd_headers : hs_headers h = [("Authorization", "Bearer " +:+ bearer_token p); ("Sec-WebSocket-Protocol", SUBPROTOCOL)];
  gd_addr : host_port (cp_url p) = Ok (hs_addr h);
  gd_encrypted : starts_with "wss://" (cp_url p) = true \/
    exists host port, (host = "127.0.0.1" \/ host = "localhost") /\ hs_addr h = host +:+ ":" +:+ port;
  gd_identity : match client_cert p with
    | Some c => exists m, hs_tls h = Some m /\ mt_identity m = cc_certified_key c /\ ck_cert (mt_identity m) <> []
    | None => hs_tls h = None
    end;
}.

(** C29: No audio and no token in the clear: a connection that comes up was made by one
    handshake with the token and the sub-protocol, to the address of the URL, over TLS or
    to the loopback interface. Given a certificate, the handshake presents that chain,
    which is not empty, and no other identity; given none it presents none, also over TLS
    to a remote host. A URL the check refuses opens no socket at all. *)
Theorem ingest_socket_is_guarded (p : ConnectParams K) (n n' : N) r :
  WsTransport_connect p n = (n', r) ->
  (forall e, validate_url (cp_url p) = Err e -> n' = n /\ r = Err e) /\
  (forall s : S, r = Ok s -> exists n1 h, ws_handshake n1 h = (n', Ok s) /\ guarded p h).
Proof.
  unfold WsTransport_connect, bindM. destruct (validate_url (cp_url p)) as [[]|e0] eqn:Hv.
  2: { intros [= <- <-]. split; [intros e [= <-]; done|done]. }
  intros H. split; [done|]. intros s ->.
  destruct (ws_request p) as [hd|] eqn:Hr; [|done].
  destruct (ws_connector (client_cert p) n) as [n1 [tls|]] eqn:Ht; [|done].
  destruct (host_port (cp_url p)) as [addr|] eqn:Ha; [|done].
  unfold net_op in H. destruct (tcp_connect n1 addr) as [n2 [[]|]]; [|done]. cbn [map_err] in H.
  destruct (ws_handshake n2 _) as [n3 [s'|]] eqn:Hh; [|done]. cbn [map_err] in H. injection H as -> ->.
  exists n2. eexists. split; [exact Hh|]. unfold ws_request in Hr.
  destruct (into_client_request _) as [[]|]; [|done]. cbn [map_err res_bind] in Hr.
  destruct (header_value_ok _); [|done]. destruct (header_value_ok _); [|done]. injection Hr as <-.
  split; cbn [hs_url hs_headers hs_addr hs_tls]; try done.
  - destruct (starts_with "wss://" (cp_url p)) eqn:Hw; [by left|right]. by eapply plaintext_is_loopback.
  - unfold ws_connector, bindM in Ht. destruct (client_cert p) as [c|]; [|by injection Ht as _ <-].
    unfold build_mtls_config in Ht. destruct (rustls_native_certs n) as [n4 [certs|]]; [|done]. cbn [res_bind] in Ht.
    case_bool_decide as Hc; [done|]. injection Ht as _ <-. eexists. by split_and!.
Qed.
End socket_props.

(** ** An example *)

(** A network that remembers the addresses dialled. *)
#[export] Instance demo_net : WsNet (list string) unit unit := {|
  into_client_request _ := Ok tt;
  header_value_ok _ := true;
  root_add_ok _ := true;
  load_native_certs n := (n, (["root"], []));
  tcp_connect n a := (n ++ [a], Ok tt);
  ws_handshake n _ := (n, Ok tt);
|}.

Definition demo_cert : ClientCertificate unit :=
  {| cc_certified_key := {| ck_cert := ["leaf"; "ca"]; ck_key := {| dsk_key := tt; dsk_spki := [] |} |} |}.
Definition demo_params (cert : option (ClientCertificate unit)) : ConnectParams unit :=
  {| cp_url := "wss://gw.example/v1/ingest"; bearer_token := "t"; client_cert := cert |}.

Lemma ingest_socket_witness :
  exists n1 (h : Handshake unit), ws_handshake n1 h = (["gw.example:443"], Ok tt) /\
    guarded (demo_params (Some demo_cert)) h /\
    hs_headers h = [("Authorization", "Bearer t"); ("Sec-WebSocket-Protocol", SUBPROTOCOL)] /\
    (fun m => ck_cert (mt_identity m)) <$> hs_tls h = Some ["leaf"; "ca"].
Proof.
  assert (WsTransport_connect (N := list string) (S := unit) (demo_params (Some demo_cert)) [] = (["gw.example:443"], Ok tt))
    as E by (vm_compute; reflexivity).
  destruct (proj2 (ingest_socket_is_guarded _ _ _ _ E) tt eq_refl) as (n1 & h & Hh & Hg).
  exists n1, h. split; [exact Hh|]. split; [exact Hg|]. destruct Hg as [_ Hd _ _ (m & Hm & Hi & _)].
  split; [exact Hd|]. rewrite Hm. cbn. by rewrite Hi.
Defined.

(** Without a certificate the token goes out over TLS all the same. *)
Example no_certificate_no_objection :
  (WsTransport_connect (N := list string) (S := unit) (demo_params None) []).2 = Ok tt.
Proof. vm_compute. reflexivity. Qed.
