(* ===== verification/Startup.v ===== *)
(** The agent process (sentinel-agent/src/main.rs): what [run] resolves before the loop
    - the credential, the spool, the tier, the restored session, the audio source - and
    one turn of the loop. Logging is left out; directories, the database file, the
    platform's audio source and the HTTP client are what the section assumes. *)

From S2P Require Import Prelude Text Protocol Config State Identity Spool Backoff Uplink Capture Encode Pipeline.
From S2P Require Import Utf8 Pkce Auth Heartbeat Widget Agent Ipc Files ConfigSync Der DeviceKey SpoolKey Enroll.
From S2P Require Import Credential Socket.

(** ** Configuration *)

(** [s.replacen(from, to, 1)] *)
Definition replace_first (from to s : string) : string :=
  match split_once_str (chars from) (chars s) with
  | Some (a, b) => str a +:+ to +:+ str b
  | None => s
  end.

Definition ingest_url (local : LocalConfig) : string :=
  replace_first "http://" "ws://"
    (replace_first "https://" "wss://" (trim_end_matches "/" (api_base_url local))) +:+ "/v1/ingest".

(** [device_dir]; the default is the service's credential directory. *)
Definition agent_device_dir (credential_dir : string) (local : LocalConfig) : string :=
  let dir := default "" (trim <$> device_dir local) in
  if str_is_empty dir then credential_dir else dir.

Definition snapshot_tier (s : ConfigSnapshot) : option CaptureTier :=
  match snap_capture_tier s with
  | Some "A" => Some TierA
  | Some "B" => Some TierB
  | _ => None
  end.

Inductive StartError :=
| StSqlite (why : string)
| StSpool (e : SpoolError)
| StApi (e : ApiError).

Section startup.
Context {N T Oc V K E L Ap W Sc Tm R Kd Wr : Type}.
Context {Tr : Transport T} {Net : WsNet N T Kd} {Js : ControlJson} {Op : Opus Oc}
  {Vo : VadOps V} {Cs : CaptureSource Sc} {Ks : TokenStore K} {Te : TokenEndpoint E}
  {Sa : SentinelApi Ap} {Ws : WidgetShell W} {Od : OffsetDateTime Tm}.
Context `{!DeviceKey Kd} `{!KeyWrapper Wr} `{!FileJson DeviceIdentity}.
Context (ulid_bytes : string -> option (list u8)) (agent_version : string).
(** [cfg(windows)], the [sqlcipher] feature, and the directory of the credential. *)
Context (windows sqlcipher : bool) (credential_dir : string).
Context (pem_certs : string -> result (list string) string)
  (open_key : Host (R:=R) -> Host (R:=R) * result Kd DeviceKeyError) (wrapper : Wr).
(** The database at a path and the keys that open it; any key opens a new one. *)
Context (connection_open : string -> result (Spool * (string -> bool)) string).
Context (build_api : string -> option (DeviceCredential Kd) -> result Ap ApiError).
Context (capture_source_new : CaptureTier -> option Z -> result Sc CaptureErr).

Abbreviation F := (WssFactory N Kd).
Abbreviation AG := (Agent T F Oc V K E L Ap W).

Definition Spool_open (path key : string) (l : SpoolLimits) : result Spool StartError :=
  let? db := map_err StSqlite (connection_open path) in
  map_err StSpool (from_connection sqlcipher db.2 key db.1 l).
Definition Spool_open_in_memory (l : SpoolLimits) : result Spool StartError :=
  map_err StSpool (from_connection sqlcipher (fun _ => true) "test" (fresh_db l) l).

(** [device_certificate]: an error is logged and the agent goes on without; the outer
    [None] is a panic. *)
Definition device_certificate (dir : string) (h : Host (R:=R)) : Host (R:=R) * option (option (DeviceCredential Kd)) :=
  let '(h, r) := load_with pem_certs dir open_key h in (h, res_ok <$> r).

Definition capture_blocker (detail : string) : ClientEvent := with_detail (ClientEvent_new CaptureError 0) detail.

(** The spool and the start-up blockers. *)
Definition start_spool (local : LocalConfig) (d : Disk) : Disk * result (Spool * list ClientEvent) StartError :=
  let '(d, key) := resolve wrapper d in
  (d, match key with
      | Ok key => let? s := Spool_open (spool_path local) key (spool_limits local) in Ok (s, [])
      | Err _ => let? s := Spool_open_in_memory (spool_limits local) in
                 Ok (s, [capture_blocker "spool_key_unavailable"])
      end).

Definition start_info (snap : ConfigSnapshot) (credential : option (DeviceCredential Kd)) : AgentIdentityInfo :=
  {| ai_device_id := match credential with
                     | Some c => dc_device_id c
                     | None => default "" (lc_device_id (snap_local snap))
                     end;
     ai_os_build := snap_os_build snap; ai_tier := snapshot_tier snap;
     ai_agent_restarts := snap_agent_restarts snap |}.

(** The cell shared by the loop and the factory. *)
Definition set_token (t : string) (a : AG) : AG :=
  a <| uplink := (uplink a) <| factory := (factory (uplink a)) <| wf_token := t |> |> |>.

Definition restore_session (a : AG) : AG :=
  let '(au, r) := restore 0 (auth a) in
  let a := a <| auth := au |> in
  match r with
  | Ok (Some creds) => on_signed_in (set_token (cr_id_token creds) a) (cr_uid creds)
  | Ok None | Err _ => a
  end.

(** The source is handed over even when the pipeline did not open on it. *)
Definition open_capture_source (t : option CaptureTier) (user_uid : option string) (a : AG) : AG * option Sc :=
  match t, user_uid with
  | Some t, Some uid =>
      if windows then
        match capture_source_new t None with
        | Ok src => let '(a, src, _) := open_capture t uid a src in (a, Some src)
        | Err _ => (a, None)
        end
      else (a, None)
  | _, _ => (a, None)
  end.

(** [run] up to its loop. *)
Definition run_start (snap : ConfigSnapshot) (dirs : string -> Host (R:=R)) (net : N) (store : K) (endpoint : E)
    (launcher : L) (w : W) : option (result (AG * option Sc) StartError) :=
  let local := snap_local snap in
  let policy := default Policy_default (snap_policy snap) in
  let dir := agent_device_dir credential_dir local in
  let '(h, credential) := device_certificate dir (dirs dir) in
  credential ← credential;
  Some (
    let? sb := (start_spool local h.1).2 in
    let '(s, blockers) := sb in
    let u := Uplink_new s {| wf_url := ingest_url local; wf_token := "";
                             wf_cert := (fun c => {| cc_certified_key := certified_key c |}) <$> credential;
                             wf_net := net |} in
    let? ap := map_err StApi (build_api (api_base_url local) credential) in
    let au := AuthService_new (from_local local) store endpoint launcher in
    let tier := snapshot_tier snap in
    let effective_tier := if bool_decide (blockers = []) then tier else None in
    let a := Agent_new u au ap w policy (start_info snap credential) in
    let a := foldl record_event a blockers in
    let a := match credential with
             | None => record_event a (capture_blocker "device_certificate_missing")
             | Some _ => a
             end in
    let a := restore_session a in
    Ok (open_capture_source effective_tier (auth_uid (a_state (auth a))) a)).

(** One turn of the loop: the token first, then the tick, whose error is logged.
    [None]: the fuel of the tick did not suffice. *)
Definition sync_token (a : AG) : AG :=
  match auth_id_token (a_state (auth a)) with
  | Some t => if decide (wf_token (factory (uplink a)) = t) then a else set_token t a
  | None => a
  end.
Definition run_turn (env : TickEnv Tm) (now : Z) (s : AG * option Sc) : option (AG * option Sc) :=
  '(a, src, _) ← tick ulid_bytes agent_version env now s.2 (sync_token s.1); Some (a, src).
Fixpoint run_loop (turns : list (TickEnv Tm * Z)) (s : AG * option Sc) : option (AG * option Sc) :=
  match turns with
  | [] => Some s
  | (env, now) :: turns => s ← run_turn env now s; run_loop turns s
  end.
End startup.
