(* ===== verification/StartupProps.v ===== *)
(** What the agent's start-up guarantees (Startup.v). *)

From S2P Require Import Prelude Text Protocol Config State Identity Spool Backoff Uplink UplinkProps Capture Encode.
From S2P Require Import Pipeline PipelineProps Utf8 Pkce Auth Heartbeat Widget Agent AgentProps Ipc Files ConfigSync Der DeviceKey.
From S2P Require Import SpoolKey Enroll Credential Socket Startup.

Section startup_props.
Context {N T Oc V K E L Ap W Sc Tm R Kd Wr : Type}.
Context {Tr : Transport T} {Net : WsNet N (Rec T) Kd} {Js : ControlJson} {Op : Opus Oc}
  {Vo : VadOps V} {Cs : CaptureSource Sc} {Ks : TokenStore K} {Te : TokenEndpoint E}
  {Sa : SentinelApi Ap} {Ws : WidgetShell W} {Od : OffsetDateTime Tm}.
Context `{!DeviceKey Kd} `{!KeyWrapper Wr} `{!FileJson DeviceIdentity}.
Context (ulid_bytes : string -> option (list u8)) (agent_version : string).
Context (windows sqlcipher : bool) (credential_dir : string).
Context (pem_certs : string -> result (list string) string)
  (open_key : Host (R:=R) -> Host (R:=R) * result Kd DeviceKeyError) (wrapper : Wr).
Context (connection_open : string -> result (Spool * (string -> bool)) string).
Context (build_api : string -> option (DeviceCredential Kd) -> result (RecApi Ap) ApiError).
Context (capture_source_new : CaptureTier -> option Z -> result Sc CaptureErr).

Abbreviation AG := (Agent (Rec T) (WssFactory N Kd) Oc V K E L (RecApi Ap) W).
Abbreviation run_start := (run_start windows sqlcipher credential_dir pem_certs open_key wrapper connection_open
  build_api capture_source_new).
Abbreviation run_loop := (run_loop (Sc:=Sc) (Tm:=Tm) ulid_bytes agent_version).

Lemma sync_token_rows (a : AG) : rows (sync_token a) = rows a.
Proof. unfold sync_token. destruct (auth_id_token _) as [t|]; [|done]. by case_decide. Qed.

Lemma run_loop_sourceless turns (a b : AG) src :
  run_loop turns (a, None) = Some (b, src) -> src = None /\ rows b ⊆ rows a.
Proof.
  revert a. induction turns as [|[env now] turns IH]; intros a; cbn [Startup.run_loop].
  { by intros [= -> <-]. }
  unfold run_turn. cbn [fst snd].
  destruct (tick _ _ _ _ None _) as [[[a1 src1] r]|] eqn:Ht; [|done]. cbn [mbind option_bind].
  apply tick_sourceless in Ht as [-> (_ & _ & Hr)]. intros H. apply IH in H as [-> Hb].
  split; [done|]. etrans; [exact Hb|]. by rewrite sync_token_rows in Hr.
Qed.

Lemma open_source_inv t uid (a b : AG) src :
  open_capture_source windows capture_source_new t uid a = (b, src) ->
  uplink b = uplink a /\ info b = info a /\ auth b = auth a /\ pending_events a `prefix_of` pending_events b /\
  (is_Some src -> windows = true /\ is_Some t /\ is_Some uid).
Proof.
  unfold open_capture_source. destruct t as [t|]; [|by intros [= <- <-]; split_and!; try done; intros [? [=]]].
  destruct uid as [uid|]; [|by intros [= <- <-]; split_and!; try done; intros [? [=]]].
  destruct windows; [|by intros [= <- <-]; split_and!; try done; intros [? [=]]].
  destruct (capture_source_new t None) as [sc|e]; [|by intros [= <- <-]; split_and!; try done; intros [? [=]]].
  unfold open_capture, p_take_events. destruct (open _ _ _) as [[p sc'] [[]|e]]; intros [= <- <-]; cbn.
  - by split_and!.
  - split_and!; try done. by eexists.
Qed.

Lemma restore_state (a a' : AuthService K E L) r :
  restore 0 a = (a', r) ->
  match r with Ok (Some c) => a_state a' = SignedIn c | _ => a_state a' = a_state a end.
Proof.
  unfold restore, bindM, with_store. destruct (load_refresh_token _) as [k [[rt|]|e]]; cbn [map_err].
  - destruct (Auth.refresh _ _ rt) as [e1 [ts|x]]; [|by intros [= <- <-]]. unfold adopt, bindM, with_store, ret.
    destruct (ts_refresh_token ts) as [rt'|]; [|by intros [= <- <-]].
    destruct (save_refresh_token _ _) as [k2 [[]|x]]; cbn [map_err]; by intros [= <- <-].
  - by intros [= <- <-].
  - by intros [= <- <-].
Qed.

Lemma restore_session_keeps (a : AG) :
  let b := restore_session a in
  spool (uplink b) = spool (uplink a) /\ info b = info a /\ pending_events b = pending_events a /\
  wf_url (factory (uplink b)) = wf_url (factory (uplink a)) /\
  wf_cert (factory (uplink b)) = wf_cert (factory (uplink a)) /\
  (a_state (auth a) = SignedOut ->
   match a_state (auth b) with SignedIn c => wf_token (factory (uplink b)) = cr_id_token c | SignedOut => True end).
Proof.
  unfold restore_session. destruct (restore 0 (auth a)) as [au r] eqn:Hr. apply restore_state in Hr.
  destruct r as [[c|]|x]; cbn; split_and!; try done; intros Hs; rewrite Hr, ?Hs; done.
Qed.

(** What a start that succeeded has built. *)
Lemma run_start_inv snap dirs net store endpoint launcher w (a : AG) src :
  run_start snap dirs net store endpoint launcher w = Some (Ok (a, src)) ->
  let dir := agent_device_dir credential_dir (snap_local snap) in
  exists h credential s blockers,
    device_certificate pem_certs open_key dir (dirs dir) = (h, Some credential) /\
    (start_spool sqlcipher wrapper connection_open (snap_local snap) h.1).2 = Ok (s, blockers) /\
    spool (uplink a) = s /\ info a = start_info snap credential /\
    wf_url (factory (uplink a)) = ingest_url (snap_local snap) /\
    wf_cert (factory (uplink a)) = (fun c => {| cc_certified_key := certified_key c |}) <$> credential /\
    blockers ++ (if credential is None then [capture_blocker "device_certificate_missing"] else [])
      `prefix_of` pending_events a /\
    (is_Some src -> windows = true /\ blockers = [] /\ is_Some (snapshot_tier snap) /\
       exists c, a_state (auth a) = SignedIn c /\ wf_token (factory (uplink a)) = cr_id_token c).
Proof.
  unfold Startup.run_start. set (dir := agent_device_dir _ _).
  destruct (device_certificate _ _ dir _) as [h [credential|]] eqn:Hd; [|done]. cbn [mbind option_bind].
  destruct (start_spool _ _ _ _ h.1).2 as [[s blockers]|x] eqn:Hs; [|done]. cbn [res_bind].
  destruct (build_api _ credential) as [ap|x]; [|done]. cbn [map_err res_bind].
  set (u := Uplink_new s _). set (a0 := Agent_new u _ ap w _ _).
  assert (forall l (x : AG), let y := foldl record_event x l in
    uplink y = uplink x /\ info y = info x /\ auth y = auth x /\ pending_events y = pending_events x ++ l) as Hfold.
  { induction l as [|e l IH]; intros x; cbn [foldl]; [by rewrite (right_id_L [] (++))|].
    destruct (IH (record_event x e)) as (-> & -> & -> & ->). cbn. by rewrite <- (assoc_L (++)). }
  specialize (Hfold blockers a0). set (a1 := foldl _ a0 blockers) in *. destruct Hfold as (U1 & I1 & A1 & P1).
  set (a2 := match credential with Some _ => a1 | None => _ end).
  assert (uplink a2 = u /\ info a2 = start_info snap credential /\ a_state (auth a2) = SignedOut /\
    pending_events a2 = blockers ++ (if credential is None then [capture_blocker "device_certificate_missing"] else []))
    as (U2 & I2 & A2 & P2).
  { unfold a2. destruct credential; cbn; rewrite ?U1, ?I1, ?A1, ?P1; cbn; rewrite ?(right_id_L [] (++)); by split_and!. }
  intros [= H]. destruct (restore_session_keeps a2) as (S3 & I3 & P3 & L3 & C3 & T3).
  apply open_source_inv in H as (U4 & I4 & A4 & P4 & Hsrc).
  exists h, credential, s, blockers. rewrite U4, I4, A4, S3, I3, L3, C3, U2, I2.
  split_and!; try done.
  - rewrite P3, P2 in P4. exact P4.
  - intros Hi. destruct (Hsrc Hi) as (-> & Ht & Hu). case_bool_decide; [|by destruct Ht].
    split_and!; [done|done|done|]. specialize (T3 A2). revert T3 Hu.
    destruct (a_state (auth (restore_session a2))) as [|c]; intros T3 Hu; [by destruct Hu|]. by exists c.
Qed.

(** C13: Without the spool key nothing is recorded: whatever the reason the key cannot be
    resolved, the agent that starts holds an empty in-memory spool and no audio source,
    has the capture error queued for the heartbeat, and however long it runs its spool
    stays empty. *)
Theorem no_spool_key_no_recording snap dirs net store endpoint launcher w (a b : AG) src src' turns e :
  run_start snap dirs net store endpoint launcher w = Some (Ok (a, src)) ->
  (resolve wrapper (device_certificate pem_certs open_key (agent_device_dir credential_dir (snap_local snap))
     (dirs (agent_device_dir credential_dir (snap_local snap)))).1.1).2 = Err e ->
  run_loop turns (a, src) = Some (b, src') ->
  src = None /\ src' = None /\ rows a = ∅ /\ rows b = ∅ /\
  capture_blocker "spool_key_unavailable" ∈ pending_events a.
Proof.
  intros H Hk Hl. apply run_start_inv in H as (h & credential & s & blockers & Hd & Hs & Ha & _ & _ & _ & Hp & Hsrc).
  rewrite Hd in Hk. cbn [fst] in Hk. unfold start_spool in Hs.
  destruct (resolve wrapper h.1) as [d r]. cbn [snd] in *. subst r. cbn [snd] in Hs.
  unfold Spool_open_in_memory, from_connection in Hs.
  assert (s = fresh_db (spool_limits (snap_local snap)) /\ blockers = [capture_blocker "spool_key_unavailable"]) as [-> ->]
    by (destruct sqlcipher; cbn in Hs; by injection Hs as <- <-).
  assert (src = None) as -> by (destruct src; [destruct (Hsrc ltac:(done)) as (_ & [=] & _)|done]).
  apply run_loop_sourceless in Hl as [-> Hb].
  assert (rows a = ∅) as Hr by (unfold rows; by rewrite Ha). rewrite Hr in Hb.
  split_and!; try done.
  - apply map_eq. intros k. destruct (rows b !! k) eqn:Hk; [|by rewrite lookup_empty].
    by eapply lookup_weaken in Hb; [|exact Hk].
  - destruct Hp as [l ->]. set_solver.
Qed.
End startup_props.

(** ** An example: an enrolled machine that lost its spool key *)

(** A network no host answers on. *)
#[local] Instance dead_net : WsNet unit (Rec Script) Z := {|
  into_client_request _ := Ok tt;
  header_value_ok _ := true;
  root_add_ok _ := true;
  load_native_certs n := (n, (["root"], []));
  tcp_connect n _ := (n, Err "unreachable");
  ws_handshake n _ := (n, Err "unreachable");
|}.
#[local] Existing Instance demo_endpoint.
#[local] Instance software_key5 : DeviceKey Z := {|
  public_point k := (k, Ok (replicate 65 (z2b k)));
  sign k m := (k, Ok []);
  kind _ := Software;
|}.
#[local] Instance no_identity_json : FileJson DeviceIdentity := {|
  to_vec_pretty _ := Err "read only";
  file_from_str _ := None;
|}.
Definition lost_key_snapshot : ConfigSnapshot :=
  {| snap_local := LocalConfig_default true None; snap_policy := Some demo_policy; snap_capture_tier := Some "A";
     snap_os_build := "10.0.22631"; snap_service_version := "0.1.0"; snap_agent_restarts := 0 |}.

Abbreviation demo_start := (Startup.run_start (N:=unit) (T:=Rec Script) (Oc:=unit) (V:=bool)
  (K:=MemoryTokenStore) (E:=nat) (L:=unit) (Ap:=RecApi (list (result HeartbeatAck ApiError)))
  (W:=list (list HostCall)) (Sc:=Desk) (R:=Z) (Kd:=Z) true true
  "C:\device" (fun _ => Ok []) (fun s => (s, Ok 5))
  {| dev.pw_debug_assertions := true; dev.pw_feature := false |} (fun _ => Err "no such file")
  (fun _ _ => Ok {| api_inner := []; posted := [] |}) (fun _ _ => Ok demo_desk)
  lost_key_snapshot (fun _ => ({| files := ∅; faults := [] |}, 0)) tt (Some "refresh-token") 0%nat tt []).
Abbreviation demo_loop := (Startup.run_loop (N:=unit) (Sc:=Desk) (Tm:=Z) (Kd:=Z) sample_ulid "0.1.0"
  [(demo_env, 20); (demo_env, 40)]).

Lemma no_spool_key_witness :
  exists a src b src', demo_start = Some (Ok (a, src)) /\ demo_loop (a, src) = Some (b, src') /\
    src' = None /\ rows b = ∅ /\ capture_blocker "spool_key_unavailable" ∈ pending_events a.
Proof.
  destruct demo_start as [[[a src]|x]|] eqn:Hs;
    [|exfalso; vm_compute in Hs; discriminate|exfalso; vm_compute in Hs; discriminate].
  exists a, src.
  destruct (demo_loop (a, src)) as [[b src']|] eqn:Hl;
    [|exfalso; vm_compute in Hs; injection Hs as <- <-; vm_compute in Hl; discriminate].
  exists b, src'. split; [reflexivity|]. split; [reflexivity|].
  destruct (no_spool_key_no_recording (N:=unit) (R:=Z) (Kd:=Z) sample_ulid "0.1.0" true true
    "C:\device" (fun _ => Ok []) (fun s => (s, Ok 5))
    {| dev.pw_debug_assertions := true; dev.pw_feature := false |} (fun _ => Err "no such file")
    (fun _ _ => Ok {| api_inner := []; posted := [] |}) (fun _ _ => Ok demo_desk)
    lost_key_snapshot (fun _ => ({| files := ∅; faults := [] |}, 0)) tt (Some "refresh-token") 0%nat tt []
    a b src src' [(demo_env, 20); (demo_env, 40)] SpoolKeyNotFound Hs ltac:(vm_compute; reflexivity) Hl)
    as (_ & H1 & _ & H2 & H3).
  by split_and!.
Defined.
