(* ===== verification/Cng.v ===== *)
(** The device key in CNG (sentinel-service/src/devicekey/cng.rs): opening the
    persisted machine key, creating it non-exportable and restricted, its public
    point and its signatures, and what happens to the handles.

    NCrypt and advapi32 are the [NCrypt] class; [NCryptLaws] states what Windows
    documents of each call, on a view of the open handles, the keys not yet finalized
    and the persisted ones. Any call may fail at any time. *)

From stdpp Require Import fin_sets infinite.
From S2P Require Import Prelude Text Der Files Update DeviceKey.

(** ** Constants *)

Definition NCRYPT_MACHINE_KEY_FLAG : Z := 0x20.
Definition NCRYPT_SILENT_FLAG : Z := 0x40.
Definition NCRYPT_OVERWRITE_KEY_FLAG : Z := 0x80.
Definition NCRYPT_SECURITY_DESCR_FLAG : Z := 0x4.
Definition DACL_SECURITY_INFORMATION : Z := 0x4.
Definition NTE_BAD_KEYSET : Z := 0x80090016.
Definition BCRYPT_ECDSA_PUBLIC_P256_MAGIC : Z := 0x31534345.
(** [size_of::<BCRYPT_ECCKEY_BLOB>()], two [u32]s. *)
Definition ECCKEY_BLOB_SIZE : nat := 8.

Definition SECURITY_DESCR_SDDL : string := "D:P(A;;GA;;;SY)(A;;GA;;;BA)(A;;GR;;;BU)".

Definition base_flags : Z := Z.lor NCRYPT_MACHINE_KEY_FLAG NCRYPT_SILENT_FLAG.

(** The properties the module sets, and the one blob type it exports. *)
Inductive NProperty := EXPORT_POLICY_PROPERTY | SECURITY_DESCR_PROPERTY.
#[export] Instance NProperty_eq_dec : EqDecision NProperty.
Proof. solve_decision. Defined.
Inductive BlobType := ECCPUBLIC_BLOB.

Record WinError := { we_code : Z; we_text : string }.

(** ** The platform *)

Abbreviation Handle := Z.
Class NCrypt (W : Type) := {
  NCryptOpenStorageProvider : W -> W * result Handle WinError;
  NCryptOpenKey : Handle -> string -> Z -> W -> W * result Handle WinError;
  NCryptCreatePersistedKey : Handle -> string -> Z -> W -> W * result Handle WinError;
  NCryptSetProperty : Handle -> NProperty -> list u8 -> Z -> W -> W * result unit WinError;
  NCryptFinalizeKey : Handle -> Z -> W -> W * result unit WinError;
  NCryptFreeObject : Handle -> W -> W * result unit WinError;
  NCryptDeleteKey : Handle -> Z -> W -> W * result unit WinError;
  (** The buffer comes back with what was written to it, beside the count. *)
  NCryptExportKey : Handle -> BlobType -> option (list u8) -> Z -> W -> W * result (list u8 * Z) WinError;
  NCryptSignHash : Handle -> list u8 -> option (list u8) -> Z -> W -> W * result (list u8 * Z) WinError;
  (** A security descriptor allocated by advapi32: its address and its bytes. *)
  ConvertStringSecurityDescriptor : string -> W -> W * result (Z * list u8) WinError;
  LocalFree : Z -> W -> W;
}.

Record Provider := { prov_handle : Handle }.
Record CngDeviceKey := { cng_key : Handle; cng_provider : Provider }.

Section cng.
Context {W : Type} `{!NCrypt W}.

Definition platform (what : string) (e : WinError) : DeviceKeyError :=
  Platform (what +:+ ": " +:+ we_text e).

Definition drop_provider (p : Provider) (w : W) : W := (NCryptFreeObject (prov_handle p) w).1.
(** [Drop for CngDeviceKey], then the drop of its provider field. *)
Definition drop_key (k : CngDeviceKey) (w : W) : W :=
  drop_provider (cng_provider k) (NCryptFreeObject (cng_key k) w).1.

Definition open_provider (w : W) : W * result Provider DeviceKeyError :=
  let '(w, r) := NCryptOpenStorageProvider w in
  (w, let? h := map_err (platform "NCryptOpenStorageProvider") r in Ok {| prov_handle := h |}).

Definition cng_open (name : string) : W -> W * result CngDeviceKey DeviceKeyError :=
  let! provider := open_provider in fun w =>
  let '(w, rc) := NCryptOpenKey (prov_handle provider) name base_flags w in
  match rc with
  | Ok key => (w, Ok {| cng_key := key; cng_provider := provider |})
  | Err e => (drop_provider provider w,
      Err (if we_code e =? NTE_BAD_KEYSET then KeyNotFound else platform "NCryptOpenKey" e))
  end.

Definition apply_security_descriptor (k : CngDeviceKey) (w : W) : W * result unit DeviceKeyError :=
  let '(w, r) := ConvertStringSecurityDescriptor SECURITY_DESCR_SDDL w in
  match r with
  | Err e => (w, Err (platform "SDDL conversion" e))
  | Ok (sd, blob) =>
      let '(w, result) := NCryptSetProperty (cng_key k) SECURITY_DESCR_PROPERTY blob
        (Z.lor (Z.lor NCRYPT_SECURITY_DESCR_FLAG DACL_SECURITY_INFORMATION) NCRYPT_SILENT_FLAG) w in
      let w := LocalFree sd w in
      (w, map_err (platform "NCryptSetProperty(security descriptor)") result)
  end.

(** The calls of [create] on the key that was just made; a [?] there drops the key. *)
Definition create_seal (key : CngDeviceKey) : W -> W * result unit DeviceKeyError :=
  let policy := 0 in
  let! _ := fun w => let '(w, r) := NCryptSetProperty (cng_key key) EXPORT_POLICY_PROPERTY
                       (to_le_bytes 4 policy) NCRYPT_SILENT_FLAG w in
                     (w, map_err (platform "NCryptSetProperty(export policy)") r) in
  let! _ := apply_security_descriptor key in
  fun w => let '(w, r) := NCryptFinalizeKey (cng_key key) NCRYPT_SILENT_FLAG w in
           (w, map_err (platform "NCryptFinalizeKey") r).

Definition cng_create (name : string) : W -> W * result CngDeviceKey DeviceKeyError :=
  let! provider := open_provider in fun w =>
  let '(w, r) := NCryptCreatePersistedKey (prov_handle provider) name base_flags w in
  match r with
  | Err e => (drop_provider provider w, Err (platform "NCryptCreatePersistedKey" e))
  | Ok h =>
      let key := {| cng_key := h; cng_provider := provider |} in
      let '(w, r) := create_seal key w in
      match r with
      | Ok _ => (w, Ok key)
      | Err e => (drop_key key w, Err e)
      end
  end.

Definition cng_open_or_create (name : string) (w : W) : W * result CngDeviceKey DeviceKeyError :=
  let '(w, r) := cng_open name w in
  match r with
  | Ok k => (w, Ok k)
  | Err KeyNotFound => cng_create name w
  | Err e => (w, Err e)
  end.

(** [mem::forget(self)]: neither drop runs. *)
Definition cng_delete (k : CngDeviceKey) (w : W) : W * result unit DeviceKeyError :=
  let '(w, r) := NCryptDeleteKey (cng_key k) 0 w in
  (w, map_err (platform "NCryptDeleteKey") r).

(** [{magic:#x}] *)
Definition fmt_hex32 (z : Z) : string :=
  let digits := drop_while (fun c => bool_decide (c = "0"%char)) (chars (hex_lower (to_be_bytes 4 z))) in
  "0x" +:+ str (match digits with [] => ["0"%char] | _ => digits end).

Definition point_from_ecc_blob (blob : list u8) : result (list u8) DeviceKeyError :=
  let header := ECCKEY_BLOB_SIZE in
  if (length blob <? header)%nat then
    Err (KeyMalformed ("ECC public blob is " +:+ fmt_u (len blob) +:+ " bytes, shorter than its header"))
  else
    let magic := from_le_bytes (slice 0 4 blob) in
    let cb_key := from_le_bytes (slice 4 8 blob) in
    if negb (magic =? BCRYPT_ECDSA_PUBLIC_P256_MAGIC) then
      Err (KeyMalformed ("expected a P-256 ECDSA public blob, got magic " +:+ fmt_hex32 magic))
    else if negb (cb_key =? 32) || (length blob <? header + 64)%nat then
      Err (KeyMalformed ("expected 32-byte coordinates, got cbKey " +:+ fmt_u cb_key +:+ " in "
                           +:+ fmt_u (len blob) +:+ " bytes"))
    else Ok (z2b 0x04 :: slice header (header + 64) blob).

(** The two-call pattern: the size first, then a buffer of that size, cut to what was
    written. *)
Definition two_calls (what : string) (err : string -> WinError -> DeviceKeyError)
    (call : option (list u8) -> W -> W * result (list u8 * Z) WinError)
    : W -> W * result (list u8) DeviceKeyError :=
  let! needed := fun w => let '(w, r) := call None w in
                          (w, let? x := map_err (err (what +:+ "(size)")) r in Ok x.2) in
  fun w => let '(w, r) := call (Some (replicate (Z.to_nat needed) (z2b 0))) w in
           (w, let? x := map_err (err what) r in Ok (take (Z.to_nat x.2) x.1)).

Definition cng_public_point (k : CngDeviceKey) (w : W) : W * result (list u8) DeviceKeyError :=
  let '(w, r) := two_calls "NCryptExportKey" platform
    (fun buf => NCryptExportKey (cng_key k) ECCPUBLIC_BLOB buf NCRYPT_SILENT_FLAG) w in
  (w, let? blob := r in point_from_ecc_blob blob).

(** [Sha256::digest] *)
Context (sha256 : list u8 -> list u8).

Definition sign_failed (what : string) (e : WinError) : DeviceKeyError :=
  SignFailed (what +:+ ": " +:+ we_text e).

Definition cng_sign (k : CngDeviceKey) (message : list u8) (w : W) : W * result (list u8) DeviceKeyError :=
  let digest := sha256 message in
  let '(w, r) := two_calls "NCryptSignHash" sign_failed
    (fun buf => NCryptSignHash (cng_key k) digest buf NCRYPT_SILENT_FLAG) w in
  (w, let? raw := r in sig_der_from_fixed raw).

(** A key in use carries the platform its calls act on. *)
#[export] Instance cng_DeviceKey : DeviceKey (CngDeviceKey * W) := {|
  public_point '(k, w) := let '(w, r) := cng_public_point k w in ((k, w), r);
  sign '(k, w) message := let '(w, r) := cng_sign k message w in ((k, w), r);
  kind _ := Cng;
|}.

(** The entry points [devicekey::open_or_create] and [open_existing] select on Windows. *)
Definition on_host (m : W -> W * result CngDeviceKey DeviceKeyError) (s : Host (R:=W))
    : Host (R:=W) * result (CngDeviceKey * W) DeviceKeyError :=
  let '(d, w) := s in
  let '(w, r) := m w in
  ((d, w), res_map (fun k => (k, w)) r).
End cng.

(** ** What Windows documents *)

(** What has been set on a key: [None] is the provider's default, which for the export
    policy is the provider's choice and for the descriptor the container's. *)
Record KeyProps := { kp_policy : option (list u8); kp_descriptor : option (list u8) }.
#[export] Instance KeyProps_rebuild : Rebuild KeyProps :=
  fun p => {| kp_policy := kp_policy p; kp_descriptor := kp_descriptor p |}.
Definition fresh_props : KeyProps := {| kp_policy := None; kp_descriptor := None |}.

(** A descriptor is installed only with the security flag; without it the blob is an
    ordinary property. *)
Definition set_prop (prop : NProperty) (v : list u8) (flags : Z) (p : KeyProps) : KeyProps :=
  match prop with
  | EXPORT_POLICY_PROPERTY => p <| kp_policy := Some v |>
  | SECURITY_DESCR_PROPERTY => if Z.testbit flags 2 then p <| kp_descriptor := Some v |> else p
  end.

Record NView := {
  nv_handles : gset Z;
  nv_pending : gmap Z (string * KeyProps);
  nv_keys : gmap string KeyProps;
  nv_heap : gset Z;
}.
#[export] Instance NView_rebuild : Rebuild NView := fun v =>
  {| nv_handles := nv_handles v; nv_pending := nv_pending v; nv_keys := nv_keys v; nv_heap := nv_heap v |}.

Definition add_handle (h : Z) (v : NView) : NView := v <| nv_handles := {[h]} ∪ nv_handles v |>.
(** Closing the handle of a key that was never finalized abandons the key. *)
Definition free_handle (h : Z) (v : NView) : NView :=
  v <| nv_handles := nv_handles v ∖ {[h]} |> <| nv_pending := delete h (nv_pending v) |>.

Class NCryptLaws (W : Type) `{!NCrypt W} := {
  view : W -> NView;
  (** A key not yet finalized is reached through its open handle. *)
  law_pending w h : is_Some (nv_pending (view w) !! h) -> h ∈ nv_handles (view w);
  (** The self-relative form of the SDDL text. *)
  sd_bytes : string -> list u8;
  law_provider w : match NCryptOpenStorageProvider w with
    | (w', Ok h) => ~ (h ∈ nv_handles (view w)) /\ view w' = add_handle h (view w)
    | (w', Err _) => view w' = view w end;
  law_open p n fl w : match NCryptOpenKey p n fl w with
    | (w', Ok h) => ~ (h ∈ nv_handles (view w)) /\ is_Some (nv_keys (view w) !! n) /\ view w' = add_handle h (view w)
    | (w', Err _) => view w' = view w end;
  law_create p n fl w : match NCryptCreatePersistedKey p n fl w with
    | (w', Ok h) => ~ (h ∈ nv_handles (view w)) /\
        (Z.land fl NCRYPT_OVERWRITE_KEY_FLAG = 0 -> nv_keys (view w) !! n = None) /\
        view w' = (add_handle h (view w)) <| nv_pending := <[h := (n, fresh_props)]> (nv_pending (view w)) |>
    | (w', Err _) => view w' = view w end;
  law_set_property h prop v fl w n p : nv_pending (view w) !! h = Some (n, p) ->
    match NCryptSetProperty h prop v fl w with
    | (w', Ok _) => view w' = (view w) <| nv_pending := <[h := (n, set_prop prop v fl p)]> (nv_pending (view w)) |>
    | (w', Err _) => view w' = view w end;
  law_finalize h fl w n p : nv_pending (view w) !! h = Some (n, p) ->
    match NCryptFinalizeKey h fl w with
    | (w', Ok _) => view w' = (view w) <| nv_pending := delete h (nv_pending (view w)) |>
                                       <| nv_keys := <[n := p]> (nv_keys (view w)) |>
    | (w', Err _) => view w' = view w end;
  law_free h w : h ∈ nv_handles (view w) -> view (NCryptFreeObject h w).1 = free_handle h (view w);
  (** Deleting frees the key's handle, and only when it succeeds. *)
  law_delete h fl w : h ∈ nv_handles (view w) -> match NCryptDeleteKey h fl w with
    | (w', Ok _) => exists n, view w' = (free_handle h (view w)) <| nv_keys := delete n (nv_keys (view w)) |>
    | (w', Err _) => view w' = view w end;
  law_export h t b fl w : view (NCryptExportKey h t b fl w).1 = view w;
  law_sign h d b fl w : view (NCryptSignHash h d b fl w).1 = view w;
  law_sddl s w : match ConvertStringSecurityDescriptor s w with
    | (w', Ok (sd, blob)) => ~ (sd ∈ nv_heap (view w)) /\ blob = sd_bytes s /\
                             view w' = (view w) <| nv_heap := {[sd]} ∪ nv_heap (view w) |>
    | (w', Err _) => view w' = view w end;
  law_local_free sd w : view (LocalFree sd w) = (view w) <| nv_heap := nv_heap (view w) ∖ {[sd]} |>;
}.

(** ** Properties *)

Section props.
Context {W : Type} `{!NCrypt W} `{!NCryptLaws W}.

(** A key that cannot be exported and that only the listed principals can use. *)
Definition sealed_props : KeyProps :=
  {| kp_policy := Some (to_le_bytes 4 0); kp_descriptor := Some (sd_bytes SECURITY_DESCR_SDDL) |}.
Definition owned (k : CngDeviceKey) (v : NView) : NView :=
  add_handle (cng_key k) (add_handle (prov_handle (cng_provider k)) v).
(** The two handles of a key are new and different. *)
Definition fresh_key (k : CngDeviceKey) (v : NView) : Prop :=
  ~ (cng_key k ∈ nv_handles v) /\ ~ (prov_handle (cng_provider k) ∈ nv_handles v) /\
  cng_key k <> prov_handle (cng_provider k).

Lemma view_eq v v' :
  nv_handles v = nv_handles v' -> nv_pending v = nv_pending v' -> nv_keys v = nv_keys v' ->
  nv_heap v = nv_heap v' -> v = v'.
Proof. destruct v, v'; cbn; congruence. Qed.

Lemma no_pending w h : h ∉ nv_handles (view w) -> nv_pending (view w) !! h = None.
Proof. intros Hh. apply eq_None_not_Some. intros H. by apply law_pending in H. Qed.

Lemma free_added w w' h :
  h ∉ nv_handles (view w) -> view w' = add_handle h (view w) -> view (NCryptFreeObject h w').1 = view w.
Proof.
  intros Hh Hw. rewrite law_free by (rewrite Hw; set_solver). rewrite Hw.
  apply view_eq; cbn; [set_solver|by rewrite delete_id by by apply no_pending|done..].
Qed.

Lemma apply_security_descriptor_view k w n p :
  nv_pending (view w) !! cng_key k = Some (n, p) ->
  match apply_security_descriptor k w with
  | (w', Ok _) => view w' = (view w) <| nv_pending := <[cng_key k :=
        (n, p <| kp_descriptor := Some (sd_bytes SECURITY_DESCR_SDDL) |>)]> (nv_pending (view w)) |>
  | (w', Err _) => view w' = view w
  end.
Proof.
  intros Hp. unfold apply_security_descriptor.
  pose proof (law_sddl SECURITY_DESCR_SDDL w) as Hs.
  destruct (ConvertStringSecurityDescriptor _ w) as [w1 [[sd blob]|e]]; [|done].
  destruct Hs as (Hsd & -> & Hw1).
  set (fl := Z.lor _ _).
  pose proof (law_set_property (cng_key k) SECURITY_DESCR_PROPERTY (sd_bytes SECURITY_DESCR_SDDL) fl w1 n p) as Hset.
  rewrite Hw1 in Hset. specialize (Hset Hp).
  destruct (NCryptSetProperty _ _ _ fl w1) as [w2 [[]|e]]; cbn [map_err];
    rewrite law_local_free, Hset; apply view_eq; cbn; try done; set_solver.
Qed.

Lemma create_seal_view k w n p :
  nv_pending (view w) !! cng_key k = Some (n, p) ->
  match create_seal k w with
  | (w', Ok _) => view w' = (view w) <| nv_pending := delete (cng_key k) (nv_pending (view w)) |>
                                     <| nv_keys := <[n := sealed_props]> (nv_keys (view w)) |>
  | (w', Err _) => exists p', view w' = (view w) <| nv_pending := <[cng_key k := (n, p')]> (nv_pending (view w)) |>
  end.
Proof.
  intros Hp. unfold create_seal, bindM.
  pose proof (law_set_property _ EXPORT_POLICY_PROPERTY (to_le_bytes 4 0) NCRYPT_SILENT_FLAG w n p Hp) as H1.
  destruct (NCryptSetProperty _ _ _ _ w) as [w1 [[]|e]]; cbn [map_err].
  2: { exists p. rewrite H1. apply view_eq; cbn; [done|by rewrite insert_id|done..]. }
  cbn [set_prop] in H1.
  pose proof (apply_security_descriptor_view k w1 n (p <| kp_policy := Some (to_le_bytes 4 0) |>)) as H2.
  rewrite H1 in H2. cbn [nv_pending upd] in H2. specialize (H2 ltac:(apply lookup_insert_eq)).
  destruct (apply_security_descriptor k w1) as [w2 [[]|e]].
  2: { eexists. by rewrite H2. }
  pose proof (law_finalize (cng_key k) NCRYPT_SILENT_FLAG w2 n sealed_props) as H3.
  rewrite H2 in H3. cbn [nv_pending upd] in H3. specialize (H3 ltac:(apply lookup_insert_eq)).
  destruct (NCryptFinalizeKey _ _ w2) as [w3 [[]|e]]; cbn [map_err].
  - rewrite H3. apply view_eq; cbn; [done|by rewrite !delete_insert_eq|done..].
  - exists sealed_props. rewrite H3. apply view_eq; cbn; [done|by rewrite insert_insert_eq|done..].
Qed.

Lemma open_provider_view w :
  match open_provider w with
  | (w', Ok p) => ~ (prov_handle p ∈ nv_handles (view w)) /\ view w' = add_handle (prov_handle p) (view w)
  | (w', Err _) => view w' = view w
  end.
Proof.
  unfold open_provider. pose proof (law_provider w) as H.
  by destruct (NCryptOpenStorageProvider w) as [w1 [h|e]].
Qed.

(** Opening leaves the store alone; a failure leaves the handles alone too. *)
Lemma cng_open_view name w :
  match cng_open name w with
  | (w', Ok k) => fresh_key k (view w) /\ is_Some (nv_keys (view w) !! name) /\ view w' = owned k (view w)
  | (w', Err _) => view w' = view w
  end.
Proof.
  unfold cng_open, bindM. pose proof (open_provider_view w) as H1.
  destruct (open_provider w) as [w1 [p|e]]; [|done]. destruct H1 as [Hp H1].
  pose proof (law_open (prov_handle p) name base_flags w1) as H2.
  destruct (NCryptOpenKey _ _ _ w1) as [w2 [h|e]].
  - destruct H2 as (Hh & Hk & H2). rewrite H1 in *. unfold fresh_key, owned. cbn in *. set_solver.
  - unfold drop_provider. apply free_added; congruence.
Qed.

Lemma drop_key_view k w w' n p :
  fresh_key k (view w) ->
  view w' = (owned k (view w)) <| nv_pending := <[cng_key k := (n, p)]> (nv_pending (view w)) |> ->
  view (drop_key k w') = view w.
Proof.
  intros (Hk & Hp & Hne) Hw. unfold drop_key, drop_provider.
  assert (view (NCryptFreeObject (cng_key k) w').1 = add_handle (prov_handle (cng_provider k)) (view w)) as Hw1.
  { rewrite law_free by (rewrite Hw; cbn; set_solver). rewrite Hw.
    apply view_eq; cbn; [set_solver| |done..].
    by rewrite delete_insert_eq, delete_id by by apply no_pending. }
  by apply free_added.
Qed.

(** Creating either leaves everything as it was or adds one sealed key and its two
    handles. *)
Lemma cng_create_view name w :
  match cng_create name w with
  | (w', Ok k) => fresh_key k (view w) /\ nv_keys (view w) !! name = None /\
      view w' = (owned k (view w)) <| nv_keys := <[name := sealed_props]> (nv_keys (view w)) |>
  | (w', Err _) => view w' = view w
  end.
Proof.
  unfold cng_create, bindM. pose proof (open_provider_view w) as H1.
  destruct (open_provider w) as [w1 [p|e]]; [|done]. destruct H1 as [Hp H1].
  pose proof (law_create (prov_handle p) name base_flags w1) as H2.
  destruct (NCryptCreatePersistedKey _ _ _ w1) as [w2 [h|e]].
  2: { unfold drop_provider. apply free_added; congruence. }
  destruct H2 as (Hh & Hnew & H2). specialize (Hnew eq_refl).
  set (k := {| cng_key := h; cng_provider := p |}).
  assert (fresh_key k (view w)) as Hk.
  { rewrite H1 in Hh. unfold fresh_key. cbn in *. set_solver. }
  pose proof (create_seal_view k w2 name fresh_props) as H3.
  rewrite H2 in H3. cbn [nv_pending upd k] in H3. specialize (H3 ltac:(apply lookup_insert_eq)).
  destruct (create_seal k w2) as [w3 [[]|e]].
  - split; [done|]. rewrite H1 in Hnew. split; [done|]. rewrite H3, H1.
    apply view_eq; cbn; [done| |done..].
    rewrite delete_insert_eq. apply delete_id. destruct Hk as [Hk _]. by apply no_pending.
  - destruct H3 as [p' H3]. apply drop_key_view with name p'; [done|]. rewrite H3, H1.
    apply view_eq; cbn; [done|by rewrite insert_insert_eq|done..].
Qed.

Lemma cng_open_or_create_view name w :
  match cng_open_or_create name w with
  | (w', Ok k) => fresh_key k (view w) /\
      ((is_Some (nv_keys (view w) !! name) /\ view w' = owned k (view w)) \/
       (nv_keys (view w) !! name = None /\
        view w' = (owned k (view w)) <| nv_keys := <[name := sealed_props]> (nv_keys (view w)) |>))
  | (w', Err _) => view w' = view w
  end.
Proof.
  unfold cng_open_or_create. pose proof (cng_open_view name w) as H1.
  destruct (cng_open name w) as [w1 [k|e]]; [naive_solver|].
  destruct e; try done. pose proof (cng_create_view name w1) as H2. rewrite H1 in H2.
  destruct (cng_create name w1) as [w2 [k|e]]; naive_solver.
Qed.

(** C22: Whichever of the calls fails, opening or creating the device key never leaves a
    key in the store that can be exported or that lacks its access list: what the
    store holds afterwards it held before, or it is the named key with export policy
    zero and the descriptor of [SECURITY_DESCR_SDDL]. Nothing is overwritten; a
    failure gives back every handle, unfinalized key and allocation, and a success
    keeps exactly the key's handle and its provider's. *)
Theorem cng_never_leaves_a_weak_key name w :
  let '(w', r) := cng_open_or_create name w in
  (forall n p, nv_keys (view w') !! n = Some p ->
     nv_keys (view w) !! n = Some p \/ (n = name /\ p = sealed_props)) /\
  nv_keys (view w) ⊆ nv_keys (view w') /\
  nv_pending (view w') = nv_pending (view w) /\ nv_heap (view w') = nv_heap (view w) /\
  match r with
  | Ok k => fresh_key k (view w) /\ is_Some (nv_keys (view w') !! name) /\
      nv_handles (view w') = {[cng_key k; prov_handle (cng_provider k)]} ∪ nv_handles (view w)
  | Err _ => nv_handles (view w') = nv_handles (view w)
  end.
Proof.
  pose proof (cng_open_or_create_view name w) as H.
  destruct (cng_open_or_create name w) as [w' [k|e]].
  2: { rewrite H. naive_solver. }
  destruct H as (Hf & [[Hk ->]|[Hk ->]]); cbn.
  - split_and!; try done; [naive_solver|set_solver].
  - split_and!; try done; [|by apply insert_subseteq|rewrite lookup_insert_eq; eauto|set_solver].
    intros n p. destruct (decide (n = name)) as [->|]; [|rewrite lookup_insert_ne by done; naive_solver].
    rewrite lookup_insert_eq. naive_solver.
Qed.

(** Dropping an opened key gives both handles back. *)
Lemma drop_opened_key k w w' :
  fresh_key k (view w) -> nv_handles (view w') = nv_handles (owned k (view w)) ->
  nv_handles (view (drop_key k w')) = nv_handles (view w).
Proof.
  intros (Hk & Hp & Hne) Hw. unfold drop_key, drop_provider.
  assert (nv_handles (view (NCryptFreeObject (cng_key k) w').1) =
          {[prov_handle (cng_provider k)]} ∪ nv_handles (view w)) as Hw1.
  { rewrite law_free by (rewrite Hw; cbn; set_solver). cbn. rewrite Hw. cbn.
    apply set_eq. set_solver. }
  rewrite law_free by (rewrite Hw1; set_solver). cbn. rewrite Hw1. set_solver.
Qed.

(** [delete] forgets the whole key, so the provider's handle is never freed, and
    neither is the key's when the call fails. *)
Lemma delete_leaks_provider k w :
  cng_key k <> prov_handle (cng_provider k) ->
  cng_key k ∈ nv_handles (view w) -> prov_handle (cng_provider k) ∈ nv_handles (view w) ->
  let '(w', r) := cng_delete k w in
  prov_handle (cng_provider k) ∈ nv_handles (view w') /\
  (is_ok r = false -> cng_key k ∈ nv_handles (view w')).
Proof.
  intros Hne Hk Hp. unfold cng_delete. pose proof (law_delete (cng_key k) 0 w Hk) as H.
  destruct (NCryptDeleteKey _ _ w) as [w1 [[]|e]]; cbn.
  - destruct H as [n ->]. cbn. set_solver.
  - by rewrite H.
Qed.

Context {Sk : Type} `{!P256 W Sk} (sha256 : list u8 -> list u8).
Context (debug_assertions dev_feature : bool).

(** On Windows a device that has never held a weaker key of that name does not hold
    one after [devicekey::open_or_create]: the boxed key that reports it meets the
    non-exportable requirement is backed by a sealed key in the store, and no software
    key is ever made. *)
Theorem windows_key_is_sealed d w :
  (forall p, nv_keys (view w) !! KEY_NAME = Some p -> p = sealed_props) ->
  let '((d', w'), r) := open_or_create (Sk:=Sk) debug_assertions dev_feature true
    (fun n => on_host (cng_open_or_create n)) (d, w) in
  d' = d /\
  match r with
  | Ok k => meets_non_exportable_requirement (@boxed_kind _ _ _ _ (cng_DeviceKey sha256) k) = true /\
            nv_keys (view w') !! KEY_NAME = Some sealed_props
  | Err _ => view w' = view w
  end.
Proof.
  intros Hs. unfold open_or_create, bindM, on_host.
  pose proof (cng_open_or_create_view KEY_NAME w) as H.
  destruct (cng_open_or_create KEY_NAME w) as [w1 [k|e]]; cbn; [|done].
  split_and!; [done..|]. destruct H as (_ & [[[p Hp] ->]|[_ ->]]); cbn.
  - by rewrite Hp, (Hs p Hp).
  - apply lookup_insert_eq.
Qed.

(** What the second call wrote. *)
Lemma two_calls_Ok what err (call : option (list u8) -> W -> W * result (list u8 * Z) WinError) w w' l :
  two_calls what err call w = (w', Ok l) ->
  exists w1 n buf m, call (Some (replicate n (z2b 0))) w1 = (w', Ok (buf, m)) /\ l = take (Z.to_nat m) buf.
Proof.
  unfold two_calls, bindM. destruct (call None w) as [w1 [[b n]|e]]; [|done]. cbn.
  destruct (call (Some _) w1) as [w2 [[b' n']|e]] eqn:E; [|done]. cbn. intros [= <- <-]. eauto 6.
Qed.

(** Public points are read from exactly the P-256 blobs: the header with the ECDSA
    magic and 32-byte coordinates, then X and Y; the point is [0x04], X and Y. *)
Lemma ecc_blob_exact blob p :
  point_from_ecc_blob blob = Ok p <->
  exists X Y rest, length X = 32%nat /\ length Y = 32%nat /\
    blob = to_le_bytes 4 BCRYPT_ECDSA_PUBLIC_P256_MAGIC ++ to_le_bytes 4 32 ++ X ++ Y ++ rest /\
    p = z2b 4 :: X ++ Y.
Proof.
  unfold point_from_ecc_blob, ECCKEY_BLOB_SIZE. split.
  - destruct (Nat.ltb_spec (length blob) 8); [done|].
    destruct (Z.eqb_spec (from_le_bytes (slice 0 4 blob)) BCRYPT_ECDSA_PUBLIC_P256_MAGIC) as [Hm|]; [|done].
    destruct (Z.eqb_spec (from_le_bytes (slice 4 8 blob)) 32) as [Hc|]; [|done].
    destruct (Nat.ltb_spec (length blob) (8 + 64)); [done|]. cbn [negb orb]. intros [= <-].
    exists (slice 8 40 blob), (slice 40 72 blob), (drop 72 blob).
    rewrite !length_slice by lia. split_and!; [done..| |by rewrite slice_app by lia].
    rewrite <- Hm, <- Hc, !to_from_le_bytes' by (rewrite length_slice; lia).
    rewrite slice_drop, slice_drop, slice_drop, slice_drop by lia. done.
  - intros (X & Y & rest & HX & HY & -> & ->).
    set (h := to_le_bytes 4 BCRYPT_ECDSA_PUBLIC_P256_MAGIC). set (c := to_le_bytes 4 32).
    assert (length h = 4%nat /\ length c = 4%nat) as [Hh Hc] by done.
    assert (slice 0 4 (h ++ c ++ X ++ Y ++ rest) = h) as -> by (apply (slice_mid 0 4 []); done).
    rewrite (slice_mid 4 8 h c) by done.
    assert (slice 8 (8 + 64) (h ++ c ++ X ++ Y ++ rest) = X ++ Y) as ->.
    { replace (h ++ c ++ X ++ Y ++ rest) with ((h ++ c) ++ (X ++ Y) ++ rest) by by rewrite <- !app_assoc.
      apply slice_mid; rewrite length_app; lia. }
    rewrite !length_app, Hh, Hc, HX, HY. done.
Qed.

#[export] Instance cng_DeviceKeyLaws : @DeviceKeyLaws (CngDeviceKey * W) (cng_DeviceKey sha256).
Proof.
  constructor. intros [k w] [k' w'] p. cbn. unfold cng_public_point.
  destruct (two_calls _ _ _ w) as [w1 [blob|e]]; [|done]. cbn.
  destruct (point_from_ecc_blob blob) as [q|] eqn:E; [|done]. intros [= <- <- <-].
  apply ecc_blob_exact in E as (X & Y & rest & HX & HY & _ & ->). cbn. rewrite length_app. lia.
Qed.

(** A CNG signature is the DER form of the 64 bytes NCrypt wrote for the message's
    digest. *)
Lemma cng_sign_reads_back k m w w' der :
  cng_sign sha256 k m w = (w', Ok der) ->
  exists w1 n buf written, NCryptSignHash (cng_key k) (sha256 m) (Some (replicate n (z2b 0))) NCRYPT_SILENT_FLAG w1
      = (w', Ok (buf, written)) /\
    let raw := take (Z.to_nat written) buf in
    length raw = 64%nat /\ read_sig der = Some (from_be_bytes (take 32 raw), from_be_bytes (drop 32 raw)).
Proof.
  unfold cng_sign. destruct (two_calls _ _ _ w) as [w1 [raw|e]] eqn:E; [|done]. cbn.
  intros [= <- Hd]. apply two_calls_Ok in E as (w2 & n & buf & m' & Hc & ->).
  exists w2, n, buf, m'. split; [done|]. cbn. pose proof (sig_der_exact (take (Z.to_nat m') buf)) as H.
  by rewrite Hd in H.
Qed.
End props.

(** ** A key store in memory

    It meets the documented behaviour, with failures at chosen calls. *)

Record MemStore := {
  ms_open : gset Z;                          (** handles of providers and finalized keys *)
  ms_pending : gmap Z (string * KeyProps);
  ms_keys : gmap string KeyProps;
  ms_heap : gset Z;
  ms_faults : list bool;                     (** does the next call fail? *)
}.
#[export] Instance MemStore_rebuild : Rebuild MemStore := fun m =>
  {| ms_open := ms_open m; ms_pending := ms_pending m; ms_keys := ms_keys m; ms_heap := ms_heap m;
     ms_faults := ms_faults m |}.

Definition ms_view (m : MemStore) : NView :=
  {| nv_handles := ms_open m ∪ dom (ms_pending m); nv_pending := ms_pending m;
     nv_keys := ms_keys m; nv_heap := ms_heap m |}.
Definition ms_fresh (m : MemStore) : Z := stdpp.base.fresh (nv_handles (ms_view m)).

Definition ms_call {A} (f : MemStore -> MemStore * result A WinError) (m : MemStore)
    : MemStore * result A WinError :=
  let m' := m <| ms_faults := tl (ms_faults m) |> in
  if hd false (ms_faults m) then (m', Err {| we_code := 0x80090030; we_text := "not ready" |}) else f m'.
Definition ms_free (h : Z) (m : MemStore) : MemStore :=
  m <| ms_open := ms_open m ∖ {[h]} |> <| ms_pending := delete h (ms_pending m) |>.

#[export] Instance mem_NCrypt : NCrypt MemStore := {|
  NCryptOpenStorageProvider := ms_call (fun m => let h := ms_fresh m in
    (m <| ms_open := {[h]} ∪ ms_open m |>, Ok h));
  NCryptOpenKey _ n _ := ms_call (fun m =>
    match ms_keys m !! n with
    | None => (m, Err {| we_code := NTE_BAD_KEYSET; we_text := "no such key" |})
    | Some _ => let h := ms_fresh m in (m <| ms_open := {[h]} ∪ ms_open m |>, Ok h)
    end);
  NCryptCreatePersistedKey _ n _ := ms_call (fun m =>
    match ms_keys m !! n with
    | Some _ => (m, Err {| we_code := 0x8009000F; we_text := "exists" |})
    | None => let h := ms_fresh m in (m <| ms_pending := <[h := (n, fresh_props)]> (ms_pending m) |>, Ok h)
    end);
  NCryptSetProperty h prop v fl := ms_call (fun m =>
    match ms_pending m !! h with
    | Some (n, p) => (m <| ms_pending := <[h := (n, set_prop prop v fl p)]> (ms_pending m) |>, Ok tt)
    | None => (m, Err {| we_code := 0x80090026; we_text := "invalid handle" |})
    end);
  NCryptFinalizeKey h _ := ms_call (fun m =>
    match ms_pending m !! h with
    | Some (n, p) => (m <| ms_pending := delete h (ms_pending m) |> <| ms_open := {[h]} ∪ ms_open m |>
                        <| ms_keys := <[n := p]> (ms_keys m) |>, Ok tt)
    | None => (m, Err {| we_code := 0x80090026; we_text := "invalid handle" |})
    end);
  NCryptFreeObject h m := (ms_free h m, Ok tt);
  NCryptDeleteKey h _ := ms_call (fun m =>
    ((ms_free h m) <| ms_keys := delete KEY_NAME (ms_keys m) |>, Ok tt));
  NCryptExportKey _ _ b _ := ms_call (fun m =>
    let blob := to_le_bytes 4 BCRYPT_ECDSA_PUBLIC_P256_MAGIC ++ to_le_bytes 4 32 ++ replicate 64 (z2b 7) in
    (m, Ok (match b with None => [] | Some _ => blob end, len blob)));
  NCryptSignHash _ d b _ := ms_call (fun m => (m, Ok (match b with None => [] | Some _ => d ++ d end, 64)));
  ConvertStringSecurityDescriptor s := ms_call (fun m => let p := stdpp.base.fresh (ms_heap m) in
    (m <| ms_heap := {[p]} ∪ ms_heap m |>, Ok (p, z2b <$> (code <$> chars s))));
  LocalFree p m := m <| ms_heap := ms_heap m ∖ {[p]} |>;
|}.

Lemma ms_fresh_new m : ~ (ms_fresh m ∈ nv_handles (ms_view m)).
Proof. unfold ms_fresh. apply (is_fresh (nv_handles (ms_view m))). Qed.

Lemma ms_call_spec {A} f m (P : MemStore * result A WinError -> Prop) :
  (forall m' e, ms_view m' = ms_view m -> P (m', Err e)) ->
  (forall m', ms_view m' = ms_view m -> P (f m')) -> P (ms_call f m).
Proof. intros H1 H2. unfold ms_call. destruct (hd false _); auto. Qed.

(** One call: a failure leaves the view, a success runs on a store with that view. *)
Ltac ms_step :=
  cbv [NCryptOpenStorageProvider NCryptOpenKey NCryptCreatePersistedKey NCryptSetProperty NCryptFinalizeKey
       NCryptDeleteKey NCryptExportKey NCryptSignHash ConvertStringSecurityDescriptor mem_NCrypt];
  match goal with |- context [ms_call ?f ?w] =>
    pattern (ms_call f w); apply ms_call_spec; [by intros|];
    let m := fresh "m" in let Hm := fresh "Hm" in intros m Hm; rewrite <- Hm in *; clear Hm w
  end.

#[export] Instance mem_NCryptLaws : NCryptLaws MemStore.
Proof.
  refine {| view := ms_view; sd_bytes s := z2b <$> (code <$> chars s) |}.
  - intros w h Hs. apply elem_of_union_r, elem_of_dom, Hs.
  - intros w. ms_step. split; [apply ms_fresh_new|]. apply view_eq; cbn; set_solver.
  - intros p n fl w. ms_step. destruct (ms_keys m !! n) eqn:E; [|done].
    split_and!; [apply ms_fresh_new|cbn; eauto|]. apply view_eq; cbn; set_solver.
  - intros p n fl w. ms_step. destruct (ms_keys m !! n) eqn:E; [done|].
    split_and!; [apply ms_fresh_new|done|]. apply view_eq; cbn; [rewrite dom_insert_L|..]; set_solver.
  - intros h prop v fl w n p Hp. ms_step. cbn in Hp. rewrite Hp.
    apply view_eq; cbn; [rewrite dom_insert_lookup_L|..]; done.
  - intros h fl w n p Hp. ms_step. cbn in Hp. rewrite Hp. apply elem_of_dom_2 in Hp.
    apply view_eq; cbn; [rewrite dom_delete_L; apply set_eq; intros x; destruct (decide (x = h))|..]; set_solver.
  - intros h w Hh. apply view_eq; cbn; [rewrite dom_delete_L|..]; set_solver.
  - intros h fl w Hh. ms_step. exists KEY_NAME. apply view_eq; cbn; [rewrite dom_delete_L|..]; set_solver.
  - intros h t b fl w. by ms_step.
  - intros h d b fl w. by ms_step.
  - intros s w. ms_step. split_and!; [apply (is_fresh (ms_heap m))|done|]. by apply view_eq.
  - done.
Defined.

(** A store whose security descriptor is refused: the half-made key is given up. *)
Definition ms_empty (faults : list bool) : MemStore :=
  {| ms_open := ∅; ms_pending := ∅; ms_keys := ∅; ms_heap := ∅; ms_faults := faults |}.

Example refused_descriptor_leaves_nothing :
  let m := ms_empty [false; false; false; false; false; false; true] in
  let '(m', r) := cng_open_or_create KEY_NAME m in
  is_ok r = false /\ ms_keys m' = ∅ /\ ms_pending m' = ∅ /\ elements (ms_open m') = [].
Proof. vm_compute. done. Qed.

(** Opening does not look at the policy of the key it finds: one that was there
    before with an exportable policy is used and reported as non-exportable. *)
Example opened_key_is_not_checked :
  let m := (ms_empty []) <| ms_keys := {[KEY_NAME := fresh_props]} |> in
  let '(m', r) := cng_open_or_create KEY_NAME m in
  ms_keys m' !! KEY_NAME = Some fresh_props /\
  match r with
  | Ok k => meets_non_exportable_requirement (@kind _ (cng_DeviceKey (fun _ => [])) (k, m')) = true
  | Err _ => False
  end.
Proof. vm_compute. done. Qed.

#[export] Instance mem_p256 : P256 MemStore unit := {|
  random_key m := (m, tt);
  to_pkcs8_pem _ := Err "no software keys";
  from_pkcs8_pem _ := Err "no software keys";
  encoded_point _ := [];
  ecdsa_der _ _ := [];
|}.

(** An empty store on which every call succeeds. *)
Lemma windows_key_is_sealed_witness :
  let '((d', w'), r) := open_or_create (Sk:=unit) false false true
    (fun n => on_host (cng_open_or_create n)) (({| files := ∅; faults := [] |} : Disk), ms_empty []) in
  d' = {| files := ∅; faults := [] |} /\
  match r with
  | Ok k => meets_non_exportable_requirement (@boxed_kind _ _ _ _ (cng_DeviceKey (fun _ => [])) k) = true /\
            nv_keys (view w') !! KEY_NAME = Some sealed_props
  | Err _ => view w' = view (ms_empty [])
  end.
Proof. apply (windows_key_is_sealed (Sk:=unit) (fun _ => []) false false). intros p. cbn. rewrite lookup_empty. done. Defined.

(** The finalizing call fails: nothing is kept. *)
Lemma cng_never_leaves_a_weak_key_witness :
  let m := ms_empty [false; false; false; false; false; false; false; true] in
  is_ok (cng_open_or_create KEY_NAME m).2 = false /\
  let '(w', r) := cng_open_or_create KEY_NAME m in
  (forall n p, nv_keys (view w') !! n = Some p ->
     nv_keys (view m) !! n = Some p \/ (n = KEY_NAME /\ p = sealed_props)) /\
  nv_keys (view m) ⊆ nv_keys (view w') /\
  nv_pending (view w') = nv_pending (view m) /\ nv_heap (view w') = nv_heap (view m) /\
  match r with
  | Ok k => fresh_key k (view m) /\ is_Some (nv_keys (view w') !! KEY_NAME) /\
      nv_handles (view w') = {[cng_key k; prov_handle (cng_provider k)]} ∪ nv_handles (view m)
  | Err _ => nv_handles (view w') = nv_handles (view m)
  end.
Proof.
  split; [vm_compute; reflexivity|].
  apply (cng_never_leaves_a_weak_key KEY_NAME (ms_empty [false; false; false; false; false; false; false; true])).
Defined.
