(* ===== verification/Scm.v ===== *)
(** The service under the Service Control Manager (sentinel-service/src/windows/scm.rs
    and recovery.rs): the control handler, the bounded channel to the service body,
    the status reports, and every interleaving of the SCM's threads with the body.

    The handler runs on threads of the SCM beside the body. Each access to the shared
    statics is one atomic action (the flag and the counter are atomics, the rest is
    done under the mutex); a run is any interleaving of them. *)

From S2P Require Import Prelude Text Config Backoff Supervisor Files.
From S2P Require Import Update Ipc Service.

(** ** Constants *)

Definition SERVICE_CONTROL_STOP : Z := 1.
Definition SERVICE_CONTROL_INTERROGATE : Z := 4.
Definition SERVICE_CONTROL_SHUTDOWN : Z := 5.
Definition SERVICE_CONTROL_SESSIONCHANGE : Z := 14.
Definition SERVICE_ACCEPT_STOP : Z := 1.
Definition SERVICE_ACCEPT_SHUTDOWN : Z := 4.
Definition SERVICE_ACCEPT_SESSIONCHANGE : Z := 128.
Definition WTS_SESSION_LOGON : Z := 5.
Definition WTS_SESSION_LOGOFF : Z := 6.
Definition NO_ERROR : Z := 0.
Definition ERROR_CALL_NOT_IMPLEMENTED : Z := 120.
(** [sync_channel(64)] *)
Definition CHANNEL_BOUND : nat := 64.

Inductive CurrentState := START_PENDING | RUNNING | STOP_PENDING | STOPPED.
#[export] Instance CurrentState_eq_dec : EqDecision CurrentState.
Proof. solve_decision. Defined.

Record SERVICE_STATUS := {
  dwCurrentState : CurrentState;
  dwControlsAccepted : Z;
  dwCheckPoint : Z;
  dwWaitHint : Z;
}.

(** ** The statics

    [scm_chan] is the channel behind the registered [Shared], [scm_reports] what
    [SetServiceStatus] was told, [scm_rx] whether the body still holds the receiver. *)
Record Scm := {
  scm_chan : option (list ServiceEvent);
  scm_rx : bool;
  scm_checkpoint : Z;
  scm_stopping : bool;
  scm_reports : list SERVICE_STATUS;
}.
#[export] Instance Scm_rebuild : Rebuild Scm := fun s =>
  {| scm_chan := scm_chan s; scm_rx := scm_rx s; scm_checkpoint := scm_checkpoint s;
     scm_stopping := scm_stopping s; scm_reports := scm_reports s |}.
Definition Scm_init : Scm :=
  {| scm_chan := None; scm_rx := true; scm_checkpoint := 0; scm_stopping := false; scm_reports := [] |}.

Definition is_pending (c : CurrentState) : bool :=
  match c with START_PENDING | STOP_PENDING => true | _ => false end.

Definition set_status (state : CurrentState) (accept : Z) (s : Scm) : Scm :=
  match scm_chan s with
  | None => s
  | Some _ =>
      let pending := is_pending state in
      let status := {| dwCurrentState := state; dwControlsAccepted := accept;
                       dwCheckPoint := if pending then scm_checkpoint s else 0;
                       dwWaitHint := if pending then 10000 else 0 |} in
      s <| scm_checkpoint := if pending then wrap32 (scm_checkpoint s + 1) else scm_checkpoint s |>
        <| scm_reports := scm_reports s ++ [status] |>
  end.

(** [try_send] on the bounded channel, its failure ignored. *)
Definition accepts_event (s : Scm) : bool :=
  match scm_chan s with Some q => scm_rx s && (length q <? CHANNEL_BOUND)%nat | None => false end.
Definition post (ev : ServiceEvent) (s : Scm) : Scm :=
  match scm_chan s with
  | Some q => if accepts_event s then s <| scm_chan := Some (q ++ [ev]) |> else s
  | None => s
  end.

(** ** The control handler: its atomic actions in order, and what it returns *)

Inductive Act :=
| StoreStopping
| SetStatus (state : CurrentState) (accept : Z)
| Post (ev : ServiceEvent).
#[export] Instance ServiceEvent_eq_dec : EqDecision ServiceEvent.
Proof. solve_decision. Defined.
#[export] Instance Act_eq_dec : EqDecision Act.
Proof. solve_decision. Defined.

Definition run_act (a : Act) (s : Scm) : Scm :=
  match a with
  | StoreStopping => s <| scm_stopping := true |>
  | SetStatus st acc => set_status st acc s
  | Post ev => post ev s
  end.

(** [event_data] is the session id behind the pointer, [None] when it is null. *)
Definition handler (control event_type : Z) (event_data : option Z) : list Act * Z :=
  if (control =? SERVICE_CONTROL_STOP) || (control =? SERVICE_CONTROL_SHUTDOWN) then
    ([StoreStopping; SetStatus STOP_PENDING 0; Post EvStop], NO_ERROR)
  else if control =? SERVICE_CONTROL_SESSIONCHANGE then
    (match event_data with
     | Some session =>
         if event_type =? WTS_SESSION_LOGON then [Post (SessionLogon session)]
         else if event_type =? WTS_SESSION_LOGOFF then [Post (SessionLogoff session)]
         else []
     | None => []
     end, NO_ERROR)
  else ([], ERROR_CALL_NOT_IMPLEMENTED).

(** ** [service_main] and the interleavings *)

Definition accepted : Z :=
  Z.lor (Z.lor SERVICE_ACCEPT_STOP SERVICE_ACCEPT_SHUTDOWN) SERVICE_ACCEPT_SESSIONCHANGE.

(** Where the [ServiceMain] thread is. *)
Inductive Main (C : Type) :=
| MStart
| MRegistered
| MStartPending
| MBody (s : Service C)                    (** before [recv_timeout] of the next pass *)
| MReceived (r : Received) (s : Service C) (** after it *)
| MReturned (s : Service C)
| MDone.
Arguments MStart {C}.
Arguments MRegistered {C}.
Arguments MStartPending {C}.
Arguments MBody {C} s.
Arguments MReceived {C} r s.
Arguments MReturned {C} s.
Arguments MDone {C}.

Section system.
Context {C : Type} (cred_check : ServiceState -> C -> C) (version : string) (start : Service C).

(** A call of the handler: the control, the event type and the session id. *)
Definition Control : Type := Z * Z * option Z.

(** [sys_threads]: what each running handler has left to do. The rest records the run:
    the controls delivered, the passes completed and their inputs, what was received,
    and every post with whether the channel took it. *)
Record Sys := {
  sys_scm : Scm;
  sys_main : Main C;
  sys_threads : list (list Act);
  sys_delivered : list Control;
  sys_inputs : list PassInput;
  sys_received : list ServiceEvent;
  sys_posts : list (ServiceEvent * bool);
  sys_stop_at : option nat;               (** passes completed when the flag was first set *)
}.
#[export] Instance Sys_rebuild : Rebuild Sys := fun s =>
  {| sys_scm := sys_scm s; sys_main := sys_main s; sys_threads := sys_threads s;
     sys_delivered := sys_delivered s; sys_inputs := sys_inputs s; sys_received := sys_received s; sys_posts := sys_posts s; sys_stop_at := sys_stop_at s |}.
Definition Sys_init : Sys :=
  {| sys_scm := Scm_init; sys_main := MStart; sys_threads := []; sys_delivered := []; sys_inputs := [];
     sys_received := []; sys_posts := []; sys_stop_at := None |}.

(** The receiver's side of the channel: the oldest event, or a timeout when it is
    empty. The sender lives in a static, so the channel never disconnects. *)
Definition recv (s : Scm) : Scm * Received :=
  match scm_chan s with
  | Some (ev :: q) => (s <| scm_chan := Some q |>, Got ev)
  | _ => (s, TimedOut)
  end.

Definition received_events (r : Received) : list ServiceEvent := match r with Got e => [e] | _ => [] end.

(** A pass whose event and flag are what the SCM side holds; the rest of the world is
    arbitrary. *)
Definition seen (i : PassInput) (r : Received) (s : Scm) : PassInput :=
  {| in_requests := in_requests i; in_now := in_now i; in_exited := in_exited i; in_launch := in_launch i;
     in_draw := in_draw i; in_recv := r; in_stopping := scm_stopping s |}.

(** One action of the thread [ServiceMain] runs on; [i] is the world of the pass. *)
Definition main_step (i : PassInput) (registered : bool) (s : Sys) : Sys :=
  match sys_main s with
  | MStart =>
      if registered then
        s <| sys_scm := (sys_scm s) <| scm_chan := Some [] |> |> <| sys_main := MRegistered |>
      else s <| sys_main := MDone |>
  | MRegistered => s <| sys_scm := set_status START_PENDING 0 (sys_scm s) |> <| sys_main := MStartPending |>
  | MStartPending => s <| sys_scm := set_status RUNNING accepted (sys_scm s) |> <| sys_main := MBody start |>
  | MBody sv =>
      let '(scm, r) := recv (sys_scm s) in
      s <| sys_scm := scm |> <| sys_main := MReceived r sv |>
        <| sys_received := sys_received s ++ received_events r |>
  | MReceived r sv =>
      let i := seen i r (sys_scm s) in
      let '(sv', _, stop) := pass cred_check version i sv in
      let s := s <| sys_inputs := sys_inputs s ++ [i] |> in
      if stop then s <| sys_main := MReturned sv' |> <| sys_scm := (sys_scm s) <| scm_rx := false |> |>
      else s <| sys_main := MBody sv' |>
  | MReturned _ => s <| sys_scm := set_status STOPPED 0 (sys_scm s) |> <| sys_main := MDone |>
  | MDone => s
  end.

(** One action of a running handler. *)
Definition act_step (a : Act) (s : Sys) : Sys :=
  let scm := run_act a (sys_scm s) in
  let s := match a with
    | Post ev => s <| sys_posts := sys_posts s ++ [(ev, accepts_event (sys_scm s))] |>
    | StoreStopping => s <| sys_stop_at := match sys_stop_at s with
                              | Some n => Some n | None => Some (length (sys_inputs s)) end |>
    | SetStatus _ _ => s
    end in
  s <| sys_scm := scm |>.

(** A control arrives: its handler starts on a thread of its own. *)
Definition deliver (c : Control) (s : Sys) : Sys :=
  s <| sys_threads := (handler c.1.1 c.1.2 c.2).1 :: sys_threads s |>
    <| sys_delivered := sys_delivered s ++ [c] |>.

(** The SCM calls the handler once it is registered, at any time and on any thread. The
    part of a pass before [recv_timeout] touches nothing the handlers share, so it is
    taken together with the part after it. *)
Inductive step : Sys -> Sys -> Prop :=
| step_main s i registered : step s (main_step i registered s)
| step_deliver s c : scm_chan (sys_scm s) <> None -> step s (deliver c s)
| step_handler s a acts l1 l2 :
    sys_threads s = l1 ++ (a :: acts) :: l2 ->
    step s (act_step a (s <| sys_threads := l1 ++ acts :: l2 |>)).

Inductive reachable : Sys -> Prop :=
| reach_init : reachable Sys_init
| reach_step s s' : reachable s -> step s s' -> reachable s'.
End system.

(** ** Properties *)

Section props.
Context {C : Type} (cred_check : ServiceState -> C -> C) (version : string) (start : Service C).
#[local] Arguments pass : simpl never.
#[local] Arguments set_status : simpl never.
#[local] Arguments post : simpl never.
#[local] Arguments recv : simpl never.
Abbreviation reach := (reachable cred_check version start).
Abbreviation loop := (service_loop cred_check version).

Lemma service_loop_snoc ins sv sv' sv'' es i e stop :
  loop ins sv = (sv', es, false) -> pass cred_check version i sv' = (sv'', e, stop) ->
  loop (ins ++ [i]) sv = (sv'', es ++ e, stop).
Proof.
  revert sv es. induction ins as [|j ins IH]; intros sv es; cbn [service_loop app].
  - intros [= -> <-] ->. destruct stop; [done|]. by rewrite app_nil_r.
  - destruct (pass cred_check version j sv) as [[sv1 e1] []]; [done|].
    destruct (loop ins sv1) as [[sv2 e2] b] eqn:E. intros [= -> <- ->] Hp.
    rewrite (IH sv1 e2 E Hp). by rewrite app_assoc.
Qed.

Lemma pass_stops i sv : in_stopping i = true -> (pass cred_check version i sv).2 = true.
Proof.
  intros Hi. unfold pass. repeat case_match; simplify_eq/=.
  match goal with H : event_step _ _ = _ |- _ => unfold event_step in H; rewrite Hi in H end.
  case_match; simplify_eq. apply orb_true_r.
Qed.

(** What the SCM side guarantees about a run. *)
Definition loop_inv (s : Sys) : Prop :=
  match sys_main s with
  | MStart | MRegistered | MStartPending => sys_inputs s = []
  | MBody sv | MReceived _ sv => exists es, loop (sys_inputs s) start = (sv, es, false)
  | MReturned sv => exists es, loop (sys_inputs s) start = (sv, es, true)
  | MDone => sys_inputs s = [] \/ exists sv es, loop (sys_inputs s) start = (sv, es, true)
  end.

Definition returned (m : Main C) : bool := match m with MReturned _ | MDone => true | _ => false end.

Definition stop_inv (s : Sys (C:=C)) : Prop :=
  (scm_stopping (sys_scm s) = true <-> is_Some (sys_stop_at s)) /\
  forall n, sys_stop_at s = Some n ->
    (n <= length (sys_inputs s) <= S n)%nat /\ (length (sys_inputs s) = S n -> returned (sys_main s) = true).

Definition chan_inv (s : Sys (C:=C)) : Prop :=
  (length (default [] (scm_chan (sys_scm s))) <= CHANNEL_BOUND)%nat /\
  (base.filter (fun p => p.2 = true) (sys_posts s)).*1 =
    sys_received s ++ default [] (scm_chan (sys_scm s)).

Lemma act_main a (s : Sys (C:=C)) :
  sys_main (act_step a s) = sys_main s /\ sys_inputs (act_step a s) = sys_inputs s /\
  sys_received (act_step a s) = sys_received s /\ sys_threads (act_step a s) = sys_threads s.
Proof. by destruct a. Qed.

Lemma set_status_frame st acc s :
  scm_chan (set_status st acc s) = scm_chan s /\ scm_stopping (set_status st acc s) = scm_stopping s /\
  scm_rx (set_status st acc s) = scm_rx s.
Proof. unfold set_status. by case_match. Qed.

Lemma post_frame ev s :
  scm_stopping (post ev s) = scm_stopping s /\ scm_reports (post ev s) = scm_reports s /\
  scm_checkpoint (post ev s) = scm_checkpoint s.
Proof. unfold post. by repeat case_match. Qed.

Lemma scm_recv_frame s s' r :
  recv s = (s', r) -> scm_stopping s' = scm_stopping s /\ scm_reports s' = scm_reports s /\
    scm_checkpoint s' = scm_checkpoint s /\ default [] (scm_chan s) = received_events r ++ default [] (scm_chan s').
Proof. unfold recv. repeat case_match; intros [= <- <-]; cbn; try done; simplify_eq; repeat split; by rewrite ?H. Qed.

Lemma reach_loop s : reach s -> loop_inv s.
Proof.
  induction 1 as [|s s' _ IH Hstep]; [done|]. destruct Hstep as [s i reg|s c Hc|s a acts l1 l2 Ht].
  - unfold loop_inv, main_step in *. destruct (sys_main s) as [| | |sv|r sv|sv|] eqn:Em; cbn; try (by eauto).
    + destruct reg; cbn; by eauto.
    + exists []. by rewrite IH.
    + destruct (recv _) as [scm r]. cbn. done.
    + destruct IH as [es IH]. destruct (pass cred_check version _ sv) as [[sv' e] stop] eqn:Ep.
      pose proof (service_loop_snoc _ _ _ _ _ _ _ _ IH Ep) as Hs. destruct stop; cbn; eauto.
    + by rewrite Em.
  - done.
  - unfold loop_inv in *. by destruct a.
Qed.

Lemma stop_inv_frame (s s' : Sys (C:=C)) :
  scm_stopping (sys_scm s') = scm_stopping (sys_scm s) -> sys_stop_at s' = sys_stop_at s ->
  sys_inputs s' = sys_inputs s -> (returned (sys_main s) = true -> returned (sys_main s') = true) ->
  stop_inv s -> stop_inv s'.
Proof.
  intros H1 H2 H3 H4 [Hf Hn]. unfold stop_inv. rewrite H1, H2, H3. split; [done|].
  intros n Hs. destruct (Hn n Hs) as [? Hr]. split; [done|]. intros E. by apply H4, Hr.
Qed.

(** A pass of a body that has been told to stop is its last. *)
Lemma stop_inv_pass i r sv (s : Sys (C:=C)) :
  sys_main s = MReceived r sv -> stop_inv s -> stop_inv (main_step cred_check version start i true s).
Proof.
  intros Em [Hf Hn]. unfold stop_inv, main_step. rewrite Em in *.
  destruct (pass cred_check version _ sv) as [[sv' e] stop] eqn:Ep.
  pose proof (pass_stops (seen i r (sys_scm s)) sv) as Hstop. rewrite Ep in Hstop. cbn in Hstop.
  destruct stop; cbn; (split; [done|]); intros n Hs; destruct (Hn n Hs) as [? Hr];
    rewrite length_app; cbn; (assert (scm_stopping (sys_scm s) = true) as Ht by (apply Hf; eauto)).
  - split; [|done]. destruct (decide (length (sys_inputs s) = S n)) as [E|]; [by apply Hr in E|lia].
  - by apply Hstop in Ht.
Qed.

Lemma reach_stop s : reach s -> stop_inv s.
Proof.
  induction 1 as [|s s' _ IH Hstep]; [split; [split; [done|by intros []]|done]|].
  destruct Hstep as [s i reg|s c Hc|s a acts l1 l2 Ht]; [|exact IH|].
  - destruct (sys_main s) as [| | |sv|r sv|sv|] eqn:Em.
    5: { pose proof (stop_inv_pass i r sv s Em IH) as H. unfold main_step in *. by rewrite Em in *. }
    all: revert IH; apply stop_inv_frame; unfold main_step; rewrite ?Em; cbn; try done; try (by destruct reg);
      try apply set_status_frame; destruct (recv (sys_scm s)) as [scm r] eqn:Er; cbn; try done.
    by apply scm_recv_frame in Er as (-> & _).
  - destruct IH as [Hf Hn]. unfold stop_inv. destruct a as [|st acc|ev]; cbn.
    + split; [destruct (sys_stop_at s); naive_solver|]. destruct (sys_stop_at s) eqn:E; [by apply Hn|].
      intros n [= <-]. split; [lia|lia].
    + by destruct (set_status_frame st acc (sys_scm s)) as (_ & -> & _).
    + by destruct (post_frame ev (sys_scm s)) as (-> & _).
Qed.

Lemma chan_inv_frame (s s' : Sys (C:=C)) :
  scm_chan (sys_scm s') = scm_chan (sys_scm s) -> sys_posts s' = sys_posts s -> sys_received s' = sys_received s ->
  chan_inv s -> chan_inv s'.
Proof. unfold chan_inv. by intros -> -> ->. Qed.

Lemma post_chan ev s :
  scm_chan (post ev s) =
    if accepts_event s then (fun q => q ++ [ev]) <$> scm_chan s else scm_chan s.
Proof. unfold post, accepts_event. repeat case_match; simplify_eq/=; congruence. Qed.

Lemma accepts_event_true s :
  accepts_event s = true ->
  exists q, scm_chan s = Some q /\ (length q < CHANNEL_BOUND)%nat /\ scm_rx s = true.
Proof.
  unfold accepts_event. destruct (scm_chan s) as [q|]; [|done].
  intros [H1 H2]%andb_true_iff. apply Nat.ltb_lt in H2. eauto.
Qed.

Lemma chan_inv_recv (s : Sys (C:=C)) scm r :
  recv (sys_scm s) = (scm, r) -> chan_inv s ->
  chan_inv (s <| sys_scm := scm |> <| sys_received := sys_received s ++ received_events r |>).
Proof.
  intros (_ & _ & _ & Hq)%scm_recv_frame [Hl Hp]. unfold chan_inv. cbn. rewrite Hp, Hq, <- app_assoc.
  split; [|done]. rewrite Hq, length_app in Hl. lia.
Qed.

Lemma reach_registered s : reach s -> sys_main s = MStart -> sys_posts s = [] /\ sys_received s = [] /\
  sys_threads s = [] /\ scm_chan (sys_scm s) = None.
Proof.
  induction 1 as [|s s' _ IH Hstep]; [done|]. destruct Hstep as [s i reg|s c Hc|s a acts l1 l2 Ht].
  - unfold main_step. destruct (sys_main s) eqn:Em; cbn; rewrite ?Em; try done; try (by destruct reg).
    + by destruct (recv _).
    + destruct (pass cred_check version _ _) as [[? ?] []]; done.
  - cbn. intros Hm. naive_solver.
  - intros Hm. destruct (act_main a (s <| sys_threads := l1 ++ acts :: l2 |>)) as (H1 & _).
    rewrite H1 in Hm. destruct (IH Hm) as (_ & _ & Hn & _). rewrite Hn in Ht. by destruct l1.
Qed.

Lemma reach_chan s : reach s -> chan_inv s.
Proof.
  induction 1 as [|s s' Hr IH Hstep]; [split; [apply Nat.le_0_l|done]|].
  destruct Hstep as [s i reg|s c Hc|s a acts l1 l2 Ht]; [|exact IH|].
  - unfold main_step. destruct (sys_main s) as [| | |sv|r sv|sv|] eqn:Em; try (revert IH; apply chan_inv_frame; cbn;
      first [done|by apply set_status_frame]).
    + destruct (reach_registered s Hr Em) as (Hp & Hrc & _ & Hn).
      destruct reg; [|exact IH]. unfold chan_inv. cbn. rewrite Hp, Hrc. split; [apply Nat.le_0_l|done].
    + destruct (recv (sys_scm s)) as [scm r] eqn:Er. pose proof (chan_inv_recv s scm r Er IH) as H.
      revert H. by apply chan_inv_frame.
    + revert IH. destruct (pass cred_check version _ _) as [[? ?] []]; by apply chan_inv_frame.
  - destruct a as [|st acc|ev]; [exact IH|revert IH; apply chan_inv_frame; cbn; try done; by apply set_status_frame|].
    destruct IH as [Hl Hp]. unfold chan_inv. cbn [act_step sys_scm sys_posts sys_received upd run_act].
    rewrite post_chan, list.filter_app, fmap_app, Hp. cbn [sys_scm].
    destruct (accepts_event (sys_scm s)) eqn:Ea; cbn; [|by rewrite app_nil_r].
    apply accepts_event_true in Ea as (q & -> & Hq & _). cbn. rewrite length_app, app_assoc. split; [cbn; lia|done].
Qed.

(** The reports: pending states count up, the others carry no checkpoint; the running
    state accepts stop, shutdown and session changes, the others nothing. *)
Definition report_ok (r : SERVICE_STATUS) : bool :=
  (if is_pending (dwCurrentState r) then dwWaitHint r =? 10000
   else (dwCheckPoint r =? 0) && (dwWaitHint r =? 0)) &&
  (dwControlsAccepted r =? if decide (dwCurrentState r = RUNNING) then accepted else 0).
Definition checkpoints (l : list SERVICE_STATUS) : list Z :=
  dwCheckPoint <$> base.filter (fun r => is_pending (dwCurrentState r) = true) l.
Definition reports_inv (s : Scm) : Prop :=
  Forall (fun r => report_ok r = true) (scm_reports s) /\
  checkpoints (scm_reports s) = (fun n => wrap32 (Z.of_nat n)) <$> seq 0 (length (checkpoints (scm_reports s))) /\
  scm_checkpoint s = wrap32 (len (checkpoints (scm_reports s))).

Lemma set_status_reports st acc s :
  acc = (if decide (st = RUNNING) then accepted else 0) -> reports_inv s -> reports_inv (set_status st acc s).
Proof.
  intros -> (Hf & Hc & Hk). unfold set_status. destruct (scm_chan s); [|done]. unfold reports_inv. cbn.
  unfold checkpoints in *. rewrite list.filter_app, fmap_app, length_app. split_and!.
  - rewrite Forall_app. split; [done|]. constructor; [|done]. unfold report_ok. cbn.
    destruct st; cbn; by rewrite ?Z.eqb_refl.
  - destruct st; cbn; rewrite ?app_nil_r, ?Nat.add_0_r; try done;
      rewrite Nat.add_1_r, seq_S, fmap_app, <- Hc, Hk; done.
  - destruct st; cbn; rewrite ?Nat.add_0_r; try done; rewrite Hk; unfold wrap32;
      rewrite Zplus_mod_idemp_l; by rewrite Nat2Z.inj_add.
Qed.

(** Only the handler's own status is reported from its threads. *)
Definition act_ok (a : Act) : bool :=
  match a with SetStatus st acc => bool_decide (st = STOP_PENDING /\ acc = 0) | _ => true end.

Lemma handler_acts_ok c et ed : Forall (fun a => act_ok a = true) (handler c et ed).1.
Proof. unfold handler. repeat case_match; repeat constructor. Qed.

Lemma reach_reports s :
  reach s -> reports_inv (sys_scm s) /\ Forall (Forall (fun a => act_ok a = true)) (sys_threads s).
Proof.
  induction 1 as [|s s' Hr [IH Ha] Hstep]; [by repeat split|].
  destruct Hstep as [s i reg|s c Hc|s a acts l1 l2 Ht].
  - unfold main_step. destruct (sys_main s) as [| | |sv|r sv|sv|] eqn:Em; cbn; try (split; [|done]);
      try (by apply set_status_reports); try done.
    + by destruct reg.
    + destruct (recv (sys_scm s)) as [scm r] eqn:Er. apply scm_recv_frame in Er as (_ & Hre & Hck & _).
      cbn. split; [|done]. unfold reports_inv. by rewrite Hre, Hck.
    + destruct (pass cred_check version _ _) as [[? ?] []]; done.
  - split; [exact IH|]. constructor; [apply handler_acts_ok|done].
  - rewrite Ht, Forall_app, Forall_cons, Forall_cons in Ha. destruct Ha as (H1 & [Ha H2] & H3).
    destruct (act_main a (s <| sys_threads := l1 ++ acts :: l2 |>)) as (_ & _ & _ & ->).
    split; [|cbn; rewrite Forall_app, Forall_cons; done].
    destruct a as [|st acc|ev]; cbn; [exact IH| |].
    + apply bool_decide_eq_true in Ha as [-> ->]. by apply set_status_reports.
    + destruct (post_frame ev (sys_scm s)) as (_ & Hre & Hck). unfold reports_inv. by rewrite Hre, Hck.
Qed.

(** What a control asks of the body. *)
Definition control_event (c : Control) : option ServiceEvent :=
  let '(control, event_type, event_data) := c in
  if decide (control ∈ [SERVICE_CONTROL_STOP; SERVICE_CONTROL_SHUTDOWN]) then Some EvStop
  else if decide (control = SERVICE_CONTROL_SESSIONCHANGE) then
    session ← event_data;
    list_to_map (M := gmap Z ServiceEvent)
      [(WTS_SESSION_LOGON, SessionLogon session); (WTS_SESSION_LOGOFF, SessionLogoff session)] !! event_type
  else None.

Definition post_of (a : Act) : option ServiceEvent := match a with Post ev => Some ev | _ => None end.
Definition acts_posts (acts : list Act) : list ServiceEvent := omap post_of acts.

(** Every control that asks for something is posted exactly once, or its handler has yet
    to post it; the passes saw what the loop received. *)
Definition posts_inv (s : Sys (C:=C)) : Prop :=
  (sys_posts s).*1 ++ List.concat (acts_posts <$> sys_threads s) ≡ₚ omap control_event (sys_delivered s : list Control).
Definition seen_inv (s : Sys (C:=C)) : Prop :=
  sys_received s = List.concat ((received_events ∘ in_recv) <$> sys_inputs s) ++
                   match sys_main s with MReceived r _ => received_events r | _ => [] end.

(** A stop was asked for, and no handler has yet to set the flag. *)
Definition stop_requested (s : Sys (C:=C)) : Prop :=
  Exists (fun c => control_event c = Some EvStop) (sys_delivered s).
Definition flag_pending (s : Sys (C:=C)) : Prop := Exists (fun acts => StoreStopping ∈ acts) (sys_threads s).
Definition flag_inv (s : Sys (C:=C)) : Prop :=
  stop_requested s -> scm_stopping (sys_scm s) = true \/ flag_pending s.

Lemma handler_posts c : acts_posts (handler c.1.1 c.1.2 c.2).1 = option_list (control_event c).
Proof.
  destruct c as [[control et] ed]. unfold handler, control_event. cbn [fst snd].
  rewrite (decide_ext _ (control = SERVICE_CONTROL_STOP \/ control = SERVICE_CONTROL_SHUTDOWN))
    by (rewrite !elem_of_cons; set_solver).
  destruct (Z.eqb_spec control SERVICE_CONTROL_STOP), (Z.eqb_spec control SERVICE_CONTROL_SHUTDOWN);
    cbn; rewrite ?decide_True by tauto; try done. rewrite decide_False by tauto.
  destruct (Z.eqb_spec control SERVICE_CONTROL_SESSIONCHANGE); [rewrite decide_True by done|by rewrite decide_False].
  destruct ed as [session|]; [|done]. cbn.
  destruct (Z.eqb_spec et WTS_SESSION_LOGON) as [->|]; [done|].
  destruct (Z.eqb_spec et WTS_SESSION_LOGOFF) as [->|]; [done|].
  by rewrite !lookup_insert_ne.
Qed.

Lemma handler_stops c : control_event c = Some EvStop -> StoreStopping ∈ (handler c.1.1 c.1.2 c.2).1.
Proof.
  intros E. pose proof (handler_posts c) as Hp. rewrite E in Hp. revert Hp. unfold handler.
  repeat case_match; try done. intros _. set_solver.
Qed.

Lemma main_step_frame i reg (s : Sys (C:=C)) :
  let s' := main_step cred_check version start i reg s in
  sys_threads s' = sys_threads s /\ sys_delivered s' = sys_delivered s /\ sys_posts s' = sys_posts s /\
  scm_stopping (sys_scm s') = scm_stopping (sys_scm s).
Proof.
  unfold main_step. destruct (sys_main s); cbn; try (split_and!; first [done|apply set_status_frame]).
  - by destruct reg.
  - destruct (recv (sys_scm s)) as [scm r] eqn:Er. cbn. by apply scm_recv_frame in Er as (-> & _).
  - by destruct (pass cred_check version _ _) as [[? ?] []].
Qed.

Lemma reach_posts s : reach s -> posts_inv s.
Proof.
  induction 1 as [|s s' _ IH Hstep]; [constructor|]. unfold posts_inv in *.
  destruct Hstep as [s i reg|s c Hc|s a acts l1 l2 Ht].
  - by destruct (main_step_frame i reg s) as (-> & -> & -> & _).
  - change (((sys_posts s).*1 ++ acts_posts (handler c.1.1 c.1.2 c.2).1 ++ List.concat (acts_posts <$> sys_threads s))
      ≡ₚ omap control_event (sys_delivered s ++ [c])).
    rewrite handler_posts, omap_app, <- IH. cbn. destruct (control_event c); cbn; solve_Permutation.
  - rewrite Ht, fmap_app, concat_app in IH. cbn in IH. revert IH.
    destruct a as [|st acc|ev]; cbn; rewrite !fmap_app, !concat_app; cbn; [done..|]. intros <-. solve_Permutation.
Qed.

Lemma reach_seen s : reach s -> seen_inv s.
Proof.
  induction 1 as [|s s' _ IH Hstep]; [done|]. destruct Hstep as [s i reg|s c Hc|s a acts l1 l2 Ht]; [|exact IH|].
  - revert IH. unfold seen_inv, main_step. destruct (sys_main s) as [| | |sv|r sv|sv|] eqn:Em; cbn; try done.
    + by destruct reg.
    + destruct (recv (sys_scm s)) as [scm r]. cbn. rewrite app_nil_r. by intros ->.
    + destruct (pass cred_check version _ _) as [[? ?] []]; cbn; rewrite fmap_app, concat_app; cbn;
        by rewrite !app_nil_r.
    + by rewrite Em.
  - unfold seen_inv in *. by destruct a.
Qed.

Lemma reach_flag s : reach s -> flag_inv s.
Proof.
  induction 1 as [|s s' _ IH Hstep]; [by intros ?%Exists_nil|]. unfold flag_inv, stop_requested, flag_pending in *.
  destruct Hstep as [s i reg|s c Hc|s a acts l1 l2 Ht].
  - by destruct (main_step_frame i reg s) as (-> & -> & _ & ->).
  - cbn. rewrite Exists_app, !Exists_cons, Exists_nil. pose proof (handler_stops c). naive_solver.
  - rewrite Ht in IH. rewrite Exists_app, Exists_cons, elem_of_cons in IH.
    destruct a as [|st acc|ev]; cbn; rewrite Exists_app, Exists_cons; [by left| |].
    + destruct (set_status_frame st acc (sys_scm s)) as (_ & -> & _). naive_solver.
    + destruct (post_frame ev (sys_scm s)) as (-> & _). naive_solver.
Qed.

(** C18: Whatever the SCM's threads do and whenever, the service's loop runs as
    [service_loop] on inputs whose events are those its channel delivered. Each control
    that asks for something is posted exactly once, as the event it asks for; what the
    channel takes is received in the order posted, with at most 64 waiting. Of the status
    reports it says what each holds, and not in which order their states come (see
    [stop_pending_reported_after_stopped] below): a pending state carries a wait hint and
    the next checkpoint, any other neither, and controls are accepted by RUNNING only. *)
Theorem scm_run_refines_service_loop s :
  reach s ->
  loop_inv s /\ seen_inv s /\ posts_inv s /\ chan_inv s /\ reports_inv (sys_scm s).
Proof.
  intros Hr. split_and!; [by apply reach_loop|by apply reach_seen|by apply reach_posts|by apply reach_chan|
    by apply reach_reports].
Qed.

(** C30: A stop is never lost: once a stop or shutdown control was delivered and its
    handler has set the flag, which is its first action, the flag stays set, at most the
    pass under way completes, and the body has then returned, even when the channel was
    full and the event was dropped. *)
Theorem stop_is_never_lost s :
  reach s -> stop_requested s -> ~ flag_pending s ->
  scm_stopping (sys_scm s) = true /\
  (exists n, sys_stop_at s = Some n /\ (n <= length (sys_inputs s) <= S n)%nat /\
     (length (sys_inputs s) = S n -> returned (sys_main s) = true)) /\
  forall i r sv, sys_main s = MReceived r sv ->
    returned (sys_main (main_step cred_check version start i true s)) = true.
Proof.
  intros Hr Hq Hp. destruct (reach_stop s Hr) as [Hf Hn]. destruct (reach_flag s Hr Hq) as [Ht|]; [|done].
  split_and!; [done| |].
  - destruct (proj1 Hf Ht) as [n Hs]. exists n. by destruct (Hn n Hs).
  - intros i r sv Em. unfold main_step. rewrite Em. pose proof (pass_stops (seen i r (sys_scm s)) sv Ht) as Hl.
    destruct (pass cred_check version _ sv) as [[sv' e] stop]. cbn in Hl. by subst stop.
Qed.
End props.

(** ** Concrete runs *)

Section moves.
Context {C : Type} (cred_check : ServiceState -> C -> C) (version : string) (start : Service C).

(** A choice of the scheduler. *)
Inductive Move :=
| MoveMain (i : PassInput)
| MoveDeliver (c : Control)
| MoveThread (k : nat).

Definition move (m : Move) (s : Sys (C:=C)) : option (Sys (C:=C)) :=
  match m with
  | MoveMain i => Some (main_step cred_check version start i true s)
  | MoveDeliver c => match scm_chan (sys_scm s) with Some _ => Some (deliver c s) | None => None end
  | MoveThread k =>
      match sys_threads s !! k with
      | Some (a :: acts) =>
          Some (act_step a (s <| sys_threads := take k (sys_threads s) ++ acts :: drop (S k) (sys_threads s) |>))
      | _ => None
      end
  end.

Fixpoint moves (ms : list Move) (s : Sys (C:=C)) : option (Sys (C:=C)) :=
  match ms with [] => Some s | m :: ms' => move m s ≫= moves ms' end.

Lemma move_step m s s' : move m s = Some s' -> step cred_check version start s s'.
Proof.
  destruct m as [i|c|k]; cbn.
  - intros [= <-]. constructor.
  - destruct (scm_chan (sys_scm s)) eqn:E; [|done]. intros [= <-]. constructor. by rewrite E.
  - destruct (sys_threads s !! k) as [[|a acts]|] eqn:E; [done| |done]. intros [= <-].
    apply (step_handler cred_check version start s a acts (take k (sys_threads s)) (drop (S k) (sys_threads s))).
    by rewrite take_drop_middle.
Qed.

Lemma moves_reachable ms s s' :
  reachable cred_check version start s -> moves ms s = Some s' -> reachable cred_check version start s'.
Proof.
  revert s. induction ms as [|m ms IH]; intros s Hr; cbn; [by intros [= <-]|].
  destruct (move m s) as [s1|] eqn:E; [|done]. cbn. apply IH. econstructor; [done|by eapply move_step].
Qed.
End moves.

Definition demo_input : PassInput :=
  {| in_requests := []; in_now := fun _ => 0; in_exited := fun _ => false; in_launch := fun _ => Err "none";
     in_draw := fun _ => 0; in_recv := TimedOut; in_stopping := false |}.
Definition demo_host : Service unit :=
  {| sv_state := Ipc.demo_service; sv_cred := tt; sv_last_check := 0; sv_sup := Supervisor_new 0; sv_procs := ∅ |}.
Definition demo_run (ms : list Move) : option (Sys (C:=unit)) :=
  moves (fun _ c => c) "1.0.0" demo_host ms Sys_init.

Lemma demo_run_reachable ms s :
  demo_run ms = Some s -> reachable (fun _ c => c) "1.0.0" demo_host s.
Proof. unfold demo_run. intros E. eapply moves_reachable; [constructor|exact E]. Qed.

(** To the loop, then a stop whose handler only got to set the flag: the body sees it,
    returns, and [STOPPED] is reported before the handler's [STOP_PENDING]. *)
Definition race : list Move :=
  [MoveMain demo_input; MoveMain demo_input; MoveMain demo_input; MoveMain demo_input;
   MoveDeliver (SERVICE_CONTROL_STOP, 0, None); MoveThread 0; MoveMain demo_input; MoveMain demo_input; MoveThread 0].

Example stop_pending_reported_after_stopped :
  match demo_run race with
  | Some s => (dwCurrentState <$> scm_reports (sys_scm s)) = [START_PENDING; RUNNING; STOPPED; STOP_PENDING]
  | None => False
  end.
Proof. vm_compute. reflexivity. Qed.

(** The interrogation every service is sent is answered as not implemented. *)
Example interrogate_is_refused : handler SERVICE_CONTROL_INTERROGATE 0 None = ([], ERROR_CALL_NOT_IMPLEMENTED).
Proof. reflexivity. Qed.

(** 64 logons wait, the stop event does not fit, and the loop still ends after the
    pass under way. *)
Definition flood : list Move :=
  [MoveMain demo_input; MoveMain demo_input; MoveMain demo_input; MoveMain demo_input] ++
  concat (replicate 64 [MoveDeliver (SERVICE_CONTROL_SESSIONCHANGE, WTS_SESSION_LOGON, Some 1); MoveThread 0]) ++
  [MoveDeliver (SERVICE_CONTROL_STOP, 0, None); MoveThread 0; MoveThread 0; MoveThread 0].

#[export] Instance stop_requested_dec (s : Sys (C:=unit)) : Decision (stop_requested s).
Proof. unfold stop_requested. apply _. Defined.
#[export] Instance flag_pending_dec (s : Sys (C:=unit)) : Decision (flag_pending s).
Proof. unfold flag_pending. apply _. Defined.

Lemma flood_drops_the_stop :
  exists s, demo_run flood = Some s /\ last (sys_posts s) = Some (EvStop, false) /\ stop_requested s /\ ~ flag_pending s.
Proof.
  assert ((fun s => (last (sys_posts s), bool_decide (stop_requested s), bool_decide (flag_pending s)))
            <$> demo_run flood = Some (Some (EvStop, false), true, false)) as H by (vm_compute; reflexivity).
  destruct (demo_run flood) as [s|]; [|discriminate H]. injection H as H1 H2 H3.
  apply bool_decide_eq_true in H2. apply bool_decide_eq_false in H3. eauto.
Qed.

Lemma stop_is_never_lost_witness :
  match demo_run flood with
  | Some s =>
      last (sys_posts s) = Some (EvStop, false) /\
      scm_stopping (sys_scm s) = true /\
      (exists n, sys_stop_at s = Some n /\ (n <= length (sys_inputs s) <= S n)%nat /\
         (length (sys_inputs s) = S n -> returned (sys_main s) = true)) /\
      forall i r sv, sys_main s = MReceived r sv ->
        returned (sys_main (main_step (fun _ c => c) "1.0.0" demo_host i true s)) = true
  | None => False
  end.
Proof.
  destruct flood_drops_the_stop as (s & E & Hp & Hq & Hn). rewrite E. split; [exact Hp|].
  refine (stop_is_never_lost (fun _ c => c) "1.0.0" demo_host s _ Hq Hn).
  exact (demo_run_reachable _ s E).
Defined.

Lemma scm_run_refines_service_loop_witness :
  match demo_run race with
  | Some s => loop_inv (fun _ c => c) "1.0.0" demo_host s /\ seen_inv s /\ posts_inv s /\ chan_inv s /\
              reports_inv (sys_scm s)
  | None => False
  end.
Proof.
  assert (is_Some (demo_run race)) as [s E] by (vm_compute; eexists; reflexivity).
  rewrite E. apply (scm_run_refines_service_loop (fun _ c => c) "1.0.0" demo_host s).
  exact (demo_run_reachable _ s E).
Defined.

(** ** recovery.rs *)

Definition RESTART_DELAYS_MS : list Z := [60000; 120000; 300000].
Definition RESET_PERIOD_SECONDS : Z := 86400.
Definition SERVICE_NAME : string := "MagickVoiceSentinel".

Inductive ScAction := SC_ACTION_RESTART (delay : Z).
Record FailureActions := { fa_reset_period : Z; fa_actions : list ScAction }.

(** The SCM database. *)
Class ScDatabase (D : Type) := {
  OpenSCManager : D -> D * result Z string;
  OpenService : Z -> string -> D -> D * result Z string;
  ChangeFailureActions : Z -> FailureActions -> D -> D * result unit string;
}.

Definition apply_recovery_actions {D} `{!ScDatabase D} : D -> D * result unit string :=
  let! scm := OpenSCManager in
  let! svc := OpenService scm SERVICE_NAME in
  ChangeFailureActions svc {| fa_reset_period := RESET_PERIOD_SECONDS;
                              fa_actions := SC_ACTION_RESTART <$> RESTART_DELAYS_MS |}.

(** Neither handle is closed on any path: whatever the calls open stays open, since the
    function has no closing call to make. *)
Lemma recovery_keeps_handles {D} `{!ScDatabase D} (open : D -> gset Z) d :
  (forall d, match OpenSCManager d with
     | (d', Ok h) => open d' = {[h]} ∪ open d | (d', Err _) => open d' = open d end) ->
  (forall m n d, match OpenService m n d with
     | (d', Ok h) => open d' = {[h]} ∪ open d | (d', Err _) => open d' = open d end) ->
  (forall h a d, open (ChangeFailureActions h a d).1 = open d) ->
  match apply_recovery_actions d with
  | (d', Ok _) => exists m h, open d' = {[m; h]} ∪ open d
  | (d', Err _) => open d ⊆ open d'
  end.
Proof.
  intros H1 H2 H3. unfold apply_recovery_actions, bindM. specialize (H1 d).
  destruct (OpenSCManager d) as [d1 [m|]]; [|by rewrite H1]. specialize (H2 m SERVICE_NAME d1).
  destruct (OpenService m SERVICE_NAME d1) as [d2 [h|]]; [|rewrite H2, H1; set_solver].
  set (a := {| fa_reset_period := _ |}). specialize (H3 h a d2).
  destruct (ChangeFailureActions h a d2) as [d3 [[]|]]; cbn in H3; rewrite H3, H2, H1.
  - exists m, h. set_solver.
  - set_solver.
Qed.
