(* ===== verification/Launcher.v ===== *)
(** Launching the agent into a session (sentinel-service/src/windows/launcher.rs): the
    user's token, the environment block, the process, and who closes what.

    The Win32 calls are the [ProcessApi] class; [ProcessApiLaws] states what is
    documented of them on a view of the open handles, the environment blocks, and what
    each process handle stands for. *)

From stdpp Require Import fin_sets infinite.
From S2P Require Import Prelude Text.

Definition CREATE_NEW_CONSOLE : Z := 0x10.
Definition NORMAL_PRIORITY_CLASS : Z := 0x20.
Definition CREATE_UNICODE_ENVIRONMENT : Z := 0x400.
Definition STILL_ACTIVE : Z := 259.
Definition WAIT_OBJECT_0 : Z := 0.

(** What [CreateProcessAsUserW] is given: the command line, the environment block, the
    window station, handle inheritance and the flags. *)
Record LaunchArgs := {
  la_cmdline : string;
  la_env : Z;
  la_desktop : string;
  la_inherit : bool;
  la_flags : Z;
}.
Record ProcessInformation := { pi_process : Z; pi_thread : Z; pi_pid : Z }.

Class ProcessApi (W : Type) := {
  WTSQueryUserToken : Z -> W -> W * result Z string;
  (** The flag merges the caller's own environment. *)
  CreateEnvironmentBlock : Z -> bool -> W -> W * result Z string;
  DestroyEnvironmentBlock : Z -> W -> W * result unit string;
  CreateProcessAsUserW : Z -> LaunchArgs -> W -> W * result ProcessInformation string;
  CloseHandle : Z -> W -> W * result unit string;
  GetExitCodeProcess : Z -> W -> result Z string;
  WaitForSingleObject : Z -> Z -> W -> Z;
}.

Record AgentProcess := { ap_process : Z; ap_thread : Z; ap_session_id : Z; ap_pid : Z }.

Section launcher.
Context {W : Type} `{!ProcessApi W}.

Definition has_exited (p : AgentProcess) (w : W) : bool :=
  match GetExitCodeProcess (ap_process p) w with
  | Ok code => negb (code =? STILL_ACTIVE)
  | Err _ => false
  end.

Definition wait (p : AgentProcess) (timeout_ms : Z) (w : W) : bool :=
  WaitForSingleObject (ap_process p) timeout_ms w =? WAIT_OBJECT_0.

Definition drop_process (p : AgentProcess) (w : W) : W :=
  (CloseHandle (ap_process p) (CloseHandle (ap_thread p) w).1).1.
Definition drop_token (token : Z) (w : W) : W := (CloseHandle token w).1.
(** Nothing to destroy behind a null pointer. *)
Definition drop_env (env : Z) (w : W) : W :=
  if env =? 0 then w else (DestroyEnvironmentBlock env w).1.

Definition launch_args (exe_path : string) (env : Z) : LaunchArgs :=
  {| la_cmdline := String "034" (exe_path +:+ String "034" ""); la_env := env;
     la_desktop := "winsta0\default"; la_inherit := false;
     la_flags := Z.lor (Z.lor CREATE_UNICODE_ENVIRONMENT CREATE_NEW_CONSOLE) NORMAL_PRIORITY_CLASS |}.

(** The owned values go out of scope in the reverse order of their declaration. *)
Definition launch_agent (session_id : Z) (exe_path : string) (w : W) : W * result AgentProcess string :=
  let '(w, r) := WTSQueryUserToken session_id w in
  match r with
  | Err e => (w, Err e)
  | Ok token =>
      let '(w, r) := CreateEnvironmentBlock token false w in
      match r with
      | Err e => (drop_token token w, Err e)
      | Ok env =>
          let '(w, r) := CreateProcessAsUserW token (launch_args exe_path env) w in
          (drop_token token (drop_env env w),
           let? pi := r in
           Ok {| ap_process := pi_process pi; ap_thread := pi_thread pi; ap_session_id := session_id;
                 ap_pid := pi_pid pi |})
      end
  end.
End launcher.

(** ** What Windows documents *)

Record PView := {
  pv_handles : gset Z;
  pv_blocks : gset Z;
  pv_procs : gmap Z (Z * LaunchArgs);   (** process handle to session and arguments *)
}.
#[export] Instance PView_rebuild : Rebuild PView := fun v =>
  {| pv_handles := pv_handles v; pv_blocks := pv_blocks v; pv_procs := pv_procs v |}.

Class ProcessApiLaws (W : Type) `{!ProcessApi W} := {
  pview : W -> PView;
  (** The session a token was issued for. *)
  token_session : W -> Z -> option Z;
  law_token s w : match WTSQueryUserToken s w with
    | (w', Ok t) => ~ (t ∈ pv_handles (pview w)) /\ token_session w' t = Some s /\
                    pview w' = (pview w) <| pv_handles := {[t]} ∪ pv_handles (pview w) |>
    | (w', Err _) => pview w' = pview w end;
  law_env t b w : match CreateEnvironmentBlock t b w with
    | (w', Ok e) => e <> 0 /\ ~ (e ∈ pv_blocks (pview w)) /\ token_session w' = token_session w /\
                    pview w' = (pview w) <| pv_blocks := {[e]} ∪ pv_blocks (pview w) |>
    | (w', Err _) => pview w' = pview w end;
  law_destroy e w : pview (DestroyEnvironmentBlock e w).1 = (pview w) <| pv_blocks := pv_blocks (pview w) ∖ {[e]} |>;
  law_process t a w : match CreateProcessAsUserW t a w with
    | (w', Ok pi) =>
        ~ (pi_process pi ∈ pv_handles (pview w)) /\ ~ (pi_thread pi ∈ pv_handles (pview w)) /\
        pi_process pi <> pi_thread pi /\ exists s, token_session w t = Some s /\
        pview w' = (pview w) <| pv_handles := {[pi_process pi; pi_thread pi]} ∪ pv_handles (pview w) |>
                             <| pv_procs := <[pi_process pi := (s, a)]> (pv_procs (pview w)) |>
    | (w', Err _) => pview w' = pview w end;
  law_close h w : pview (CloseHandle h w).1 = (pview w) <| pv_handles := pv_handles (pview w) ∖ {[h]} |>;
}.

Section props.
Context {W : Type} `{!ProcessApi W} `{!ProcessApiLaws W}.

Lemma pview_eq v v' :
  pv_handles v = pv_handles v' -> pv_blocks v = pv_blocks v' -> pv_procs v = pv_procs v' -> v = v'.
Proof. destruct v, v'; cbn; congruence. Qed.

Lemma drop_env_view e w :
  e <> 0 -> pview (drop_env e w) = (pview w) <| pv_blocks := pv_blocks (pview w) ∖ {[e]} |>.
Proof. intros He. unfold drop_env. destruct (Z.eqb_spec e 0); [done|]. apply law_destroy. Qed.

(** Launching an agent never leaks: a failure at any call leaves the handles and the
    environment blocks as they were, and a success adds exactly the process and the
    thread handle, of a process in the session asked for, on the interactive desktop,
    with the user's own environment and without inherited handles. *)
Theorem launch_agent_accounts_for_handles session exe w :
  match launch_agent session exe w with
  | (w', Ok p) => ap_session_id p = session /\ ap_process p <> ap_thread p /\
      ~ (ap_process p ∈ pv_handles (pview w)) /\ ~ (ap_thread p ∈ pv_handles (pview w)) /\
      exists env, pview w' = (pview w)
        <| pv_handles := {[ap_process p; ap_thread p]} ∪ pv_handles (pview w) |>
        <| pv_procs := <[ap_process p := (session, launch_args exe env)]> (pv_procs (pview w)) |>
  | (w', Err _) => pview w' = pview w
  end.
Proof.
  unfold launch_agent. pose proof (law_token session w) as H1.
  destruct (WTSQueryUserToken session w) as [w1 [t|]]; [|done]. destruct H1 as (Ht & Hs & H1).
  pose proof (law_env t false w1) as H2. destruct (CreateEnvironmentBlock t false w1) as [w2 [e|]].
  2: { unfold drop_token. rewrite law_close, H2, H1. apply pview_eq; cbn; [set_solver|done..]. }
  destruct H2 as (He & Hb & Hts & H2). pose proof (law_process t (launch_args exe e) w2) as H3.
  rewrite H1 in H2, Hb. cbn in H2, Hb.
  destruct (CreateProcessAsUserW t _ w2) as [w3 [pi|]]; cbn; unfold drop_token.
  - destruct H3 as (Hp1 & Hp2 & Hne & s & Hs2 & H3). rewrite Hts, Hs in Hs2. injection Hs2 as <-.
    rewrite H2 in Hp1, Hp2. cbn in Hp1, Hp2. split_and!; [done|done|set_solver|set_solver|].
    exists e. rewrite law_close, drop_env_view, H3, H2 by done. apply pview_eq; cbn; [|set_solver|done].
    apply set_eq. intros x. destruct (decide (x = t)) as [->|]; set_solver.
  - rewrite law_close, drop_env_view, H3, H2 by done. apply pview_eq; cbn; [set_solver|set_solver|done].
Qed.

(** Dropping the process closes both handles. *)
Lemma drop_process_closes p w :
  pv_handles (pview (drop_process p w)) = pv_handles (pview w) ∖ {[ap_process p; ap_thread p]}.
Proof. unfold drop_process. rewrite !law_close. cbn. set_solver. Qed.

(** An agent that exited with 259 is never noticed: it looks as if it ran. *)
Lemma exit_code_259_looks_running p w :
  GetExitCodeProcess (ap_process p) w = Ok STILL_ACTIVE -> has_exited p w = false.
Proof. intros H. unfold has_exited. by rewrite H. Qed.
End props.

(** ** A process table in memory *)

Record MemProcs := { mp_view : PView; mp_tokens : gmap Z Z; mp_deny : list bool }.
#[export] Instance MemProcs_rebuild : Rebuild MemProcs := fun m =>
  {| mp_view := mp_view m; mp_tokens := mp_tokens m; mp_deny := mp_deny m |}.

Definition mp_call {A} (f : MemProcs -> MemProcs * A) (m : MemProcs) : MemProcs * result A string :=
  let m' := m <| mp_deny := tl (mp_deny m) |> in
  if hd false (mp_deny m) then (m', Err "denied") else let '(m', a) := f m' in (m', Ok a).

#[export] Instance mem_ProcessApi : ProcessApi MemProcs := {|
  WTSQueryUserToken s := mp_call (fun m =>
    let v := mp_view m in let t := fresh (pv_handles v) in
    (m <| mp_view := v <| pv_handles := {[t]} ∪ pv_handles v |> |> <| mp_tokens := <[t := s]> (mp_tokens m) |>, t));
  CreateEnvironmentBlock _ _ := mp_call (fun m =>
    let v := mp_view m in let e := fresh ({[0]} ∪ pv_blocks v) in
    (m <| mp_view := v <| pv_blocks := {[e]} ∪ pv_blocks v |> |>, e));
  DestroyEnvironmentBlock e m :=
    let v := mp_view m in (m <| mp_view := v <| pv_blocks := pv_blocks v ∖ {[e]} |> |>, Ok tt);
  CreateProcessAsUserW t a m :=
    match mp_tokens m !! t with
    | None => (m, Err "no such token")
    | Some s => mp_call (fun m =>
        let v := mp_view m in let p := fresh (pv_handles v) in let th := fresh ({[p]} ∪ pv_handles v) in
        (m <| mp_view := v <| pv_handles := {[p; th]} ∪ pv_handles v |>
                           <| pv_procs := <[p := (s, a)]> (pv_procs v) |> |>,
         {| pi_process := p; pi_thread := th; pi_pid := p |})) m
    end;
  CloseHandle h m :=
    let v := mp_view m in (m <| mp_view := v <| pv_handles := pv_handles v ∖ {[h]} |> |>, Ok tt);
  GetExitCodeProcess _ _ := Ok STILL_ACTIVE;
  WaitForSingleObject _ _ _ := WAIT_OBJECT_0;
|}.

#[export] Instance mem_ProcessApiLaws : ProcessApiLaws MemProcs.
Proof.
  refine {| pview := mp_view; token_session m t := mp_tokens m !! t |}.
  - intros s w. cbn. unfold mp_call. destruct (hd false (mp_deny w)); [done|]. cbn.
    split_and!; [apply (is_fresh (pv_handles (mp_view w)))|apply lookup_insert_eq|done].
  - intros t b w. cbn. unfold mp_call. destruct (hd false (mp_deny w)); [done|]. cbn.
    pose proof (is_fresh ({[0]} ∪ pv_blocks (mp_view w))) as Hf.
    split_and!; [set_solver|set_solver|done|done].
  - done.
  - intros t a w. cbn. destruct (mp_tokens w !! t) as [s|] eqn:E; [|done].
    unfold mp_call. destruct (hd false (mp_deny w)); [done|]. cbn.
    pose proof (is_fresh (pv_handles (mp_view w))) as Hf. set (p := fresh (pv_handles _)) in *.
    pose proof (is_fresh ({[p]} ∪ pv_handles (mp_view w))) as Hg.
    split_and!; [done|set_solver|set_solver|]. by exists s.
  - done.
Defined.

Definition mp_empty (deny : list bool) : MemProcs :=
  {| mp_view := {| pv_handles := ∅; pv_blocks := ∅; pv_procs := ∅ |}; mp_tokens := ∅; mp_deny := deny |}.

(** The process is refused after the token and the block were obtained. *)
Lemma launch_agent_accounts_for_handles_witness :
  is_ok (launch_agent 3 "C:\agent.exe" (mp_empty [false; false; true])).2 = false /\
  match launch_agent 3 "C:\agent.exe" (mp_empty [false; false; true]) with
  | (w', Ok p) => ap_session_id p = 3 /\ ap_process p <> ap_thread p /\
      ~ (ap_process p ∈ pv_handles (pview (mp_empty [false; false; true]))) /\
      ~ (ap_thread p ∈ pv_handles (pview (mp_empty [false; false; true]))) /\
      exists env, pview w' = (pview (mp_empty [false; false; true]))
        <| pv_handles := {[ap_process p; ap_thread p]} ∪ pv_handles (pview (mp_empty [false; false; true])) |>
        <| pv_procs := <[ap_process p := (3, launch_args "C:\agent.exe" env)]>
             (pv_procs (pview (mp_empty [false; false; true]))) |>
  | (w', Err _) => pview w' = pview (mp_empty [false; false; true])
  end.
Proof.
  split; [vm_compute; reflexivity|].
  exact (launch_agent_accounts_for_handles 3 "C:\agent.exe" (mp_empty [false; false; true])).
Defined.
