(* ===== verification/Float.v ===== *)
(** Rust's [f32] and [f64] over the Standard Library's IEEE 754 specification
    ([spec_float], round to nearest even), with the conversions the signal code uses, and
    the exactness of integer-valued [f64] arithmetic. *)

From Corelib Require Export SpecFloat.
From S2P Require Import Prelude.

(** ** The two formats *)

Abbreviation f32 := spec_float.
Abbreviation f64 := spec_float.

Module F32.
Definition of_Z (z : Z) : f32 := binary_normalize 24 128 z 0 false.
Definition add : f32 -> f32 -> f32 := SFadd 24 128.
Definition mul : f32 -> f32 -> f32 := SFmul 24 128.
Definition div : f32 -> f32 -> f32 := SFdiv 24 128.
(** [x as f32] of an [f64]. *)
Definition of_f64 (x : f64) : f32 :=
  match x with S754_finite s m e => binary_round 24 128 s m e | _ => x end.
End F32.

Module F64.
Definition of_Z (z : Z) : f64 := binary_normalize 53 1024 z 0 false.
Definition add : f64 -> f64 -> f64 := SFadd 53 1024.
Definition sub : f64 -> f64 -> f64 := SFsub 53 1024.
Definition mul : f64 -> f64 -> f64 := SFmul 53 1024.
Definition div : f64 -> f64 -> f64 := SFdiv 53 1024.
Definition sqrt : f64 -> f64 := SFsqrt 53 1024.
(** [x as f64] of an [f32], which is exact. *)
Definition of_f32 (x : f32) : f64 :=
  match x with S754_finite s m e => binary_round 53 1024 s m e | _ => x end.
(** [std::f64::consts::PI] *)
Definition PI : f64 := S754_finite false 7074237752028440 (-51).
End F64.

(** ** Comparisons: those with a NaN are false *)

Definition flt (x y : spec_float) : bool := SFltb x y.
Definition fle (x y : spec_float) : bool := SFleb x y.
Definition is_nan (x : spec_float) : bool := match x with S754_nan => true | _ => false end.

(** [f32::min], [f32::max] (and the [f64] ones): a NaN loses to a number. *)
Definition fmin (x y : spec_float) : spec_float :=
  if is_nan x then y else if is_nan y then x else if flt y x then y else x.
Definition fmax (x y : spec_float) : spec_float :=
  if is_nan x then y else if is_nan y then x else if flt x y then y else x.
(** [x.clamp(lo, hi)]: a NaN stays. *)
Definition fclamp (x lo hi : spec_float) : spec_float :=
  if flt x lo then lo else if flt hi x then hi else x.

(** ** To integers *)

(** Rounded toward zero; infinities and NaN have no value. *)
Definition ftrunc (x : spec_float) : option Z :=
  match x with
  | S754_zero _ => Some 0
  | S754_finite s m e => Some (cond_Zopp s (if 0 <=? e then Z.pos m * 2 ^ e else Z.pos m / 2 ^ (- e)))
  | _ => None
  end.
(** [x as i16], [x as usize]: saturating, NaN is 0. *)
Definition saturate (lo hi : Z) (x : spec_float) : Z :=
  match x with
  | S754_nan => 0
  | S754_infinity s => if s then lo else hi
  | _ => match ftrunc x with Some z => clamp z lo hi | None => 0 end
  end.
Definition as_i16 : spec_float -> Z := saturate (-32768) 32767.
Definition as_usize : spec_float -> Z := saturate 0 u64_max.
(** [x.floor() as isize], in one step. *)
Definition floor_isize (x : spec_float) : Z :=
  match x with
  | S754_finite s m e =>
      clamp (if 0 <=? e then cond_Zopp s (Z.pos m) * 2 ^ e else cond_Zopp s (Z.pos m) / 2 ^ (- e)) i64_min i64_max
  | _ => saturate i64_min i64_max x
  end.

(** Every conversion lands in its type. *)
Lemma as_i16_range x : -32768 <= as_i16 x <= 32767.
Proof.
  unfold as_i16, saturate, clamp. destruct x as [s|s| |s m e]; [cbn; lia|destruct s; lia|lia|].
  cbn [ftrunc]. lia.
Qed.

(** ** Integer-valued [f64] arithmetic is exact

    The canonical form of a positive integer below [2^53]: its bits moved to the top of
    the significand. *)
Definition digits (m : positive) : Z := Z.pos (digits2_pos m).

Lemma digits_spec m : 2 ^ (digits m - 1) <= Z.pos m < 2 ^ digits m.
Proof.
  unfold digits. induction m as [m IH|m IH|]; cbn [digits2_pos].
  1,2: rewrite Pos2Z.inj_succ; replace (Z.succ (Z.pos (digits2_pos m)) - 1) with (Z.pos (digits2_pos m)) by lia;
    replace (Z.pos (digits2_pos m)) with (Z.succ (Z.pos (digits2_pos m) - 1)) at 1 by lia;
    rewrite !Z.pow_succ_r by lia; lia.
  cbn. lia.
Qed.

Lemma digits_unique m d : 0 < d -> 2 ^ (d - 1) <= Z.pos m < 2 ^ d -> digits m = d.
Proof.
  intros Hd H. pose proof (digits_spec m). unfold digits in *.
  destruct (Z.lt_trichotomy (Z.pos (digits2_pos m)) d) as [Hl|[Hl|Hl]]; [|done|].
  - assert (2 ^ Z.pos (digits2_pos m) <= 2 ^ (d - 1)) by (apply Z.pow_le_mono_r; lia). lia.
  - assert (2 ^ d <= 2 ^ (Z.pos (digits2_pos m) - 1)) by (apply Z.pow_le_mono_r; lia). lia.
Qed.

Lemma digits_shift m k : 0 <= k -> forall m', Z.pos m' = Z.pos m * 2 ^ k -> digits m' = digits m + k.
Proof.
  intros Hk m' Hm. pose proof (digits_spec m) as H. apply digits_unique; [unfold digits in *; lia|].
  rewrite Hm. replace (digits m + k - 1) with ((digits m - 1) + k) by lia.
  rewrite !Z.pow_add_r by (unfold digits in *; lia). assert (0 < 2 ^ k) by (apply Z.pow_pos_nonneg; lia). nia.
Qed.

Lemma iter_pos_nat {A} (f : A -> A) p x : SpecFloat.iter_pos f p x = Nat.iter (Pos.to_nat p) f x.
Proof.
  revert x. induction p as [p IH|p IH|]; intros x; cbn [SpecFloat.iter_pos].
  - rewrite !IH, Pos2Nat.inj_xI. cbn [Nat.iter]. rewrite <- Nat.iter_add.
    replace (2 * Pos.to_nat p)%nat with (Pos.to_nat p + Pos.to_nat p)%nat by lia.
    by rewrite Nat.iter_swap.
  - rewrite !IH, Pos2Nat.inj_xO, <- Nat.iter_add. f_equal. lia.
  - done.
Qed.

(** Shifting out zero bits loses nothing. *)
Lemma shr_iter_exact k q m :
  Z.pos m = Z.pos q * 2 ^ Z.of_nat k ->
  Nat.iter k shr_1 {| shr_m := Z.pos m; shr_r := false; shr_s := false |}
    = {| shr_m := Z.pos q; shr_r := false; shr_s := false |}.
Proof.
  revert q. induction k as [|k IH]; intros q Hm.
  - cbn in *. do 2 f_equal. lia.
  - rewrite Nat.iter_succ, (IH q~0%positive); [done|].
    rewrite Hm, Nat2Z.inj_succ, Z.pow_succ_r, (Pos2Z.inj_xO q) by lia. lia.
Qed.

Lemma iter_xO m d : Z.pos (Pos.iter xO m d) = Z.pos m * 2 ^ Z.pos d.
Proof.
  induction d as [|d IH] using Pos.peano_ind; [cbn; lia|].
  rewrite Pos.iter_succ, Pos2Z.inj_xO, IH, Pos2Z.inj_succ, Z.pow_succ_r by lia. lia.
Qed.

(** A significand of 53 bits after dropping [p] zero bits. *)
Lemma shr_fexp_exact q m e p :
  0 <= p -> Z.pos m = Z.pos q * 2 ^ p -> digits q = 53 -> -1074 <= e + p ->
  shr_fexp 53 1024 (Z.pos m) e loc_Exact = ({| shr_m := Z.pos q; shr_r := false; shr_s := false |}, e + p).
Proof.
  intros Hp Hm Hd He. unfold shr_fexp. cbn [Zdigits2 shr_record_of_loc].
  change (Z.pos (digits2_pos m)) with (digits m). rewrite (digits_shift q p Hp m Hm), Hd.
  unfold fexp, emin. replace (Z.max (53 + p + e - 53) (3 - 1024 - 53) - e) with p by lia.
  destruct p as [|p|p]; [|cbn [shr]|lia].
  - cbn [shr]. do 2 f_equal; [|lia]. rewrite Z.pow_0_r in Hm. f_equal. lia.
  - rewrite iter_pos_nat, (shr_iter_exact (Pos.to_nat p) q m); [done|]. by rewrite positive_nat_Z.
Qed.

Lemma round_aux_exact s q m e p :
  0 <= p -> Z.pos m = Z.pos q * 2 ^ p -> digits q = 53 -> -1074 <= e + p <= 971 ->
  binary_round_aux 53 1024 s (Z.pos m) e loc_Exact = S754_finite s q (e + p).
Proof.
  intros Hp Hm Hd He. unfold binary_round_aux.
  rewrite (shr_fexp_exact q m e p) by (done || lia). cbn [shr_m loc_of_shr_record round_nearest_even].
  rewrite (shr_fexp_exact q q (e + p) 0) by (done || lia). cbn [shr_m].
  rewrite Z.add_0_r. destruct (Z.leb_spec (e + p) (1024 - 53)); [done|lia].
Qed.

(** The significand and exponent of an integer. *)
Definition sig (n : positive) : positive := Z.to_pos (Z.pos n * 2 ^ (53 - digits n)).

Lemma sig_spec n : digits n <= 53 -> Z.pos (sig n) = Z.pos n * 2 ^ (53 - digits n) /\ digits (sig n) = 53.
Proof.
  intros Hd. assert (Z.pos (sig n) = Z.pos n * 2 ^ (53 - digits n)) as Hs.
  { unfold sig. rewrite Z2Pos.id; [done|]. apply Z.mul_pos_pos; [lia|]. apply Z.pow_pos_nonneg; lia. }
  split; [done|]. rewrite (digits_shift n (53 - digits n) ltac:(lia) _ Hs). lia.
Qed.

(** Rounding an integer written with spare zero bits is exact. *)
Lemma round_exact s n m j :
  0 <= j -> digits n <= 53 -> Z.pos m = Z.pos n * 2 ^ j ->
  binary_round 53 1024 s m (- j) = S754_finite s (sig n) (digits n - 53).
Proof.
  intros Hj Hd Hm. destruct (sig_spec n Hd) as [Hs Hs53]. pose proof (digits_shift n j Hj m Hm) as Hdm.
  assert (1 <= digits n) by (unfold digits; lia).
  unfold binary_round. change (Z.pos (digits2_pos m)) with (digits m). rewrite Hdm.
  unfold fexp, emin. replace (Z.max (digits n + j + - j - 53) (3 - 1024 - 53)) with (digits n - 53) by lia.
  unfold shl_align. destruct (digits n - 53 - - j) as [|d|d] eqn:E.
  - rewrite (round_aux_exact s (sig n) m (- j) 0); [f_equal; lia|lia| |done|lia].
    rewrite Hm, Hs, Z.pow_0_r, Z.mul_1_r. do 2 f_equal. lia.
  - rewrite (round_aux_exact s (sig n) m (- j) (Z.pos d)); [f_equal; lia|lia| |done|lia].
    rewrite Hm, Hs, <- Z.mul_assoc, <- Z.pow_add_r by lia. do 2 f_equal. lia.
  - rewrite (round_aux_exact s (sig n) (Pos.iter xO m d) (digits n - 53) 0); [f_equal; lia|lia| |done|lia].
    rewrite iter_xO, Hm, Hs, Z.pow_0_r, Z.mul_1_r, <- Z.mul_assoc, <- Z.pow_add_r by lia. do 2 f_equal. lia.
Qed.

Lemma digits_le n : Z.pos n < 2 ^ 53 -> digits n <= 53.
Proof.
  intros H. pose proof (digits_spec n). destruct (Z.le_gt_cases (digits n) 53) as [|Hgt]; [done|].
  assert (2 ^ 53 <= 2 ^ (digits n - 1)) by (apply Z.pow_le_mono_r; lia). lia.
Qed.

Lemma of_Z_pos n : Z.pos n < 2 ^ 53 -> F64.of_Z (Z.pos n) = S754_finite false (sig n) (digits n - 53).
Proof.
  intros Hn. unfold F64.of_Z, binary_normalize. change 0 with (- 0) at 1.
  apply round_exact; [lia|by apply digits_le|lia].
Qed.

Lemma normalize_exact z j :
  0 <= j -> 0 <= z < 2 ^ 53 -> binary_normalize 53 1024 (z * 2 ^ j) (- j) false = F64.of_Z z.
Proof.
  intros Hj Hz. destruct z as [|n|n]; [done| |lia]. rewrite of_Z_pos by lia.
  assert (0 < Z.pos n * 2 ^ j) as Hp by (apply Z.mul_pos_pos; [lia|apply Z.pow_pos_nonneg; lia]).
  destruct (Z.pos n * 2 ^ j) as [|m|m] eqn:E; [lia| |lia]. unfold binary_normalize.
  apply round_exact; [done|apply digits_le; lia|done].
Qed.

Lemma shl_align_exact n ez :
  digits n <= 53 -> ez <= digits n - 53 ->
  Z.pos (fst (shl_align (sig n) (digits n - 53) ez)) = Z.pos n * 2 ^ (- ez).
Proof.
  intros Hd He. destruct (sig_spec n Hd) as [Hs _]. unfold shl_align.
  destruct (ez - (digits n - 53)) as [|d|d] eqn:E; cbn [fst].
  - rewrite Hs. do 2 f_equal. lia.
  - lia.
  - rewrite iter_xO, Hs, <- Z.mul_assoc, <- Z.pow_add_r by lia. do 2 f_equal. lia.
Qed.

Lemma add_exact a b : 0 <= a -> 0 <= b -> a + b < 2 ^ 53 -> F64.add (F64.of_Z a) (F64.of_Z b) = F64.of_Z (a + b).
Proof.
  intros Ha Hb Hab. destruct a as [|n|n]; [|destruct b as [|m|m]|lia]; [| | |lia].
  - destruct b as [|m|m]; [done| |lia]. rewrite Z.add_0_l, of_Z_pos by lia. done.
  - rewrite Z.add_0_r, of_Z_pos by lia. done.
  - rewrite (of_Z_pos n), (of_Z_pos m) by lia. unfold F64.add, SFadd.
    pose proof (digits_le n ltac:(lia)). pose proof (digits_le m ltac:(lia)).
    assert (1 <= digits n /\ 1 <= digits m) by (unfold digits; lia).
    set (ez := Z.min _ _). cbn [cond_Zopp]. rewrite !shl_align_exact by lia.
    rewrite <- Z.mul_add_distr_r. replace ez with (- - ez) at 2 by lia. apply normalize_exact; lia.
Qed.

Lemma sub_exact a b : 0 <= b <= a -> a < 2 ^ 53 -> F64.sub (F64.of_Z a) (F64.of_Z b) = F64.of_Z (a - b).
Proof.
  intros Hb Ha. destruct b as [|m|m]; [| |lia].
  - rewrite Z.sub_0_r. destruct a as [|n|n]; [done| |lia]. by rewrite of_Z_pos by lia.
  - destruct a as [|n|n]; [lia| |lia]. rewrite (of_Z_pos n), (of_Z_pos m) by lia. unfold F64.sub, SFsub.
    pose proof (digits_le n ltac:(lia)). pose proof (digits_le m ltac:(lia)).
    assert (1 <= digits n /\ 1 <= digits m) by (unfold digits; lia).
    set (ez := Z.min _ _). cbn [cond_Zopp]. rewrite !shl_align_exact by lia.
    rewrite <- Z.mul_sub_distr_r. replace ez with (- - ez) at 2 by lia. apply normalize_exact; lia.
Qed.

Lemma digits_mono n m : digits n < digits m -> Z.pos n < Z.pos m.
Proof.
  intros H. pose proof (digits_spec n). pose proof (digits_spec m).
  assert (2 ^ digits n <= 2 ^ (digits m - 1)) by (apply Z.pow_le_mono_r; unfold digits in *; lia). lia.
Qed.

Lemma flt_exact a b : 0 <= a < 2 ^ 53 -> 0 <= b < 2 ^ 53 -> flt (F64.of_Z a) (F64.of_Z b) = (a <? b).
Proof.
  intros Ha Hb. unfold flt, SFltb. destruct a as [|n|n]; [| |lia]; (destruct b as [|m|m]; [| |lia]).
  - done.
  - rewrite of_Z_pos by lia. done.
  - rewrite of_Z_pos by lia. done.
  - rewrite (of_Z_pos n), (of_Z_pos m) by lia. cbn [SFcompare].
    destruct (Z.compare_spec (digits n - 53) (digits m - 53)) as [Hd|Hd|Hd].
    + destruct (sig_spec n (digits_le n ltac:(lia))) as [Hn _]. destruct (sig_spec m (digits_le m ltac:(lia))) as [Hm _].
      replace (digits m) with (digits n) in * by lia.
      assert (0 < 2 ^ (53 - digits n)) by (apply Z.pow_pos_nonneg; [lia|]; pose proof (digits_le n ltac:(lia)); lia).
      change (Pos.compare_cont Eq (sig n) (sig m)) with (Pos.compare (sig n) (sig m)).
      destruct (Pos.compare_spec (sig n) (sig m)), (Z.ltb_spec (Z.pos n) (Z.pos m)); try done; nia.
    + pose proof (digits_mono n m ltac:(lia)). symmetry. by apply Z.ltb_lt.
    + pose proof (digits_mono m n ltac:(lia)). symmetry. apply Z.ltb_ge. lia.
Qed.

(** The value of an integer's float, whichever way it is rounded. *)
Lemma sig_value n :
  Z.pos n < 2 ^ 53 ->
  (if 0 <=? digits n - 53 then Z.pos (sig n) * 2 ^ (digits n - 53) else Z.pos (sig n) / 2 ^ (- (digits n - 53))) = Z.pos n.
Proof.
  intros Hn. pose proof (digits_le n Hn). destruct (sig_spec n ltac:(lia)) as [Hs _]. rewrite Hs.
  destruct (Z.leb_spec 0 (digits n - 53)).
  - replace (digits n) with 53 by lia. cbn. lia.
  - replace (- (digits n - 53)) with (53 - digits n) by lia. apply Z.div_mul.
    apply Z.pow_nonzero; lia.
Qed.

Lemma floor_exact a : 0 <= a < 2 ^ 53 -> floor_isize (F64.of_Z a) = a.
Proof.
  intros Ha. destruct a as [|n|n]; [done| |lia]. rewrite of_Z_pos by lia. unfold floor_isize. cbn [cond_Zopp].
  rewrite sig_value by lia. ints. lia.
Qed.

Lemma as_usize_exact a : 0 <= a < 2 ^ 53 -> as_usize (F64.of_Z a) = a.
Proof.
  intros Ha. destruct a as [|n|n]; [done| |lia]. rewrite of_Z_pos by lia.
  unfold as_usize, saturate, ftrunc. cbn [cond_Zopp]. rewrite sig_value by lia. ints. lia.
Qed.

Lemma digits_mul n m : digits n + digits m - 1 <= digits (n * m) <= digits n + digits m.
Proof.
  pose proof (digits_spec n) as Hn. pose proof (digits_spec m) as Hm. pose proof (digits_spec (n * m)) as Hnm.
  rewrite Pos2Z.inj_mul in Hnm. assert (1 <= digits n /\ 1 <= digits m /\ 1 <= digits (n * m)) by (unfold digits; lia).
  assert (2 ^ (digits n + digits m - 2) <= Z.pos n * Z.pos m < 2 ^ (digits n + digits m)) as [Hl Hu].
  { replace (digits n + digits m - 2) with ((digits n - 1) + (digits m - 1)) by lia.
    rewrite !Z.pow_add_r by lia. assert (0 < 2 ^ (digits n - 1)) by (apply Z.pow_pos_nonneg; lia).
    assert (0 < 2 ^ (digits m - 1)) by (apply Z.pow_pos_nonneg; lia). nia. }
  split.
  - apply Z.lt_succ_r, (Z.pow_lt_mono_r_iff 2); [lia|lia|].
    replace (digits n + digits m - 1) with (Z.succ (digits n + digits m - 2)) by lia.
    rewrite !Z.pow_succ_r by lia. lia.
  - assert (digits (n * m) - 1 < digits n + digits m); [|lia].
    apply (Z.pow_lt_mono_r_iff 2); lia.
Qed.

(** A quotient that is an integer is computed exactly. *)
Lemma div_exact k d : 0 < k -> 0 < d -> k * d < 2 ^ 53 -> F64.div (F64.of_Z (k * d)) (F64.of_Z d) = F64.of_Z k.
Proof.
  intros Hk Hd Hkd. destruct k as [|k|k], d as [|d|d]; try lia. rewrite <- Pos2Z.inj_mul in *.
  assert (Z.pos k < 2 ^ 53 /\ Z.pos d < 2 ^ 53) as [Hk53 Hd53] by nia.
  rewrite (of_Z_pos (k * d)), (of_Z_pos d), (of_Z_pos k) by lia. unfold F64.div, SFdiv, SFdiv_core_binary.
  cbn [Zdigits2 xorb]. fold (digits (sig (k * d))) (digits (sig d)).
  pose proof (digits_le _ Hkd). pose proof (digits_le _ Hd53). pose proof (digits_le _ Hk53).
  destruct (sig_spec (k * d) ltac:(lia)) as [S1 ->]. destruct (sig_spec d ltac:(lia)) as [S2 ->].
  destruct (sig_spec k ltac:(lia)) as [S3 S4]. pose proof (digits_mul k d) as HD.
  assert (1 <= digits (k * d) /\ 1 <= digits d /\ 1 <= digits k) by (unfold digits; lia).
  set (D1 := digits (k * d)) in *. set (D2 := digits d) in *. set (Dk := digits k) in *.
  unfold fexp, emin.
  replace (Z.min (Z.max (53 + (D1 - 53) - (53 + (D2 - 53)) - 53) (3 - 1024 - 53)) (D1 - 53 - (D2 - 53)))
    with (- (53 - D1 + D2)) by lia.
  replace (D1 - 53 - (D2 - 53) - - (53 - D1 + D2)) with 53 by lia. cbv iota.
  rewrite Z.shiftl_mul_pow2 by lia.
  assert (Z.pos (sig (k * d)) * 2 ^ 53 = Z.pos (sig d) * (Z.pos k * 2 ^ (53 - D1 + D2)) + 0) as Hq.
  { rewrite S1, S2, Pos2Z.inj_mul.
    transitivity (Z.pos k * Z.pos d * (2 ^ (53 - D1) * 2 ^ 53)); [ring|].
    transitivity (Z.pos k * Z.pos d * (2 ^ (53 - D2) * 2 ^ (53 - D1 + D2))); [|ring].
    rewrite <- !Z.pow_add_r by lia. do 2 f_equal. lia. }
  destruct (Z.div_eucl _ _) as [q r] eqn:E.
  pose proof (Z_div_mod (Z.pos (sig (k * d)) * 2 ^ 53) (Z.pos (sig d)) ltac:(lia)) as Hm. rewrite E in Hm.
  destruct (Z.div_mod_unique (Z.pos (sig d)) (Z.pos k * 2 ^ (53 - D1 + D2)) q 0 r) as [<- <-]; [lia..|].
  replace (new_location (Z.pos (sig d)) 0) with loc_Exact by (unfold new_location; by destruct (Z.even _)).
  assert (0 < Z.pos k * 2 ^ (53 - D1 + D2)) by (apply Z.mul_pos_pos; [lia|apply Z.pow_pos_nonneg; lia]).
  destruct (Z.pos k * 2 ^ (53 - D1 + D2)) as [|m|m] eqn:Em; [lia| |lia].
  rewrite (round_aux_exact false (sig k) m (- (53 - D1 + D2)) (Dk - D1 + D2)); [f_equal; lia|lia| |done|lia].
  rewrite <- Em, S3, <- Z.mul_assoc, <- Z.pow_add_r by lia. do 2 f_equal. lia.
Qed.
