(* ===== verification/Resample.v ===== *)
(** Conversion to 16 kHz mono (sentinel-capture/src/resample.rs): downmix, sample
    formats and the stateful windowed-sinc resampler.

    Arithmetic is IEEE 754 (Float.v); sine and cosine are the platform's. *)

From S2P Require Import Prelude Float.

(** The functions of the platform's maths library. *)
Class Libm := { f64_sin : f64 -> f64; f64_cos : f64 -> f64; f64_log10 : f64 -> f64 }.

Definition I16_MAX : Z := 32767.

(** [iter().sum()]: from negative zero. *)
Definition f32_sum (l : list f32) : f32 := fold_left F32.add l (S754_zero true).

(** [chunks_exact(n)]: the incomplete tail is left out. *)
Fixpoint chunks_exact {A} (fuel n : nat) (l : list A) : list (list A) :=
  match fuel with
  | O => []
  | S fuel => if (length l <? n)%nat then [] else take n l :: chunks_exact fuel n (drop n l)
  end.

Definition downmix_to_mono (interleaved : list f32) (channels : nat) : list f32 :=
  if (channels <=? 1)%nat then interleaved
  else (fun f => F32.div (f32_sum f) (F32.of_Z (Z.of_nat channels)))
         <$> chunks_exact (length interleaved) channels interleaved.

Definition f32_to_i16 (samples : list f32) : list Z :=
  (fun v => as_i16 (F32.mul (fclamp v (F32.of_Z (-1)) (F32.of_Z 1)) (F32.of_Z I16_MAX))) <$> samples.

Definition i16_to_f32 (samples : list Z) : list f32 :=
  (fun v => F32.div (F32.of_Z v) (F32.of_Z I16_MAX)) <$> samples.

(** ** The resampler *)

Definition TAPS : Z := 16.

Record Resampler := {
  src_rate : Z;
  dst_rate : Z;
  pos : f64;
  history : list f32;
  cutoff : f64;
}.
#[export] Instance Resampler_rebuild : Rebuild Resampler := fun r =>
  {| src_rate := src_rate r; dst_rate := dst_rate r; pos := pos r; history := history r; cutoff := cutoff r |}.

(** Decimal literals: the quotient of two exact integers is the nearest double. *)
Definition lit (n d : Z) : f64 := F64.div (F64.of_Z n) (F64.of_Z d).

Definition Resampler_new (src dst : Z) : Resampler :=
  let ratio := F64.div (F64.of_Z dst) (F64.of_Z src) in
  {| src_rate := src; dst_rate := dst; pos := F64.of_Z TAPS;
     history := replicate (Z.to_nat TAPS * 2) (S754_zero false);
     cutoff := F64.mul (fmin ratio (F64.of_Z 1)) (lit 94 100) |}.

Definition is_identity (r : Resampler) : bool := src_rate r =? dst_rate r.

Section libm.
Context {libm : Libm}.

Definition sinc (x : f64) : f64 :=
  if flt (SFabs x) (lit 1 1000000000) then F64.of_Z 1
  else let pix := F64.mul F64.PI x in F64.div (f64_sin pix) pix.

Definition blackman (t : f64) : f64 :=
  if fle (F64.of_Z 1) (SFabs t) then S754_zero false
  else
    let u := F64.mul F64.PI (F64.add t (F64.of_Z 1)) in
    F64.add (F64.sub (lit 42 100) (F64.mul (lit 1 2) (f64_cos u)))
            (F64.mul (lit 8 100) (f64_cos (F64.mul (F64.of_Z 2) u))).

(** One turn of the kernel's loop, [k] taps from the centre. *)
Definition tap (cut : f64) (hist : list f32) (centre : Z) (frac : f64) (a : f64 * f64) (k : Z) : f64 * f64 :=
  let '(acc, norm) := a in
  let idx := centre + k in
  if (idx <? 0) || (len hist <=? idx) then (acc, norm)
  else
    let x := F64.sub (F64.of_Z k) frac in
    let w := blackman (F64.div x (F64.of_Z TAPS)) in
    let s := F64.mul (F64.mul (sinc (F64.mul x cut)) cut) w in
    (F64.add acc (F64.mul s (F64.of_f32 (default (S754_zero false) (hist !! Z.to_nat idx)))), F64.add norm s).

(** [-TAPS + 1 ..= TAPS] *)
Definition taps : list Z := seqZ (- TAPS + 1) (2 * TAPS).

Definition sample_at (r : Resampler) (p : f64) : f32 :=
  let centre := floor_isize p in
  let frac := F64.sub p (F64.of_Z centre) in
  let '(acc, norm) := fold_left (tap (cutoff r) (history r) centre frac) taps (S754_zero false, S754_zero false) in
  if flt (SFabs norm) (lit 1 1000000000000) then S754_zero false
  else F32.of_f64 (F64.div acc norm).

(** The [while] loop; [None] when the fuel runs out. *)
Fixpoint resample_loop (fuel : nat) (step limit : f64) (r : Resampler) (out : list f32)
    : option (Resampler * list f32) :=
  if flt (pos r) limit then
    match fuel with
    | O => None
    | S fuel => resample_loop fuel step limit (r <| pos := F64.add (pos r) step |>) (out ++ [sample_at r (pos r)])
    end
  else Some (r, out).

(** Dropping the consumed samples; [None] is the panic of [drain] past the end. *)
Definition drop_consumed (r : Resampler) : option Resampler :=
  let keep_from := sat_sub (as_usize (pos r)) TAPS in
  if 0 <? keep_from then
    if len (history r) <? keep_from then None
    else Some (r <| history := drop (Z.to_nat keep_from) (history r) |>
                 <| pos := F64.sub (pos r) (F64.of_Z keep_from) |>)
  else Some r.

Definition process (r : Resampler) (input : list f32) : option (Resampler * list f32) :=
  if is_identity r then Some (r, input)
  else
    let r := r <| history := history r ++ input |> in
    let step := F64.div (F64.of_Z (src_rate r)) (F64.of_Z (dst_rate r)) in
    let limit := F64.sub (F64.sub (F64.of_Z (len (history r))) (F64.of_Z TAPS)) (F64.of_Z 1) in
    let fuel := (S (length (history r)) * S (Z.to_nat (dst_rate r / src_rate r)))%nat in
    '(r, out) ← resample_loop fuel step limit r [];
    r ← drop_consumed r;
    Some (r, out).

(** Buffers one after the other. *)
Fixpoint process_all (r : Resampler) (inputs : list (list f32)) : option (Resampler * list f32) :=
  match inputs with
  | [] => Some (r, [])
  | i :: l =>
      '(r, out) ← process r i; '(r, rest) ← process_all r l; Some (r, out ++ rest)
  end.

(** ** The reference: the whole signal filtered at once

    The kernel centred on the sample [p] of the padded signal, and the samples every
    [k] of them. *)
Definition filter_at (cut : f64) (signal : list f32) (p : Z) : f32 :=
  let '(acc, norm) := fold_left (tap cut signal p (S754_zero false)) taps (S754_zero false, S754_zero false) in
  if flt (SFabs norm) (lit 1 1000000000000) then S754_zero false
  else F32.of_f64 (F64.div acc norm).

(** How many samples [n] inputs give. *)
Definition output_count (k : Z) (n : nat) : nat := Z.to_nat ((Z.of_nat n - 2 + k) / k).

Definition resampled (cut : f64) (k : Z) (signal : list f32) : list f32 :=
  let padded := replicate 32 (S754_zero false) ++ signal in
  (fun i => filter_at cut padded (TAPS + k * Z.of_nat i)) <$> seq 0 (output_count k (length signal)).
End libm.

(** ** Properties *)

(** Samples are 16-bit whatever the floats were, NaN and infinities included. *)
Lemma f32_to_i16_range l : Forall (fun z => -32768 <= z <= 32767) (f32_to_i16 l).
Proof. apply Forall_fmap, Forall_true. intros v. apply as_i16_range. Qed.

Lemma chunks_exact_concat {A} fuel n (l : list A) :
  (0 < n)%nat -> (length l <= fuel)%nat ->
  concat (chunks_exact fuel n l) = take (length l / n * n) l /\
  length (chunks_exact fuel n l) = (length l / n)%nat /\
  Forall (fun c => length c = n) (chunks_exact fuel n l).
Proof.
  intros Hn. revert l. induction fuel as [|fuel IH]; intros l Hl; cbn [chunks_exact].
  - destruct l; [|cbn in Hl; lia]. by rewrite Nat.Div0.div_0_l.
  - destruct (Nat.ltb_spec (length l) n) as [H|H].
    + rewrite Nat.div_small by done. done.
    + destruct (IH (drop n l)) as (H1 & H2 & H3); [rewrite length_drop; lia|].
      assert (length l / n = S ((length l - n) / n))%nat as E.
      { replace (length l) with ((length l - n) + 1 * n)%nat at 1 by lia. rewrite Nat.div_add by lia. lia. }
      cbn [concat length]. rewrite H1, H2, length_drop, E. split_and!; [|done|].
      * cbn [Nat.mul]. by rewrite take_take_drop.
      * constructor; [rewrite length_take; lia|done].
Qed.

(** A frame of channels becomes one sample; samples of an incomplete frame are left
    out. *)
Lemma downmix_length l channels :
  (0 < channels)%nat -> length (downmix_to_mono l channels) = (length l / channels)%nat.
Proof.
  intros Hc. unfold downmix_to_mono. destruct (Nat.leb_spec channels 1).
  - replace channels with 1%nat by lia. by rewrite Nat.div_1_r.
  - rewrite length_fmap. by apply chunks_exact_concat.
Qed.

Section stitch.
Context {libm : Libm}.

Lemma fold_left_ext {A B} (f g : A -> B -> A) l a :
  (forall a b, b ∈ l -> f a b = g a b) -> fold_left f l a = fold_left g l a.
Proof.
  revert a. induction l as [|b l IH]; intros a H; [done|]. cbn. rewrite H by left. apply IH.
  intros a' b' Hb. apply H. by right.
Qed.

(** The kernel sees 15 samples before its centre and 16 after it. *)
Lemma filter_at_local cut h1 p1 h2 p2 :
  (forall k, -15 <= k <= 16 -> 0 <= p1 + k < len h1 /\ 0 <= p2 + k < len h2 /\
     h1 !! Z.to_nat (p1 + k) = h2 !! Z.to_nat (p2 + k)) ->
  filter_at cut h1 p1 = filter_at cut h2 p2.
Proof.
  intros H. unfold filter_at. erewrite fold_left_ext; [done|].
  intros [acc norm] k Hk. apply elem_of_seqZ in Hk. unfold TAPS in Hk.
  destruct (H k ltac:(lia)) as (H1 & H2 & H3). unfold tap. rewrite H3.
  destruct (Z.ltb_spec (p1 + k) 0), (Z.leb_spec (len h1) (p1 + k)),
    (Z.ltb_spec (p2 + k) 0), (Z.leb_spec (len h2) (p2 + k)); cbn; try lia. done.
Qed.

Lemma sample_at_exact r p :
  0 <= p < 2 ^ 53 -> sample_at r (F64.of_Z p) = filter_at (cutoff r) (history r) p.
Proof.
  intros Hp. unfold sample_at, filter_at. rewrite floor_exact, sub_exact, Z.sub_diag by lia. done.
Qed.

Context (k : Z) (Hk : 2 <= k <= 16).

(** The loop from an integer position: [c] samples, [k] apart. *)
Lemma resample_loop_exact fuel l q r out c :
  pos r = F64.of_Z q -> 0 <= q -> 0 <= l -> q <= l + k -> l + k < 2 ^ 52 ->
  l - q <= k * Z.of_nat c < l - q + k -> (c <= fuel)%nat ->
  resample_loop fuel (F64.of_Z k) (F64.of_Z l) r out =
    Some (r <| pos := F64.of_Z (q + k * Z.of_nat c) |>,
          out ++ ((fun i => filter_at (cutoff r) (history r) (q + k * Z.of_nat i)) <$> seq 0 c)).
Proof.
  revert fuel q r out. induction c as [|c IH]; intros fuel q r out Hp Hq Hl Hq53 Hl53 Hc Hf.
  - assert (flt (pos r) (F64.of_Z l) = false) as E by (rewrite Hp, flt_exact by lia; apply Z.ltb_ge; lia).
    destruct fuel; cbn [resample_loop]; rewrite E; cbn [seq fmap list_fmap]; rewrite app_nil_r;
      rewrite Z.mul_0_r, Z.add_0_r, <- Hp; by destruct r.
  - assert (flt (pos r) (F64.of_Z l) = true) as E by (rewrite Hp, flt_exact by lia; apply Z.ltb_lt; nia).
    destruct fuel as [|fuel]; [lia|]. cbn [resample_loop]. rewrite E.
    assert (q < l) by nia.
    rewrite (IH fuel (q + k)); [|cbn; rewrite Hp; apply add_exact; lia|lia..]. cbn.
    do 2 f_equal; [do 2 f_equal; lia|].
    rewrite <- app_assoc. cbn. rewrite Hp, sample_at_exact, Z.mul_0_r, Z.add_0_r by lia.
    do 2 f_equal. rewrite <- seq_shift, <- list_fmap_compose. apply list_fmap_ext. intros _ i _. cbn.
    f_equal. lia.
Qed.

(** The state between calls: everything before the kernel's left context is gone. *)
Definition stitched (dst : Z) (cut : f64) (full : list f32) (P : Z) (r : Resampler) : Prop :=
  src_rate r = k * dst /\ dst_rate r = dst /\ cutoff r = cut /\ pos r = F64.of_Z TAPS /\
  TAPS <= P /\ len full - 17 <= P < len full - 17 + k /\ history r = drop (Z.to_nat (P - TAPS)) full.

Lemma count_exists x : - k < x -> exists c, x <= k * Z.of_nat c < x + k.
Proof.
  intros Hx. exists (Z.to_nat ((x + k - 1) / k)). rewrite Z2Nat.id by (apply Z.div_pos; lia).
  pose proof (Z.div_mod (x + k - 1) k ltac:(lia)). pose proof (Z.mod_pos_bound (x + k - 1) k ltac:(lia)). lia.
Qed.

Lemma drop_consumed_exact r c :
  pos r = F64.of_Z (TAPS + k * Z.of_nat c) -> k * Z.of_nat c <= len (history r) < 2 ^ 52 ->
  drop_consumed r = Some (r <| history := drop (Z.to_nat (k * Z.of_nat c)) (history r) |> <| pos := F64.of_Z TAPS |>).
Proof.
  intros Hp Hl. unfold drop_consumed. rewrite Hp, as_usize_exact by (unfold TAPS; nia).
  replace (sat_sub (TAPS + k * Z.of_nat c) TAPS) with (k * Z.of_nat c) by (unfold sat_sub; nia).
  destruct (Z.ltb_spec 0 (k * Z.of_nat c)).
  - destruct (Z.ltb_spec (len (history r)) (k * Z.of_nat c)); [lia|].
    rewrite sub_exact, Z.add_simpl_r by (unfold TAPS; lia). done.
  - replace (k * Z.of_nat c) with 0 in * by nia. rewrite Z.add_0_r in Hp.
    destruct r as [a b q h cut]. cbn [pos] in Hp. by subst q.
Qed.

(** One buffer: the samples of the signal so far that its end makes available. *)
Lemma process_stitched dst cut full P r input :
  0 < dst -> k * dst < 2 ^ 32 -> len (full ++ input) < 2 ^ 51 -> stitched dst cut full P r ->
  exists c r', len (full ++ input) - 17 - P <= k * Z.of_nat c < len (full ++ input) - 17 - P + k /\
    stitched dst cut (full ++ input) (P + k * Z.of_nat c) r' /\
    process r input = Some (r', (fun i => filter_at cut (full ++ input) (P + k * Z.of_nat i)) <$> seq 0 c).
Proof.
  intros Hdst Hrate Hlen (Hs & Hd & Hcut & Hpos & HP & Hw & Hh).
  assert (history r ++ input = drop (Z.to_nat (P - TAPS)) (full ++ input)) as Hhist.
  { rewrite drop_app_le; [by rewrite Hh|]. unfold TAPS in *. lia. }
  set (full' := full ++ input) in *. set (h := drop _ full') in *.
  assert (len full <= len full') as Hle by (unfold full'; rewrite length_app; lia).
  assert (len h = len full' - (P - TAPS)) as Hh' by (unfold h; rewrite length_drop; unfold TAPS in *; lia).
  destruct (count_exists (len full' - 17 - P) ltac:(lia)) as [c Hc].
  set (r1 := r <| history := history r ++ input |>).
  set (r2 := r1 <| pos := F64.of_Z (TAPS + k * Z.of_nat c) |>).
  exists c, (r2 <| history := drop (Z.to_nat (k * Z.of_nat c)) h |> <| pos := F64.of_Z TAPS |>).
  split; [done|]. split.
  { unfold stitched. cbn. split_and!; try done; try (unfold TAPS in *; lia). unfold h. rewrite drop_drop. f_equal.
    unfold TAPS in *. lia. }
  unfold process, is_identity. rewrite Hs, Hd. destruct (Z.eqb_spec (k * dst) dst); [nia|].
  fold r1. change (src_rate r1) with (src_rate r). change (dst_rate r1) with (dst_rate r).
  change (history r1) with (history r ++ input). rewrite Hs, Hd, Hhist, div_exact by lia.
  rewrite !sub_exact by (unfold TAPS in *; lia).
  rewrite (resample_loop_exact _ (len h - TAPS - 1) TAPS r1 [] c); unfold TAPS in *; try (cbn; done || lia); [|nia].
  cbn [mbind option_bind]. fold r2.
  rewrite (drop_consumed_exact r2 c); [|done|cbn; rewrite Hhist; unfold TAPS in *; lia].
  cbn [mbind option_bind app]. do 2 f_equal; [cbn; by rewrite Hhist|].
  apply list_fmap_ext. intros i x [-> Hi]%lookup_seq. cbn. rewrite Hcut, Hhist. apply filter_at_local.
  intros j Hj. assert (k * Z.of_nat i <= k * Z.of_nat c - k) by nia.
  split_and!; [lia..|]. unfold h. rewrite lookup_drop. f_equal. lia.
Qed.

(** What was filtered stays the same as more arrives. *)
Lemma filter_at_app cut full more P c :
  TAPS <= P -> k * Z.of_nat c < len full - 17 - P + k ->
  (fun i => filter_at cut full (P + k * Z.of_nat i)) <$> seq 0 c =
  (fun i => filter_at cut (full ++ more) (P + k * Z.of_nat i)) <$> seq 0 c.
Proof.
  intros HP Hc. apply list_fmap_ext. intros i x [-> Hi]%lookup_seq. cbn. apply filter_at_local. unfold TAPS in *.
  intros j Hj. assert (k * Z.of_nat i <= k * Z.of_nat c - k) by nia. rewrite length_app.
  split_and!; [lia..|]. rewrite lookup_app_l by lia. done.
Qed.

Lemma process_all_stitched dst cut inputs full P r :
  0 < dst -> k * dst < 2 ^ 32 -> len (full ++ concat inputs) < 2 ^ 51 -> stitched dst cut full P r ->
  exists c r', len (full ++ concat inputs) - 17 - P <= k * Z.of_nat c < len (full ++ concat inputs) - 17 - P + k /\
    process_all r inputs =
      Some (r', (fun i => filter_at cut (full ++ concat inputs) (P + k * Z.of_nat i)) <$> seq 0 c).
Proof.
  intros Hdst Hrate. revert full P r. induction inputs as [|i inputs IH]; intros full P r Hlen Hst.
  - exists 0%nat, r. destruct Hst as (_ & _ & _ & _ & _ & Hw & _). cbn. rewrite app_nil_r. split; [lia|done].
  - cbn [concat] in *. rewrite app_assoc in *.
    destruct (process_stitched dst cut full P r i) as (c1 & r1 & Hc1 & Hst1 & E1); [done..| |done|].
    { rewrite length_app in Hlen. lia. }
    destruct (IH (full ++ i) (P + k * Z.of_nat c1) r1 Hlen Hst1) as (c2 & r2 & Hc2 & E2).
    exists (c1 + c2)%nat, r2. split; [lia|]. cbn [process_all]. rewrite E1. cbn [mbind option_bind].
    rewrite E2. cbn [mbind option_bind]. do 2 f_equal. rewrite seq_app, fmap_app.
    rewrite (filter_at_app cut (full ++ i) (concat inputs)); [|by destruct Hst as (_ & _ & _ & _ & ? & _)|lia].
    f_equal. replace (seq (0 + c1) c2) with (Nat.add c1 <$> seq 0 c2) by (rewrite fmap_add_seq; f_equal; lia).
    rewrite <- list_fmap_compose. apply list_fmap_ext. intros _ j _. cbn. f_equal. lia.
Qed.

Lemma process_all_whole dst inputs :
  0 < dst -> k * dst < 2 ^ 32 -> len (concat inputs) < 2 ^ 50 ->
  exists r, process_all (Resampler_new (k * dst) dst) inputs =
    Some (r, resampled (cutoff (Resampler_new (k * dst) dst)) k (concat inputs)).
Proof.
  intros Hdst Hrate Hlen. set (r0 := Resampler_new (k * dst) dst). set (z := replicate 32 (S754_zero false)).
  destruct (process_all_stitched dst (cutoff r0) inputs z TAPS r0) as (c & r & Hc & E); [done..| | |].
  - rewrite length_app. unfold z. rewrite length_replicate. lia.
  - unfold stitched, TAPS, z. rewrite length_replicate. split_and!; try done; lia.
  - exists r. rewrite E. unfold resampled. do 4 f_equal. unfold output_count.
    rewrite length_app in Hc. unfold z, TAPS in Hc. rewrite length_replicate in Hc.
    apply Nat2Z.inj. destruct (length (concat inputs)) as [|n] eqn:En.
    + rewrite Z.div_small by lia. nia.
    + rewrite Z2Nat.id by (apply Z.div_pos; lia). apply Z.div_unique with
        (Z.of_nat (S n) - 2 + k - k * Z.of_nat c); lia.
Qed.

(** C34: Buffer boundaries leave no trace when the device rate is two to sixteen times the
    output's, a whole number of times (48 kHz to 16 kHz is three; 44.1 kHz is not
    covered): the samples that come out of any sequence of buffers, 2^50 samples in all
    at most, are those of filtering the whole signal at once, bit for bit, so there is no
    click and no drift; the loop always ends and nothing panics. *)
Theorem resampler_stitches dst inputs :
  0 < dst -> k * dst < 2 ^ 32 -> len (concat inputs) < 2 ^ 50 ->
  exists r, process_all (Resampler_new (k * dst) dst) inputs =
    Some (r, resampled (cutoff (Resampler_new (k * dst) dst)) k (concat inputs)).
Proof. apply process_all_whole. Qed.
End stitch.

(** ** Concrete runs *)

(** A maths library of constants, enough to run the loops. *)
Definition flat_libm : Libm := {| f64_sin x := x; f64_cos _ := F64.of_Z 1; f64_log10 _ := F64.of_Z 0 |}.

(** 48 kHz in two buffers. *)
Lemma resampler_stitches_witness :
  2 <= 3 <= 16 /\
  exists r, process_all (libm:=flat_libm) (Resampler_new 48000 16000)
      [i16_to_f32 [1; 2; 3; 4; 5]; i16_to_f32 [6; 7; 8]] =
    Some (r, resampled (libm:=flat_libm) (cutoff (Resampler_new 48000 16000)) 3
               (concat [i16_to_f32 [1; 2; 3; 4; 5]; i16_to_f32 [6; 7; 8]])).
Proof.
  split; [lia|].
  apply (resampler_stitches (libm:=flat_libm) 3 ltac:(lia) 16000); [lia|lia|]. cbn. lia.
Defined.

(** At more than 33 times the output rate the position can pass the end of the history,
    and dropping what was consumed panics. *)
Example rate_768k_panics :
  process (libm:=flat_libm) (Resampler_new 768000 16000) [S754_zero false; S754_zero false] = None.
Proof. vm_compute. reflexivity. Qed.

(** The extremes and the non-numbers. *)
Example i16_extremes :
  f32_to_i16 [F32.of_Z 2; F32.of_Z (-2); S754_nan; S754_infinity true; S754_zero true; F32.of_Z 1]
    = [32767; -32767; 0; -32767; 0; 32767].
Proof. vm_compute. reflexivity. Qed.
