(* ===== verification/Endpoint.v ===== *)
(** Tier B capture (sentinel-capture/src/windows/endpoint_loopback.rs): describing the
    endpoints, opening one in its mix format, and reading it as 16 kHz mono samples.

    WASAPI's answers to the calls enter as values; what the buffers hold is bytes, read
    as the code reads them. *)

From S2P Require Import Prelude Text Protocol Config Capture Pkce LiveSource Float Resample.

(** ** The bytes of a buffer *)

(** [f32::from_bits] *)
Definition f32_from_bits (b : Z) : f32 :=
  let s := Z.testbit b 31 in
  let e := Z.land (Z.shiftr b 23) 255 in
  let m := Z.land b 8388607 in
  if e =? 255 then (if m =? 0 then S754_infinity s else S754_nan)
  else
    let m' := if e =? 0 then m else m + 8388608 in
    match m' with
    | Z.pos p => S754_finite s p (if e =? 0 then -149 else e - 150)
    | _ => S754_zero s
    end.
Definition i16_from_bits (b : Z) : Z := if b <? 32768 then b else b - 65536.

(** [slice::from_raw_parts(data as *const f32, count)], and the same for [i16]. *)
Fixpoint raw_parts {A} (width : nat) (f : Z -> A) (data : list u8) (count : nat) : list A :=
  match count with
  | O => []
  | S count => f (from_le_bytes (take width data)) :: raw_parts width f (drop width data) count
  end.
Definition raw_f32 : list u8 -> nat -> list f32 := raw_parts 4 f32_from_bits.
Definition raw_i16 : list u8 -> nat -> list Z := raw_parts 2 i16_from_bits.

(** ** Endpoints *)

Definition DEVICE_STATE_ACTIVE : Z := 1.
Definition DEVICE_STATE_NOTPRESENT : Z := 4.

(** What the device and its property store answer. *)
Record DeviceAnswers := {
  da_id : result (option string) string;     (** [None]: not valid UTF-16 *)
  da_state : result Z string;
  da_store : result (option string * option string) string;  (** friendly name, container *)
}.

Definition non_empty (s : option string) : option string :=
  t ← s; if str_is_empty t then None else Some t.

Definition describe (d : DeviceAnswers) (dir : AudioDirection) : result AudioDevice CaptureErr :=
  let? id := map_err (fun e => Platform ("GetId: " +:+ e)) (da_id d) in
  let id := default "" id in
  let state := match da_state d with Ok s => s | Err _ => DEVICE_STATE_NOTPRESENT end in
  let? store := map_err (fun e => Platform ("OpenPropertyStore: " +:+ e)) (da_store d) in
  Ok {| ad_id := id; ad_container_id := non_empty store.2;
        ad_friendly_name := default id (non_empty store.1);
        ad_direction := dir; ad_is_default := false;
        ad_active := state =? DEVICE_STATE_ACTIVE |}.

(** The devices of one direction; an item that cannot be fetched is skipped, one that
    cannot be described ends the enumeration. *)
Fixpoint describe_all (items : list (result DeviceAnswers string)) (dir : AudioDirection)
    : result (list AudioDevice) CaptureErr :=
  match items with
  | [] => Ok []
  | Err _ :: l => describe_all l dir
  | Ok d :: l => let? a := describe d dir in let? rest := describe_all l dir in Ok (a :: rest)
  end.

Definition enumerate (enumerator : result unit string)
    (endpoints : AudioDirection -> result (list (result DeviceAnswers string)) string)
    : result (list AudioDevice) CaptureErr :=
  let? _ := map_err (fun e => Platform ("device enumerator: " +:+ e)) enumerator in
  let flow dir := let? items := map_err (fun e => Platform ("EnumAudioEndpoints: " +:+ e)) (endpoints dir) in
                  describe_all items dir in
  let? render := flow DirRender in
  let? capture := flow DirCapture in
  Ok (render ++ capture).

(** ** Opening a stream *)

Definition WAVE_FORMAT_EXTENSIBLE : Z := 0xFFFE.
Definition WAVE_FORMAT_IEEE_FLOAT : Z := 0x0003.
Definition SUBTYPE_IEEE_FLOAT : Z := 0x00000003000000108000_00aa00389b71.
Definition AUDCLNT_STREAMFLAGS_LOOPBACK : Z := 0x00020000.
Definition AUDCLNT_STREAMFLAGS_EVENTCALLBACK : Z := 0x00040000.

Record MixFormat := {
  wFormatTag : Z;
  nChannels : nat;
  nSamplesPerSec : Z;
  SubFormat : Z;                 (** only there in the extensible form *)
}.

Definition describe_format (fmt : MixFormat) : Z * nat * bool :=
  let float := if wFormatTag fmt =? WAVE_FORMAT_EXTENSIBLE then SubFormat fmt =? SUBTYPE_IEEE_FLOAT
               else wFormatTag fmt =? WAVE_FORMAT_IEEE_FLOAT in
  (nSamplesPerSec fmt, nChannels fmt, float).

Record EndpointLoopbackStream := {
  ep_resampler : Resampler;
  ep_channels : nat;
  ep_float_format : bool;
  ep_started : bool;
}.
#[export] Instance EndpointLoopbackStream_rebuild : Rebuild EndpointLoopbackStream := fun s =>
  {| ep_resampler := ep_resampler s; ep_channels := ep_channels s; ep_float_format := ep_float_format s;
     ep_started := ep_started s |}.

Definition stream_flags (dir : AudioDirection) : Z :=
  if bool_decide (dir = DirRender) then Z.lor AUDCLNT_STREAMFLAGS_LOOPBACK AUDCLNT_STREAMFLAGS_EVENTCALLBACK
  else AUDCLNT_STREAMFLAGS_EVENTCALLBACK.

(** What the calls of [open] answer, in order; [oa_initialize] by the flags. *)
Record OpenAnswers := {
  oa_enumerator : result unit string;
  oa_device : option unit;
  oa_activate : result unit string;
  oa_mix : result MixFormat string;
  oa_initialize : Z -> result unit string;
  oa_event : result unit string;
  oa_set_event : result unit string;
  oa_service : result unit string;
}.

Definition platform_err {A} (what : string) (r : result A string) : result A CaptureErr :=
  map_err (fun e => Platform (what +:+ ": " +:+ e)) r.

Definition endpoint_stream_open (a : OpenAnswers) (endpoint_id : string) (dir : AudioDirection)
    : result EndpointLoopbackStream CaptureErr :=
  let? _ := platform_err "device enumerator" (oa_enumerator a) in
  let? _ := ok_or (oa_device a) (DeviceNotFound endpoint_id) in
  let? _ := platform_err "Activate(IAudioClient)" (oa_activate a) in
  let? mix := platform_err "GetMixFormat" (oa_mix a) in
  let '(rate, channels, float_format) := describe_format mix in
  let? _ := platform_err "IAudioClient::Initialize" (oa_initialize a (stream_flags dir)) in
  let? _ := platform_err "capture event" (oa_event a) in
  let? _ := platform_err "SetEventHandle" (oa_set_event a) in
  let? _ := platform_err "GetService" (oa_service a) in
  Ok {| ep_resampler := Resampler_new rate SAMPLE_RATE; ep_channels := channels;
        ep_float_format := float_format; ep_started := false |}.

Definition endpoint_start (answer : result unit string) (s : EndpointLoopbackStream)
    : EndpointLoopbackStream * result unit CaptureErr :=
  match platform_err "IAudioClient::Start" answer with
  | Err e => (s, Err e)
  | Ok _ => (s <| ep_started := true |>, Ok tt)
  end.

(** ** Reading *)

Definition AUDCLNT_BUFFERFLAGS_DATA_DISCONTINUITY : Z := 1.
Definition AUDCLNT_BUFFERFLAGS_SILENT : Z := 2.

Record EpPacket := {
  ek_data : list u8;
  ek_frames : nat;
  ek_flags : Z;
  ek_release : result unit string;
}.
Inductive EpAnswer :=
| EpBuffer (p : EpPacket)
| EpInvalidated
| EpFailed.

Definition has_flag (flags f : Z) : bool := negb (Z.land flags f =? 0).

(** The interleaved samples of a packet. *)
Definition packet_floats (channels : nat) (float : bool) (p : EpPacket) : list f32 :=
  let count := (ek_frames p * channels)%nat in
  if has_flag (ek_flags p) AUDCLNT_BUFFERFLAGS_SILENT then replicate count (S754_zero false)
  else if float then raw_f32 (ek_data p) count
  else i16_to_f32 (raw_i16 (ek_data p) count).

(** The drain loop; after the last answer the engine has nothing. *)
Fixpoint ep_drain (channels : nat) (float : bool) (answers : list EpAnswer) (interleaved : list f32)
    (discontinuity silent : bool) : list EpAnswer * result (list f32 * bool * bool) CaptureErr :=
  match answers with
  | [] => ([], Ok (interleaved, discontinuity, silent))
  | EpInvalidated :: l => (l, Err DeviceInvalidated)
  | EpFailed :: l => (l, Ok (interleaved, discontinuity, silent))
  | EpBuffer p :: l =>
      if (ek_frames p =? 0)%nat then (l, Ok (interleaved, discontinuity, silent))
      else
        let discontinuity := discontinuity || has_flag (ek_flags p) AUDCLNT_BUFFERFLAGS_DATA_DISCONTINUITY in
        let silent := silent || has_flag (ek_flags p) AUDCLNT_BUFFERFLAGS_SILENT in
        let interleaved := interleaved ++ packet_floats channels float p in
        match ek_release p with
        | Err e => (l, Err (Platform ("ReleaseBuffer: " +:+ e)))
        | Ok _ => ep_drain channels float l interleaved discontinuity silent
        end
  end.

Section read.
Context {libm : Libm}.

(** [signalled]: the event fired before the timeout. The outer [None] is a resampler
    that panics. *)
Definition endpoint_read (signalled : bool) (answers : list EpAnswer) (s : EndpointLoopbackStream)
    : option (list EpAnswer * EndpointLoopbackStream * result (option CapturedBuffer) CaptureErr) :=
  if negb signalled then Some (answers, s, Ok None)
  else
    let '(l, r) := ep_drain (ep_channels s) (ep_float_format s) answers [] false false in
    match r with
    | Err e => Some (l, s, Err e)
    | Ok (interleaved, discontinuity, silent) =>
        if bool_decide (length interleaved = 0%nat) then Some (l, s, Ok None)
        else
          let mono := downmix_to_mono interleaved (ep_channels s) in
          '(rs, resampled) ← process (ep_resampler s) mono;
          Some (l, s <| ep_resampler := rs |>,
                Ok (Some {| cb_samples := f32_to_i16 resampled; cb_discontinuity := discontinuity;
                            cb_silent := silent |}))
    end.
End read.

(** ** Properties *)

Definition is_i16 (z : Z) : Prop := -32768 <= z <= 32767.

Section props.
Context {libm : Libm}.

(** Whatever the mix format and the bytes, what a read hands out are 16-bit samples. *)
Lemma endpoint_read_i16 signalled answers s l s' b :
  endpoint_read signalled answers s = Some (l, s', Ok (Some b)) -> Forall is_i16 (cb_samples b).
Proof.
  unfold endpoint_read. destruct signalled; [|done]. cbn [negb].
  destruct (ep_drain _ _ _ _ _ _) as [l1 [[[fs d] sl]|e]]; [|done].
  case_bool_decide; [done|]. destruct (process _ _) as [[rs out]|]; [|done]. cbn. intros [= <- <- <-].
  apply f32_to_i16_range.
Qed.

Lemma ep_drain_all ch fl ps acc d sl :
  Forall (fun p => (0 < ek_frames p)%nat /\ ek_release p = Ok tt) ps ->
  exists d' sl', ep_drain ch fl (EpBuffer <$> ps) acc d sl = ([], Ok (acc ++ (ps ≫= packet_floats ch fl), d', sl')).
Proof.
  intros Hp. revert acc d sl. induction Hp as [|p ps [Hf Hr] Hp IH]; intros acc d sl.
  { exists d, sl. cbn. by rewrite app_nil_r. }
  cbn [fmap list_fmap ep_drain]. destruct (Nat.eqb_spec (ek_frames p) 0); [lia|]. rewrite Hr.
  destruct (IH (acc ++ packet_floats ch fl p)
    (d || has_flag (ek_flags p) AUDCLNT_BUFFERFLAGS_DATA_DISCONTINUITY)
    (sl || has_flag (ek_flags p) AUDCLNT_BUFFERFLAGS_SILENT)) as (d' & sl' & E).
  exists d', sl'. by rewrite E, <- app_assoc.
Qed.

Lemma length_raw_parts {A} w (f : Z -> A) data n : length (raw_parts w f data n) = n.
Proof. revert data. induction n as [|n IH]; intros data; cbn; [done|]. by rewrite IH. Qed.

Lemma length_packet_floats ch fl p : length (packet_floats ch fl p) = (ek_frames p * ch)%nat.
Proof.
  unfold packet_floats, raw_f32, raw_i16, i16_to_f32.
  destruct (has_flag _ _); [apply length_replicate|]. destruct fl; [apply length_raw_parts|].
  by rewrite length_fmap, length_raw_parts.
Qed.

Lemma chunks_exact_short {A} f n (l : list A) : (length l < n)%nat -> chunks_exact f n l = [].
Proof. intros H. destruct f; [done|]. cbn [chunks_exact]. by destruct (Nat.ltb_spec (length l) n); [|lia]. Qed.

Lemma chunks_exact_fuel {A} n (l : list A) f1 f2 :
  (0 < n)%nat -> (length l <= f1)%nat -> (length l <= f2)%nat -> chunks_exact f1 n l = chunks_exact f2 n l.
Proof.
  intros Hn. revert l f2. induction f1 as [|f1 IH]; intros l f2 H1 H2.
  - rewrite (chunks_exact_short 0), (chunks_exact_short f2) by lia. done.
  - destruct (Nat.lt_ge_cases (length l) n); [by rewrite !chunks_exact_short|].
    destruct f2; [lia|]. cbn [chunks_exact]. destruct (Nat.ltb_spec (length l) n); [lia|].
    f_equal. apply IH; rewrite length_drop; lia.
Qed.

Lemma chunks_exact_app {A} n j (a b : list A) f1 f2 f3 :
  (0 < n)%nat -> length a = (j * n)%nat -> (length (a ++ b) <= f1)%nat -> (length a <= f2)%nat -> (length b <= f3)%nat ->
  chunks_exact f1 n (a ++ b) = chunks_exact f2 n a ++ chunks_exact f3 n b.
Proof.
  intros Hn. revert a f1 f2. induction j as [|j IH]; intros a f1 f2 Ha H1 H2 H3.
  - destruct a; [|done]. rewrite (chunks_exact_short f2) by done. by apply chunks_exact_fuel.
  - cbn [Nat.mul] in Ha. destruct f1; [rewrite length_app in H1; lia|]. destruct f2; [lia|].
    cbn [chunks_exact]. rewrite length_app. destruct (Nat.ltb_spec (length a + length b) n); [lia|].
    destruct (Nat.ltb_spec (length a) n); [lia|]. rewrite take_app_le, drop_app_le by lia.
    cbn [app]. f_equal. apply IH; rewrite ?length_app, ?length_drop in *; lia.
Qed.

Lemma downmix_app ch j a b :
  (0 < ch)%nat -> length a = (j * ch)%nat ->
  downmix_to_mono (a ++ b) ch = downmix_to_mono a ch ++ downmix_to_mono b ch.
Proof.
  intros Hc Ha. unfold downmix_to_mono. destruct (Nat.leb_spec ch 1); [done|].
  rewrite <- fmap_app. f_equal. by apply chunks_exact_app with j.
Qed.

(** Reads one after the other, each draining one batch of packets. *)
Fixpoint endpoint_reads (s : EndpointLoopbackStream) (batches : list (list EpPacket))
    : option (EndpointLoopbackStream * list Z) :=
  match batches with
  | [] => Some (s, [])
  | ps :: l =>
      '(_, s, r) ← endpoint_read true (EpBuffer <$> ps) s;
      match r with
      | Ok b => '(s, rest) ← endpoint_reads s l; Some (s, from_option cb_samples [] b ++ rest)
      | Err _ => None
      end
  end.

Definition good_batch (ps : list EpPacket) : Prop :=
  ps <> [] /\ Forall (fun p => (0 < ek_frames p)%nat /\ ek_release p = Ok tt) ps.

Definition batch_floats (s : EndpointLoopbackStream) (ps : list EpPacket) : list f32 :=
  ps ≫= packet_floats (ep_channels s) (ep_float_format s).

Lemma length_batch s ps :
  length (batch_floats s ps) = (sum_list (ek_frames <$> ps) * ep_channels s)%nat.
Proof.
  unfold batch_floats. induction ps as [|p ps IH]; [done|]. cbn [mbind list_bind fmap list_fmap sum_list].
  rewrite length_app, IH, length_packet_floats. cbn. lia.
Qed.

(** A good batch is handed to the resampler whole. *)
Lemma endpoint_read_batch s ps :
  (0 < ep_channels s)%nat -> good_batch ps ->
  exists d sl, endpoint_read true (EpBuffer <$> ps) s =
    '(rs, out) ← process (ep_resampler s) (downmix_to_mono (batch_floats s ps) (ep_channels s));
    Some ([], s <| ep_resampler := rs |>,
          Ok (Some {| cb_samples := f32_to_i16 out; cb_discontinuity := d; cb_silent := sl |})).
Proof.
  intros Hc [Hne Hp]. unfold endpoint_read. cbn [negb].
  destruct (ep_drain_all (ep_channels s) (ep_float_format s) ps [] false false Hp) as (d & sl & ->).
  exists d, sl. cbn [app]. fold (batch_floats s ps). rewrite bool_decide_eq_false_2; [done|].
  rewrite length_batch. destruct ps as [|p ps]; [done|]. apply Forall_cons in Hp as [[Hf _] _]. cbn. nia.
Qed.

Lemma endpoint_reads_process s batches rs out :
  (0 < ep_channels s)%nat -> Forall good_batch batches ->
  process_all (ep_resampler s) ((fun ps => downmix_to_mono (batch_floats s ps) (ep_channels s)) <$> batches)
    = Some (rs, out) ->
  endpoint_reads s batches = Some (s <| ep_resampler := rs |>, f32_to_i16 out).
Proof.
  intros Hc Hb. revert s Hc out. induction Hb as [|ps batches Hg Hb IH]; intros s Hc out.
  { cbn. intros [= <- <-]. by destruct s. }
  cbn [fmap list_fmap process_all endpoint_reads].
  destruct (endpoint_read_batch s ps Hc Hg) as (d & sl & ->).
  destruct (process _ _) as [[r1 o1]|]; [|done]. cbn [mbind option_bind].
  destruct (process_all r1 _) as [[r2 o2]|] eqn:E; [|done]. cbn [mbind option_bind]. intros [= <- <-].
  pose (s1 := s <| ep_resampler := r1 |>). fold s1. rewrite (IH s1 Hc o2 E). cbn [mbind option_bind from_option cb_samples].
  unfold f32_to_i16. by rewrite fmap_app.
Qed.

Lemma downmix_batches s batches :
  (0 < ep_channels s)%nat ->
  concat ((fun ps => downmix_to_mono (batch_floats s ps) (ep_channels s)) <$> batches) =
  downmix_to_mono (batches ≫= batch_floats s) (ep_channels s).
Proof.
  intros Hc. induction batches as [|ps batches IH]; cbn [fmap list_fmap concat mbind list_bind].
  - unfold downmix_to_mono. by destruct (Nat.leb_spec (ep_channels s) 1).
  - rewrite IH, (downmix_app _ (sum_list (ek_frames <$> ps))); [done|done|]. apply length_batch.
Qed.

(** C20: What tier B hands over is the device's signal converted as a whole, over reads that
    go well: for a device whose rate is two to sixteen times 16 kHz, a whole number of
    times (44.1 kHz is not), and any sequence of reads that are signalled, find at least
    one packet with frames in it and meet no error, however WASAPI cuts the signal into
    packets and the packets into reads, the 16-bit samples handed out are those of
    downmixing and filtering everything the device delivered at once. Reads that fail,
    which drop what they had drained, are not covered. *)
Theorem endpoint_reads_are_the_signal k s batches :
  2 <= k <= 16 -> ep_resampler s = Resampler_new (k * SAMPLE_RATE) SAMPLE_RATE -> (0 < ep_channels s)%nat ->
  Forall good_batch batches -> len (batches ≫= batch_floats s) < 2 ^ 50 ->
  exists s', endpoint_reads s batches =
    Some (s', f32_to_i16 (resampled (cutoff (ep_resampler s)) k
                            (downmix_to_mono (batches ≫= batch_floats s) (ep_channels s)))) /\
    ep_channels s' = ep_channels s /\ ep_float_format s' = ep_float_format s.
Proof.
  intros Hk Hr Hc Hb Hl.
  set (inputs := (fun ps => downmix_to_mono (batch_floats s ps) (ep_channels s)) <$> batches).
  assert (concat inputs = downmix_to_mono (batches ≫= batch_floats s) (ep_channels s)) as Hin
    by by apply downmix_batches.
  destruct (process_all_whole k Hk SAMPLE_RATE inputs) as [rs E].
  - done.
  - unfold SAMPLE_RATE. lia.
  - rewrite Hin, downmix_length by done. pose proof (Nat.Div0.div_le_upper_bound
      (length (batches ≫= batch_floats s)) (ep_channels s) (length (batches ≫= batch_floats s))). nia.
  - rewrite <- Hr, Hin in E. exists (s <| ep_resampler := rs |>). split; [|done].
    by apply endpoint_reads_process.
Qed.
End props.

(** ** Samples are samples all the way

    What the adapter needs of an engine for its samples to be 16-bit. *)
Class AudioEngineLaws (G St : Type) `{!AudioEngine G St} :=
  engine_i16 (st st' : St) b : stream_read st = (st', Ok (Some b)) -> Forall is_i16 (cb_samples b).

Section typed.
Context {G St : Type} `{!AudioEngine G St} `{!AudioEngineLaws G St}.

Inductive LiveOp :=
| LiveOpen (id : string) (dir : AudioDirection)
| LiveRead (h : Z) (want : nat)
| LiveClose (h : Z).

(** The next state and the samples handed out. *)
Definition live_op (s : WindowsCaptureSource G St) (op : LiveOp)
    : WindowsCaptureSource G St * list Z :=
  match op with
  | LiveOpen id dir => ((live_open s id dir).1, [])
  | LiveRead h want =>
      let '(s, r) := live_read_frames s h want in (s, match r with Ok out => out | Err _ => [] end)
  | LiveClose h => ((live_close s h).1, [])
  end.

Fixpoint live_run (s : WindowsCaptureSource G St) (ops : list LiveOp)
    : WindowsCaptureSource G St * list Z :=
  match ops with
  | [] => (s, [])
  | op :: l => let '(s, a) := live_op s op in let '(s, b) := live_run s l in (s, a ++ b)
  end.

Definition live_typed (s : WindowsCaptureSource G St) : Prop :=
  forall h o, lv_streams s !! h = Some o -> Forall is_i16 (os_buffered o).

Lemma expand_i16 b : Forall is_i16 (cb_samples b) -> Forall is_i16 (expand b).
Proof.
  intros H. unfold expand. apply Forall_app. split; [|done]. destruct (cb_discontinuity b); [|constructor].
  induction FRAME_SAMPLES as [|n IH]; cbn; constructor; [unfold is_i16; lia|done].
Qed.

Lemma reads_i16 st bs st' : reads (St:=St) st bs st' -> Forall is_i16 (bs ≫= expand).
Proof.
  induction 1 as [|st st1 st2 b bs Hr _ IH|]; [constructor| |constructor]. cbn [mbind list_bind].
  apply Forall_app. split; [|done]. eapply expand_i16, engine_i16, Hr.
Qed.

Lemma live_streams_insert s h o id dir :
  lv_streams (live_open s id dir).1 !! h = Some o -> lv_streams s !! h = Some o \/ os_buffered o = [].
Proof.
  unfold live_open, open_stream, open_endpoint.
  repeat case_match; simplify_eq/=; try (by left); intros Hh; destruct (decide (h = lv_next_handle s)) as [->|];
    try (rewrite lookup_insert_eq in Hh; injection Hh as <-; by right); rewrite lookup_insert_ne in Hh by done; by left.
Qed.

Lemma live_op_typed s op s' out :
  live_typed s -> live_op s op = (s', out) -> live_typed s' /\ Forall is_i16 out.
Proof.
  intros Hs. destruct op as [id dir|h want|h]; cbn [live_op].
  - intros [= <- <-]. split; [|constructor]. intros h o [Hh| ->]%live_streams_insert; [by eapply Hs|constructor].
  - unfold live_read_frames. destruct (lv_streams s !! h) as [o|] eqn:Ho; [|by intros [= <- <-]].
    destruct (top_up want want o) as [o1 x] eqn:Ht. apply top_up_spec in Ht as (bs & Hr & Hb & _); [|lia].
    assert (Forall is_i16 (os_buffered o1)) as H1.
    { rewrite Hb. apply Forall_app. split; [by eapply Hs|by eapply reads_i16]. }
    destruct x as [[]|e]; intros [= <- <-]; (split; [|auto using Forall_take]);
      intros h' o' Hh; destruct (decide (h' = h)) as [->|]; cbn in Hh;
      [rewrite lookup_insert_eq in Hh; injection Hh as <-|rewrite lookup_insert_ne in Hh by done; by eapply Hs|
       rewrite lookup_insert_eq in Hh; by injection Hh as <-|rewrite lookup_insert_ne in Hh by done; by eapply Hs].
    cbn. by apply Forall_drop.
  - intros [= <- <-]. split; [|constructor]. intros h' o'. cbn. intros [_ Hh]%lookup_delete_Some. by eapply Hs.
Qed.

(** Every sample the live source hands out is a 16-bit sample, after any sequence of
    opens, reads and closes, for any engine whose streams deliver such samples. *)
Theorem live_samples_typed s ops :
  live_typed s -> live_typed (live_run s ops).1 /\ Forall is_i16 (live_run s ops).2.
Proof.
  revert s. induction ops as [|op ops IH]; intros s Hs; [by split|]. cbn [live_run].
  destruct (live_op s op) as [s1 a] eqn:E1. apply live_op_typed in E1 as [H1 Ha]; [|done].
  destruct (IH s1 H1) as [H2 Hb]. destruct (live_run s1 ops) as [s2 b]. split; [done|]. by apply Forall_app.
Qed.
End typed.

(** Endpoint streams are such an engine: a stream with the answers its coming reads meet;
    [None] once the thread has panicked, after which nothing is delivered. *)
Definition EpScript : Type := option (EndpointLoopbackStream * list (bool * list EpAnswer)).
Definition ep_script_read {libm : Libm} (st : EpScript)
    : EpScript * result (option CapturedBuffer) CaptureErr :=
  match st with
  | Some (s, (signalled, answers) :: l) =>
      match endpoint_read signalled answers s with
      | Some (_, s', r) => (Some (s', l), r)
      | None => (None, Ok None)
      end
  | Some (s, []) => (st, Ok None)
  | None => (None, Ok None)
  end.

Definition ep_engine (libm : Libm) : AudioEngine unit EpScript := {|
  process_open g _ := (g, Err (SoftphoneNotFound "none"));
  endpoint_open g _ _ := (g, Ok None);
  stream_start st := (st, Ok tt);
  stream_read := ep_script_read;
  enumerate_endpoints _ := Ok [];
|}.

Lemma ep_engine_laws libm : @AudioEngineLaws unit EpScript (ep_engine libm).
Proof.
  intros [[s [|[sig answers] l]]|] st' b; cbn; [done| |done].
  destruct (endpoint_read sig answers s) as [[[l' s'] r]|] eqn:E; [|done]. intros [= <- ->].
  by eapply endpoint_read_i16.
Qed.

(** ** Concrete runs *)

Definition demo_endpoint (channels : nat) (float : bool) : EndpointLoopbackStream :=
  {| ep_resampler := Resampler_new 48000 16000; ep_channels := channels; ep_float_format := float;
     ep_started := true |}.
(** One frame of two channels: 1.0 and NaN. *)
Definition demo_packet : EpPacket :=
  {| ek_data := to_le_bytes 4 0x3f800000 ++ to_le_bytes 4 0x7fc00000; ek_frames := 1; ek_flags := 0;
     ek_release := Ok tt |}.

Example f32_bits :
  f32_from_bits 0x3f800000 = F32.of_Z 1 /\ f32_from_bits 0xc2f00000 = F32.of_Z (-120) /\
  f32_from_bits 0x7fc00000 = S754_nan /\ f32_from_bits 0x80000000 = S754_zero true.
Proof. vm_compute. by repeat split. Qed.

Lemma endpoint_reads_are_the_signal_witness :
  good_batch [demo_packet; demo_packet] /\
  exists s', endpoint_reads (libm:=flat_libm) (demo_endpoint 2 true) [[demo_packet; demo_packet]; [demo_packet]] =
    Some (s', f32_to_i16 (resampled (libm:=flat_libm) (cutoff (Resampler_new 48000 16000)) 3
      (downmix_to_mono ([[demo_packet; demo_packet]; [demo_packet]] ≫= batch_floats (demo_endpoint 2 true)) 2))) /\
    ep_channels s' = 2%nat /\ ep_float_format s' = true.
Proof.
  assert (good_batch [demo_packet; demo_packet]) as Hg.
  { split; [discriminate|]. repeat constructor. }
  split; [exact Hg|].
  apply (endpoint_reads_are_the_signal (libm:=flat_libm) 3 (demo_endpoint 2 true));
    [lia|reflexivity|cbn; lia| |vm_compute; reflexivity].
  constructor; [exact Hg|]. constructor; [|constructor]. split; [discriminate|]. repeat constructor.
Defined.

(** A source with one open stream, read twice. *)
Lemma live_samples_typed_witness :
  let s := {| lv_engine := tt; lv_tier := TierB; softphone_pid := None;
              lv_streams := {[ 1 := {| os_stream := Some (demo_endpoint 2 true,
                [(true, [EpBuffer demo_packet; EpBuffer demo_packet]); (true, [EpInvalidated])]);
                os_buffered := [7; 8] |} ]}; lv_next_handle := 2; lv_downgraded := false; lv_subscribers := 0 |} in
  @live_typed unit EpScript (@live_run unit EpScript (ep_engine flat_libm) s [LiveRead 1 2; LiveRead 1 4]).1 /\
  Forall is_i16 (@live_run unit EpScript (ep_engine flat_libm) s [LiveRead 1 2; LiveRead 1 4]).2.
Proof.
  intros s. apply (@live_samples_typed unit EpScript (ep_engine flat_libm) (ep_engine_laws flat_libm)).
  intros h o. cbn. intros [<- <-]%lookup_singleton_Some. repeat constructor; unfold is_i16; cbn; lia.
Defined.
