(* ===== verification/Vad.v ===== *)
(** Voice activity (sentinel-capture/src/vad.rs): frame levels and zero crossings in
    IEEE 754 arithmetic, the windowed noise floor, onset and hangover, and the proof
    that the detector's state is what its history of frames says. *)

From S2P Require Import Prelude Text Protocol Config State Capture Encode Uplink Pipeline Float Resample.

(** [f32] literals with a fraction. *)
Definition lit32 (n d : Z) : f32 := F32.div (F32.of_Z n) (F32.of_Z d).

Record VadParams := {
  speech_margin_db : f32;
  absolute_floor_db : f32;
  onset_frames : Z;
  hangover_frames : Z;
  max_zcr : f32;
  floor_window_frames : nat;
}.
Definition VadParams_default : VadParams :=
  {| speech_margin_db := F32.of_Z 9; absolute_floor_db := F32.of_Z (-55); onset_frames := 2;
     hangover_frames := 25; max_zcr := lit32 45 100; floor_window_frames := 150 |}.

Record Vad := {
  vd_params : VadParams;
  levels : list f32;              (** oldest first *)
  speech_run : Z;
  silence_run : Z;
  voiced : bool;
}.
#[export] Instance Vad_rebuild : Rebuild Vad := fun v =>
  {| vd_params := vd_params v; levels := levels v; speech_run := speech_run v; silence_run := silence_run v;
     voiced := voiced v |}.

Definition Vad_new (p : VadParams) : Vad :=
  {| vd_params := p; levels := []; speech_run := 0; silence_run := 0; voiced := false |}.
Definition Vad_default : Vad := Vad_new VadParams_default.

Definition is_voiced (v : Vad) : bool := voiced v.

Definition noise_floor_db (v : Vad) : f32 :=
  fmax (fold_left fmin (levels v) (S754_infinity false)) (absolute_floor_db (vd_params v)).

(** [windows(2)] whose signs differ. *)
Fixpoint crossings (frame : list Z) : nat :=
  match frame with
  | a :: ((b :: _) as rest) => ((if Bool.eqb (0 <=? a)%Z (0 <=? b)%Z then 0 else 1) + crossings rest)%nat
  | _ => 0%nat
  end.

Definition zero_crossing_rate (frame : list Z) : f32 :=
  if (length frame <? 2)%nat then S754_zero false
  else F32.div (F32.of_Z (Z.of_nat (crossings frame))) (F32.of_Z (Z.of_nat (length frame - 1))).

Definition f64_sum (l : list f64) : f64 := fold_left F64.add l (S754_zero true).

Section libm.
Context {libm : Libm}.

Definition frame_db (frame : list Z) : f32 :=
  if bool_decide (frame = []) then F32.of_Z (-120)
  else
    let sum := f64_sum ((fun s => let v := F64.div (F64.of_Z s) (F64.of_Z I16_MAX) in F64.mul v v) <$> frame) in
    let rms := F64.sqrt (F64.div sum (F64.of_Z (len frame))) in
    if fle rms (lit 1 1000000000) then F32.of_Z (-120)
    else F32.mul (F32.of_Z 20) (F32.of_f64 (f64_log10 rms)).

(** The window after the frame's level was pushed. *)
Definition push_level (v : Vad) (db : f32) : Vad :=
  let v := if (length (levels v) =? floor_window_frames (vd_params v))%nat
           then v <| levels := tl (levels v) |> else v in
  v <| levels := levels v ++ [db] |>.

Definition push_frame (v : Vad) (frame : list Z) : Vad * bool :=
  let db := frame_db frame in
  let zcr := zero_crossing_rate frame in
  let v := push_level v db in
  let p := vd_params v in
  let noise := noise_floor_db v in
  let loud_enough := flt (absolute_floor_db p) db && flt (F32.add noise (speech_margin_db p)) db in
  let speechlike := loud_enough && fle zcr (max_zcr p) in
  let v :=
    if speechlike then
      let v := v <| speech_run := wrap32 (speech_run v + 1) |> <| silence_run := 0 |> in
      if onset_frames p <=? speech_run v then v <| voiced := true |> else v
    else
      let v := v <| silence_run := wrap32 (silence_run v + 1) |> <| speech_run := 0 |> in
      if hangover_frames p <=? silence_run v then v <| voiced := false |> else v in
  (v, voiced v).

(** The loop over [samples.chunks(FRAME_SAMPLES)], which stops at a short chunk. *)
Fixpoint voiced_ms_loop (fuel : nat) (v : Vad) (samples : list Z) (ms : Z) : Vad * Z :=
  match fuel with
  | O => (v, ms)
  | S fuel =>
      if (length samples <? FRAME_SAMPLES)%nat then (v, ms)
      else
        let '(v, b) := push_frame v (take FRAME_SAMPLES samples) in
        voiced_ms_loop fuel v (drop FRAME_SAMPLES samples) (if b then ms + FRAME_MS else ms)
  end.
Definition voiced_ms (v : Vad) (samples : list Z) : Vad * Z :=
  voiced_ms_loop (length samples) v samples 0.

Definition reset (v : Vad) : Vad := Vad_new (vd_params v).

(** The detector the capture pipeline is built with. *)
#[export] Instance vad_ops : VadOps Vad := {|
  vad_default := Vad_default;
  vad_push_frame v frame := (push_frame v frame).1;
  vad_is_voiced := is_voiced;
|}.
End libm.

(** ** The specification

    A frame is speech when its level stands above the absolute floor and above the
    least of the last [floor_window_frames] levels by the margin, and it crosses zero
    rarely enough. *)
Section spec.
Context {libm : Libm}.

(** The last [n] of a list. *)
Definition last_n {A} (n : nat) (l : list A) : list A := drop (length l - n) l.

Definition speech_frame (p : VadParams) (past : list (list Z)) (frame : list Z) : bool :=
  let recent := last_n (floor_window_frames p) (frame_db <$> (past ++ [frame])) in
  let noise := fmax (fold_left fmin recent (S754_infinity false)) (absolute_floor_db p) in
  flt (absolute_floor_db p) (frame_db frame) && flt (F32.add noise (speech_margin_db p)) (frame_db frame) &&
  fle (zero_crossing_rate frame) (max_zcr p).

Definition speech_flags (p : VadParams) (frames : list (list Z)) : list bool :=
  imap (fun i f => speech_frame p (take i frames) f) frames.

(** Voiced: some onset of speech frames has not been followed by a whole hangover of
    other frames. *)
Definition voice_present (onset hangover : nat) (flags : list bool) : Prop :=
  exists l1 l2, flags = l1 ++ l2 /\ replicate onset true `suffix_of` l1 /\
    forall a b, l2 = a ++ b -> ~ (replicate hangover false `suffix_of` (l1 ++ a)).

Fixpoint push_all (v : Vad) (frames : list (list Z)) : Vad :=
  match frames with [] => v | f :: l => push_all (push_frame v f).1 l end.

(** ** The detector against it *)

(** How many of the last entries are [b]. *)
Fixpoint lead (b : bool) (l : list bool) : nat :=
  match l with x :: l => if Bool.eqb x b then S (lead b l) else 0 | [] => 0%nat end.
Definition trail (b : bool) (l : list bool) : nat := lead b (reverse l).

Lemma trail_snoc b l x : trail b (l ++ [x]) = if Bool.eqb x b then S (trail b l) else 0%nat.
Proof. unfold trail. rewrite reverse_snoc. done. Qed.

Lemma suffix_trail b n l : replicate n b `suffix_of` l <-> (n <= trail b l)%nat.
Proof.
  revert n. induction l as [|x l IH] using rev_ind; intros n.
  - unfold trail. cbn. split; [intros Hs%suffix_nil_inv; destruct n; [done|done]|].
    intros ?. replace n with 0%nat by lia. apply suffix_nil.
  - rewrite trail_snoc. destruct n as [|n]; [split; [lia|intros; apply suffix_nil]|].
    rewrite replicate_S_end. split.
    + intros [k Hk]. rewrite app_assoc in Hk. apply app_inj_tail in Hk as [Hk ->].
      rewrite eqb_reflx. apply le_n_S, IH. by exists k.
    + destruct (Bool.eqb x b) eqn:E; [|lia]. apply eqb_prop in E as ->. intros Hn.
      destruct (proj2 (IH n)) as [k ->]; [lia|]. exists k. by rewrite app_assoc.
Qed.

Lemma not_suffix_other b n l : (0 < n)%nat -> ~ (replicate n (negb b) `suffix_of` (l ++ [b])).
Proof. intros Hn. rewrite suffix_trail, trail_snoc. destruct b; cbn; lia. Qed.

(** One more flag. *)
Lemma voice_present_snoc onset hangover l x :
  (0 < onset)%nat -> (0 < hangover)%nat ->
  voice_present onset hangover (l ++ [x]) <->
  if x then (onset <= trail true (l ++ [true]))%nat \/ voice_present onset hangover l
  else (trail false (l ++ [false]) < hangover)%nat /\ voice_present onset hangover l.
Proof.
  intros Ho Hh. split.
  - intros (l1 & l2 & E & Hs & Hn). destruct l2 as [|y l2 _] using rev_ind.
    + rewrite app_nil_r in E. subst l1. rewrite suffix_trail in Hs. destruct x; [by left|].
      rewrite trail_snoc in Hs. cbn in Hs. lia.
    + rewrite app_assoc in E. apply app_inj_tail in E as [-> <-].
      assert (voice_present onset hangover (l1 ++ l2)) as Hv.
      { exists l1, l2. split_and!; [done|done|]. intros a b ->. apply (Hn a (b ++ [x])). by rewrite app_assoc. }
      destruct x; [by right|]. split; [|done].
      specialize (Hn (l2 ++ [false]) [] ltac:(by rewrite app_nil_r)).
      rewrite app_assoc, suffix_trail in Hn. lia.
  - assert (voice_present onset hangover l -> ~ (replicate hangover false `suffix_of` (l ++ [x])) ->
      voice_present onset hangover (l ++ [x])) as Hext.
    { intros (l1 & l2 & -> & Hs & Hn) Hx. exists l1, (l2 ++ [x]). split_and!; [by rewrite app_assoc|done|].
      intros a b E. destruct b as [|y b _] using rev_ind.
      - rewrite app_nil_r in E. subst a. by rewrite app_assoc.
      - rewrite app_assoc in E. apply app_inj_tail in E as [-> _]. by apply (Hn a b). }
    destruct x.
    + intros [Ht|Hv]; [|apply Hext; [done|by apply (not_suffix_other true)]].
      exists (l ++ [true]), []. rewrite app_nil_r. split_and!; [done|by apply suffix_trail|].
      intros a b E. symmetry in E. apply app_nil in E as [-> ->]. rewrite app_nil_r. by apply (not_suffix_other true).
    + intros [Ht Hv]. apply Hext; [done|]. rewrite suffix_trail. lia.
Qed.

Lemma last_n_snoc {A} n (l : list A) x :
  (0 < n)%nat ->
  last_n n (l ++ [x]) = (if (length (last_n n l) =? n)%nat then tl (last_n n l) else last_n n l) ++ [x].
Proof.
  intros Hn. unfold last_n. rewrite length_app, length_drop. cbn [length].
  destruct (Nat.eqb_spec (length l - (length l - n)) n).
  - assert (forall (m : list A), tl m = drop 1 m) as -> by by intros [].
    rewrite drop_drop, drop_app_le by lia. do 2 f_equal. lia.
  - rewrite drop_app_le by lia. do 2 f_equal. lia.
Qed.

Lemma push_level_window p frames v f :
  (0 < floor_window_frames p)%nat -> vd_params v = p ->
  levels v = last_n (floor_window_frames p) (frame_db <$> frames) ->
  levels (push_level v (frame_db f)) = last_n (floor_window_frames p) (frame_db <$> (frames ++ [f])).
Proof.
  intros Hn Hp Hl. rewrite fmap_app. cbn [fmap list_fmap]. rewrite last_n_snoc, <- Hl by done.
  unfold push_level. rewrite Hp. by destruct (_ =? _)%nat.
Qed.

Lemma push_level_frame v db :
  vd_params (push_level v db) = vd_params v /\ speech_run (push_level v db) = speech_run v /\
  silence_run (push_level v db) = silence_run v /\ voiced (push_level v db) = voiced v.
Proof. unfold push_level. by destruct (_ =? _)%nat. Qed.

Lemma speech_flags_snoc p frames f :
  speech_flags p (frames ++ [f]) = speech_flags p frames ++ [speech_frame p frames f].
Proof.
  unfold speech_flags. rewrite imap_app. f_equal.
  - apply imap_ext. intros i x Hi%lookup_lt_Some. by rewrite take_app_le by lia.
  - cbn. by rewrite Nat.add_0_r, take_app_length.
Qed.

Lemma length_speech_flags p frames : length (speech_flags p frames) = length frames.
Proof. apply length_imap. Qed.

Lemma trail_le b l : (trail b l <= length l)%nat.
Proof.
  induction l as [|x l IH] using rev_ind; [done|]. rewrite trail_snoc, length_app. destruct (Bool.eqb x b); cbn; lia.
Qed.

Context (p : VadParams).
Hypothesis Hwindow : (0 < floor_window_frames p)%nat.
Hypothesis Honset : 0 < onset_frames p.
Hypothesis Hhang : 0 < hangover_frames p.
Abbreviation onset := (Z.to_nat (onset_frames p)).
Abbreviation hang := (Z.to_nat (hangover_frames p)).

Definition vad_inv (frames : list (list Z)) (v : Vad) : Prop :=
  vd_params v = p /\ levels v = last_n (floor_window_frames p) (frame_db <$> frames) /\
  speech_run v = Z.of_nat (trail true (speech_flags p frames)) /\
  silence_run v = Z.of_nat (trail false (speech_flags p frames)) /\
  (voiced v = true <-> voice_present onset hang (speech_flags p frames)).

Lemma push_frame_inv frames v f :
  len frames < u32_max -> vad_inv frames v -> vad_inv (frames ++ [f]) (push_frame v f).1.
Proof.
  intros Hlen (Hp & Hl & Hs & Hq & Hv). unfold push_frame.
  pose proof (push_level_window p frames v f Hwindow Hp Hl) as Hl'.
  destruct (push_level_frame v (frame_db f)) as (Hp' & Hs' & Hq' & Hv').
  set (w := push_level v (frame_db f)) in *. clearbody w. rewrite Hp in Hp'.
  pose proof (length_speech_flags p frames). pose proof (trail_le true (speech_flags p frames)).
  pose proof (trail_le false (speech_flags p frames)).
  assert (flt (absolute_floor_db (vd_params w)) (frame_db f) &&
          flt (F32.add (noise_floor_db w) (speech_margin_db (vd_params w))) (frame_db f) &&
          fle (zero_crossing_rate f) (max_zcr (vd_params w)) = speech_frame p frames f) as ->.
  { unfold noise_floor_db, speech_frame. by rewrite Hl', Hp'. }
  unfold vad_inv. rewrite speech_flags_snoc, !trail_snoc, voice_present_snoc, !trail_snoc by lia.
  rewrite Hp'. set (T := trail true _) in *. set (F := trail false _) in *.
  assert (forall n : nat, (n <= length frames)%nat -> wrap32 (Z.of_nat n + 1) = Z.of_nat (S n)) as Hwr.
  { intros n Hn. unfold wrap32. rewrite Z.mod_small by (ints; lia). lia. }
  destruct (speech_frame p frames f); cbn [Bool.eqb upd speech_run silence_run].
  - rewrite Hs', Hs, Hwr by lia. destruct (Z.leb_spec (onset_frames p) (Z.of_nat (S T))); cbn; rewrite ?Hp', ?Hl', ?Hv', ?Hv;
      (split_and!; [done..|]); [split; [intros _; left; lia|done]|intuition lia].
  - rewrite Hq', Hq, Hwr by lia. destruct (Z.leb_spec (hangover_frames p) (Z.of_nat (S F))); cbn; rewrite ?Hp', ?Hl', ?Hv', ?Hv;
      (split_and!; [done..|]); [split; [done|intros [? _]; lia]|intuition lia].
Qed.

Lemma push_all_snoc v frames f : push_all v (frames ++ [f]) = (push_frame (push_all v frames) f).1.
Proof. revert v. induction frames as [|g frames IH]; intros v; cbn; [done|]. apply IH. Qed.

Lemma push_all_inv frames : len frames <= u32_max -> vad_inv frames (push_all (Vad_new p) frames).
Proof.
  induction frames as [|f frames IH] using rev_ind; intros Hl.
  - split_and!; try done. split; [done|]. intros (l1 & l2 & E & Hs & _). symmetry in E.
    apply app_nil in E as [-> ->]. rewrite suffix_trail in Hs. cbn in Hs. lia.
  - rewrite push_all_snoc. rewrite length_app in Hl. cbn in Hl. apply push_frame_inv; [lia|]. apply IH. lia.
Qed.

(** C21: After any sequence of frames the detector says voiced exactly when some run of
    [onset_frames] speech frames has not been followed by [hangover_frames] others,
    where a frame is speech by its own level against the least of the last
    [floor_window_frames]: the running state is a faithful summary of the history. *)
Theorem vad_voiced_iff frames :
  len frames <= u32_max ->
  is_voiced (push_all (Vad_new p) frames) = true <-> voice_present onset hang (speech_flags p frames).
Proof. intros Hl. destruct (push_all_inv frames Hl) as (_ & _ & _ & _ & Hv). exact Hv. Qed.
End spec.

(** ** Silence *)

Section silence.
Context {libm : Libm}.

Lemma sum_of_zeros n z : (0 < n)%nat -> f64_sum (replicate n (S754_zero false)) = S754_zero false /\
  fold_left F64.add (replicate n (S754_zero false)) (S754_zero z) = S754_zero false.
Proof.
  intros Hn. assert (forall m, fold_left F64.add (replicate m (S754_zero false)) (S754_zero false) = S754_zero false) as H.
  { induction m as [|m IH]; [done|]. exact IH. }
  destruct n as [|n]; [lia|]. unfold f64_sum. split; [exact (H n)|destruct z; exact (H n)].
Qed.

(** A frame of zeros has the lowest level there is, whatever its length. *)
Lemma frame_db_silence n : Z.of_nat n < 2 ^ 53 -> frame_db (replicate n 0) = F32.of_Z (-120).
Proof.
  intros Hn. unfold frame_db. destruct n as [|n]; [done|]. rewrite bool_decide_eq_false_2 by done.
  rewrite fmap_replicate. change (F64.mul _ _) with (S754_zero false).
  rewrite (proj1 (sum_of_zeros (S n) true ltac:(lia))), length_replicate.
  destruct (Z.of_nat (S n)) as [|m|m] eqn:E; [lia| |lia]. rewrite of_Z_pos by lia. done.
Qed.

Lemma silent_frame_not_speech past n :
  Z.of_nat n < 2 ^ 53 -> speech_frame VadParams_default past (replicate n 0) = false.
Proof. intros Hn. unfold speech_frame. by rewrite frame_db_silence. Qed.

Lemma flags_of_silence frames m n :
  Z.of_nat n < 2 ^ 53 ->
  speech_flags VadParams_default (frames ++ replicate m (replicate n 0)) =
    speech_flags VadParams_default frames ++ replicate m false.
Proof.
  intros Hn. induction m as [|m IH]; [by rewrite !app_nil_r|].
  rewrite !replicate_S_end, !app_assoc, speech_flags_snoc, IH, silent_frame_not_speech; done.
Qed.

Lemma replicate_prefix m (l1 l2 : list bool) :
  replicate m false = l1 ++ l2 -> l1 = replicate (length l1) false.
Proof.
  revert m. induction l1 as [|b l1 IH]; intros m; [done|]. destruct m as [|m]; [done|]. cbn.
  intros [= <- E]. f_equal. by eapply IH.
Qed.

Lemma no_voice_after_hangover onset hang l :
  (0 < onset)%nat -> (0 < hang)%nat -> ~ voice_present onset hang (l ++ replicate hang false).
Proof.
  intros Ho Hh (l1 & l2 & E & Hs & Hn).
  destruct (decide (length l1 <= length l)%nat) as [Hle|Hgt].
  - (* the whole pause lies after the onset *)
    apply (Hn l2 []); [by rewrite app_nil_r|]. rewrite <- E. by eexists.
  - (* the onset would end inside the pause *)
    assert (exists k, l1 = l ++ replicate (S k) false) as [k ->].
    { apply app_eq_inv in E as [(k & -> & _)|(k & -> & E)]; [rewrite length_app in Hgt; lia|].
      destruct k as [|b k]; [rewrite app_nil_r in Hgt; lia|]. exists (length k). f_equal.
      by apply replicate_prefix in E. }
    rewrite suffix_trail, replicate_S_end, app_assoc, trail_snoc in Hs. cbn in Hs. lia.
Qed.

(** A pause is a pause: after 25 frames of digital silence (half a second) the detector
    is unvoiced, whatever came before, and silence alone never makes it voiced. *)
Theorem silence_is_unvoiced frames m n :
  25 <= Z.of_nat m \/ frames = [] -> Z.of_nat n < 2 ^ 53 -> len frames + Z.of_nat m <= u32_max ->
  is_voiced (push_all Vad_default (frames ++ replicate m (replicate n 0))) = false.
Proof.
  intros Hm Hn Hl. apply not_true_is_false.
  intros (l1 & l2 & E & Hs & Hv)%(vad_voiced_iff VadParams_default ltac:(cbn; lia) eq_refl eq_refl);
    [|rewrite length_app, length_replicate; lia].
  rewrite flags_of_silence in E by done. destruct Hm as [Hm| ->].
  - assert (exists j, m = (j + 25)%nat) as [j ->] by (exists (m - 25)%nat; lia).
    rewrite replicate_add, app_assoc in E.
    apply (no_voice_after_hangover 2 25 (speech_flags VadParams_default frames ++ replicate j false)); [lia|lia|].
    exists l1, l2. done.
  - cbn [app speech_flags imap] in E. destruct m as [|m].
    { symmetry in E. apply app_nil in E as [-> ->]. rewrite suffix_trail in Hs. cbn in Hs. lia. }
    apply replicate_prefix in E. rewrite E in Hs.
    destruct (length l1) as [|k]; [rewrite suffix_trail in Hs; cbn in Hs; lia|].
    rewrite suffix_trail, replicate_S_end, trail_snoc in Hs. cbn in Hs. lia.
Qed.

(** [voiced_ms] counts the whole frames after which the detector was voiced. *)
Lemma voiced_ms_loop_spec fuel v samples ms :
  (length samples <= fuel)%nat ->
  let '(v', ms') := voiced_ms_loop fuel v samples ms in
  v' = push_all v (chunks_exact fuel FRAME_SAMPLES samples) /\
  ms <= ms' <= ms + FRAME_MS * (len samples / Z.of_nat FRAME_SAMPLES).
Proof.
  revert v samples ms. induction fuel as [|fuel IH]; intros v samples ms Hl; cbn [voiced_ms_loop chunks_exact].
  { destruct samples; [|cbn in Hl; lia]. split; [done|]. cbn [length]. rewrite Z.div_0_l by (unfold FRAME_SAMPLES; lia). lia. }
  destruct (Nat.ltb_spec (length samples) FRAME_SAMPLES).
  { split; [done|]. rewrite Z.div_small by lia. lia. }
  destruct (push_frame v (take FRAME_SAMPLES samples)) as [v1 b] eqn:E.
  specialize (IH v1 (drop FRAME_SAMPLES samples) (if b then ms + FRAME_MS else ms)).
  destruct (voiced_ms_loop fuel v1 _ _) as [v2 ms2]. destruct IH as [-> Hms].
  { rewrite length_drop. unfold FRAME_SAMPLES in *. lia. }
  split; [cbn [push_all]; by rewrite E|]. rewrite length_drop in Hms.
  replace (len samples / Z.of_nat FRAME_SAMPLES) with (Z.of_nat (length samples - FRAME_SAMPLES) / Z.of_nat FRAME_SAMPLES + 1).
  2: { replace (len samples) with (Z.of_nat (length samples - FRAME_SAMPLES) + 1 * Z.of_nat FRAME_SAMPLES) by lia.
       rewrite Z.div_add by (unfold FRAME_SAMPLES; lia). lia. }
  unfold FRAME_MS in *. destruct b; lia.
Qed.
End silence.

(** ** Concrete runs *)

(** A logarithm good enough to tell loud from quiet: full scale is 0 dB, anything else
    -60. *)
Definition step_libm : Libm :=
  {| f64_sin x := x; f64_cos _ := F64.of_Z 1; f64_log10 x := if flt x (lit 1 2) then F64.of_Z (-3) else F64.of_Z 0 |}.
Definition loud : list Z := replicate 320 30000.
Definition quiet : list Z := replicate 320 10.

(** Quiet, two loud frames, a short gap: voiced. *)
Lemma vad_voiced_iff_witness :
  let frames := [quiet; quiet; loud; loud; quiet] in
  is_voiced (push_all (libm:=step_libm) Vad_default frames) = true /\
  voice_present 2 25 (speech_flags (libm:=step_libm) VadParams_default frames).
Proof.
  intros frames.
  assert (is_voiced (push_all (libm:=step_libm) Vad_default frames) = true) as H by (vm_compute; reflexivity).
  split; [exact H|].
  apply (vad_voiced_iff (libm:=step_libm) VadParams_default ltac:(cbn; lia) eq_refl eq_refl frames); [|exact H].
  vm_compute. discriminate.
Defined.

Lemma silence_is_unvoiced_witness :
  is_voiced (push_all (libm:=step_libm) Vad_default ([quiet; loud; loud] ++ replicate 25 (replicate 320 0))) = false.
Proof.
  apply (silence_is_unvoiced (libm:=step_libm) [quiet; loud; loud] 25 320); [left; lia|lia|vm_compute; discriminate].
Defined.
