(* ===== verification/Replay.v ===== *)
(** The replay source (sentinel-capture/src/replay.rs): fixture recordings played with
    the timing, glitches and device losses of a real device.

    The clock is a field of the state, in nanoseconds; a channel is the list of what was
    sent on it; the WAV decoder is a parameter. *)

From S2P Require Import Prelude Text Protocol Config Capture Float.

Inductive DeviceEvent :=
| DevAdded (d : AudioDevice)
| DevRemoved (id : string)
| DevStateChanged (id : string) (active : bool)
| DevDefaultChanged (dir : AudioDirection) (id : string).

Record Stream := {
  st_samples : list Z;
  st_pos : nat;
  st_discontinuity : bool;
  st_started : Z;
  st_glitch_at : list nat;
  st_direction : AudioDirection;
}.
#[export] Instance Stream_rebuild : Rebuild Stream := fun s =>
  {| st_samples := st_samples s; st_pos := st_pos s; st_discontinuity := st_discontinuity s;
     st_started := st_started s; st_glitch_at := st_glitch_at s; st_direction := st_direction s |}.

Record ReplayDevice := { rd_device : AudioDevice; rd_samples : list Z }.
#[export] Instance ReplayDevice_rebuild : Rebuild ReplayDevice := fun d =>
  {| rd_device := rd_device d; rd_samples := rd_samples d |}.
#[export] Instance AudioDevice_rebuild : Rebuild AudioDevice := fun d =>
  {| ad_id := ad_id d; ad_container_id := ad_container_id d; ad_friendly_name := ad_friendly_name d;
     ad_direction := ad_direction d; ad_is_default := ad_is_default d; ad_active := ad_active d |}.

Record WavReplaySource := {
  rp_devices : list ReplayDevice;
  rp_streams : gmap Z Stream;
  rp_next_handle : Z;
  rp_subscribers : list (list DeviceEvent);
  rp_realtime : bool;
  rp_glitch_every : option nat;
  rp_invalidated : bool;
  rp_now : Z;
}.
#[export] Instance WavReplaySource_rebuild : Rebuild WavReplaySource := fun s =>
  {| rp_devices := rp_devices s; rp_streams := rp_streams s; rp_next_handle := rp_next_handle s;
     rp_subscribers := rp_subscribers s; rp_realtime := rp_realtime s; rp_glitch_every := rp_glitch_every s;
     rp_invalidated := rp_invalidated s; rp_now := rp_now s |}.

Definition WavReplaySource_new (now : Z) : WavReplaySource :=
  {| rp_devices := []; rp_streams := ∅; rp_next_handle := 1; rp_subscribers := []; rp_realtime := true;
     rp_glitch_every := None; rp_invalidated := false; rp_now := now |}.

Definition without_realtime_pacing (s : WavReplaySource) : WavReplaySource := s <| rp_realtime := false |>.
Definition with_glitch_every (n : nat) (s : WavReplaySource) : WavReplaySource := s <| rp_glitch_every := Some n |>.

(** What the WAV reader found: the format, and the samples or the first bad one. *)
Record Wav := { wav_channels : Z; wav_rate : Z; wav_bits : Z; wav_samples : result (list Z) string }.

Definition read_wav_16k_mono (path : string) (opened : result Wav string) : result (list Z) CaptureErr :=
  let? w := map_err (fun e => Platform (path +:+ ": " +:+ e)) opened in
  if negb (wav_channels w =? 1) || negb (wav_rate w =? SAMPLE_RATE) || negb (wav_bits w =? 16) then
    Err (Platform (path +:+ ": fixtures must be 16 kHz mono 16-bit, got " +:+ fmt_u (wav_channels w) +:+ " ch / "
                     +:+ fmt_u (wav_rate w) +:+ " Hz / " +:+ fmt_u (wav_bits w) +:+ " bit"))
  else map_err Platform (wav_samples w).

Definition add_samples (id container name : string) (dir : AudioDirection) (samples : list Z)
    (s : WavReplaySource) : WavReplaySource :=
  s <| rp_devices := rp_devices s ++
    [{| rd_device := {| ad_id := id; ad_container_id := Some container; ad_friendly_name := name;
                        ad_direction := dir; ad_is_default := false; ad_active := true |};
        rd_samples := samples |}] |>.

Definition add_wav (id container name : string) (dir : AudioDirection) (path : string) (opened : result Wav string)
    (s : WavReplaySource) : WavReplaySource * result unit CaptureErr :=
  match read_wav_16k_mono path opened with
  | Ok samples => (add_samples id container name dir samples s, Ok tt)
  | Err e => (s, Err e)
  end.

Definition broadcast (ev : DeviceEvent) (s : WavReplaySource) : WavReplaySource :=
  s <| rp_subscribers := (fun q => q ++ [ev]) <$> rp_subscribers s |>.

(** The first device with that id, if any, updated. *)
Fixpoint set_active (id : string) (active : bool) (l : list ReplayDevice) : list ReplayDevice * option AudioDevice :=
  match l with
  | [] => ([], None)
  | d :: l =>
      if bool_decide (ad_id (rd_device d) = id) then
        let dev := (rd_device d) <| ad_active := active |> in (d <| rd_device := dev |> :: l, Some dev)
      else let '(l, r) := set_active id active l in (d :: l, r)
  end.

Definition simulate_device_loss (id : string) (s : WavReplaySource) : WavReplaySource :=
  let s := s <| rp_invalidated := true |> <| rp_devices := (set_active id false (rp_devices s)).1 |> in
  broadcast (DevRemoved id) (broadcast (DevStateChanged id false) s).

Definition simulate_device_restore (id : string) (s : WavReplaySource) : WavReplaySource :=
  let '(l, r) := set_active id true (rp_devices s) in
  let s := s <| rp_invalidated := false |> <| rp_devices := l |> in
  match r with Some dev => broadcast (DevAdded dev) s | None => s end.

Definition remaining (s : WavReplaySource) (h : Z) : nat :=
  match rp_streams s !! h with Some st => length (st_samples st) - st_pos st | None => 0%nat end.

(** ** The [CaptureSource] operations *)

Definition replay_enumerate (s : WavReplaySource) : result (list AudioDevice) CaptureErr :=
  Ok (rd_device <$> rp_devices s).

(** [(n..len).step_by(n)] *)
Definition multiples (n len : nat) : list nat :=
  base.filter (fun i => (i < len)%nat) ((fun j => n * S j)%nat <$> seq 0 len).

Definition replay_open (s : WavReplaySource) (device : string) (dir : AudioDirection)
    : WavReplaySource * result Z CaptureErr :=
  match List.find (fun d => bool_decide (ad_id (rd_device d) = device) &&
                            bool_decide (ad_direction (rd_device d) = dir)) (rp_devices s) with
  | None => (s, Err (DeviceNotFound device))
  | Some d =>
      if negb (ad_active (rd_device d)) then (s, Err DeviceInvalidated)
      else
        let glitch_at := match rp_glitch_every s with
          | Some (S n) => multiples (S n) (length (rd_samples d)) | _ => [] end in
        let h := rp_next_handle s in
        (s <| rp_next_handle := h + 1 |>
           <| rp_streams := <[h := {| st_samples := rd_samples d; st_pos := 0; st_discontinuity := false;
                st_started := rp_now s; st_glitch_at := glitch_at; st_direction := dir |}]> (rp_streams s) |>, Ok h)
  end.

(** [elapsed.as_secs_f64() * SAMPLE_RATE as f64], as a [usize]. *)
Definition available (elapsed_ns : Z) : Z :=
  let secs := F64.add (F64.of_Z (elapsed_ns / 1000000000))
                (F64.div (F64.of_Z (elapsed_ns mod 1000000000)) (F64.of_Z 1000000000)) in
  as_usize (F64.mul secs (F64.of_Z SAMPLE_RATE)).

(** How much a read of [size] samples may take. *)
Definition read_want (s : WavReplaySource) (st : Stream) (size : nat) : nat :=
  let want := (size - size mod FRAME_SAMPLES)%nat in
  if rp_realtime s then
    let ready := (Z.to_nat (available (rp_now s - st_started st)) - st_pos st)%nat in
    Nat.min want (ready - ready mod FRAME_SAMPLES)
  else want.

Definition replay_read_frames (s : WavReplaySource) (h : Z) (size : nat)
    : WavReplaySource * result (list Z) CaptureErr :=
  if rp_invalidated s then (s, Err DeviceInvalidated)
  else
    match rp_streams s !! h with
    | None => (s, Err (BadHandle h))
    | Some st =>
        let want := read_want s st size in
        if rp_realtime s && (want =? 0)%nat then (s, Ok [])
        else
          let e := Nat.min (st_pos st + want) (length (st_samples st)) in
          let n := (e - st_pos st)%nat in
          if (n =? 0)%nat then (s, Ok [])
          else
            let dropped := existsb (fun g => (st_pos st <? g)%nat && (g <=? e)%nat) (st_glitch_at st) in
            let out := slice (st_pos st) e (st_samples st) in
            let st := (if dropped then st <| st_discontinuity := true |> else st) <| st_pos := e |> in
            (s <| rp_streams := <[h := st]> (rp_streams s) |>,
             Ok (if dropped then take (n - FRAME_SAMPLES) out else out))
    end.

Definition subscribe_device_changes (s : WavReplaySource) : WavReplaySource * result unit CaptureErr :=
  (s <| rp_subscribers := rp_subscribers s ++ [[]] |>, Ok tt).

Definition take_discontinuity (s : WavReplaySource) (h : Z) : WavReplaySource * result bool CaptureErr :=
  match rp_streams s !! h with
  | None => (s, Err (BadHandle h))
  | Some st => (s <| rp_streams := <[h := st <| st_discontinuity := false |>]> (rp_streams s) |>,
                Ok (st_discontinuity st))
  end.

Definition replay_close (s : WavReplaySource) (h : Z) : WavReplaySource * result unit CaptureErr :=
  match rp_streams s !! h with
  | None => (s, Err (BadHandle h))
  | Some _ => (s <| rp_streams := delete h (rp_streams s) |>, Ok tt)
  end.

#[export] Instance replay_source : CaptureSource WavReplaySource := {|
  src_enumerate := replay_enumerate;
  src_open := replay_open;
  src_read_frames := replay_read_frames;
|}.

(** ** Properties *)

(** Reads of one stream, each at its own time. *)
Fixpoint replay_reads (s : WavReplaySource) (h : Z) (l : list (Z * nat)) : WavReplaySource * list Z :=
  match l with
  | [] => (s, [])
  | (now, size) :: l =>
      let '(s, r) := replay_read_frames (s <| rp_now := now |>) h size in
      let '(s, rest) := replay_reads s h l in
      (s, match r with Ok out => out | Err _ => [] end ++ rest)
  end.

Lemma read_want_ready s st size :
  rp_realtime s = true -> (st_pos st + read_want s st size <=
    Nat.max (st_pos st) (Z.to_nat (available (rp_now s - st_started st))))%nat.
Proof. intros Hr. unfold read_want. rewrite Hr. lia. Qed.

(** One read: where it leaves the stream and what it hands out. *)
Lemma replay_read_spec s h size st :
  rp_invalidated s = false -> rp_streams s !! h = Some st -> (st_pos st <= length (st_samples st))%nat ->
  exists st' out, replay_read_frames s h size = (s <| rp_streams := <[h := st']> (rp_streams s) |>, Ok out) /\
    st_samples st' = st_samples st /\ st_started st' = st_started st /\
    (st_pos st <= st_pos st' <= length (st_samples st))%nat /\
    (rp_realtime s = true ->
       (st_pos st' <= Nat.max (st_pos st) (Z.to_nat (available (rp_now s - st_started st))))%nat) /\
    out `prefix_of` slice (st_pos st) (st_pos st') (st_samples st) /\
    (st_discontinuity st' = false -> st_discontinuity st = false /\
       out = slice (st_pos st) (st_pos st') (st_samples st)).
Proof.
  intros Hi Hs Hp. unfold replay_read_frames. rewrite Hi, Hs.
  assert (exists st' out, (s, Ok []) = (s <| rp_streams := <[h := st']> (rp_streams s) |>, Ok (E:=CaptureErr) out) /\
    st_samples st' = st_samples st /\ st_started st' = st_started st /\
    (st_pos st <= st_pos st' <= length (st_samples st))%nat /\
    (rp_realtime s = true ->
       (st_pos st' <= Nat.max (st_pos st) (Z.to_nat (available (rp_now s - st_started st))))%nat) /\
    out `prefix_of` slice (st_pos st) (st_pos st') (st_samples st) /\
    (st_discontinuity st' = false -> st_discontinuity st = false /\
       out = slice (st_pos st) (st_pos st') (st_samples st))) as Hnone.
  { exists st, []. rewrite insert_id by done. unfold slice. rewrite Nat.sub_diag. cbn.
    split_and!; first [done|lia|by destruct s|apply prefix_nil]. }
  destruct (rp_realtime s && _) eqn:E1; [exact Hnone|].
  set (e := Nat.min _ _). destruct (Nat.eqb_spec (e - st_pos st) 0) as [|Hn]; [exact Hnone|]. clear Hnone.
  pose proof (read_want_ready s st size) as Hw.
  destruct (existsb _ _).
  - eexists _, _. split; [reflexivity|]. cbn.
    split_and!; first [done|lia|intros Hr; specialize (Hw Hr); lia|apply prefix_take].
  - eexists _, _. split; [reflexivity|]. cbn. split_and!; first [done|lia|intros Hr; specialize (Hw Hr); lia].
Qed.

(** The recording is played in order and no faster than the clock: what a sequence of
    reads hands out is the part of the recording the position moved over, unless the
    stream has a gap to report; nothing is repeated, and with pacing the position never
    passes what has been heard by one of the reads. *)
Theorem replay_plays_in_order s h l st :
  rp_invalidated s = false -> rp_streams s !! h = Some st -> (st_pos st <= length (st_samples st))%nat ->
  exists st', rp_streams (replay_reads s h l).1 !! h = Some st' /\
    st_samples st' = st_samples st /\ (st_pos st <= st_pos st' <= length (st_samples st))%nat /\
    (st_discontinuity st' = false -> st_discontinuity st = false /\
       (replay_reads s h l).2 = slice (st_pos st) (st_pos st') (st_samples st)) /\
    (length (replay_reads s h l).2 <= st_pos st' - st_pos st)%nat /\
    (rp_realtime s = true -> st_pos st' = st_pos st \/
       exists t, t ∈ l.*1 /\ (st_pos st' <= Z.to_nat (available (t - st_started st)))%nat).
Proof.
  revert s st. induction l as [|[now size] l IH]; intros s st Hi Hs Hp.
  { exists st. cbn. unfold slice. rewrite Nat.sub_diag. cbn. split_and!; first [done|lia|by left]. }
  cbn [replay_reads]. set (s0 := s <| rp_now := now |>).
  destruct (replay_read_spec s0 h size st) as (st1 & out & E & Hsm & Hst & Hpos & Hrt & Hpre & Hdis); [done..|].
  rewrite E. set (s1 := s0 <| rp_streams := <[h := st1]> (rp_streams s0) |>).
  destruct (IH s1 st1) as (st2 & Hs2 & Hsm2 & Hpos2 & Hdis2 & Hlen2 & Hrt2);
    [done|cbn; apply lookup_insert_eq|rewrite Hsm; lia|].
  destruct (replay_reads s1 h l) as [s2 rest]. cbn [fst snd] in *. exists st2.
  rewrite Hsm in Hpos2, Hdis2. rewrite Hst in Hrt2. cbn [s1 s0 upd rp_realtime] in Hrt2.
  apply prefix_length in Hpre as Hl. rewrite length_slice in Hl by lia.
  split_and!; [done|congruence|lia|lia| |rewrite length_app; lia|].
  - intros Hd. destruct (Hdis2 Hd) as [H1 ->]. destruct (Hdis H1) as [H0 ->]. split; [done|].
    apply slice_app. lia.
  - intros Hr. specialize (Hrt Hr). cbn in Hrt. destruct (Hrt2 Hr) as [E2|(t & Ht & Hle)].
    + destruct (decide (st_pos st2 = st_pos st)) as [|]; [by left|right]. exists now. cbn. split; [left|]. lia.
    + right. exists t. cbn. split; [by right|done].
Qed.

(** ** Concrete runs *)

Definition demo_replay : WavReplaySource :=
  add_samples "near" "c" "Headset" DirCapture (replicate 700 5) (without_realtime_pacing (WavReplaySource_new 0)).

(** 700 samples in frames of 320: two whole frames, then the tail, then nothing. *)
Lemma replay_plays_in_order_witness :
  let s := (replay_open demo_replay "near" DirCapture).1 in
  (replay_reads s 1 [(0, 400%nat); (0, 400%nat); (0, 640%nat); (0, 640%nat)]).2 = replicate 700 5 /\
  exists st', rp_streams (replay_reads s 1 [(0, 400%nat); (0, 400%nat); (0, 640%nat)]).1 !! 1 = Some st' /\
    (0 <= st_pos st' <= 700)%nat.
Proof.
  intros s. split; [vm_compute; reflexivity|].
  destruct (replay_plays_in_order s 1 [(0, 400%nat); (0, 400%nat); (0, 640%nat)]
    {| st_samples := replicate 700 5; st_pos := 0; st_discontinuity := false; st_started := 0; st_glitch_at := [];
       st_direction := DirCapture |}) as (st' & H1 & _ & H2 & _); [reflexivity|reflexivity|cbn; lia|].
  exists st'. split; [exact H1|]. exact H2.
Defined.

(** A glitch loses a frame and is flagged until it is asked for. *)
Example glitch_is_flagged :
  let s := (replay_open (with_glitch_every 500 demo_replay) "near" DirCapture).1 in
  let '(s, out) := replay_reads s 1 [(0, 640%nat)] in
  length out = 320%nat /\ (take_discontinuity s 1).2 = Ok true /\
  (take_discontinuity (take_discontinuity s 1).1 1).2 = Ok false.
Proof. vm_compute. by repeat split. Qed.

(** A lost device fails every read until it is back. *)
Example loss_and_restore :
  let s := (replay_open demo_replay "near" DirCapture).1 in
  let lost := simulate_device_loss "near" s in
  (replay_read_frames lost 1 320).2 = Err DeviceInvalidated /\
  (replay_open lost "near" DirCapture).2 = Err DeviceInvalidated /\
  is_ok (replay_read_frames (simulate_device_restore "near" lost) 1 320).2 = true.
Proof. vm_compute. by repeat split. Qed.
