(* ===== verification/Desktop.v ===== *)
(** The agent's use of the signed-in user's desktop: the credential vault
    (sentinel-agent/src/auth/store.rs, [CredentialManagerStore]), the system browser
    (auth/browser.rs) and the single-instance mutex (instance.rs).

    Credential Manager, DPAPI, the shell and the kernel's mutexes are type classes; the
    vault is shown to be the [TokenStore] the sign-in theorems assume as far as Windows
    deletes what it is asked to delete. *)

From stdpp Require Import fin_sets infinite.
From S2P Require Import Prelude Text Utf8 Config Pkce Auth Ipc.

(** ** The vault *)

Definition CREDENTIAL_TARGET : string := "MagickVoice/Sentinel/refresh_token".

(** [token.as_bytes()] *)
Definition as_bytes (s : string) : list u8 := Ascii.byte_of_ascii <$> chars s.

Class CredVault (W : Type) := {
  CredWriteW : W -> string -> list u8 -> W * result unit string;
  CredReadW : W -> string -> result (list u8) string;
  CredDeleteW : W -> string -> W * result unit string;
  (** In user scope, without prompts. *)
  CryptProtectData : W -> list u8 -> result (list u8) string;
  CryptUnprotectData : W -> list u8 -> result (list u8) string;
}.

Section vault.
Context {W : Type} `{!CredVault W}.

Definition protect (w : W) (plain : list u8) : result (list u8) StoreError :=
  map_err SePlatform (CryptProtectData w plain).
Definition unprotect (w : W) (wrapped : list u8) : result (list u8) StoreError :=
  map_err (fun _ => SeCorrupt) (CryptUnprotectData w wrapped).

Definition vault_save (w : W) (token : string) : W * result unit StoreError :=
  match protect w (as_bytes token) with
  | Err e => (w, Err e)
  | Ok bytes => let '(w, r) := CredWriteW w CREDENTIAL_TARGET bytes in (w, map_err SePlatform r)
  end.

(** Every failure is taken for a credential that is not there. *)
Definition vault_clear (w : W) : W * result unit StoreError :=
  let '(w, r) := CredDeleteW w CREDENTIAL_TARGET in
  (w, match r with Ok _ => Ok tt | Err _ => Ok tt end).

(** [String::from_utf8] *)
Definition from_utf8 (bytes : list u8) : result string StoreError :=
  let s := text_of bytes in if is_utf8 s then Ok s else Err SeCorrupt.

Definition vault_load (w : W) : W * result (option string) StoreError :=
  match CredReadW w CREDENTIAL_TARGET with
  | Err _ => (w, Ok None)
  | Ok wrapped =>
      match (let? plain := unprotect w wrapped in from_utf8 plain) with
      | Ok t => (w, Ok (Some t))
      | Err SeCorrupt => ((vault_clear w).1, Ok None)
      | Err e => (w, Err e)
      end
  end.

#[export] Instance credential_manager_store : TokenStore W := {|
  save_refresh_token := vault_save;
  load_refresh_token := vault_load;
  clear_token := vault_clear;
|}.
End vault.

(** What is documented of Credential Manager and DPAPI for one user: what was written is
    read back and unwraps; and, where deleting is allowed, what was deleted is gone. *)
Class CredVaultLaws (W : Type) `{!CredVault W} := {
  write_then_read w t b w' : CredWriteW w t b = (w', Ok tt) -> CredReadW w' t = Ok b;
  protect_roundtrip w w' b c : CryptProtectData w b = Ok c -> CryptUnprotectData w' c = Ok b;
}.
Class DeletesWork (W : Type) `{!CredVault W} :=
  delete_then_read w t : is_ok (CredReadW (CredDeleteW w t).1 t) = false.

Lemma text_of_as_bytes s : text_of (as_bytes s) = s.
Proof.
  unfold text_of, as_bytes. rewrite <- list_fmap_compose.
  rewrite (list_fmap_ext _ id), list_fmap_id; [apply str_chars|].
  intros _ a _. apply Ascii.ascii_of_byte_of_ascii.
Qed.

(** The vault is the token store the sign-in theorems rely on. *)
#[export] Instance credential_manager_laws {W} `{!CredVault W} `{!CredVaultLaws W} `{!DeletesWork W} :
  TokenStoreLaws W.
Proof.
  assert (forall w w', vault_clear w = (w', Ok tt) -> (vault_load w').2 = Ok None) as Hclear.
  { intros w w'. unfold vault_clear. pose proof (delete_then_read w CREDENTIAL_TARGET) as H.
    destruct (CredDeleteW w CREDENTIAL_TARGET) as [w1 r]. intros [= <-]. unfold vault_load.
    cbn in H. by destruct (CredReadW w1 CREDENTIAL_TARGET). }
  split.
  - intros w w'. cbn. unfold vault_load at 1. destruct (CredReadW w CREDENTIAL_TARGET) as [b|e] eqn:E.
    + destruct (let? plain := unprotect w b in from_utf8 plain) as [t|[why|]]; [done|done|].
      intros [= <-]. pose proof (Hclear w (vault_clear w).1) as Hc. unfold vault_clear in *.
      destruct (CredDeleteW w CREDENTIAL_TARGET) as [w1 r]. apply Hc. by destruct r.
    + intros [= <-]. unfold vault_load. by rewrite E.
  - intros w t w' Hu. cbn. unfold vault_save, protect. destruct (CryptProtectData w (as_bytes t)) as [c|e] eqn:Ep; [|done].
    cbn. destruct (CredWriteW w CREDENTIAL_TARGET c) as [w1 [[]|e]] eqn:Ew; [|done]. intros [= <-].
    unfold vault_load, unprotect. rewrite (write_then_read _ _ _ _ Ew), (protect_roundtrip _ w1 _ _ Ep). cbn.
    unfold from_utf8. by rewrite text_of_as_bytes, Hu.
  - intros w w'. apply Hclear.
Qed.

(** ** The browser *)

Section browser.
(** The code [ShellExecuteW] returns for a URL. *)
Context {Sh : Type} (ShellExecuteW : Sh -> string -> Sh * Z).

Definition system_browser_open (sh : Sh) (url : string) : Sh * result unit string :=
  if negb (starts_with "https://" url) then (sh, Err "refusing to open a non-https URL in the browser")
  else
    let '(sh, code) := ShellExecuteW sh url in
    (sh, if code <=? 32 then
           Err ("the system browser could not be opened (code " +:+ fmt_u code +:+ ")")
         else Ok tt).

Definition system_browser : BrowserLauncher Sh := system_browser_open.
End browser.

(** [RecordingLauncher] *)
Definition recording_launcher : BrowserLauncher (list string) := fun opened url => (opened ++ [url], Ok tt).

(** Nothing but an https URL ever reaches the shell. *)
Lemma shell_sees_only_https {Sh} (exec : Sh -> string -> Sh * Z) sh url :
  (system_browser_open exec sh url).1 = sh \/
  (starts_with "https://" url = true /\ (system_browser_open exec sh url).1 = (exec sh url).1).
Proof.
  unfold system_browser_open. destruct (starts_with "https://" url); [right|by left].
  split; [done|]. cbn. by destruct (exec sh url).
Qed.

(** A prefix that does not contain the next character lies before it. *)
Lemma starts_with_before p e c q :
  starts_with p (e +:+ String c q) = true -> c ∉ chars p -> starts_with p e = true.
Proof.
  unfold starts_with. revert e. induction p as [|a p IH]; intros e H Hc; [by destruct e|].
  cbn in Hc. apply not_elem_of_cons in Hc as [Hne Hc]. destruct e as [|b e]; cbn.
  - change (String.prefix (String a p) (String c q) = true) in H. cbn in H. by destruct (ascii_dec a c).
  - change (String.prefix (String a p) (String b (e +:+ String c q)) = true) in H. cbn in H.
    destruct (ascii_dec a b); [|done]. by apply IH.
Qed.

(** A sign-in with an authorize endpoint that is not https never gets as far as the
    shell, the token endpoint or the vault. *)
Lemma insecure_endpoint_never_opens {K E En Sh : Type} {Ks : TokenStore K} {Te : TokenEndpoint E} {Ent : Entropy En}
    (exec : Sh -> string -> Sh * Z) sha256 b64url port (en : En) evs now (a : AuthService K E Sh) :
  starts_with "https://" (oc_authorize_endpoint (a_cfg a)) = false ->
  exists why, sign_in_interactive (Bl:=system_browser exec) sha256 b64url (Ok port) en evs now a
    = Some (a, Err (AeOther why)).
Proof.
  intros Hu. unfold sign_in_interactive. cbv zeta. set (att := (AuthAttempt_new _ _ en port).2).
  assert (starts_with "https://" (authorize_url (a_cfg a) att) = false) as H.
  { apply not_true_is_false. intros H. unfold authorize_url in H.
    destruct (bool_decide _); cbn [String.append] in H; apply starts_with_before in H; try congruence;
      cbn; rewrite !not_elem_of_cons; split_and!; try done; apply not_elem_of_nil. }
  unfold launch, system_browser, system_browser_open. rewrite H. cbn. eexists. by destruct a.
Qed.

(** ** One agent per session *)

Definition MUTEX_NAME : string := "Local\MagickVoiceSentinelAgent".

Inductive InstanceError := AlreadyRunning | InstancePlatform (why : string).

(** The named mutexes of a session: who has a handle open on which name. A name exists
    as long as a handle on it is open. *)
Class Mutexes (W : Type) := {
  (** The handle, and whether the name existed ([ERROR_ALREADY_EXISTS]). *)
  CreateMutexW : W -> string -> W * result (Z * bool) string;
  (** Gives up ownership; the name stays as long as a handle is open. *)
  ReleaseMutex : W -> Z -> W;
  CloseMutex : W -> Z -> W;
}.

Section instance.
Context {W : Type} `{!Mutexes W}.

Definition acquire (w : W) : W * result Z InstanceError :=
  let '(w, r) := CreateMutexW w MUTEX_NAME in
  match r with
  | Err e => (w, Err (InstancePlatform e))
  | Ok (handle, existed) =>
      if existed then (CloseMutex w handle, Err AlreadyRunning) else (w, Ok handle)
  end.

(** [Drop for InstanceGuard] *)
Definition release (w : W) (handle : Z) : W := CloseMutex (ReleaseMutex w handle) handle.
End instance.

Class MutexesLaws (W : Type) `{!Mutexes W} := {
  open_handles : W -> gmap Z string;
  create_law w n : match CreateMutexW w n with
    | (w', Ok (h, existed)) => open_handles w !! h = None /\ open_handles w' = <[h := n]> (open_handles w) /\
        (existed = true <-> exists h', open_handles w !! h' = Some n)
    | (w', Err _) => open_handles w' = open_handles w end;
  release_law w h : open_handles (ReleaseMutex w h) = open_handles w;
  close_law w h : open_handles (CloseMutex w h) = delete h (open_handles w);
}.

Section instance_props.
Context {W : Type} `{!Mutexes W} `{!MutexesLaws W}.

(** The holders of the session's name. *)
Definition holders (w : W) : gset Z := dom (base.filter (fun p => p.2 = MUTEX_NAME) (open_handles w)).

Lemma elem_of_holders w h : h ∈ holders w <-> open_handles w !! h = Some MUTEX_NAME.
Proof.
  unfold holders. rewrite elem_of_dom. split.
  - intros [n [H1 H2]%map_lookup_filter_Some]. cbn in H2. by subst.
  - intros H. exists MUTEX_NAME. by apply map_lookup_filter_Some.
Qed.

(** The guard admits one agent per session: acquiring succeeds only when nobody holds
    the name, and then makes the caller its only holder; a refusal or a failure leaves
    every handle as it was. *)
Lemma acquire_is_exclusive w :
  match acquire w with
  | (w', Ok h) => holders w = ∅ /\ holders w' = {[h]}
  | (w', Err e) => open_handles w' = open_handles w /\ (e = AlreadyRunning -> holders w <> ∅)
  end.
Proof.
  unfold acquire. pose proof (create_law w MUTEX_NAME) as H.
  destruct (CreateMutexW w MUTEX_NAME) as [w1 [[h existed]|e]]; [|split; [done|done]].
  destruct H as (Hh & Hw & He). destruct existed.
  - split; [rewrite close_law, Hw; by rewrite delete_insert_id|]. intros _ Hn.
    destruct (proj1 He eq_refl) as [h' H'%elem_of_holders]. rewrite Hn in H'. set_solver.
  - assert (holders w = ∅) as Hn.
    { apply set_eq. intros x. split; [|set_solver]. intros Hx%elem_of_holders.
      assert (false = true) by (apply He; eauto). done. }
    split; [done|]. apply set_eq. intros x. rewrite elem_of_holders, Hw, elem_of_singleton.
    destruct (decide (x = h)) as [->|]; [by rewrite lookup_insert_eq|].
    rewrite lookup_insert_ne by done. split; [|done]. intros Hx%elem_of_holders. rewrite Hn in Hx. set_solver.
Qed.

(** Once the only holder is gone the session is free again. *)
Lemma release_frees w w' h : acquire w = (w', Ok h) -> holders (release w' h) = ∅.
Proof.
  intros H. pose proof (acquire_is_exclusive w) as Ha. rewrite H in Ha. destruct Ha as [_ Hh].
  apply set_eq. intros x. split; [|set_solver]. unfold release.
  rewrite elem_of_holders, close_law, release_law. intros [Hne Hx]%lookup_delete_Some.
  apply elem_of_holders in Hx. rewrite Hh in Hx. set_solver.
Qed.
End instance_props.

(** ** Concrete desktops *)

(** A vault of one user: the credentials by name, and whether they may be deleted. *)
Record UserVault := { uv_items : list (string * list u8); uv_deletable : bool }.
#[local] Instance user_vault : CredVault UserVault := {|
  CredWriteW := fun w t b => ({| uv_items := (t, b) :: uv_items w; uv_deletable := uv_deletable w |}, Ok tt);
  CredReadW := fun w t =>
    match list_find (fun p => p.1 = t) (uv_items w) with
    | Some (_, (_, b)) => Ok b
    | None => Err "Element not found."
    end;
  CredDeleteW := fun w t =>
    if uv_deletable w then
      ({| uv_items := base.filter (fun p => p.1 <> t) (uv_items w); uv_deletable := true |}, Ok tt)
    else (w, Err "Access is denied.");
  CryptProtectData := fun _ b => Ok (rev b);
  CryptUnprotectData := fun _ b => Ok (rev b);
|}.
#[local] Instance user_vault_laws : CredVaultLaws UserVault.
Proof.
  split; [|intros ? ? ? ? [= <-]; cbn; by rewrite rev_involutive].
  intros w t b w' [= <-]. cbn. by rewrite decide_True.
Qed.

(** Where the vault cannot delete, [clear] says that it has: the agent reports that it
    signed out, and at the next start it is signed in again. *)
Example undeletable_token_survives_sign_out :
  let k := {| uv_items := []; uv_deletable := false |} in
  let k1 := (vault_save k "rt").1 in
  (vault_clear k1).2 = Ok tt /\ (vault_load (vault_clear k1).1).2 = Ok (Some "rt").
Proof. vm_compute. done. Qed.

(** A session's mutexes as a map from handles to names. *)
#[local] Instance session_mutexes : Mutexes (gmap Z string) := {|
  CreateMutexW := fun w n =>
    let h := stdpp.base.fresh (dom w) in
    (<[h := n]> w, Ok (h, bool_decide (n ∈ (map_to_list w).*2)));
  ReleaseMutex := fun w _ => w;
  CloseMutex := fun w h => delete h w;
|}.
#[local] Instance session_mutexes_laws : MutexesLaws (gmap Z string).
Proof.
  refine {| open_handles := fun w => w |}; [|done..].
  intros w n. cbn. split_and!; [|done|].
  - apply not_elem_of_dom, is_fresh.
  - rewrite bool_decide_eq_true, list_elem_of_fmap. split.
    + intros [[h x] [-> Hx%elem_of_map_to_list]]. by exists h.
    + intros [h Hx]. exists (h, n). split; [done|]. by apply elem_of_map_to_list.
Defined.

(** The second agent of a session is turned away, and admitted once the first is gone. *)
Example second_agent_waits :
  let '(w1, r1) := acquire (∅ : gmap Z string) in
  let '(w2, r2) := acquire w1 in
  is_ok r1 = true /\ r2 = Err AlreadyRunning /\ is_ok (acquire (release w2 0)).2 = true.
Proof. vm_compute. done. Qed.
