(* ===== verification/Session.v ===== *)
(** What the capture crate asks of Windows besides audio: the running processes and the
    softphone's audio sessions (sentinel-capture/src/windows/session.rs), device
    notifications (notification.rs) and the Windows build (os.rs), which the service
    reads a second time for itself (sentinel-service/src/main.rs).

    Each COM or Win32 call is an answer the function is given; a channel is the list of
    what was sent on it. *)

From S2P Require Import Prelude Text Protocol Config State StateProps Capture Pkce Float Replay LiveSource.

(** ** UTF-16 *)

Definition is_high (u : Z) : bool := (0xD800 <=? u) && (u <=? 0xDBFF).
Definition is_low (u : Z) : bool := (0xDC00 <=? u) && (u <=? 0xDFFF).

(** The characters of a string of 16-bit units; an unpaired surrogate is U+FFFD. *)
Fixpoint decode_utf16 (l : list Z) : list Z :=
  match l with
  | [] => []
  | u :: l' =>
      if is_high u then
        match l' with
        | v :: l'' => if is_low v then (0x10000 + (u - 0xD800) * 0x400 + (v - 0xDC00)) :: decode_utf16 l''
                      else 0xFFFD :: decode_utf16 l'
        | [] => [0xFFFD]
        end
      else (if is_low u then 0xFFFD else u) :: decode_utf16 l'
  end.
Definition encode_utf8 (c : Z) : list ascii :=
  if c <? 0x80 then [chr c]
  else if c <? 0x800 then [chr (0xC0 + c / 64); chr (0x80 + c mod 64)]
  else if c <? 0x10000 then [chr (0xE0 + c / 4096); chr (0x80 + c / 64 mod 64); chr (0x80 + c mod 64)]
  else [chr (0xF0 + c / 262144); chr (0x80 + c / 4096 mod 64); chr (0x80 + c / 64 mod 64); chr (0x80 + c mod 64)].
(** [String::from_utf16_lossy] *)
Definition from_utf16_lossy (l : list Z) : string := str (concat (encode_utf8 <$> decode_utf16 l)).

(** ** Processes *)

(** [szExeFile] is an array of [MAX_PATH] units. *)
Record PROCESSENTRY32W := { th32ProcessID : Z; szExeFile : list Z }.
Definition MAX_PATH : nat := 260.

Definition exe_name (e : PROCESSENTRY32W) : string :=
  let len := match list_find (fun c => c = 0) (szExeFile e) with Some (i, _) => i | None => MAX_PATH end in
  from_utf16_lossy (take len (szExeFile e)).

(** A snapshot, and the entries it is walked over. *)
Definition enumerate_processes (snapshot : result (list PROCESSENTRY32W) string)
    : result (list (Z * string)) CaptureErr :=
  let? entries := map_err (fun e => Platform ("process snapshot: " +:+ e)) snapshot in
  Ok ((fun e => (th32ProcessID e, exe_name e)) <$> entries).

(** ** Audio sessions *)

Definition AudioSessionStateInactive : Z := 0.
Definition AudioSessionStateActive : Z := 1.

(** What a session control answers. *)
Record SessionAnswers := {
  sn_control2 : bool;                  (** [cast::<IAudioSessionControl2>()] *)
  sn_process_id : result Z string;
  sn_state : result Z string;
  sn_register : result unit string;
}.

(** The calls that lead to the sessions of the default render endpoint. *)
Record Sessions := {
  ss_enumerator : result unit string;
  ss_endpoint : result unit string;
  ss_manager : result unit string;
  ss_enumerate : result unit string;
  ss_count : result Z string;
  ss_session : Z -> option SessionAnswers;
}.

Definition session_count (s : Sessions) : result Z CaptureErr :=
  let? _ := map_err (fun e => Platform ("device enumerator: " +:+ e)) (ss_enumerator s) in
  let? _ := map_err (fun e => Platform ("default endpoint: " +:+ e)) (ss_endpoint s) in
  let? _ := map_err (fun e => Platform ("session manager: " +:+ e)) (ss_manager s) in
  let? _ := map_err (fun e => Platform ("session enumerator: " +:+ e)) (ss_enumerate s) in
  Ok (match ss_count s with Ok n => n | Err _ => 0 end).

(** The loops' [continue]s: the sessions of a process, with their numbers. *)
Definition session_of (s : Sessions) (pid i : Z) : option (Z * SessionAnswers) :=
  a ← ss_session s i;
  if negb (sn_control2 a) then None
  else if negb (match sn_process_id a with Ok p => p | Err _ => 0 end =? pid) then None
  else Some (i, a).

Fixpoint any_active (s : Sessions) (pid : Z) (ns : list Z) : bool :=
  match ns with
  | [] => false
  | i :: ns =>
      match session_of s pid i with
      | None => any_active s pid ns
      | Some (_, a) =>
          if match sn_state a with Ok st => st | Err _ => 0 end =? AudioSessionStateActive then true
          else any_active s pid ns
      end
  end.

Definition softphone_session_active (pid : Z) (s : Sessions) : result bool CaptureErr :=
  let? count := session_count s in Ok (any_active s pid (seqZ 0 count)).

Inductive SessionEvent := SessStateChanged (active : bool) | SessDisconnected.

(** [SessionWatcher]'s callbacks on its channel; the other five do nothing. *)
Inductive SessionCallback :=
| OnDisplayNameChanged | OnIconPathChanged | OnSimpleVolumeChanged | OnChannelVolumeChanged
| OnGroupingParamChanged | OnStateChanged (state : Z) | OnSessionDisconnected.
Definition session_callback (c : SessionCallback) (tx : list SessionEvent) : list SessionEvent :=
  match c with
  | OnStateChanged state => tx ++ [SessStateChanged (state =? AudioSessionStateActive)]
  | OnSessionDisconnected => tx ++ [SessDisconnected]
  | _ => tx
  end.

(** The number of the session the watcher is registered on. *)
Fixpoint watch_loop (s : Sessions) (pid : Z) (ns : list Z) : result Z CaptureErr :=
  match ns with
  | [] => Err (SoftphoneNotFound ("pid " +:+ fmt_u pid +:+ " has no render session"))
  | i :: ns =>
      match session_of s pid i with
      | None => watch_loop s pid ns
      | Some (_, a) => let? _ := map_err (fun e => Platform ("register session sink: " +:+ e)) (sn_register a) in Ok i
      end
  end.
Definition watch_softphone_session (pid : Z) (s : Sessions) : result Z CaptureErr :=
  let? count := session_count s in watch_loop s pid (seqZ 0 count).

(** ** Device notifications *)

Definition eRender : Z := 0.
Definition eCapture : Z := 1.
Definition direction_of (flow : Z) : AudioDirection := if flow =? eCapture then DirCapture else DirRender.
(** [PCWSTR::to_string], which fails on an unpaired surrogate. *)
Definition id_of (id : option string) : string := default "" id.

Definition DEVICE_STATE_ACTIVE : Z := 1.
Inductive DeviceCallback :=
| OnDeviceStateChanged (id : option string) (state : Z)
| OnDeviceAdded (id : option string)
| OnDeviceRemoved (id : option string)
| OnDefaultDeviceChanged (flow role : Z) (id : option string)
| OnPropertyValueChanged.
Definition device_callback (c : DeviceCallback) (tx : list DeviceEvent) : list DeviceEvent :=
  match c with
  | OnDeviceStateChanged id state => tx ++ [DevStateChanged (id_of id) (state =? DEVICE_STATE_ACTIVE)]
  | OnDeviceAdded id => tx ++ [DevStateChanged (id_of id) true]
  | OnDeviceRemoved id => tx ++ [DevRemoved (id_of id)]
  | OnDefaultDeviceChanged flow _ id => tx ++ [DevDefaultChanged (direction_of flow) (id_of id)]
  | OnPropertyValueChanged => tx
  end.

(** ** The Windows build *)

(** The values under [CurrentVersion]; a string is its units up to the terminator. *)
Inductive RegValue := RegDword (z : Z) | RegSz (units : list Z).
Definition Registry : Type := string -> option RegValue.

Definition reg_dword (reg : Registry) (value : string) : option Z :=
  match reg value with Some (RegDword z) => Some z | _ => None end.
(** The buffer is one unit longer than the terminated string. *)
Definition reg_string (reg : Registry) (value : string) : option string :=
  match reg value with
  | Some (RegSz units) => Some (trim_end_matches (chr 0) (from_utf16_lossy (units ++ [0; 0])))
  | _ => None
  end.

Definition registry_build_number (reg : Registry) : option Z :=
  match reg_dword reg "CurrentBuildNumber" with
  | Some z => Some z
  | None => s ← reg_string reg "CurrentBuildNumber"; parse_u u32_max s
  end.
Definition registry_major_minor (reg : Registry) : option (Z * Z) :=
  major ← reg_dword reg "CurrentMajorVersionNumber";
  Some (major, default 0 (reg_dword reg "CurrentMinorVersionNumber")).
Definition is_server_sku (reg : Registry) : bool :=
  let t := reg_string reg "InstallationType" in
  bool_decide (t = Some "Server") || bool_decide (t = Some "Server Core").

Definition PROCESSOR_ARCHITECTURE_INTEL : Z := 0.
Definition PROCESSOR_ARCHITECTURE_AMD64 : Z := 9.
Definition PROCESSOR_ARCHITECTURE_ARM64 : Z := 12.
Definition native_arch (wProcessorArchitecture : Z) : Arch :=
  if wProcessorArchitecture =? PROCESSOR_ARCHITECTURE_AMD64 then X64
  else if wProcessorArchitecture =? PROCESSOR_ARCHITECTURE_INTEL then X86
  else if wProcessorArchitecture =? PROCESSOR_ARCHITECTURE_ARM64 then Arm64
  else ArchOther.

Definition detect_tier (reg : Registry) (arch : Z) : TierDetection :=
  let build := default 0 (registry_build_number reg) in
  let '(major, minor) := default (0, 0) (registry_major_minor reg) in
  classify major minor build (is_server_sku reg) (native_arch arch).

(** The service's own reader: a buffer of 128 units, and the units before the last. *)
Definition service_read (reg : Registry) (name : string) : option string :=
  match reg name with
  | Some (RegSz units) =>
      if (128 <? S (length units))%nat then None else Some (from_utf16_lossy (take 128 units))
  | _ => None
  end.
Definition service_tier (reg : Registry) : option CaptureTier * string :=
  sentinel_capture_tier (service_read reg "CurrentBuildNumber") (service_read reg "InstallationType").

(** ** Sessions: polling and watching *)

(** A session of the process that answers Active. *)
Definition active_session (s : Sessions) (pid i : Z) : Prop :=
  exists a, session_of s pid i = Some (i, a) /\ sn_state a = Ok AudioSessionStateActive.

Lemma session_of_number s pid i p : session_of s pid i = Some p -> p.1 = i.
Proof. unfold session_of. destruct (ss_session s i); cbn; [|done]. repeat case_match; by intros [= <-]. Qed.

Lemma active_here s pid i :
  match session_of s pid i with
  | Some (_, a) => match sn_state a with Ok st => st | Err _ => 0 end =? AudioSessionStateActive
  | None => false
  end = true <-> active_session s pid i.
Proof.
  unfold active_session. destruct (session_of s pid i) as [[j a]|] eqn:Hs; [|by split; [|intros (? & ? & _)]].
  apply session_of_number in Hs as Hj. cbn in Hj. subst j. rewrite Z.eqb_eq. split.
  - intros H. exists a. split; [done|]. destruct (sn_state a); [by subst|done].
  - intros (b & [= <-] & ->). done.
Qed.

Lemma any_active_spec s pid l : any_active s pid l = true <-> exists i, i ∈ l /\ active_session s pid i.
Proof.
  setoid_rewrite <- (active_here s pid). induction l as [|i l IH]; cbn.
  { split; [done|]. by intros (? & []%not_elem_of_nil & _). }
  setoid_rewrite elem_of_cons. destruct (session_of s pid i) as [[j a]|] eqn:Hs.
  - destruct (_ =? _) eqn:Ha.
    + split; [|done]. intros _. exists i. rewrite Hs, Ha. auto.
    + rewrite IH. split; intros (k & Hk & H); exists k; [auto|]. split; [|done].
      destruct Hk as [->|]; [|done]. rewrite Hs in H. congruence.
  - rewrite IH. split; intros (k & Hk & H); exists k; [auto|]. split; [|done].
    destruct Hk as [->|]; [|done]. by rewrite Hs in H.
Qed.

(** The poll answers whether the process has an active session at all. *)
Lemma session_active_spec pid s b :
  softphone_session_active pid s = Ok b ->
  exists n, session_count s = Ok n /\ (b = true <-> exists i, 0 <= i < n /\ active_session s pid i).
Proof.
  unfold softphone_session_active. destruct (session_count s) as [n|e]; [|done]. intros [= <-]. exists n.
  split; [done|]. rewrite any_active_spec. setoid_rewrite elem_of_seqZ.
  split; intros (i & Hi & Ha); exists i; (split; [lia|done]).
Qed.

(** The watcher sees the first session of the process and no other: here the poll says
    that the softphone is in a call, on a session no transition will be reported of. *)
Example watcher_misses_second_session :
  let session st := {| sn_control2 := true; sn_process_id := Ok 7; sn_state := Ok st; sn_register := Ok tt |} in
  let s := {| ss_enumerator := Ok tt; ss_endpoint := Ok tt; ss_manager := Ok tt; ss_enumerate := Ok tt;
              ss_count := Ok 2; ss_session := fun i => Some (session (if i =? 1 then 1 else 0)) |} in
  softphone_session_active 7 s = Ok true /\ watch_softphone_session 7 s = Ok 0 /\ active_session s 7 1.
Proof. split_and!; [vm_compute; done..|]. by eexists. Qed.

(** ** A detector nobody tells of a session *)

(** With no report of an active session a detector never leaves IDLE and BLOCKED. *)
Definition unsessioned (d : Detector) : Prop :=
  session_active d = false /\ (state d = Idle \/ state d = Blocked) /\ reopen_after_end d = false.

Lemma feed_unsessioned d now i d' t :
  unsessioned d -> i <> SessionState true -> feed d now i = (d', t) ->
  unsessioned d' /\ t <> TArmed /\ t <> CallStarted.
Proof.
  intros (Hs & Hst & Hr) Hi Hf. unfold unsessioned.
  destruct i as [[]| | | | | |]; try done; destruct Hst as [Hst|Hst]; unfold feed, enter_blocked, evaluate, goto in Hf; cbn in Hf;
    rewrite Hst, ?Hs in Hf; cbn in Hf; repeat (case_match || case_bool_decide); simplify_eq/=; split_and!; try done; auto.
Qed.

(** The softphone's session is what calls are detected by: in a run in which no
    active session was ever reported, whatever the voice on either channel, the detector
    never arms and never starts a call. *)
Theorem no_session_no_call c h d :
  reach c h d -> Forall (fun e => e.1.2 <> SessionState true) h ->
  (state d = Idle \/ state d = Blocked) /\ Forall (fun e => e.2 <> TArmed /\ e.2 <> CallStarted) h.
Proof.
  intros Hr Hh. enough (unsessioned d /\ Forall (fun e => e.2 <> TArmed /\ e.2 <> CallStarted) h) as [(_ & ? & _) ?] by done.
  induction Hr as [|h d now i d' t Hr IH Hn Hf]; [split; [split; [done|auto]|done]|].
  apply Forall_app in Hh as [Hh Hi]. apply Forall_cons in Hi as [Hi _]. destruct (IH Hh) as [Hu Ht].
  destruct (feed_unsessioned _ _ _ _ _ Hu Hi Hf) as [Hu' Ht']. split; [done|].
  apply Forall_app. split; [done|]. by apply Forall_singleton.
Qed.

Lemma history_inputs d tr : (history d tr).*1 = tr.
Proof.
  revert d. induction tr as [|[n i] tr IH]; intros d; [done|]. cbn. destruct (feed d n i). cbn. by rewrite IH.
Qed.

Definition talk_trace : list (Z * DetectorInput) :=
  [(1000, Unblock); (1000, UserChanged "agent-1"); (3000, FarVoice true); (9000, NearVoice true);
   (12000, FarVoice true); (60000, Tick)].
Lemma no_session_no_call_witness :
  let h := history (Detector_new VadConfig_default) talk_trace in
  length h = 6%nat /\ state (run (Detector_new VadConfig_default) talk_trace).1 = Idle /\
  Forall (fun e => e.2 <> TArmed /\ e.2 <> CallStarted) h.
Proof.
  split_and!; [reflexivity|reflexivity|].
  apply (no_session_no_call VadConfig_default _ _ (reach_new VadConfig_default talk_trace eq_refl)).
  apply (Forall_fmap fst (fun i : Z * DetectorInput => i.2 <> SessionState true)). rewrite history_inputs.
  repeat (constructor; [discriminate|]). constructor.
Defined.

(** ** The two tier readers *)

Lemma decode_utf16_cons u v l :
  decode_utf16 (u :: v :: l) =
  if is_high u then if is_low v then (0x10000 + (u - 0xD800) * 0x400 + (v - 0xDC00)) :: decode_utf16 l
                    else 0xFFFD :: decode_utf16 (v :: l)
  else (if is_low u then 0xFFFD else u) :: decode_utf16 (v :: l).
Proof. done. Qed.

Lemma decode_nul l : decode_utf16 (l ++ [0]) = decode_utf16 l ++ [0].
Proof.
  enough (forall l, decode_utf16 (l ++ [0]) = decode_utf16 l ++ [0] /\
    forall u, decode_utf16 (u :: l ++ [0]) = decode_utf16 (u :: l) ++ [0]) as H by apply H.
  clear l. induction l as [|v l [IH1 IH2]].
  - split; [done|]. intros u. cbn. by destruct (is_high u), (is_low u).
  - split; [apply IH2|]. intros u. cbn [app]. rewrite !decode_utf16_cons, IH1, IH2.
    by destruct (is_high u), (is_low v), (is_low u).
Qed.

Lemma lossy_nul l : chars (from_utf16_lossy (l ++ [0])) = chars (from_utf16_lossy l) ++ [chr 0].
Proof. unfold from_utf16_lossy. rewrite !chars_str, decode_nul, fmap_app, concat_app. done. Qed.

(** ASCII text survives. *)
Lemma lossy_ascii s : Forall (fun a => code a < 128) (chars s) -> from_utf16_lossy (code <$> chars s) = s.
Proof.
  intros H. unfold from_utf16_lossy. apply chars_inj. rewrite chars_str.
  induction H as [|a l Ha Hl IH]; [done|].
  assert (is_high (code a) = false /\ is_low (code a) = false) as [Hh Hl'] by (unfold is_high, is_low; lia).
  cbn [fmap list_fmap decode_utf16]. rewrite Hh, Hl'.
  cbn [fmap list_fmap concat]. unfold encode_utf8 at 1. rewrite (proj2 (Z.ltb_lt _ _)) by done.
  cbn [app]. rewrite chr_code. by f_equal.
Qed.

(** A value without NULs is read whole. *)
Lemma reg_string_whole reg name u :
  reg name = Some (RegSz u) -> last (chars (from_utf16_lossy u)) <> Some (chr 0) ->
  reg_string reg name = Some (from_utf16_lossy u).
Proof.
  intros Hr Hn. unfold reg_string. rewrite Hr. f_equal. apply chars_inj. unfold trim_end_matches.
  change [0; 0] with ([0] ++ [0]). rewrite chars_str, (assoc_L (++)), !lossy_nul, !reverse_app. cbn [reverse rev_append app].
  cbn [drop_while]. rewrite !bool_decide_true by done.
  rewrite <- (reverse_involutive (chars (from_utf16_lossy u))) at 2. f_equal.
  destruct (reverse (chars (from_utf16_lossy u))) as [|a l] eqn:E; [done|].
  cbn [drop_while]. rewrite bool_decide_false; [done|]. intros ->. apply Hn.
  rewrite <- (reverse_involutive (chars _)), E, last_reverse. done.
Qed.

(** A value both readers can take in: ASCII text that fits the service's buffer. *)
Definition value_text (s : string) : Prop :=
  Forall (fun a => 0 < code a < 128) (chars s) /\ (length (chars s) < 128)%nat.
Definition REG_SZ (s : string) : RegValue := RegSz (code <$> chars s).

Lemma value_text_read reg name s :
  reg name = Some (REG_SZ s) -> value_text s -> reg_string reg name = Some s /\ service_read reg name = Some s.
Proof.
  intros Hr [Ha Hl]. assert (from_utf16_lossy (code <$> chars s) = s) as Hs.
  { apply lossy_ascii. eapply Forall_impl; [exact Ha|]. cbn. lia. }
  split.
  - rewrite (reg_string_whole _ _ _ Hr), Hs; [done|]. rewrite Hs. intros H%last_Some_elem_of.
    rewrite Forall_forall in Ha. specialize (Ha _ H). destruct Ha as [Ha _]. by vm_compute in Ha.
  - unfold service_read. rewrite Hr. cbn [REG_SZ]. rewrite length_fmap, (proj2 (Nat.ltb_ge _ _)) by lia.
    by rewrite take_ge, Hs by (rewrite length_fmap; lia).
Qed.

Lemma pretty_length n x s : (x < 10 ^ N.of_nat n)%N ->
  (length (chars (pretty_N_go x s)) <= n + length (chars s))%nat.
Proof.
  revert x s. induction n as [|n IH]; intros x s Hx.
  { assert (x = 0%N) as -> by (cbn in Hx; lia). by rewrite pretty_N_go_0. }
  destruct (decide (x = 0%N)) as [->|Hn]; [rewrite pretty_N_go_0; lia|].
  rewrite pretty_N_go_step by lia. etrans; [apply IH|cbn; lia].
  rewrite Nat2N.inj_succ, N.pow_succ_r' in Hx. apply N.Div0.div_lt_upper_bound. lia.
Qed.

Lemma fmt_u32_value b : in_u32 b -> value_text (fmt_u b).
Proof.
  intros Hb. split.
  - destruct (fmt_u_digits b b ltac:(ints; lia)) as (c & ds & Hs & Hd & _). rewrite Hs.
    eapply Forall_impl; [exact Hd|]. cbn. intros a Ha%digit_code. lia.
  - unfold fmt_u, pretty, pretty_N. case_decide; [cbn; lia|].
    pose proof (pretty_length 10 (Z.to_N b) "" ltac:(cbn; ints; lia)). cbn in *. lia.
Qed.

(** The capture crate and the service read the same tier and build from the registry
    of any x64 Windows 10 or later, except that on a Server Core installation only the
    capture crate sees a server. *)
Lemma tier_readers_agree reg b inst :
  in_u32 b -> reg "CurrentBuildNumber" = Some (REG_SZ (fmt_u b)) ->
  reg "CurrentMajorVersionNumber" = Some (RegDword 10) ->
  reg "CurrentMinorVersionNumber" = Some (RegDword 0) ->
  reg "InstallationType" = REG_SZ <$> inst -> from_option value_text True inst ->
  inst <> Some "Server Core" ->
  let d := detect_tier reg PROCESSOR_ARCHITECTURE_AMD64 in
  service_tier reg = (td_tier d, td_os_build d).
Proof.
  intros Hb Hbuild Hmaj Hmin Hinst Hv Hcore.
  destruct (value_text_read _ _ _ Hbuild (fmt_u32_value b Hb)) as [B1 B2].
  assert (reg_string reg "InstallationType" = inst /\ service_read reg "InstallationType" = inst) as [I1 I2].
  { destruct inst as [s|]; cbn in *; [by apply value_text_read|]. unfold reg_string, service_read. by rewrite Hinst. }
  unfold service_tier, detect_tier, registry_build_number, registry_major_minor, is_server_sku, reg_dword, sentinel_capture_tier.
  rewrite Hbuild, Hmaj, Hmin, I1, I2, B1, B2. cbn [REG_SZ mbind option_bind default from_option id].
  assert (parse_u u32_max (fmt_u b) = Some b) as Hp by (apply parse_fmt_u; exact Hb).
  rewrite trim_fmt_u, Hp, (bool_decide_false _ Hcore), orb_false_r by (ints; lia).
  cbn. unfold classify. case_bool_decide; cbn; repeat case_match; cbn; f_equal; bool_hyps; try lia; done.
Qed.

Definition registry_of (build : Z) (inst : string) : Registry := fun name =>
  if String.eqb name "CurrentBuildNumber" then Some (REG_SZ (fmt_u build))
  else if String.eqb name "CurrentMajorVersionNumber" then Some (RegDword 10)
  else if String.eqb name "CurrentMinorVersionNumber" then Some (RegDword 0)
  else if String.eqb name "InstallationType" then Some (REG_SZ inst) else None.

(** Server 2022 Core: the agent captures with tier A, the service reports tier B. *)
Example server_core_disagrees :
  td_tier (detect_tier (registry_of 20348 "Server Core") PROCESSOR_ARCHITECTURE_AMD64) = Some TierA /\
  (service_tier (registry_of 20348 "Server Core")).1 = Some TierB.
Proof. vm_compute. done. Qed.
