(* ===== verification/PipeHost.v ===== *)
(** The host of the control pipe (sentinel-service/src/windows/pipe.rs, [serve] and
    [PipeInstance]): the accepting loop and one thread per connection, interleaved over
    the service's shared state.

    Pipe instances are numbered in the order they are created. A transition is one
    system call of one thread with the code up to the next; the request handler runs as
    one transition, since it only writes what no other request reads. *)

From S2P Require Import Prelude Text Config Utf8 Ipc.

Definition PIPE_NAME : string := "\\.\pipe\magickvoice-sentinel-v1".
Definition PIPE_SDDL : string := "D:(A;;GA;;;SY)(A;;GRGW;;;BU)".
Definition PIPE_BUFFER : Z := 64 * 1024.
Definition MAX_INSTANCES : nat := 8.
Definition PIPE_ACCESS_DUPLEX : Z := 3.
Definition PIPE_TYPE_BYTE : Z := 0.
Definition PIPE_READMODE_BYTE : Z := 0.
Definition PIPE_WAIT : Z := 0.
Definition PIPE_REJECT_REMOTE_CLIENTS : Z := 8.
Definition ERROR_BROKEN_PIPE : Z := 109.
Definition ERROR_PIPE_BUSY : Z := 231.
Definition ERROR_PIPE_CONNECTED : Z := 535.

(** The arguments of [CreateNamedPipeW]. *)
Record PipeArgs := {
  pa_name : string; pa_open_mode : Z; pa_pipe_mode : Z; pa_max_instances : nat;
  pa_out_buffer : Z; pa_in_buffer : Z; pa_default_timeout : Z; pa_sddl : string;
}.
Definition serve_args : PipeArgs :=
  {| pa_name := PIPE_NAME; pa_open_mode := PIPE_ACCESS_DUPLEX;
     pa_pipe_mode := Z.lor (Z.lor (Z.lor PIPE_TYPE_BYTE PIPE_READMODE_BYTE) PIPE_WAIT) PIPE_REJECT_REMOTE_CLIENTS;
     pa_max_instances := MAX_INSTANCES; pa_out_buffer := PIPE_BUFFER; pa_in_buffer := PIPE_BUFFER;
     pa_default_timeout := 0; pa_sddl := PIPE_SDDL |}.

(** A connection's thread: in the outer loop of [pump], or in the inner one. What it has
    received and written is kept for the theorems. *)
Record Conn := { cn_reader : FrameReader; cn_framing : bool; cn_in : list u8; cn_out : list (list u8) }.
Definition Conn_new : Conn := {| cn_reader := FrameReader_new; cn_framing := false; cn_in := []; cn_out := [] |}.

(** The accepting thread. *)
Inductive Host := Accepting | Connecting (n : nat) | Ended (r : result unit Z).

Record Pipe := {
  pi_host : Host;
  pi_open : gset nat;                (** the instances of the pipe that exist *)
  pi_object : option PipeArgs;       (** set by the first instance, for all *)
  pi_next : nat;
  pi_conns : gmap nat Conn;
  pi_stop : bool;
  pi_state : ServiceState;
  pi_log : list (nat * list u8);     (** the frames answered, in order *)
}.
#[export] Instance Pipe_rebuild : Rebuild Pipe := fun p =>
  {| pi_host := pi_host p; pi_open := pi_open p; pi_object := pi_object p; pi_next := pi_next p;
     pi_conns := pi_conns p; pi_stop := pi_stop p; pi_state := pi_state p; pi_log := pi_log p |}.
#[export] Instance Conn_rebuild : Rebuild Conn := fun c =>
  {| cn_reader := cn_reader c; cn_framing := cn_framing c; cn_in := cn_in c; cn_out := cn_out c |}.

(** ** Windows *)

(** The last instance takes the pipe with it. *)
Definition close_instance (n : nat) (p : Pipe) : Pipe :=
  let left := pi_open p ∖ {[n]} in
  p <| pi_open := left |> <| pi_object := if decide (left = ∅) then None else pi_object p |>.

(** Windows refuses an instance beyond the first one's limit; otherwise it answers as
    it does. *)
Definition CreateNamedPipeW (args : PipeArgs) (answer : result unit Z) (p : Pipe) : Pipe * result nat Z :=
  let object := default args (pi_object p) in
  if (pa_max_instances object <=? size (pi_open p))%nat then (p, Err ERROR_PIPE_BUSY)
  else match answer with
  | Err e => (p, Err e)
  | Ok _ => (p <| pi_open := {[pi_next p]} ∪ pi_open p |> <| pi_object := Some object |>
               <| pi_next := S (pi_next p) |>, Ok (pi_next p))
  end.

(** ** The accepting loop *)

(** [serve] up to its loop: [from_sddl]. *)
Definition serve_start (from_sddl : result unit Z) (s : ServiceState) : Pipe :=
  {| pi_host := match from_sddl with Ok _ => Accepting | Err e => Ended (Err e) end;
     pi_open := ∅; pi_object := None; pi_next := 0; pi_conns := ∅; pi_stop := false;
     pi_state := s; pi_log := [] |}.

(** Up to [ConnectNamedPipe]. *)
Definition host_create (answer : result unit Z) (p : Pipe) : Pipe :=
  if pi_stop p then p <| pi_host := Ended (Ok tt) |>
  else
    let '(p, r) := CreateNamedPipeW serve_args answer p in
    match r with
    | Err e => p <| pi_host := Ended (Err e) |>
    | Ok n => p <| pi_host := Connecting n |>
    end.

Definition spawn_pump (n : nat) (p : Pipe) : Pipe :=
  p <| pi_conns := <[n := Conn_new]> (pi_conns p) |> <| pi_host := Accepting |>.

(** From [ConnectNamedPipe] to the end of the turn. *)
Definition host_connect (n : nat) (answer : result unit Z) (p : Pipe) : Pipe :=
  match answer with
  | Ok _ => spawn_pump n p
  | Err e => if e =? ERROR_PIPE_CONNECTED then spawn_pump n p
             else close_instance n p <| pi_host := Accepting |>
  end.

(** ** A connection *)

Section conn.
Context {Rq : IpcJson Request} {Rs : IpcJson Response} (version : string).

(** [Read for PipeInstance] *)
Definition instance_read (answer : result (list u8) Z) : result (list u8) Z :=
  match answer with
  | Ok bytes => Ok bytes
  | Err e => if e =? ERROR_BROKEN_PIPE then Ok [] else Err e
  end.

(** The thread returns, dropping the instance. *)
Definition conn_end (n : nat) (p : Pipe) : Pipe :=
  close_instance n p <| pi_conns := delete n (pi_conns p) |>.
Definition conn_set (n : nat) (c : Conn) (p : Pipe) : Pipe := p <| pi_conns := <[n := c]> (pi_conns p) |>.

(** The outer loop of [pump]: a read, and into the inner loop. *)
Definition conn_read (n : nat) (c : Conn) (answer : result (list u8) Z) (p : Pipe) : Pipe :=
  match instance_read answer with
  | Err _ | Ok [] => conn_end n p
  | Ok bytes => conn_set n (c <| cn_reader := feed_chunk (cn_reader c) bytes |> <| cn_framing := true |>
                              <| cn_in := cn_in c ++ bytes |>) p
  end.

(** One turn of the inner loop; [wrote] is whether [write_all] succeeds. *)
Definition conn_frame (n : nat) (c : Conn) (wrote : bool) (p : Pipe) : Pipe :=
  let '(r, f) := next_frame (cn_reader c) in
  match f with
  | Ok None =>
      if MAX_FRAME_BYTES <? buffered r then conn_end n p
      else conn_set n (c <| cn_reader := r |> <| cn_framing := false |>) p
  | Ok (Some body) =>
      let '(s, reply) := answer version (pi_state p) body in
      let p := p <| pi_state := s |> <| pi_log := pi_log p ++ [(n, body)] |> in
      match reply with
      | Err _ => conn_end n p
      | Ok bytes => if wrote then conn_set n (c <| cn_reader := r |> <| cn_out := cn_out c ++ [bytes] |>) p
                    else conn_end n p
      end
  | Err _ => conn_end n p
  end.

(** ** The system *)

Inductive pipe_step : Pipe -> Pipe -> Prop :=
| ph_stop p : pipe_step p (p <| pi_stop := true |>)
| ph_create answer p : pi_host p = Accepting -> pipe_step p (host_create answer p)
| ph_connect n answer p : pi_host p = Connecting n -> pipe_step p (host_connect n answer p)
| ph_read n c answer p :
    pi_conns p !! n = Some c -> cn_framing c = false -> pipe_step p (conn_read n c answer p)
| ph_frame n c wrote p :
    pi_conns p !! n = Some c -> cn_framing c = true -> pipe_step p (conn_frame n c wrote p).

(** ** Instances *)

Definition connecting (h : Host) : gset nat := match h with Connecting n => {[n]} | _ => ∅ end.

Record pipe_inv (p : Pipe) : Prop := {
  pv_owned : pi_open p = connecting (pi_host p) ∪ dom (pi_conns p);
  pv_once : connecting (pi_host p) ## dom (pi_conns p);
  pv_old n : n ∈ pi_open p -> (n < pi_next p)%nat;
  pv_room : (size (pi_open p) <= MAX_INSTANCES)%nat;
  pv_acl : pi_object p = if decide (pi_open p = ∅) then None else Some serve_args;
}.

Lemma close_inv n p q :
  pi_open q = pi_open p ∖ {[n]} -> pi_object q = (if decide (pi_open q = ∅) then None else pi_object p) ->
  pi_next q = pi_next p -> connecting (pi_host q) = connecting (pi_host p) ∖ {[n]} ->
  dom (pi_conns q) = dom (pi_conns p) ∖ {[n]} -> pipe_inv p -> pipe_inv q.
Proof.
  intros Ho Hb Hn Hh Hc [H1 H2 H3 H4 H5]. split.
  - rewrite Ho, Hh, Hc, H1. set_solver.
  - rewrite Hh, Hc. set_solver.
  - rewrite Ho, Hn. intros m Hm. apply H3. set_solver.
  - rewrite Ho. etrans; [|exact H4]. apply subseteq_size. set_solver.
  - rewrite Hb. destruct (decide (pi_open q = ∅)) as [He|He]; [done|]. rewrite H5. rewrite decide_False; [done|].
    intros Hp. apply He. rewrite Ho, Hp. set_solver.
Qed.

(** Only the host's state, the stop flag, a connection's own data and the service change. *)
Lemma keep_inv p q :
  pi_open q = pi_open p -> pi_object q = pi_object p -> pi_next q = pi_next p ->
  connecting (pi_host q) ∪ dom (pi_conns q) = connecting (pi_host p) ∪ dom (pi_conns p) ->
  connecting (pi_host q) ## dom (pi_conns q) -> pipe_inv p -> pipe_inv q.
Proof. intros Ho Hb Hn Hu Hd [H1 _ H3 H4 H5]. split; rewrite ?Ho, ?Hb, ?Hn, ?Hu; done. Qed.

Lemma conn_end_inv n p : n ∉ connecting (pi_host p) -> pipe_inv p -> pipe_inv (conn_end n p).
Proof.
  intros Hn. apply (close_inv n); cbn; try done; [|by rewrite dom_delete_L].
  by rewrite difference_disjoint_L by set_solver.
Qed.
Lemma conn_set_inv n c p : n ∈ dom (pi_conns p) -> pipe_inv p -> pipe_inv (conn_set n c p).
Proof.
  intros Hn Hp. apply (keep_inv p); cbn; try done; rewrite ?dom_insert_L.
  - set_solver.
  - destruct Hp as [_ H2 _ _ _]. set_solver.
Qed.
Lemma spawn_inv n p : pi_host p = Connecting n -> pipe_inv p -> pipe_inv (spawn_pump n p).
Proof.
  intros Hh Hp. apply (keep_inv p); cbn; try done; rewrite ?Hh, ?dom_insert_L; cbn; set_solver.
Qed.

Lemma host_create_inv ans p : pi_host p = Accepting -> pipe_inv p -> pipe_inv (host_create ans p).
Proof.
  intros Hh Hp. unfold host_create, CreateNamedPipeW. destruct (pi_stop p).
  { by apply (keep_inv p); cbn; rewrite ?Hh. }
  assert (default serve_args (pi_object p) = serve_args) as ->
    by (rewrite (pv_acl p Hp); by case_decide).
  destruct (Nat.leb_spec (pa_max_instances serve_args) (size (pi_open p))) as [|Hroom].
  { by apply (keep_inv p); cbn; rewrite ?Hh; cbn. }
  destruct ans as [[]|e]; [|by apply (keep_inv p); cbn; rewrite ?Hh; cbn].
  destruct Hp as [H1 H2 H3 H4 H5]. assert (pi_next p ∉ pi_open p) as Hf by (intros H%H3; lia).
  rewrite Hh in H1. split; cbn.
  - set_solver.
  - rewrite H1 in Hf. set_solver.
  - intros m [->%elem_of_singleton|Hm%H3]%elem_of_union; lia.
  - rewrite size_union, size_singleton by set_solver. cbn in Hroom. lia.
  - by rewrite decide_False by set_solver.
Qed.

Lemma pipe_step_inv p q : pipe_step p q -> pipe_inv p -> pipe_inv q.
Proof.
  intros [r|ans r Hh|n ans r Hh|n c ans r Hc Hf|n c w r Hc Hf] Hp.
  - by apply (keep_inv r); try done; destruct Hp.
  - by apply host_create_inv.
  - unfold host_connect. destruct ans as [[]|e]; [by apply spawn_inv|].
    destruct (e =? _); [by apply spawn_inv|].
    apply (close_inv n r); cbn; try done; rewrite ?Hh; cbn; [set_solver|].
    destruct Hp as [_ H2 _ _ _]. rewrite Hh in H2. set_solver.
  - assert (n ∈ dom (pi_conns r)) as Hn by by eapply elem_of_dom_2.
    assert (n ∉ connecting (pi_host r)) by (destruct Hp as [_ H2 _ _ _]; set_solver).
    unfold conn_read. destruct (instance_read ans) as [[|b l]|]; by (apply conn_end_inv || apply conn_set_inv).
  - assert (n ∈ dom (pi_conns r)) as Hn by by eapply elem_of_dom_2.
    assert (n ∉ connecting (pi_host r)) by (destruct Hp as [_ H2 _ _ _]; set_solver).
    unfold conn_frame. destruct (next_frame (cn_reader c)) as [rd [[body|]|]].
    + destruct (answer version (pi_state r) body) as [s [bytes|]].
      * destruct w; (apply conn_set_inv || apply conn_end_inv); try done; by apply (keep_inv r); try done; destruct Hp.
      * apply conn_end_inv; [done|]. by apply (keep_inv r); try done; destruct Hp.
    + case_match; by (apply conn_end_inv || apply conn_set_inv).
    + by apply conn_end_inv.
Qed.

(** An accepting thread that has returned accepts nobody. *)
Lemma pipe_step_ended p q r :
  pipe_step p q -> pi_host p = Ended r -> pi_host q = Ended r /\ dom (pi_conns q) ⊆ dom (pi_conns p).
Proof.
  intros [s|ans s Hh|n ans s Hh|n c ans s Hc Hf|n c w s Hc Hf] He; try congruence; [done| |].
  - apply elem_of_dom_2 in Hc. unfold conn_read. destruct (instance_read ans) as [[|b l]|];
      (split; [exact He|]); cbn; rewrite ?dom_delete_L, ?dom_insert_L; set_solver.
  - apply elem_of_dom_2 in Hc. unfold conn_frame. destruct (next_frame _) as [rd [[body|]|]];
      [destruct (answer _ _ _) as [t [bytes|]]; [destruct w|]|case_match|];
      (split; [exact He|]); cbn; rewrite ?dom_delete_L, ?dom_insert_L; set_solver.
Qed.

(** C32: The pipe's instances are accounted for: at any time each one is owned by the
    accepting thread or by exactly one connection, there are never more than eight, all
    under the security descriptor and flags of [serve]; and when the accepting thread
    has returned (as it does when an instance is wanted while eight exist) no connection
    is ever added. *)
Theorem pipe_instances_accounted from_sddl s0 p :
  rtc pipe_step (serve_start from_sddl s0) p ->
  pi_open p = connecting (pi_host p) ∪ dom (pi_conns p) /\ connecting (pi_host p) ## dom (pi_conns p) /\
  (size (pi_open p) <= MAX_INSTANCES)%nat /\
  (pi_open p <> ∅ -> pi_object p = Some serve_args) /\
  (pi_host p = Accepting -> pi_stop p = false -> size (pi_open p) = MAX_INSTANCES ->
   forall ans, pi_host (host_create ans p) = Ended (Err ERROR_PIPE_BUSY)) /\
  (forall r q, pi_host p = Ended r -> rtc pipe_step p q ->
   pi_host q = Ended r /\ dom (pi_conns q) ⊆ dom (pi_conns p)).
Proof.
  intros Hr. assert (pipe_inv p) as [H1 H2 H3 H4 H5].
  { assert (pipe_inv (serve_start from_sddl s0)) as H0.
    { split; cbn; try (destruct from_sddl as [[]|]; set_solver). rewrite size_empty. lia. }
    induction Hr as [p|p q q' Hs _ IH]; [done|]. apply IH. by eapply pipe_step_inv. }
  split_and!; [done|done|done| | |].
  - intros Hne. by rewrite H5, decide_False.
  - intros Hh Hst Hsz ans. unfold host_create, CreateNamedPipeW. rewrite Hst.
    assert (default serve_args (pi_object p) = serve_args) as -> by (rewrite H5; by case_decide).
    by rewrite Hsz.
  - intros r q He Hq. clear - He Hq. induction Hq as [p|p p' q Hs _ IH]; [done|].
    destruct (pipe_step_ended _ _ _ Hs He) as [He' Hsub]. destruct (IH He') as [? ?]. split; [done|set_solver].
Qed.

(** ** Requests *)

(** One agent at a time: the frames of all connections answered in one sequence. *)
Fixpoint serve_all (s : ServiceState) (log : list (nat * list u8))
    : ServiceState * list (nat * result (list u8) IpcError) :=
  match log with
  | [] => (s, [])
  | (n, body) :: log =>
      let '(s, r) := answer version s body in let '(s, rs) := serve_all s log in (s, (n, r) :: rs)
  end.
Definition of_conn {A} (n : nat) (l : list (nat * A)) : list A :=
  omap (fun p => if decide (p.1 = n) then Some p.2 else None) l.

Lemma serve_all_snoc s log n body :
  serve_all s (log ++ [(n, body)]) =
  ((answer version (serve_all s log).1 body).1,
   (serve_all s log).2 ++ [(n, (answer version (serve_all s log).1 body).2)]).
Proof.
  revert s. induction log as [|[m b] log IH]; intros s; cbn [serve_all app].
  - cbn. by destruct (answer version s body).
  - destruct (answer version s b) as [s1 r]. rewrite IH. by destruct (serve_all s1 log).
Qed.
Lemma of_conn_snoc {A} n m (x : A) l : of_conn n (l ++ [(m, x)]) = of_conn n l ++ if decide (m = n) then [x] else [].
Proof. unfold of_conn. rewrite omap_app. cbn. by case_decide. Qed.
Lemma of_conn_answers s log n : length (of_conn n (serve_all s log).2) = length (of_conn n log).
Proof.
  revert s. induction log as [|[m b] log IH]; intros s; [done|]. cbn [serve_all].
  destruct (answer version s b) as [s1 r]. specialize (IH s1). destruct (serve_all s1 log). cbn in *.
  unfold of_conn in *. cbn. case_decide; cbn; by rewrite IH.
Qed.

Lemma drain_step r r' b :
  next_frame r = (r', Ok (Some b)) ->
  drain_all r = let '(fs, r2, e) := drain_all r' in (b :: fs, r2, e).
Proof.
  intros H. unfold drain_all at 1. cbn [drain]. rewrite H. pose proof (next_frame_stable r []) as Hs.
  rewrite H in Hs. destruct Hs as [_ Hl]. by rewrite (drain_fuel _ (S (length (buf r')))) by lia.
Qed.
Lemma drain_none r : next_frame r = (r, Ok None) -> drain_all r = ([], r, None).
Proof. intros H. unfold drain_all. cbn [drain]. by rewrite H. Qed.

(** What a connection has answered and what it still holds make up what it received. *)
Definition conn_ok (s0 : ServiceState) (log : list (nat * list u8)) (n : nat) (c : Conn) : Prop :=
  Ok <$> cn_out c = of_conn n (serve_all s0 log).2 /\
  drain_all {| buf := cn_in c |} =
    (let '(fs, r, e) := drain_all (cn_reader c) in (of_conn n log ++ fs, r, e)) /\
  (cn_framing c = false -> next_frame (cn_reader c) = (cn_reader c, Ok None)).

Record serial_inv (s0 : ServiceState) (p : Pipe) : Prop := {
  sv_state : pi_state p = (serve_all s0 (pi_log p)).1;
  sv_conn n c : pi_conns p !! n = Some c -> conn_ok s0 (pi_log p) n c;
  sv_fresh n : (pi_next p <= n)%nat \/ pi_host p = Connecting n -> of_conn n (pi_log p) = [];
}.

Lemma conn_ok_other s0 log m b n c : m <> n -> conn_ok s0 log n c -> conn_ok s0 (log ++ [(m, b)]) n c.
Proof.
  intros Hne. unfold conn_ok. rewrite serve_all_snoc. cbn [fst snd].
  by rewrite !of_conn_snoc, !decide_False, !(right_id_L [] (++)) by done.
Qed.

Lemma conn_ok_read s0 log n c bytes :
  cn_framing c = false -> conn_ok s0 log n c ->
  conn_ok s0 log n (c <| cn_reader := feed_chunk (cn_reader c) bytes |> <| cn_framing := true |>
                      <| cn_in := cn_in c ++ bytes |>).
Proof.
  intros Hf (H1 & H2 & H3). specialize (H3 Hf). rewrite (drain_none _ H3), (right_id_L [] (++)) in H2.
  split; [done|]. split; [|done]. cbn [cn_in cn_reader upd].
  change {| buf := cn_in c ++ bytes |} with (feed_chunk {| buf := cn_in c |} bytes).
  rewrite drain_app, H2. done.
Qed.

Lemma conn_ok_frame s0 log n c rd body bytes :
  next_frame (cn_reader c) = (rd, Ok (Some body)) -> cn_framing c = true ->
  (answer version (serve_all s0 log).1 body).2 = Ok bytes -> conn_ok s0 log n c ->
  conn_ok s0 (log ++ [(n, body)]) n (c <| cn_reader := rd |> <| cn_out := cn_out c ++ [bytes] |>).
Proof.
  intros Hn Hf Ha (H1 & H2 & _). unfold conn_ok. cbn [cn_in cn_reader cn_out cn_framing upd].
  rewrite serve_all_snoc, of_conn_snoc. cbn [fst snd]. rewrite of_conn_snoc, !decide_True, fmap_app, H1, Ha by done.
  split; [done|]. split; [|congruence]. rewrite H2, (drain_step _ _ _ Hn).
  destruct (drain_all rd) as [[fs r2] e]. by rewrite <- (assoc_L (++)).
Qed.

Lemma conn_end_serial s0 n p : serial_inv s0 p -> serial_inv s0 (conn_end n p).
Proof.
  intros [H1 H2 H3]. split; [done| |done]. intros m c. cbn. intros [_ Hm]%lookup_delete_Some. by apply H2.
Qed.
Lemma conn_set_serial s0 n c p : conn_ok s0 (pi_log p) n c -> serial_inv s0 p -> serial_inv s0 (conn_set n c p).
Proof.
  intros Hc [H1 H2 H3]. split; [done| |done]. intros m d. cbn.
  intros [[<- <-]|[_ Hm]]%lookup_insert_Some; [done|]. by apply H2.
Qed.
Lemma spawn_serial s0 n p : pi_host p = Connecting n -> serial_inv s0 p -> serial_inv s0 (spawn_pump n p).
Proof.
  intros Hh [H1 H2 H3]. assert (of_conn n (pi_log p) = []) as Hf by (apply H3; by right). split; [done| |].
  - intros m c. cbn. intros [[<- <-]|[_ Hm]]%lookup_insert_Some; [|by apply H2]. split_and!; [|cbn; by rewrite Hf|done].
    pose proof (of_conn_answers s0 (pi_log p) n) as Hl. rewrite Hf in Hl. apply nil_length_inv in Hl. by rewrite Hl.
  - cbn. intros m [Hm|Hm]; [|done]. apply H3. by left.
Qed.

Lemma conns_end n p : pi_conns (conn_end n p) = delete n (pi_conns p).
Proof. done. Qed.
Lemma conns_set n c p : pi_conns (conn_set n c p) = <[n := c]> (pi_conns p).
Proof. done. Qed.

(** A frame of connection [n] has been answered. *)
Lemma logged_serial s0 n body p q :
  (n < pi_next p)%nat -> pi_host p <> Connecting n -> serial_inv s0 p ->
  pi_state q = (answer version (pi_state p) body).1 -> pi_log q = pi_log p ++ [(n, body)] ->
  pi_host q = pi_host p -> pi_next q = pi_next p -> delete n (pi_conns q) = delete n (pi_conns p) ->
  (forall c, pi_conns q !! n = Some c -> conn_ok s0 (pi_log p ++ [(n, body)]) n c) -> serial_inv s0 q.
Proof.
  intros Hn Hh [H1 H2 H3] Qs Ql Qh Qn Qc Qo. split; rewrite ?Qs, ?Ql, ?Qh, ?Qn.
  - by rewrite serve_all_snoc, H1.
  - intros m c Hm. destruct (decide (m = n)) as [->|Hne]; [by apply Qo|]. apply conn_ok_other; [done|]. apply H2.
    by rewrite <- (lookup_delete_ne _ n), <- Qc, lookup_delete_ne.
  - intros m Hm. rewrite of_conn_snoc, H3 by done. rewrite decide_False; [done|]. intros ->. destruct Hm; [lia|done].
Qed.

Lemma pipe_step_serial s0 p q : pipe_step p q -> pipe_inv p -> serial_inv s0 p -> serial_inv s0 q.
Proof.
  intros [r|ans r Hh|n ans r Hh|n c ans r Hc Hf|n c w r Hc Hf] Hp Hv.
  - by destruct Hv.
  - destruct Hv as [H1 H2 H3]. unfold host_create, CreateNamedPipeW. destruct (pi_stop r).
    { split; [done|done|]. cbn. intros m [Hm|Hm]; [apply H3; by left|done]. }
    destruct (_ <=? _)%nat; [|destruct ans as [[]|]]; (split; [done|done|]); cbn; intros m [Hm|Hm]; simplify_eq; apply H3; left; lia.
  - unfold host_connect. destruct ans as [[]|e]; [by apply spawn_serial|]. destruct (e =? _); [by apply spawn_serial|].
    destruct Hv as [H1 H2 H3]. split; [done|done|]. cbn. intros m [Hm|Hm]; [apply H3; by left|done].
  - unfold conn_read. destruct (instance_read ans) as [[|b l]|]; try by apply conn_end_serial.
    apply conn_set_serial; [|done]. apply conn_ok_read; [done|]. by apply (sv_conn _ _ Hv).
  - apply elem_of_dom_2 in Hc as Hd. assert (n < pi_next r)%nat as Hlt by (apply (pv_old _ Hp); rewrite (pv_owned _ Hp); set_solver).
    assert (pi_host r <> Connecting n) as Hh by (intros Hh; pose proof (pv_once _ Hp) as Ho; rewrite Hh in Ho; cbn in Ho; set_solver).
    pose proof (sv_conn _ _ Hv n c Hc) as Hok. unfold conn_frame.
    destruct (next_frame (cn_reader c)) as [rd [[body|]|]] eqn:Hnf; [| |by apply conn_end_serial].
    + destruct (answer version (pi_state r) body) as [s reply] eqn:Ha.
      assert (s = (answer version (pi_state r) body).1) as Hs by by rewrite Ha.
      destruct reply as [bytes|]; [destruct w|]; apply (logged_serial s0 n body r); try done;
        rewrite ?conns_end, ?conns_set, ?delete_insert_eq, ?delete_delete_eq; try done;
        intros d; rewrite ?lookup_insert_eq, ?lookup_delete_eq; [|done..]. intros [= <-].
      eapply conn_ok_frame; [exact Hnf|exact Hf| |exact Hok]. by rewrite <- (sv_state _ _ Hv), Ha.
    + pose proof (next_frame_stable (cn_reader c) []) as Hs. rewrite Hnf in Hs. subst rd.
      case_match; [by apply conn_end_serial|]. apply conn_set_serial; [|done].
      destruct Hok as (O1 & O2 & _). split_and!; [done|done|]. intros _. exact Hnf.
Qed.

(** C19: However the connections interleave, the service behaves as if their requests had
    been handled one after the other: its state is that of answering the frames in one
    sequence; each connection has had written exactly the replies its own frames got in
    it, in the order it sent them, and its frames in it are, from the front, those
    delimited in the bytes it sent: all of them once it waits for more. *)
Theorem pipe_requests_serialise from_sddl s0 p :
  rtc pipe_step (serve_start from_sddl s0) p ->
  pi_state p = (serve_all s0 (pi_log p)).1 /\
  forall n c, pi_conns p !! n = Some c ->
    Ok <$> cn_out c = of_conn n (serve_all s0 (pi_log p)).2 /\
    of_conn n (pi_log p) `prefix_of` (drain_all {| buf := cn_in c |}).1.1 /\
    (cn_framing c = false -> of_conn n (pi_log p) = (drain_all {| buf := cn_in c |}).1.1).
Proof.
  intros Hr. assert (pipe_inv (serve_start from_sddl s0)) as H0.
  { split; cbn; try (destruct from_sddl as [[]|]; set_solver). rewrite size_empty. lia. }
  assert (serial_inv s0 (serve_start from_sddl s0)) as V0 by (split; done).
  assert (serial_inv s0 p) as [H1 H2 _].
  { induction Hr as [p|p q q' Hs _ IH]; [done|]. apply IH; [by eapply pipe_step_inv|by eapply pipe_step_serial]. }
  split; [done|]. intros n c Hc. destruct (H2 n c Hc) as (O1 & O2 & O3). rewrite O2. split; [done|].
  destruct (drain_all (cn_reader c)) as [[fs r] e] eqn:Hd. cbn. split; [by eexists|].
  intros Hf. rewrite (drain_none _ (O3 Hf)) in Hd. injection Hd as <- _ _. by rewrite (right_id_L [] (++)).
Qed.
End conn.

(** ** Schedules *)

Inductive PipeCmd :=
| CStop | CCreate (answer : result unit Z) | CConnect (answer : result unit Z)
| CRead (n : nat) (answer : result (list u8) Z) | CFrame (n : nat) (wrote : bool).

Section schedule.
Context {Rq : IpcJson Request} {Rs : IpcJson Response} (version : string).

(** A transition by name; [None] where that thread cannot make it. *)
Definition pipe_do (p : Pipe) (c : PipeCmd) : option Pipe :=
  match c with
  | CStop => Some (p <| pi_stop := true |>)
  | CCreate a => match pi_host p with Accepting => Some (host_create a p) | _ => None end
  | CConnect a => match pi_host p with Connecting n => Some (host_connect n a p) | _ => None end
  | CRead n a => c ← pi_conns p !! n; if cn_framing c then None else Some (conn_read n c a p)
  | CFrame n w => c ← pi_conns p !! n; if cn_framing c then Some (conn_frame version n c w p) else None
  end.
Fixpoint pipe_run (p : Pipe) (l : list PipeCmd) : option Pipe :=
  match l with [] => Some p | c :: l => p ← pipe_do p c; pipe_run p l end.

Lemma pipe_do_step p c q : pipe_do p c = Some q -> pipe_step version p q.
Proof.
  destruct c as [|a|a|n a|n w]; cbn.
  - intros [= <-]. constructor.
  - destruct (pi_host p) eqn:H; [|done..]. intros [= <-]. by constructor.
  - destruct (pi_host p) eqn:H; [done| |done]. intros [= <-]. by constructor.
  - destruct (pi_conns p !! n) as [c|] eqn:H; [|done]. cbn. destruct (cn_framing c) eqn:Hf; [done|].
    intros [= <-]. by constructor.
  - destruct (pi_conns p !! n) as [c|] eqn:H; [|done]. cbn. destruct (cn_framing c) eqn:Hf; [|done].
    intros [= <-]. by constructor.
Qed.
Lemma pipe_run_steps p l q : pipe_run p l = Some q -> rtc (pipe_step version) p q.
Proof.
  revert p. induction l as [|c l IH]; intros p; cbn; [by intros [= <-]|].
  destruct (pipe_do p c) as [p'|] eqn:H; [|done]. cbn. intros Hr.
  eapply rtc_l; [by eapply pipe_do_step|]. by apply IH.
Qed.
End schedule.

#[local] Existing Instance demo_request_json.
#[local] Existing Instance demo_response_json.

(** Two agents connect; the second asks for an update check while the first has sent
    half of the same request; both are answered. *)
Definition two_agents_schedule : list PipeCmd :=
  [CCreate (Ok tt); CConnect (Ok tt); CCreate (Ok tt); CConnect (Err ERROR_PIPE_CONNECTED);
   CRead 0 (Ok (take 3 demo_frame)); CRead 1 (Ok demo_frame); CFrame 1 true; CFrame 0 true;
   CRead 0 (Ok (drop 3 demo_frame)); CFrame 0 true].
Definition two_agents : Pipe :=
  default (serve_start (Ok tt) demo_service)
    (pipe_run "0.1.0" (serve_start (Ok tt) demo_service) two_agents_schedule).

Lemma two_agents_reachable : rtc (pipe_step "0.1.0") (serve_start (Ok tt) demo_service) two_agents.
Proof. apply (pipe_run_steps _ _ two_agents_schedule). vm_compute. reflexivity. Qed.

Lemma pipe_requests_serialise_witness :
  (pi_log two_agents).*1 = [1; 0]%nat /\
  pi_state two_agents = (serve_all "0.1.0" demo_service (pi_log two_agents)).1.
Proof.
  split; [vm_compute; reflexivity|].
  exact (proj1 (pipe_requests_serialise "0.1.0" (Ok tt) demo_service _ two_agents_reachable)).
Defined.

Lemma pipe_instances_accounted_witness :
  pi_host two_agents = Accepting /\ pi_open two_agents = connecting (pi_host two_agents) ∪ dom (pi_conns two_agents).
Proof.
  split; [vm_compute; reflexivity|].
  exact (proj1 (pipe_instances_accounted "0.1.0" (Ok tt) demo_service _ two_agents_reachable)).
Defined.

(** Eight agents connected, and the host gives up for good. *)
Example ninth_instance_ends_the_host :
  let accept p n := host_connect n (Ok tt) (host_create (Ok tt) p) in
  let p := foldl accept (serve_start (Ok tt) demo_service) (seq 0 8) in
  size (pi_open p) = 8%nat /\ pi_host (host_create (Ok tt) p) = Ended (Err ERROR_PIPE_BUSY).
Proof. vm_compute. done. Qed.
