(* ===== verification/Shell.v ===== *)
(** The widget's windows: the one WebView2 is to live in
    (sentinel-agent/src/widget/webview2.rs) and the one without a window
    (widget/mod.rs, [HeadlessWidget]).

    Win32 is the class [Win32]. The window procedure reaches a widget only through the
    process-wide slot [SHARED], so the shared cells are a store of their own. *)

From S2P Require Import Prelude Text Widget.

(** ** Headless *)

Record HeadlessWidget := {
  hw_last_state : option WidgetState;
  hw_pending_calls : list HostCall;
  hw_rect : Rect;
  hw_visible : bool;
}.
#[export] Instance HeadlessWidget_rebuild : Rebuild HeadlessWidget := fun w =>
  {| hw_last_state := hw_last_state w; hw_pending_calls := hw_pending_calls w;
     hw_rect := hw_rect w; hw_visible := hw_visible w |}.
Definition HeadlessWidget_default : HeadlessWidget :=
  {| hw_last_state := None; hw_pending_calls := []; hw_rect := DEFAULT_RECT; hw_visible := false |}.

#[export] Instance headless_shell : WidgetShell HeadlessWidget := {|
  post_state w s := (w <| hw_last_state := Some s |>, Ok tt);
  drain_host_calls w := (w <| hw_pending_calls := [] |>, hw_pending_calls w);
|}.

(** The rest of [trait WidgetShell]. *)
Class WidgetWindow (W : Type) := {
  set_position : W -> Rect -> W * result unit string;
  position : W -> Rect;
  show : W -> W * result unit string;
  hide : W -> W * result unit string;
}.
#[export] Instance headless_window : WidgetWindow HeadlessWidget := {|
  set_position w r := (w <| hw_rect := r |>, Ok tt);
  position := hw_rect;
  show w := (w <| hw_visible := true |>, Ok tt);
  hide w := (w <| hw_visible := false |>, Ok tt);
|}.

(** ** Win32 *)

Record RECT := { left_ : Z; top_ : Z; right_ : Z; bottom_ : Z }.
Definition of_RECT (r : RECT) : Rect :=
  {| rx := left_ r; ry := top_ r; rwidth := right_ r - left_ r; rheight := bottom_ r - top_ r |}.

Definition WS_EX_TOPMOST : Z := 0x8.
Definition WS_EX_TOOLWINDOW : Z := 0x80.
Definition WS_POPUP : Z := 0x80000000.
Definition WS_VISIBLE : Z := 0x10000000.
Definition HWND_TOPMOST : Z := -1.
Definition SWP_NOSIZE : Z := 0x1.
Definition SWP_NOMOVE : Z := 0x2.
Definition SWP_NOACTIVATE : Z := 0x10.
Definition SW_HIDE : Z := 0.
Definition SW_SHOWNOACTIVATE : Z := 4.
Definition WM_DESTROY : Z := 0x2.
Definition WM_NCHITTEST : Z := 0x84.
Definition WM_NCLBUTTONDOWN : Z := 0xA1.
Definition WM_EXITSIZEMOVE : Z := 0x232.
Definition HTCLIENT : Z := 1.
Definition HTCAPTION : Z := 2.

Class Win32 (W : Type) := {
  CreateWindowExW : W -> Z -> Z -> Rect -> W * result Z string;
  GetWindowRect : W -> Z -> option RECT;
  (** [MonitorFromWindow] and [GetMonitorInfoW]: [rcWork] *)
  GetMonitorInfoW : W -> Z -> option RECT;
  SetWindowPos : W -> Z -> Z -> Rect -> Z -> W * result unit string;
  ShowWindow : W -> Z -> Z -> W;
  PostMessageW : W -> Z -> Z -> Z -> Z -> W;
  DestroyWindow : W -> Z -> W;
  DefWindowProcW : W -> Z -> Z -> Z -> Z -> W * Z;
}.

(** ** The widget *)

Record Shared := { inbox : list HostCall; moved : bool }.
#[export] Instance Shared_rebuild : Rebuild Shared := fun s => {| inbox := inbox s; moved := moved s |}.
Definition Shared_default : Shared := {| inbox := []; moved := false |}.

(** The process: Windows, the shared cells, and the slot of the window procedure. *)
Record Proc (W : Type) := { os : W; cells : list Shared; SHARED : option nat }.
Arguments os {W}. Arguments cells {W}. Arguments SHARED {W}. Arguments Build_Proc {W}.
#[export] Instance Proc_rebuild {W} : Rebuild (Proc W) := fun p =>
  {| os := os p; cells := cells p; SHARED := SHARED p |}.

Record WebView2Widget := { hwnd : Z; shared : nat; wv_rect : Rect }.
#[export] Instance WebView2Widget_rebuild : Rebuild WebView2Widget := fun w =>
  {| hwnd := hwnd w; shared := shared w; wv_rect := wv_rect w |}.

Section webview2.
Context {W : Type} `{!Win32 W}.

(** [SHARED.set] keeps the first cell. *)
Definition create (r : Rect) (p : Proc W) : Proc W * result WebView2Widget string :=
  let '(w, h) := CreateWindowExW (os p) (Z.lor WS_EX_TOPMOST WS_EX_TOOLWINDOW) (Z.lor WS_POPUP WS_VISIBLE) r in
  match h with
  | Err e => (p <| os := w |>, Err e)
  | Ok hwnd =>
      let cell := length (cells p) in
      ({| os := w; cells := cells p ++ [Shared_default];
          SHARED := match SHARED p with Some c => Some c | None => Some cell end |},
       Ok {| hwnd := hwnd; shared := cell; wv_rect := r |})
  end.

Definition current_rect (wd : WebView2Widget) (p : Proc W) : Rect :=
  match GetWindowRect (os p) (hwnd wd) with None => wv_rect wd | Some r => of_RECT r end.
Definition work_area (wd : WebView2Widget) (p : Proc W) : Rect :=
  match GetMonitorInfoW (os p) (hwnd wd) with Some r => of_RECT r | None => current_rect wd p end.

Definition wv_set_position (r : Rect) (wd : WebView2Widget) (p : Proc W)
    : Proc W * WebView2Widget * result unit string :=
  let '(w, x) := SetWindowPos (os p) (hwnd wd) HWND_TOPMOST r SWP_NOACTIVATE in
  match x with
  | Err e => (p <| os := w |>, wd, Err e)
  | Ok _ => (p <| os := w |>, wd <| wv_rect := r |>, Ok tt)
  end.

Definition cell_of (c : nat) (p : Proc W) : Shared := default Shared_default (cells p !! c).
Definition set_cell (c : nat) (s : Shared) (p : Proc W) : Proc W := p <| cells := <[c := s]> (cells p) |>.

Definition take_drag_result (wd : WebView2Widget) (p : Proc W) : Proc W * WebView2Widget * option Rect :=
  let s := cell_of (shared wd) p in
  let p := set_cell (shared wd) (s <| moved := false |>) p in
  if negb (moved s) then (p, wd, None)
  else
    let snapped := snap_to_edge (current_rect wd p) (work_area wd p) SNAP_THRESHOLD in
    let '(p, wd, _) := wv_set_position snapped wd p in
    (p, wd, Some snapped).

Definition begin_drag (wd : WebView2Widget) (p : Proc W) : Proc W :=
  p <| os := PostMessageW (os p) (hwnd wd) WM_NCLBUTTONDOWN HTCAPTION 0 |>.
Definition push_host_call (c : HostCall) (wd : WebView2Widget) (p : Proc W) : Proc W :=
  let s := cell_of (shared wd) p in set_cell (shared wd) (s <| inbox := inbox s ++ [c] |>) p.
Definition wv_drain_host_calls (wd : WebView2Widget) (p : Proc W) : Proc W * list HostCall :=
  let s := cell_of (shared wd) p in (set_cell (shared wd) (s <| inbox := [] |>) p, inbox s).
Definition attach_webview : result unit string :=
  Err "WebView2 host not implemented: WebView2 SDK bindings unavailable".
(** The state is serialized and goes no further. *)
Definition wv_post_state (json : WidgetState -> result string string) (s : WidgetState) : result unit string :=
  let? _ := json s in Ok tt.
Definition wv_position (wd : WebView2Widget) : Rect := wv_rect wd.
Definition zero_rect : Rect := {| rx := 0; ry := 0; rwidth := 0; rheight := 0 |}.
Definition wv_show (wd : WebView2Widget) (p : Proc W) : Proc W * result unit string :=
  let w := ShowWindow (os p) (hwnd wd) SW_SHOWNOACTIVATE in
  let '(w, r) := SetWindowPos w (hwnd wd) HWND_TOPMOST zero_rect (Z.lor (Z.lor SWP_NOMOVE SWP_NOSIZE) SWP_NOACTIVATE) in
  (p <| os := w |>, r).
Definition wv_hide (wd : WebView2Widget) (p : Proc W) : Proc W * result unit string :=
  (p <| os := ShowWindow (os p) (hwnd wd) SW_HIDE |>, Ok tt).
Definition drop_widget (wd : WebView2Widget) (p : Proc W) : Proc W :=
  p <| os := DestroyWindow (os p) (hwnd wd) |>.

(** [wnd_proc]; [SHARED]'s cell need not be this window's. *)
Definition wnd_proc (h msg wparam lparam : Z) (p : Proc W) : Proc W * Z :=
  if msg =? WM_NCHITTEST then
    let '(w, hit) := DefWindowProcW (os p) h msg wparam lparam in
    (p <| os := w |>, if hit =? HTCLIENT then HTCAPTION else hit)
  else if msg =? WM_EXITSIZEMOVE then
    (match SHARED p with
     | Some c => set_cell c ((cell_of c p) <| moved := true |>) p
     | None => p
     end, 0)
  else if msg =? WM_DESTROY then (p, 0)
  else let '(w, r) := DefWindowProcW (os p) h msg wparam lparam in (p <| os := w |>, r).
End webview2.

Definition point_in (r : Rect) (px py : Z) : bool :=
  (rx r <=? px) && (px <? right r) && (ry r <=? py) && (py <? bottom r).

(** ** A dragged widget *)

(** What Windows promises of the window: it is where it was last put. *)
Class Win32Laws (W : Type) `{!Win32 W} :=
  moved_there w h after r w' : SetWindowPos w h after r SWP_NOACTIVATE = (w', Ok tt) ->
    0 <= rwidth r -> 0 <= rheight r -> of_RECT <$> GetWindowRect w' h = Some r.

Section drag.
Context {W : Type} `{!Win32 W} `{!Win32Laws W}.
Implicit Types (p q : Proc W) (wd : WebView2Widget).

Lemma cell_set c s p : (c < length (cells p))%nat -> cell_of c (set_cell c s p) = s.
Proof. intros Hc. unfold cell_of, set_cell. cbn. by rewrite list_lookup_insert_eq. Qed.

Lemma not_moved wd p : moved (cell_of (shared wd) p) = false -> (take_drag_result wd p).2 = None.
Proof. intros H. unfold take_drag_result. by rewrite H. Qed.

(** A widget that was dragged stays where its indicator is seen: the end of a drag is
    taken up exactly once, the position handed out for keeping has the window's size and,
    when the window fits the work area, lies inside it within the snapping distance of
    where it was dropped inside it; and where Windows moves the window, the window is
    there and the widget knows. *)
Theorem dragged_widget_stays_visible wd p q wd' r :
  (shared wd < length (cells p))%nat -> take_drag_result wd p = (q, wd', r) ->
  let work := work_area wd p in
  let at_ := current_rect wd p in
  0 <= rwidth work -> 0 <= rheight work -> 0 <= rwidth at_ -> 0 <= rheight at_ ->
  (take_drag_result wd' q).2 = None /\
  match r with
  | None => moved (cell_of (shared wd) p) = false /\ wd' = wd /\ os q = os p
  | Some s =>
      moved (cell_of (shared wd) p) = true /\ rwidth s = rwidth at_ /\ rheight s = rheight at_ /\
      (rwidth at_ <= rwidth work -> rheight at_ <= rheight work -> inside s work) /\
      (inside at_ work -> Z.abs (rx s - rx at_) <= SNAP_THRESHOLD /\ Z.abs (ry s - ry at_) <= SNAP_THRESHOLD) /\
      ((SetWindowPos (os p) (hwnd wd) HWND_TOPMOST s SWP_NOACTIVATE).2 = Ok tt ->
       current_rect wd' q = s /\ wv_position wd' = s)
  end.
Proof.
  intros Hc Ht work at_ Hw Hh Hx Hy. unfold take_drag_result in Ht. set (s := cell_of (shared wd) p) in *.
  set (p1 := set_cell (shared wd) (s <| moved := false |>) p) in *.
  assert (forall x : Proc W, cells x = cells p1 -> moved (cell_of (shared wd) x) = false) as Hoff.
  { intros x Hcx. unfold cell_of. rewrite Hcx. fold (cell_of (shared wd) p1). unfold p1. by rewrite cell_set. }
  destruct (moved s) eqn:Hm; cbn [negb] in Ht.
  2: { injection Ht as <- <- <-. split; [|done]. by apply not_moved, Hoff. }
  pose proof (snap_keeps_widget_visible at_ work SNAP_THRESHOLD Hw Hh ltac:(unfold SNAP_THRESHOLD; lia)) as Hs.
  cbv zeta in Hs. change (current_rect wd p1) with at_ in Ht. change (work_area wd p1) with work in Ht.
  set (snapped := snap_to_edge at_ work SNAP_THRESHOLD) in *. unfold wv_set_position in Ht.
  change (os p1) with (os p) in Ht. destruct Hs as (S1 & S2 & _ & _ & S5 & S6).
  destruct (SetWindowPos (os p) (hwnd wd) HWND_TOPMOST snapped SWP_NOACTIVATE) as [w [[]|e]] eqn:Hp;
    injection Ht as <- <- <-; (split; [apply not_moved, Hoff; done|]); split_and!; try done.
  - intros _. apply moved_there in Hp; [|by rewrite S1|by rewrite S2]. split; [|done].
    unfold current_rect. cbn [os upd hwnd]. destruct (GetWindowRect w (hwnd wd)); [exact (f_equal (default snapped) Hp)|done].
  - by rewrite Hp.
Qed.
End drag.

(** ** Host calls *)

(** What can happen to a widget's inbox. *)
Inductive ShellOp := Post (c : HostCall) | Drain | Message (h msg wparam lparam : Z) | TakeDrag.

Section inbox.
Context {W : Type} `{!Win32 W}.

(** The calls handed to the agent over a run. *)
Fixpoint run_shell (ops : list ShellOp) (wd : WebView2Widget) (p : Proc W) : Proc W * WebView2Widget * list HostCall :=
  match ops with
  | [] => (p, wd, [])
  | Post c :: ops => run_shell ops wd (push_host_call c wd p)
  | Drain :: ops =>
      let '(p, l) := wv_drain_host_calls wd p in
      let '(p, wd, rest) := run_shell ops wd p in (p, wd, l ++ rest)
  | Message h m a b :: ops => run_shell ops wd (wnd_proc h m a b p).1
  | TakeDrag :: ops => let '(p, wd, _) := take_drag_result wd p in run_shell ops wd p
  end.
Definition posted (ops : list ShellOp) : list HostCall :=
  omap (fun o => match o with Post c => Some c | _ => None end) ops.

Lemma inbox_kept c s (p : Proc W) d :
  inbox s = inbox (cell_of c p) -> inbox (cell_of d (set_cell c s p)) = inbox (cell_of d p).
Proof.
  intros Hs. unfold cell_of, set_cell in *. cbn. destruct (decide (c = d)) as [->|Hne].
  - destruct (decide (d < length (cells p))%nat) as [Hd|Hd].
    + by rewrite list_lookup_insert_eq.
    + by rewrite list_insert_ge by lia.
  - by rewrite list_lookup_insert_ne.
Qed.
Lemma wnd_proc_inbox h m a b (p : Proc W) d :
  inbox (cell_of d (wnd_proc h m a b p).1) = inbox (cell_of d p) /\
  length (cells (wnd_proc h m a b p).1) = length (cells p).
Proof.
  unfold wnd_proc. destruct (m =? WM_NCHITTEST); [by destruct (DefWindowProcW _ _ _ _ _)|].
  destruct (m =? WM_EXITSIZEMOVE).
  { destruct (SHARED p) as [c|]; cbn [fst]; [|done]. split; [by rewrite inbox_kept|]. cbn. by rewrite length_insert. }
  destruct (m =? WM_DESTROY); [done|]. by destruct (DefWindowProcW _ _ _ _ _).
Qed.
Lemma take_drag_inbox wd (p q : Proc W) wd' r d :
  take_drag_result wd p = (q, wd', r) ->
  inbox (cell_of d q) = inbox (cell_of d p) /\ length (cells q) = length (cells p) /\ shared wd' = shared wd.
Proof.
  unfold take_drag_result, wv_set_position. destruct (moved _); cbn [negb];
    [destruct (SetWindowPos _ _ _ _ _) as [w [[]|e]]|]; intros [= <- <- <-];
    (split; [|split; [cbn; by rewrite length_insert|done]]).
  all: pose (s := (cell_of (shared wd) p) <| moved := false |>); etrans; [|apply (inbox_kept (shared wd) s p d eq_refl)]; done.
Qed.

(** No call of the bundle is lost, repeated or reordered on its way to the agent,
    whatever the window is doing. *)
Lemma host_calls_in_order ops wd wd' (p q : Proc W) l :
  (shared wd < length (cells p))%nat -> run_shell ops wd p = (q, wd', l) ->
  l ++ inbox (cell_of (shared wd) q) = inbox (cell_of (shared wd) p) ++ posted ops.
Proof.
  revert wd p l. induction ops as [|[c| |h m a b|] ops IH]; intros wd p l Hc; cbn [run_shell].
  - intros [= <- <- <-]. cbn. by rewrite app_nil_r.
  - intros H. apply IH in H; [|cbn; by rewrite length_insert]. rewrite H. unfold push_host_call.
    rewrite cell_set by done. cbn. by rewrite <- (assoc_L (++)).
  - unfold wv_drain_host_calls. destruct (run_shell ops wd _) as [[q1 wd1] rest] eqn:H. intros [= <- <- <-].
    apply IH in H; [|cbn; by rewrite length_insert]. rewrite cell_set in H by done.
    rewrite <- (assoc_L (++)), H. done.
  - intros H. destruct (wnd_proc_inbox h m a b p (shared wd)) as [Hi Hl]. apply IH in H; [|by rewrite Hl].
    by rewrite H, Hi.
  - destruct (take_drag_result wd p) as [[p1 wd1] r] eqn:Ht.
    destruct (take_drag_inbox _ _ _ _ _ (shared wd) Ht) as (Hi & Hl & Hs). intros H.
    apply IH in H; [|by rewrite Hs, Hl]. by rewrite Hs in H; rewrite H, Hi.
Qed.
End inbox.

(** ** A desktop with one window *)

#[local] Instance one_window : Win32 (option Rect) := {|
  CreateWindowExW _ _ _ r := (Some r, Ok 7);
  GetWindowRect w _ := (fun r => {| left_ := rx r; top_ := ry r; right_ := right r; bottom_ := bottom r |}) <$> w;
  GetMonitorInfoW _ _ := Some {| left_ := 0; top_ := 0; right_ := 1920; bottom_ := 1040 |};
  SetWindowPos w _ _ r fl := (if Z.testbit fl 1 then w else Some r, Ok tt);
  ShowWindow w _ _ := w;
  PostMessageW w _ _ _ _ := w;
  DestroyWindow _ _ := None;
  DefWindowProcW w _ _ _ _ := (w, HTCLIENT);
|}.
#[local] Instance one_window_laws : Win32Laws (option Rect).
Proof.
  intros w h a [x y cx cy] w' [= <-] _ _. unfold GetWindowRect, one_window. cbn. unfold of_RECT, right, bottom. cbn.
  do 2 f_equal; lia.
Qed.

(** Dropped half off the screen, with the drag reported by the window procedure. *)
Definition dropped : Proc (option Rect) * WebView2Widget :=
  match create DEFAULT_RECT {| os := None; cells := []; SHARED := None |} with
  | (p, Ok wd) => ((wnd_proc 7 WM_EXITSIZEMOVE 0 0
      (p <| os := Some {| rx := 1800; ry := 500; rwidth := 340; rheight := 140 |} |>)).1, wd)
  | (p, Err _) => (p, {| hwnd := 0; shared := 0; wv_rect := zero_rect |})
  end.
Lemma dragged_widget_stays_visible_witness :
  exists q wd', take_drag_result dropped.2 dropped.1
    = (q, wd', Some {| rx := 1580; ry := 500; rwidth := 340; rheight := 140 |}) /\
  (take_drag_result wd' q).2 = None.
Proof.
  destruct (take_drag_result dropped.2 dropped.1) as [[q wd'] r] eqn:H. exists q, wd'. split.
  - vm_compute in H. injection H as <- <- <-. reflexivity.
  - refine (proj1 (dragged_widget_stays_visible dropped.2 dropped.1 q wd' r _ H _ _ _ _));
      vm_compute; first [discriminate | lia].
Defined.
