(* ===== verification/Activation.v ===== *)
(** Opening tier A's stream (sentinel-capture/src/windows/process_loopback.rs): the
    asynchronous activation, what is asked of the audio engine, and the event handles
    it takes; and the two kinds of stream behind one adapter
    (sentinel-agent/src/windows/capture_source.rs, [Stream]).

    COM's answers are the fields of [Activation]. Events are the open handles and the
    signalled ones among them. *)

From S2P Require Import Prelude Text Protocol Config Capture Pkce LiveSource Float Resample Endpoint.

(** ** Events *)

Record Events := { ev_open : gset Z; ev_set : gset Z }.
#[export] Instance Events_rebuild : Rebuild Events := fun e => {| ev_open := ev_open e; ev_set := ev_set e |}.

(** [CreateEventW]: a handle that is not in use, not signalled. *)
Definition create_event (h : Z) (e : Events) : Events :=
  e <| ev_open := {[h]} ∪ ev_open e |> <| ev_set := ev_set e ∖ {[h]} |>.
Definition close_event (h : Z) (e : Events) : Events :=
  e <| ev_open := ev_open e ∖ {[h]} |> <| ev_set := ev_set e ∖ {[h]} |>.
(** [ActivateCompleted]: [SetEvent] on the handle the handler was given. *)
Definition ActivateCompleted (done : Z) (e : Events) : Events :=
  if decide (done ∈ ev_open e) then e <| ev_set := {[done]} ∪ ev_set e |> else e.

(** ** What is asked for *)

Definition PROCESS_LOOPBACK_MODE_INCLUDE_TARGET_PROCESS_TREE : Z := 0.
Definition AUDIOCLIENT_ACTIVATION_TYPE_PROCESS_LOOPBACK : Z := 1.
Definition VT_BLOB_U16 : Z := 65.
Definition WAVE_FORMAT_PCM : Z := 1.
Definition ACTIVATION_TIMEOUT_MS : Z := 5000.
Definition BUFFER_DURATION : Z := 2000000.   (** in units of 100 ns *)

Record ActivationParams := { av_vt : Z; av_type : Z; av_pid : Z; av_mode : Z }.
Definition activation_params (pid : Z) : ActivationParams :=
  {| av_vt := VT_BLOB_U16; av_type := AUDIOCLIENT_ACTIVATION_TYPE_PROCESS_LOOPBACK; av_pid := pid;
     av_mode := PROCESS_LOOPBACK_MODE_INCLUDE_TARGET_PROCESS_TREE |}.

Record WaveFormat := {
  wf_tag : Z; wf_channels : Z; wf_samples_per_sec : Z; wf_bits_per_sample : Z; wf_block_align : Z;
  wf_avg_bytes_per_sec : Z; wf_cb_size : Z;
}.
Definition loopback_format : WaveFormat :=
  {| wf_tag := WAVE_FORMAT_PCM; wf_channels := 1; wf_samples_per_sec := SAMPLE_RATE; wf_bits_per_sample := 16;
     wf_block_align := 2; wf_avg_bytes_per_sec := SAMPLE_RATE * 2; wf_cb_size := 0 |}.

(** ** [ProcessLoopbackStream] *)

Record Activation := {
  ac_done : result Z string;
  ac_activate : ActivationParams -> result unit string;
  ac_wait : bool;                              (** completed within the timeout *)
  ac_result : result unit string;
  ac_hr : result unit string;
  ac_unknown : option (result unit string);    (** the interface, and its cast *)
  ac_initialize : Z -> Z -> WaveFormat -> result unit string;
  ac_event : result Z string;
  ac_set_event : result unit string;
  ac_service : result unit string;
}.
Record ProcessLoopbackStream := { pl_event : Z; pl_started : bool }.
#[export] Instance ProcessLoopbackStream_rebuild : Rebuild ProcessLoopbackStream := fun s =>
  {| pl_event := pl_event s; pl_started := pl_started s |}.

Definition loopback_flags : Z := Z.lor AUDCLNT_STREAMFLAGS_LOOPBACK AUDCLNT_STREAMFLAGS_EVENTCALLBACK.

(** From the activation's result to the initialized client. *)
Definition activated_client (a : Activation) : result unit CaptureErr :=
  let? _ := platform_err "GetActivateResult" (ac_result a) in
  let? _ := platform_err "activation failed" (ac_hr a) in
  let? cast := ok_or (ac_unknown a) (Platform "activation returned no interface") in
  let? _ := platform_err "cast to IAudioClient" cast in
  platform_err "IAudioClient::Initialize" (ac_initialize a loopback_flags BUFFER_DURATION loopback_format).

Definition loopback_open (a : Activation) (pid : Z) (e : Events) : Events * result ProcessLoopbackStream CaptureErr :=
  match ac_done a with
  | Err x => (e, platform_err "activation event" (Err x))
  | Ok done =>
      let e := create_event done e in
      match ac_activate a (activation_params pid) with
      | Err x => (e, platform_err "ActivateAudioInterfaceAsync" (Err x))
      | Ok _ =>
          if negb (ac_wait a) then (close_event done e, Err (Platform "process loopback activation timed out"))
          else
            let e := close_event done e in
            match activated_client a with
            | Err x => (e, Err x)
            | Ok _ =>
                match ac_event a with
                | Err x => (e, platform_err "capture event" (Err x))
                | Ok event =>
                    (create_event event e,
                     let? _ := platform_err "SetEventHandle" (ac_set_event a) in
                     let? _ := platform_err "GetService(IAudioCaptureClient)" (ac_service a) in
                     Ok {| pl_event := event; pl_started := false |})
                end
            end
      end
  end.

Definition try_open : Activation -> Z -> Events -> Events * result ProcessLoopbackStream CaptureErr := loopback_open.

Definition loopback_start (answer : result unit string) (s : ProcessLoopbackStream)
    : ProcessLoopbackStream * result unit CaptureErr :=
  match platform_err "IAudioClient::Start" answer with
  | Err x => (s, Err x)
  | Ok _ => (s <| pl_started := true |>, Ok tt)
  end.
(** The client is stopped first when it was started. *)
Definition drop_loopback (s : ProcessLoopbackStream) (e : Events) : Events := close_event (pl_event s) e.

(** ** Handles *)

(** The handle a failed open leaves behind: the completion event when the activation
    could not be started, the capture event when it could not be put to use. *)
Definition left_open (a : Activation) (pid : Z) : gset Z :=
  match ac_done a, ac_activate a (activation_params pid) with
  | Ok done, Err _ => {[done]}
  | Ok _, Ok _ =>
      if ac_wait a && is_ok (activated_client a) then
        match ac_event a, ac_set_event a, ac_service a with
        | Ok event, Ok _, Ok _ => ∅
        | Ok event, _, _ => {[event]}
        | _, _, _ => ∅
        end
      else ∅
  | _, _ => ∅
  end.

(** The events of an open stream are its own; dropping it returns them. A failed open
    returns all but [left_open]. *)
Lemma loopback_open_events a pid e :
  (forall h, ac_done a = Ok h -> h ∉ ev_open e) -> (forall h, ac_event a = Ok h -> h ∉ ev_open e) ->
  match loopback_open a pid e with
  | (e', Ok s) => ev_open e' = {[pl_event s]} ∪ ev_open e /\ pl_event s ∉ ev_open e /\
                  ev_open (drop_loopback s e') = ev_open e
  | (e', Err _) => ev_open e' = left_open a pid ∪ ev_open e
  end.
Proof.
  intros Hd He. unfold loopback_open, left_open. destruct (ac_done a) as [done|x]; [|cbn; set_solver].
  specialize (Hd _ eq_refl). destruct (ac_activate a _) as [[]|x]; [|cbn; set_solver].
  destruct (ac_wait a); cbn [negb andb]; [|cbn; set_solver].
  destruct (activated_client a) as [[]|x]; cbn [is_ok]; [|cbn; set_solver].
  destruct (ac_event a) as [ev|x]; [|cbn; set_solver]. specialize (He _ eq_refl).
  destruct (ac_set_event a) as [[]|x]; [|cbn; set_solver].
  destruct (ac_service a) as [[]|x]; cbn; [|set_solver]. split_and!; [set_solver|done|set_solver].
Qed.

Definition good_activation : Activation :=
  {| ac_done := Ok 4; ac_activate := fun _ => Ok tt; ac_wait := true; ac_result := Ok tt; ac_hr := Ok tt;
     ac_unknown := Some (Ok tt); ac_initialize := fun _ _ _ => Ok tt; ac_event := Ok 8; ac_set_event := Ok tt;
     ac_service := Ok tt |}.

(** On a Windows without process loopback the activation is refused, and each attempt
    leaves its completion event open. *)
Example refused_activation_keeps_event :
  let a := {| ac_done := Ok 4; ac_activate := fun _ => Err "E_NOTIMPL"; ac_wait := true; ac_result := Ok tt;
              ac_hr := Ok tt; ac_unknown := None; ac_initialize := fun _ _ _ => Ok tt; ac_event := Ok 8;
              ac_set_event := Ok tt; ac_service := Ok tt |} in
  let '(e, r) := loopback_open a 77 {| ev_open := ∅; ev_set := ∅ |} in is_ok r = false /\ 4 ∈ ev_open e.
Proof. vm_compute. done. Qed.

(** An activation that completes after its timeout signals whatever event has its handle
    by then: here the capture event of the next stream, which has no audio yet. *)
Example late_completion_signals_another_event :
  let slow := {| ac_done := Ok 4; ac_activate := fun _ => Ok tt; ac_wait := false; ac_result := Ok tt;
                 ac_hr := Ok tt; ac_unknown := None; ac_initialize := fun _ _ _ => Ok tt; ac_event := Ok 8;
                 ac_set_event := Ok tt; ac_service := Ok tt |} in
  let next := {| ac_done := Ok 8; ac_activate := fun _ => Ok tt; ac_wait := true; ac_result := Ok tt;
                 ac_hr := Ok tt; ac_unknown := Some (Ok tt); ac_initialize := fun _ _ _ => Ok tt; ac_event := Ok 4;
                 ac_set_event := Ok tt; ac_service := Ok tt |} in
  let '(e, r1) := loopback_open slow 77 {| ev_open := ∅; ev_set := ∅ |} in
  let '(e, r2) := loopback_open next 77 e in
  is_ok r1 = false /\ r2 = Ok {| pl_event := 4; pl_started := false |} /\
  4 ∉ ev_set e /\ 4 ∈ ev_set (ActivateCompleted 4 e).
Proof. vm_compute. done. Qed.

(** ** The streams of the adapter *)

(** A packet of the process loopback client: 16-bit samples in memory. *)
Definition of_packet (p : EpPacket) : GetBuffer :=
  GbPacket {| pk_frames := raw_i16 (ek_data p) (ek_frames p);
              pk_discontinuity := has_flag (ek_flags p) AUDCLNT_BUFFERFLAGS_DATA_DISCONTINUITY;
              pk_silent := has_flag (ek_flags p) AUDCLNT_BUFFERFLAGS_SILENT; pk_release := ek_release p |}.
Inductive ProcAnswer := PaPacket (p : EpPacket) | PaEmpty | PaInvalidated | PaFailed (why : string).
Definition get_buffer (a : ProcAnswer) : GetBuffer :=
  match a with
  | PaPacket p => of_packet p
  | PaEmpty => GbEmpty
  | PaInvalidated => GbInvalidated
  | PaFailed why => GbError why
  end.

(** Each with what its coming waits and [GetBuffer]s answer; [SPanicked] is the thread
    after a panic of the resampler. *)
Inductive Stream :=
| SProcess (s : ProcessLoopbackStream) (turns : list (bool * list ProcAnswer))
| SEndpoint (s : EndpointLoopbackStream) (turns : list (bool * list EpAnswer))
| SPanicked.

Section stream.
Context {libm : Libm}.

Definition Stream_read (st : Stream) : Stream * result (option CapturedBuffer) CaptureErr :=
  match st with
  | SProcess s ((signalled, answers) :: l) =>
      (SProcess s l, (process_read signalled (get_buffer <$> answers)).2)
  | SEndpoint s ((signalled, answers) :: l) =>
      match endpoint_read signalled answers s with
      | Some (_, s, r) => (SEndpoint s l, r)
      | None => (SPanicked, Ok None)
      end
  | _ => (st, Ok None)
  end.
Definition Stream_start (answer : result unit string) (st : Stream) : Stream * result unit CaptureErr :=
  match st with
  | SProcess s l => let '(s, r) := loopback_start answer s in (SProcess s l, r)
  | SEndpoint s l => let '(s, r) := endpoint_start answer s in (SEndpoint s l, r)
  | SPanicked => (SPanicked, Ok tt)
  end.

(** The audio engine of a machine: what opening and starting answer, and what the
    streams will deliver. *)
Record Engine := {
  en_events : Events;
  en_activation : Activation;
  en_endpoint : OpenAnswers;
  en_process_turns : list (bool * list ProcAnswer);
  en_endpoint_turns : list (bool * list EpAnswer);
  en_devices : result (list AudioDevice) CaptureErr;
}.
#[export] Instance Engine_rebuild : Rebuild Engine := fun e =>
  {| en_events := en_events e; en_activation := en_activation e; en_endpoint := en_endpoint e;
     en_process_turns := en_process_turns e; en_endpoint_turns := en_endpoint_turns e; en_devices := en_devices e |}.

#[export] Instance windows_engine : AudioEngine Engine Stream := {|
  process_open g pid :=
    let '(e, r) := loopback_open (en_activation g) pid (en_events g) in
    (g <| en_events := e |>, let? s := r in Ok (SProcess s (en_process_turns g)));
  endpoint_open g id dir :=
    (g, let? s := endpoint_stream_open (en_endpoint g) id dir in Ok (SEndpoint s (en_endpoint_turns g)));
  stream_start := Stream_start (Ok tt);
  stream_read := Stream_read;
  enumerate_endpoints := en_devices;
|}.

Lemma i16_from_bits_i16 (l : list u8) : (length l <= 2)%nat -> is_i16 (i16_from_bits (from_le_bytes l)).
Proof.
  intros Hl. pose proof (from_le_bytes_range l) as H. unfold is_i16, i16_from_bits.
  assert (0 <= from_le_bytes l < 65536).
  { destruct l as [|a [|b [|c l]]]; cbn in *; lia. }
  destruct (Z.ltb_spec (from_le_bytes l) 32768); lia.
Qed.

Lemma raw_i16_i16 data n : Forall is_i16 (raw_i16 data n).
Proof.
  unfold raw_i16. revert data. induction n as [|n IH]; intros data; cbn; constructor; [|apply IH].
  apply i16_from_bits_i16. rewrite length_take. lia.
Qed.

Lemma drain_packets_i16 answers samples d sl l b :
  Forall is_i16 samples -> drain_packets (get_buffer <$> answers) samples d sl = (l, Ok b) ->
  Forall is_i16 (cb_samples b).
Proof.
  revert samples d sl. induction answers as [|a answers IH]; intros samples d sl Hs; [by intros [= <- <-]|].
  destruct a as [p| | |why]; cbn [fmap list_fmap get_buffer drain_packets]; [|by intros [= <- <-]|done|done].
  unfold of_packet. cbn [pk_frames pk_discontinuity pk_silent pk_release].
  case_bool_decide; [by intros [= <- <-]|]. destruct (ek_release p) as [[]|x]; [|done]. apply IH.
  apply Forall_app. split; [done|]. destruct (has_flag _ _); [|apply raw_i16_i16].
  apply Forall_forall. intros x Hx. apply list_elem_of_In, repeat_spec in Hx. subst. unfold is_i16. lia.
Qed.

(** Both kinds of stream deliver 16-bit samples: the engine the adapter runs on. *)
#[export] Instance windows_engine_laws : AudioEngineLaws Engine Stream.
Proof.
  intros [s [|[sig answers] turns]|s [|[sig answers] turns]|] st' b; cbn; try done.
  - intros [= _ Hr]. unfold process_read in Hr. destruct sig; [|done]. cbn [negb] in Hr.
    destruct (drain_packets _ _ _ _) as [l [cb|x]] eqn:Hd; [|done]. cbn in Hr.
    case_bool_decide; [done|]. injection Hr as <-. eapply drain_packets_i16, Hd. constructor.
  - destruct (endpoint_read sig answers s) as [[[l s'] r]|] eqn:He; [|done]. intros [= _ ->].
    by eapply endpoint_read_i16.
Qed.
End stream.
