(* ===== verification/Main.v ===== *)
(** The two programs' [main]s and what they choose by platform
    (sentinel-service/src/main.rs, sentinel-agent/src/main.rs, and the DPAPI wrapper of
    sentinel-service/src/spoolkey.rs), and what follows when service and agent are put
    together: which tier the agent captures with, and how many agents a session has. *)

From stdpp Require Import fin_sets infinite.
From S2P Require Import Prelude Text Protocol Config State StateProps Capture Utf8 Pkce Auth Agent Ipc Files ConfigSync SpoolKey.
From S2P Require Import Credential Socket Startup IpcClient Float Replay LiveSource Session Desktop Telemetry.
From Stdlib.Strings Require Import Byte.

(** ** DPAPI in machine scope *)

Definition CRYPTPROTECT_LOCAL_MACHINE : Z := 4.
Definition BLOB_DESCRIPTION : string := "MagickVoice Sentinel spool key".

Class Dpapi (D : Type) := {
  dp_protect : D -> Z -> string -> list u8 -> result (list u8) string;
  dp_unprotect : D -> Z -> list u8 -> result (list u8) string;
}.
Record DpapiMachineScope (D : Type) := { dms_dpapi : D }.
Arguments dms_dpapi {D}.

#[export] Instance dpapi_machine_scope {D} `{!Dpapi D} : KeyWrapper (DpapiMachineScope D) := {|
  wrap w plaintext :=
    let? out := map_err Wrap (dp_protect (dms_dpapi w) CRYPTPROTECT_LOCAL_MACHINE BLOB_DESCRIPTION plaintext) in
    Ok (String.string_of_list_byte out);
  unwrap_blob w blob := map_err Unwrap (dp_unprotect (dms_dpapi w) 0 (String.list_byte_of_string blob));
  binds_to_machine _ := true;
|}.
(** On one machine what was protected in machine scope is unprotected by anyone. *)
Class DpapiLaws (D : Type) `{!Dpapi D} :=
  unprotect_protect d s m b : dp_protect d CRYPTPROTECT_LOCAL_MACHINE s m = Ok b -> dp_unprotect d 0 b = Ok m.
#[export] Instance dpapi_machine_scope_laws {D} `{!Dpapi D} `{!DpapiLaws D} : KeyWrapperLaws (DpapiMachineScope D).
Proof.
  intros w m b. cbn. destruct (dp_protect _ _ _ m) as [out|e] eqn:Hp; [|done]. cbn. intros [= <-].
  by rewrite String.list_byte_of_string_of_list_byte, (unprotect_protect _ _ _ _ Hp).
Qed.

(** [spoolkey::wrapper]: one of the two, by platform. *)
Definition AnyWrapper (D : Type) : Type := DpapiMachineScope D + dev.PlaintextWrapper.
#[export] Instance any_wrapper {D} `{!Dpapi D} : KeyWrapper (AnyWrapper D) := {|
  wrap w m := match w with inl w => wrap w m | inr w => wrap w m end;
  unwrap_blob w b := match w with inl w => unwrap_blob w b | inr w => unwrap_blob w b end;
  binds_to_machine w := match w with inl w => binds_to_machine w | inr w => binds_to_machine w end;
|}.
#[export] Instance any_wrapper_laws {D} `{!Dpapi D} `{!DpapiLaws D} : KeyWrapperLaws (AnyWrapper D).
Proof. intros [w|w] m b; cbn [wrap unwrap_blob any_wrapper]; apply unwrap_wrap. Qed.

Section platform.
Context {D : Type} `{!Dpapi D} (windows : bool).

Definition wrapper (d : D) (dev : dev.PlaintextWrapper) : AnyWrapper D :=
  if windows then inl {| dms_dpapi := d |} else inr dev.
(** The agent's [spool_key]. *)
Definition spool_key (d : D) (dev : dev.PlaintextWrapper) : Disk -> Disk * result string SpoolKeyError :=
  resolve (wrapper d dev).

(** The agent's [token_store]. *)
Definition AnyStore (W : Type) : Type := W + MemoryTokenStore.
#[export] Instance any_store {W} `{!CredVault W} : TokenStore (AnyStore W) := {|
  save_refresh_token k t :=
    match k with
    | inl w => let '(w, r) := vault_save w t in (inl w, r)
    | inr m => let '(m, r) := save_refresh_token (K:=MemoryTokenStore) m t in (inr m, r)
    end;
  load_refresh_token k :=
    match k with
    | inl w => let '(w, r) := vault_load w in (inl w, r)
    | inr m => let '(m, r) := load_refresh_token (K:=MemoryTokenStore) m in (inr m, r)
    end;
  clear_token k :=
    match k with
    | inl w => let '(w, r) := vault_clear w in (inl w, r)
    | inr m => let '(m, r) := clear_token (K:=MemoryTokenStore) m in (inr m, r)
    end;
|}.
Definition token_store {W} (vault : W) : AnyStore W := if windows then inl vault else inr None.

(** The agent's [browser_launcher]. *)
Definition AnyLauncher (Sh : Type) : Type := Sh + list string.
#[export] Instance any_launcher {Sh} (exec : Sh -> string -> Sh * Z) : BrowserLauncher (AnyLauncher Sh) := fun l url =>
  match l with
  | inl sh => let '(sh, r) := system_browser_open exec sh url in (inl sh, r)
  | inr opened => let '(opened, r) := recording_launcher opened url in (inr opened, r)
  end.
Definition browser_launcher {Sh} (sh : Sh) : AnyLauncher Sh := if windows then inl sh else inr [].
End platform.

(** [data_dir] of the service. *)
Definition data_dir (windows : bool) (programdata : option string) : string :=
  if windows then default "C:\ProgramData" programdata +:+ "\MagickVoice\Sentinel" else "/var/lib/magickvoice-sentinel".

(** ** Logging *)

(** What is exported, where to, and whether the gateway relays it. *)
Record Export := { ex_resource : Resource; ex_url : string; ex_via_gateway : bool }.
Definition init_logging (service_name version : string) (env_endpoint : option string) (local : LocalConfig)
    : option Export :=
  url ← otlp_logs_url_with_env local env_endpoint;
  Some {| ex_resource := {| res_service_name := service_name; res_service_version := version;
                            res_tenant_id := tenant_hint local; res_device_id := lc_device_id local |};
          ex_url := url; ex_via_gateway := otlp_goes_via_gateway local url |}.

(** ** The service *)

Section service.
Context `{!FileJson LocalConfig} `{!FileJson Policy}.

Definition ServiceState_new (installed : option LocalConfig) (programdata : option string) (reg : Registry) (d : Disk)
    : Disk * ServiceState :=
  let '(tier, os_build) := service_tier reg in
  let '(d, config) := ConfigStore_open installed true programdata d in
  let '(d, _) := persist_local config d in
  (d, {| ss_local := cs_local config; ss_policy := cs_policy config; ss_tier := tier_name <$> tier;
         ss_os_build := os_build; ss_restarts := 0; ss_agent_state := "BLOCKED"; ss_update_requested := false;
         ss_staged_version := None |}).
Definition set_restarts (n : Z) (s : ServiceState) : ServiceState := s <| ss_restarts := n |>.

(** What the service goes on to be. *)
Inductive ServiceMode := ConsolePipeHost (s : ServiceState) | ConsoleNothing | UnderScm (recovery : result unit string).
Definition service_main (windows : bool) (args : list string) (installed : option LocalConfig)
    (programdata env_endpoint : option string) (reg : Registry) (recovery scm_run : result unit string) (d : Disk)
    : Disk * option Export * result ServiceMode string :=
  let '(d, config) := ConfigStore_open installed windows programdata d in
  let export := init_logging "sentinel-service" "0.1.0" env_endpoint (cs_local config) in
  if bool_decide ("--console" ∈ args) then
    if windows then let '(d, s) := ServiceState_new installed programdata reg d in (d, export, Ok (ConsolePipeHost s))
    else (d, export, Ok ConsoleNothing)
  else if windows then (d, export, let? _ := scm_run in Ok (UnderScm recovery))
  else (d, export, Err "SentinelService is a Windows service; run with --console for a dry run").

(** [agent_exe]: beside the service's own executable. *)
Definition agent_exe (own_dir : option string) : string :=
  match own_dir with Some dir => dir +:+ "\SentinelAgent.exe" | None => "SentinelAgent.exe" end.
End service.

(** ** The agent *)

(** [main] up to [run]: the mutex is only asked for once the configuration is there, and
    everything that opens something comes after it. *)
Definition agent_main {W} `{!Mutexes W} {Rq : IpcJson Request} {Rs : IpcJson Response} (windows : bool)
    (programdata env_endpoint : option string) (p : PipeIo) (w : W)
    : W * option Export * option (Z * ConfigSnapshot) :=
  let '(snapshot, note) := load_config windows programdata p in
  let export := init_logging "sentinel-agent" "0.1.0" env_endpoint (snap_local snapshot) in
  let '(w, r) := acquire w in
  (w, export, match r with Ok h => Some (h, snapshot) | Err _ => None end).

(** ** The machine's tier reaches the agent *)

Section tier.
Context `{!FileJson LocalConfig} `{!FileJson Policy}.

Lemma tier_name_roundtrip t : snapshot_tier
  {| snap_local := LocalConfig_default true None; snap_policy := None; snap_capture_tier := tier_name <$> t;
     snap_os_build := ""; snap_service_version := ""; snap_agent_restarts := 0 |} = t.
Proof. by destruct t as [[]|]. Qed.

(** The tier an agent captures with is the one of its machine: the service reads it
    from the registry by its own rule, keeps it, and answers [GetConfig] with it, and
    what the agent makes of the answer is what the capture crate detects on the same
    registry: for every x64 Windows 10 or later that is not a Server Core. *)
Theorem agent_tier_is_the_machines version installed programdata reg d b inst :
  in_u32 b -> reg "CurrentBuildNumber" = Some (REG_SZ (fmt_u b)) ->
  reg "CurrentMajorVersionNumber" = Some (RegDword 10) ->
  reg "CurrentMinorVersionNumber" = Some (RegDword 0) ->
  reg "InstallationType" = REG_SZ <$> inst -> from_option value_text True inst ->
  inst <> Some "Server Core" ->
  exists c, (handle version (ServiceState_new installed programdata reg d).2 GetConfig).2 = RespConfig c /\
    snapshot_tier c = td_tier (detect_tier reg PROCESSOR_ARCHITECTURE_AMD64) /\
    snap_os_build c = td_os_build (detect_tier reg PROCESSOR_ARCHITECTURE_AMD64).
Proof.
  intros H1 H2 H3 H4 H5 H6 H7. pose proof (tier_readers_agree reg b inst H1 H2 H3 H4 H5 H6 H7) as Ht. cbv zeta in Ht.
  unfold ServiceState_new. rewrite Ht. destruct (ConfigStore_open _ _ _ d) as [d1 config].
  destruct (persist_local config d1) as [d2 x]. eexists. split; [reflexivity|].
  split; [|done]. apply (tier_name_roundtrip (td_tier _)).
Qed.
End tier.

#[local] Instance no_json {A} : FileJson A := {| to_vec_pretty _ := Err "none"; file_from_str _ := None |}.

Lemma agent_tier_is_the_machines_witness :
  td_tier (detect_tier (registry_of 19045 "Client") PROCESSOR_ARCHITECTURE_AMD64) = Some TierB /\
  exists c, (handle "0.1.0" (ServiceState_new None None (registry_of 19045 "Client") {| files := ∅; faults := [] |}).2
      GetConfig).2 = RespConfig c /\
    snapshot_tier c = td_tier (detect_tier (registry_of 19045 "Client") PROCESSOR_ARCHITECTURE_AMD64) /\
    snap_os_build c = td_os_build (detect_tier (registry_of 19045 "Client") PROCESSOR_ARCHITECTURE_AMD64).
Proof.
  split; [reflexivity|]. apply (agent_tier_is_the_machines "0.1.0" None None _ _ 19045 (Some "Client")).
  - vm_compute. split; discriminate.
  - reflexivity.
  - reflexivity.
  - reflexivity.
  - reflexivity.
  - vm_compute. split; [repeat constructor|lia].
  - discriminate.
Defined.

(** ** A session's agents *)

Section session.
Context {W : Type} `{!Mutexes W} `{!MutexesLaws W} {Rq : IpcJson Request} {Rs : IpcJson Response}.

(** The agents of a session that run, by the handle of their guard: starting, being
    turned away, returning from [main], and being killed. *)
Inductive session_step : W * gset Z -> W * gset Z -> Prop :=
| sn_start windows programdata env p w w' ex h snap A :
    agent_main windows programdata env p w = (w', ex, Some (h, snap)) -> session_step (w, A) (w', {[h]} ∪ A)
| sn_turned_away windows programdata env p w w' ex A :
    agent_main windows programdata env p w = (w', ex, None) -> session_step (w, A) (w', A)
| sn_return w h A : h ∈ A -> session_step (w, A) (release w h, A ∖ {[h]})
| sn_killed w h A : h ∈ A -> session_step (w, A) (CloseMutex w h, A ∖ {[h]}).

Lemma holders_close w h : holders (CloseMutex w h) = holders w ∖ {[h]}.
Proof.
  apply set_eq. intros x. rewrite elem_of_difference, !elem_of_holders, elem_of_singleton, close_law.
  rewrite lookup_delete_Some. split; intros []; done.
Qed.
Lemma holders_release w h : holders (ReleaseMutex w h) = holders w.
Proof. apply set_eq. intros x. by rewrite !elem_of_holders, release_law. Qed.

Lemma agent_main_acquire windows programdata env p (w w' : W) ex r :
  agent_main windows programdata env p w = (w', ex, r) ->
  (acquire w).1 = w' /\ match r with Some (h, _) => (acquire w).2 = Ok h | None => exists e, (acquire w).2 = Err e end.
Proof.
  unfold agent_main. destruct (load_config _ _ p) as [snap note]. destruct (acquire w) as [w1 [h|e]]; intros [= <- <- <-]; by eauto.
Qed.

Lemma session_step_inv s t :
  session_step s t -> holders s.1 = s.2 -> (size s.2 <= 1)%nat -> holders t.1 = t.2 /\ (size t.2 <= 1)%nat.
Proof.
  intros Hs Hh Hz.
  destruct Hs as [wi pd env p w w' ex h snap B Hm|wi pd env p w w' ex B Hm|w h B Hb|w h B Hb]; cbn in *.
  - apply agent_main_acquire in Hm as [<- Hm]. pose proof (acquire_is_exclusive w) as Ha.
    destruct (acquire w) as [w1 r]. cbn in *. subst r. destruct Ha as [Hn ->]. rewrite <- Hh, Hn, (right_id_L ∅ (∪)).
    by rewrite size_singleton.
  - apply agent_main_acquire in Hm as [<- [e Hm]]. pose proof (acquire_is_exclusive w) as Ha.
    destruct (acquire w) as [w1 r]. cbn in *. subst r. destruct Ha as [Ho _]. split; [|done].
    rewrite <- Hh. unfold holders. by rewrite Ho.
  - unfold release. rewrite holders_close, holders_release, Hh. split; [done|].
    etrans; [|exact Hz]. apply subseteq_size. set_solver.
  - rewrite holders_close, Hh. split; [done|]. etrans; [|exact Hz]. apply subseteq_size. set_solver.
Qed.

Lemma session_run_inv s t :
  rtc session_step s t -> holders s.1 = s.2 -> (size s.2 <= 1)%nat -> holders t.1 = t.2 /\ (size t.2 <= 1)%nat.
Proof.
  induction 1 as [s|s s1 t Hs _ IH]; [done|]. intros Hh Hz.
  destruct (session_step_inv _ _ Hs Hh Hz) as [Hh' Hz']. by apply IH.
Qed.

(** One agent per session: however agents start, return and are killed, the guards
    held are those of the agents that run, at most one runs, and one that starts while
    none runs is not turned away for another's sake. *)
Theorem one_agent_per_session w0 w A :
  holders w0 = ∅ -> rtc session_step (w0, ∅) (w, A) ->
  holders w = A /\ (size A <= 1)%nat /\ (A = ∅ -> (acquire w).2 <> Err AlreadyRunning).
Proof.
  intros H0 Hr. destruct (session_run_inv _ _ Hr) as [Hh Hz]; [done|cbn; rewrite size_empty; lia|].
  split_and!; [done|done|]. intros -> He. pose proof (acquire_is_exclusive w) as Ha.
  destruct (acquire w) as [w' r]. cbn in He. subst r. destruct Ha as [_ Ha]. by apply Ha.
Qed.
End session.

(** The first agent runs, the second is turned away, the first is killed. *)
#[local] Existing Instance session_mutexes.
#[local] Existing Instance session_mutexes_laws.
#[local] Existing Instance demo_request_json.
#[local] Existing Instance demo_response_json.
Definition no_pipe : PipeIo := {| pi_attempts := fun _ => NotOpened; pi_write := fun _ => Err "closed"; pi_reads := [] |}.

Lemma one_agent_per_session_witness :
  exists w : gmap Z string, rtc session_step (∅, ∅) (w, ({[0]} ∪ ∅) ∖ {[0]}) /\
  (acquire w).2 <> Err AlreadyRunning.
Proof.
  assert (exists w : gmap Z string, rtc session_step (∅, ∅) (w, ({[0]} ∪ ∅) ∖ {[0]})) as [w Hr].
  { eexists. eapply rtc_l; [eapply (sn_start true None None no_pipe); vm_compute; reflexivity|].
    eapply rtc_l; [eapply (sn_turned_away true None None no_pipe); vm_compute; reflexivity|].
    eapply rtc_l; [apply (sn_killed _ 0); set_solver|]. apply rtc_refl. }
  exists w. split; [exact Hr|].
  assert (holders (∅ : gmap Z string) = ∅) as H0 by (vm_compute; reflexivity).
  apply (one_agent_per_session ∅ w _ H0 Hr). set_solver.
Defined.
