(* ===== verification/GoWire.v ===== *)
(** The gateway's half of the wire codec (server/gateway/internal/wire/wire.go) and its
    agreement with the client's (Protocol.v). Both implement contracts/wire.md; here
    they are shown to be the same function.

    A Go record holds the channel as a plain byte and its errors are wrapped with the
    record's number and offset; slices out of range would panic, so the length checks
    come first as they do in the source. *)

From S2P Require Import Prelude Protocol.
From Stdlib.Strings Require Import Byte.

Definition wire_Version : Z := 1.
Definition wire_HeaderLen : Z := 34.
Definition wire_MaxMessageBytes : Z := Z.shiftl 1 20.
Definition ChannelFar : Z := 0.
Definition ChannelNear : Z := 1.
Definition flagForeign : Z := Z.shiftl 1 0.
Definition flagSilenceInserted : Z := Z.shiftl 1 1.
Definition flagReserved : Z := 0xFC.

Inductive WireError :=
| ErrTruncated (need have : Z)
| ErrVersion (v : Z)
| ErrChannel (v : Z)
| ErrReservedFlags (b : Z)
| ErrReservedByte (v : Z)
| ErrPayloadSize (n : Z)
| ErrMessageSize (n : Z)
| AtRecord (record offset : Z) (e : WireError).

Record GoFlags := { Foreign : bool; SilenceInserted : bool }.

Definition GoFlags_bits (f : GoFlags) : Z :=
  let b := 0 in
  let b := if Foreign f then Z.lor b flagForeign else b in
  if SilenceInserted f then Z.lor b flagSilenceInserted else b.

Definition flagsFromBits (b : Z) : result GoFlags WireError :=
  if negb (Z.land b flagReserved =? 0) then Err (ErrReservedFlags b)
  else Ok {| Foreign := negb (Z.land b flagForeign =? 0);
             SilenceInserted := negb (Z.land b flagSilenceInserted =? 0) |}.

Record GoRecord := {
  go_Channel : Z;      (* uint8 *)
  go_Flags : GoFlags;
  go_Seq : Z;          (* uint32 *)
  go_TimestampMS : Z;  (* uint64 *)
  go_CallID : list u8; (* [16]byte *)
  go_Payload : list u8;
}.

(** [Encode] appends to [dst]. *)
Definition wire_Encode (r : GoRecord) (dst : list u8) : result (list u8) WireError :=
  if 0xFFFF <? len (go_Payload r) then Err (ErrPayloadSize (len (go_Payload r)))
  else
    let hdr := [z2b wire_Version; z2b (go_Channel r); z2b (GoFlags_bits (go_Flags r)); z2b 0]
                 ++ to_le_bytes 4 (go_Seq r) ++ to_le_bytes 8 (go_TimestampMS r)
                 ++ go_CallID r ++ to_le_bytes 2 (wrap16 (len (go_Payload r))) in
    Ok ((dst ++ hdr) ++ go_Payload r).

Definition wire_Decode (buf : list u8) : result (GoRecord * Z) WireError :=
  if len buf <? wire_HeaderLen then Err (ErrTruncated wire_HeaderLen (len buf))
  else
    let at_ i := b2z (byte_at buf i) in
    if negb (at_ 0%nat =? wire_Version) then Err (ErrVersion (at_ 0%nat))
    else if negb (at_ 1%nat =? ChannelFar) && negb (at_ 1%nat =? ChannelNear) then Err (ErrChannel (at_ 1%nat))
    else
      let? flags := flagsFromBits (at_ 2%nat) in
      if negb (at_ 3%nat =? 0) then Err (ErrReservedByte (at_ 3%nat))
      else
        let payloadLen := from_le_bytes (slice 32 34 buf) in
        let total := wire_HeaderLen + payloadLen in
        if len buf <? total then Err (ErrTruncated total (len buf))
        else Ok ({| go_Channel := at_ 1%nat; go_Flags := flags;
                    go_Seq := from_le_bytes (slice 4 8 buf);
                    go_TimestampMS := from_le_bytes (slice 8 16 buf);
                    go_CallID := slice 16 32 buf;
                    go_Payload := slice (Z.to_nat wire_HeaderLen) (Z.to_nat total) buf |}, total).

(** The loop of [DecodeAll]: [rest] is [buf[off:]], [n] the records read so far. *)
Fixpoint wire_DecodeLoop (fuel : nat) (n off : Z) (rest : list u8) : result (list GoRecord) WireError :=
  match fuel, rest with
  | _, [] | O, _ => Ok []
  | S fuel', _ =>
      let? (r, used) := map_err (AtRecord n off) (wire_Decode rest) in
      let? out := wire_DecodeLoop fuel' (n + 1) (off + used) (drop (Z.to_nat used) rest) in
      Ok (r :: out)
  end.

Definition wire_DecodeAll (buf : list u8) : result (list GoRecord) WireError :=
  if wire_MaxMessageBytes <? len buf then Err (ErrMessageSize (len buf))
  else wire_DecodeLoop (length buf) 0 0 buf.

(** [PackSegment]: the buffer grows frame by frame. *)
Definition wire_PackSegment (frames : list (list u8)) : list u8 :=
  foldl (fun out f => (out ++ to_le_bytes 2 (wrap16 (len f))) ++ f) [] frames.

Fixpoint wire_UnpackLoop (fuel : nat) (rest : list u8) : option (list (list u8)) :=
  match fuel, rest with
  | _, [] | O, _ => Some []
  | S fuel', _ =>
      if len rest <? 2 then None
      else
        let n := from_le_bytes (take 2 rest) in
        let rest := drop 2 rest in
        if len rest <? n then None
        else
          out ← wire_UnpackLoop fuel' (drop (Z.to_nat n) rest);
          Some (take (Z.to_nat n) rest :: out)
  end.

Definition wire_UnpackSegment (payload : list u8) : option (list (list u8)) :=
  wire_UnpackLoop (length payload) payload.

(** ** Agreement with the client *)

Definition to_go_flags (f : MediaFlags) : GoFlags := {| Foreign := foreign f; SilenceInserted := silence_inserted f |}.
Definition to_go (r : MediaRecord) : GoRecord :=
  {| go_Channel := b2z (Channel_as_u8 (mr_channel r)); go_Flags := to_go_flags (mr_flags r);
     go_Seq := mr_seq r; go_TimestampMS := mr_timestamp_ms r; go_CallID := mr_call_id r;
     go_Payload := mr_payload r |}.

Definition to_go_error (e : ProtocolError) : WireError :=
  match e with
  | Truncated need have => ErrTruncated need have
  | Version v => ErrVersion (b2z v)
  | BadChannel v => ErrChannel (b2z v)
  | ReservedFlags b => ErrReservedFlags (b2z b)
  | ReservedByte v => ErrReservedByte (b2z v)
  | PayloadTooLarge n => ErrPayloadSize n
  | MessageTooLarge n => ErrMessageSize n
  end.

Lemma flagsFromBits_agrees v :
  flagsFromBits (b2z v) =
    match flags_from_bits v with Ok f => Ok (to_go_flags f) | Err e => Err (to_go_error e) end.
Proof. by destruct v. Qed.

Lemma channel_check_agrees v :
  negb (b2z v =? ChannelFar) && negb (b2z v =? ChannelNear) =
    match Channel_from_u8 v with Ok _ => false | Err _ => true end.
Proof. by destruct v. Qed.

Lemma channel_error v e : Channel_from_u8 v = Err e -> e = BadChannel v.
Proof. by destruct v; intros [= <-]. Qed.

Lemma byte_eqb (v w : u8) : (b2z v =? b2z w) = bool_decide (v = w).
Proof.
  case_bool_decide as H; [subst; apply Z.eqb_refl|].
  apply Z.eqb_neq. by intros ?%(inj b2z).
Qed.

Lemma wire_Decode_agrees buf :
  wire_Decode buf =
    match decode buf with
    | Ok (r, n) => Ok (to_go r, Z.of_nat n)
    | Err e => Err (to_go_error e)
    end.
Proof.
  unfold wire_Decode, decode. change (Z.of_nat HEADER_LEN) with wire_HeaderLen.
  destruct (len buf <? wire_HeaderLen) eqn:Hl; [done|].
  change wire_Version with (b2z VERSION). change (Z.eqb (b2z (byte_at buf 3)) 0) with
    (b2z (byte_at buf 3) =? b2z x00). rewrite !byte_eqb.
  case_bool_decide; [|done]. cbn [negb]. rewrite channel_check_agrees, flagsFromBits_agrees.
  destruct (Channel_from_u8 (byte_at buf 1)) as [ch|e] eqn:Hch; cbn [res_bind].
  2: { by rewrite (channel_error _ _ Hch). }
  destruct (flags_from_bits (byte_at buf 2)) as [fl|e]; [|done]. cbn [res_bind].
  case_bool_decide; [|done]. cbn [negb].
  pose proof (from_le_bytes_range (slice 32 34 buf)) as Hr. set (n := from_le_bytes (slice 32 34 buf)) in *.
  assert (Z.to_nat (wire_HeaderLen + n) = (HEADER_LEN + Z.to_nat n)%nat) as ->
    by (unfold wire_HeaderLen, HEADER_LEN; lia).
  assert (wire_HeaderLen + n = Z.of_nat (HEADER_LEN + Z.to_nat n)) as ->
    by (unfold wire_HeaderLen, HEADER_LEN; lia).
  destruct (len buf <? Z.of_nat _); [done|]. unfold to_go. cbn [mr_channel].
  by rewrite (Channel_as_from_u8 _ _ Hch).
Qed.

(** Decoding [buf] reads [rs] from its first bytes [pre] and stops at [rest] with [e]. *)
Definition stops_at (buf : list u8) (rs : list MediaRecord) (pre rest : list u8) (e : ProtocolError) : Prop :=
  buf = pre ++ rest /\ Forall fits rs /\ encode_all rs [] = Ok pre /\ decode rest = Err e.

Lemma wire_DecodeLoop_agrees fuel n off buf :
  match decode_loop fuel buf with
  | Ok rs => wire_DecodeLoop fuel n off buf = Ok (to_go <$> rs)
  | Err e => exists rs pre rest, stops_at buf rs pre rest e /\
      wire_DecodeLoop fuel n off buf = Err (AtRecord (n + len rs) (off + len pre) (to_go_error e))
  end.
Proof.
  revert n off buf. induction fuel as [|fuel IH]; intros n off buf; [by destruct buf|].
  destruct buf as [|b buf]; [done|]. cbn [decode_loop wire_DecodeLoop].
  rewrite wire_Decode_agrees. set (buf' := b :: buf).
  destruct (decode buf') as [[r used]|e] eqn:Hd; cbn [res_bind map_err].
  2: { exists [], [], buf'. by rewrite !Z.add_0_r. }
  rewrite Nat2Z.id. specialize (IH (n + 1) (off + Z.of_nat used) (drop used buf')).
  destruct (decode_loop fuel _) as [rs|e]; cbn [res_bind]; [by rewrite IH|].
  destruct IH as (rs & pre & rest & (Hb & Hf & He & Hr) & ->).
  apply decode_Ok_inv in Hd as (Ht & Hp & -> & _ & Hd).
  exists (r :: rs), (header r ++ mr_payload r ++ pre), rest. split; [split_and!|].
  - by rewrite Hd, Hb, <- !app_assoc.
  - by constructor.
  - rewrite encode_all_fits in He |- * by (by try constructor). cbn [app flat_map] in *.
    by injection He as <-; rewrite <- app_assoc.
  - done.
  - assert (len (r :: rs) = 1 + len rs) as -> by (rewrite length_cons; lia).
    assert (len (header r ++ mr_payload r ++ pre) = Z.of_nat (HEADER_LEN + length (mr_payload r)) + len pre) as ->
      by (rewrite !length_app, length_header by done; lia).
    by rewrite !Z.add_assoc.
Qed.

Lemma wire_Encode_agrees r dst :
  wire_Encode (to_go r) dst =
    match encode_into r dst with Ok bs => Ok bs | Err e => Err (to_go_error e) end.
Proof.
  unfold wire_Encode, encode_into. cbn. change 65535 with u16_max.
  destruct (Z.ltb_spec u16_max (len (mr_payload r))); [done|].
  rewrite <- !app_assoc. cbn. rewrite z2b_b2z. unfold wrap16. rewrite Z.mod_small by (ints; lia).
  rewrite <- !app_assoc. by destruct r as [[] [[] []]].
Qed.

Lemma wire_UnpackLoop_agrees fuel total off rest :
  wire_UnpackLoop fuel rest = res_ok (unpack_loop fuel total off rest).
Proof.
  revert off rest. induction fuel as [|fuel IH]; intros off rest; [by destruct rest|].
  destruct rest as [|b rest]; [done|]. cbn [wire_UnpackLoop unpack_loop].
  set (l := b :: rest). destruct (len l <? 2); [done|]. destruct (len (drop 2 l) <? _); [done|].
  rewrite (IH (off + 2 + from_le_bytes (take 2 l))). by destruct (unpack_loop _ _ _ _).
Qed.

Lemma wire_PackSegment_agrees frames : wire_PackSegment frames = pack_segment frames.
Proof.
  unfold wire_PackSegment, pack_segment.
  enough (forall acc, foldl (fun out f => (out ++ to_le_bytes 2 (wrap16 (len f))) ++ f) acc frames =
    acc ++ flat_map (fun f => to_le_bytes 2 (wrap16 (len f)) ++ f) frames) as H by apply (H []).
  induction frames as [|f frames IH]; intros acc; cbn; [by rewrite app_nil_r|].
  rewrite IH. by rewrite <- !app_assoc.
Qed.

Lemma wire_DecodeAll_agrees buf :
  match decode_all buf with
  | Ok rs => wire_DecodeAll buf = Ok (to_go <$> rs)
  | Err e =>
      (MAX_MESSAGE_BYTES < len buf /\ wire_DecodeAll buf = Err (to_go_error e)) \/
      exists rs pre rest, stops_at buf rs pre rest e /\
        wire_DecodeAll buf = Err (AtRecord (len rs) (len pre) (to_go_error e))
  end.
Proof.
  unfold decode_all, wire_DecodeAll. change wire_MaxMessageBytes with MAX_MESSAGE_BYTES.
  destruct (Z.ltb_spec MAX_MESSAGE_BYTES (len buf)) as [Hb|Hb]; [by left|].
  pose proof (wire_DecodeLoop_agrees (length buf) 0 0 buf) as H.
  destruct (decode_loop _ buf); [done|by right].
Qed.

(** What the gateway decodes, the client's decoder reads too. *)
Lemma wire_DecodeAll_Ok buf recs :
  wire_DecodeAll buf = Ok recs ->
  exists rs, decode_all buf = Ok rs /\ recs = to_go <$> rs /\ Forall MediaRecord_typed rs.
Proof.
  intros E. pose proof (wire_DecodeAll_agrees buf) as H.
  destruct (decode_all buf) as [rs|e] eqn:Ed; [|destruct H as [[_ H]|(? & ? & ? & _ & H)]; by rewrite E in H].
  rewrite E in H. simplify_eq. exists rs. split_and!; [done|done|].
  unfold decode_all in Ed. case_match; [done|]. apply (decode_loop_inv (length buf)) in Ed as [Hf _]; [|done].
  eapply Forall_impl; [exact Hf|]. by intros r [? _].
Qed.

(** C7: The client's codec in Rust and the gateway's in Go are the same function. On any
    bytes both decoders accept, with the same records, or both refuse for the same reason:
    the message is over the size limit, or it is the encoding of some records followed by
    bytes that [decode] refuses, and the number and offset the Go error carries are how
    many those records are and how many bytes they take. Both encoders append the same
    bytes or refuse the same payload; and packing and unpacking a segment agree. *)
Theorem go_and_rust_codecs_agree buf r dst frames payload :
  match decode_all buf with
  | Ok rs => wire_DecodeAll buf = Ok (to_go <$> rs)
  | Err e =>
      (MAX_MESSAGE_BYTES < len buf /\ wire_DecodeAll buf = Err (to_go_error e)) \/
      exists rs pre rest, stops_at buf rs pre rest e /\
        wire_DecodeAll buf = Err (AtRecord (len rs) (len pre) (to_go_error e))
  end /\
  wire_Encode (to_go r) dst = match encode_into r dst with Ok bs => Ok bs | Err e => Err (to_go_error e) end /\
  wire_PackSegment frames = pack_segment frames /\
  wire_UnpackSegment payload = res_ok (unpack_segment payload).
Proof.
  split_and!; [apply wire_DecodeAll_agrees|apply wire_Encode_agrees|apply wire_PackSegment_agrees|
    apply wire_UnpackLoop_agrees].
Qed.

(** A second record whose version byte is wrong: record 1, at the first one's length. *)
Example second_record_named :
  wire_DecodeAll (flat_map (fun r => header r ++ mr_payload r) [sample_record] ++ repeat Byte.x07 34) =
    Err (AtRecord 1 (encoded_len sample_record) (ErrVersion 7)).
Proof. vm_compute. reflexivity. Qed.
