(* ===== verification/Gateway.v ===== *)
(** The gateway's side of an ingest connection (server/gateway/internal/ingest/session.go,
    sink.go and ws.go, wire.go's message types, blob.go's object names): the session as
    a state machine over decoded frames, and the sink's two stores, of which every call
    can fail.

    Times are milliseconds, the zero [time.Time] is [None]. A Go map is ranged over in an
    order the language leaves open: the order is an argument ([iter]). ULIDs, the two
    time formats and encoding/json are parameters. The database is the part of it one
    tenant sees; [store.AsSystem] is one transaction, which happens or fails. *)

From S2P Require Import Prelude Text Protocol GoWire.

(** ** wire.go: control messages *)

Record GoCallStart := {
  gs_CallID : string; gs_StartedAt : string; gs_UserUID : string; gs_DeviceID : string;
  gs_Tier : string; gs_AccountRef : option string; gs_DialerCallID : option string;
  gs_Direction : string; gs_Codec : string; gs_Rate : Z;
}.
Record GoCallEnd := {
  ge_CallID : string; ge_EndedAt : string; ge_Reason : string; ge_LastSeq : gmap string Z;
}.
Record GoAck := { ga_CallID : string; ga_Channel : Z; ga_ThroughSeq : Z }.
Record GoResume := { gr_CallID : string; gr_Acked : gmap string Z }.
Record GoCallError := { gx_CallID : string; gx_Code : string; gx_Message : string; gx_Fatal : bool }.
Record GoHeartbeatAck := { gh_ServerTime : string; gh_PolicyVersion : Z }.

Definition KindCallStart : string := "call.start".
Definition KindCallEnd : string := "call.end".
Definition KindHeartbeat : string := "heartbeat".
Definition CodeUserMismatch : string := "user_mismatch".
Definition CodeDeviceMismatch : string := "device_mismatch".
Definition CodeUnknownCall : string := "unknown_call".
Definition CodeInternal : string := "internal".
Definition CloseForbidden : Z := 4403.
Definition CloseIdle : Z := 4408.
Definition CloseTooMany : Z := 4429.
(** websocket.StatusInvalidFramePayloadData *)
Definition StatusInvalidFramePayloadData : Z := 1007.

(** encoding/json on the types above; [Unmarshal] of [{T}] is [probe]. *)
Inductive GoMessage :=
| GMAck (m : GoAck)
| GMResume (m : GoResume)
| GMCallError (m : GoCallError)
| GMHeartbeatAck (m : GoHeartbeatAck).
Class GoJson := {
  probe : string -> option string;
  UnmarshalCallStart : string -> option GoCallStart;
  UnmarshalCallEnd : string -> option GoCallEnd;
  Marshal : GoMessage -> string;
}.

Definition PeekKind {J : GoJson} (b : string) : option string :=
  t ← probe b; if str_is_empty t then None else Some t.

(** ** The stores *)

#[export] Instance byte_countable : Countable u8 := inj_countable' b2z z2b z2b_b2z.

Definition as_i32 (z : Z) : Z := if z <? 2 ^ 31 then z else z - 2 ^ 32.
(** [uint32(seq)] of a column read back. *)
Definition from_i32 (z : Z) : Z := wrap32 z.

(** Of a call's row, the columns ingest reads back or changes; of a segment's, those that
    depend on the record. *)
Record DbCall := {
  dc_user_uid : string; dc_started_at : Z; dc_ended_at : option Z; dc_end_reason : option string;
  dc_status : string;
}.
#[export] Instance DbCall_rebuild : Rebuild DbCall := fun r =>
  {| dc_user_uid := dc_user_uid r; dc_started_at := dc_started_at r; dc_ended_at := dc_ended_at r;
     dc_end_reason := dc_end_reason r; dc_status := dc_status r |}.
Record DbSegment := {
  ds_s3_key : string; ds_bytes : Z; ds_timestamp_ms : Z; ds_foreign_audio : bool; ds_silence_inserted : bool;
}.

(** Tables keyed by the 128-bit id; [db_blobs] is the object store, [db_faults] what the
    next calls of either store will do ([true] fails), [db_today] the date they see. *)
Record Db := {
  db_users : gset string;
  db_calls : gmap (list u8) DbCall;
  db_segments : gmap (list u8 * Z * Z) DbSegment;
  db_watermarks : gmap (list u8 * Z) Z;
  db_outbox : gmap (list u8) Z;
  db_blobs : gmap string (list u8);
  db_today : string;
  db_faults : list bool;
}.
#[export] Instance Db_rebuild : Rebuild Db := fun r =>
  {| db_users := db_users r; db_calls := db_calls r; db_segments := db_segments r;
     db_watermarks := db_watermarks r; db_outbox := db_outbox r; db_blobs := db_blobs r;
     db_today := db_today r; db_faults := db_faults r |}.

(** Whether the next call fails, and the stores past it. *)
Definition db_fault (d : Db) : bool * Db :=
  match db_faults d with [] => (false, d) | f :: fs => (f, d <| db_faults := fs |>) end.

(** [%08d] *)
Definition pad8 (n : Z) : string := str (replicate (8 - String.length (fmt_u n)) "0"%char) +:+ fmt_u n.
Definition SegmentKey (tenantID day callID : string) (channel seq : Z) : string :=
  "audio/" +:+ tenantID +:+ "/" +:+ day +:+ "/" +:+ callID +:+ "/" +:+ fmt_u channel +:+ "/" +:+
  pad8 seq +:+ ".opus".

Section gateway.
Context {J : GoJson} (tenant : string).
(** [ulid.ULID.String] and [ulid.ParseStrict]. *)
Context (formatULID : list u8 -> string) (parseULID : string -> option (list u8)).
(** [time.Parse(RFC3339Nano)], [Time.Format(RFC3339Nano)] and [Duration.String]. *)
Context (parse_time : string -> option Z) (format_time : Z -> string) (duration_string : Z -> string).

(** *** sink.go *)

Definition EnsureCall (cs : GoCallStart) (d : Db) : Db * result (bool * gmap Z Z) string :=
  match parseULID (gs_CallID cs) with
  | None => (d, Err "call id is not a ULID")
  | Some id =>
      match parse_time (gs_StartedAt cs) with
      | None => (d, Err "bad started_at")
      | Some startedAt =>
          let '(fails, d) := db_fault d in
          let constraints := bool_decide (gs_Direction cs ∈ ["outbound"; "inbound"]) &&
                             bool_decide (gs_Tier cs ∈ ["A"; "B"]) in
          let selected := bool_decide (gs_UserUID cs ∈ db_users d) in
          if fails || (selected && negb constraints) then (d, Err "database")
          else
            let fresh := selected && bool_decide (db_calls d !! id = None) in
            let d := if fresh
                     then d <| db_calls := <[id := {| dc_user_uid := gs_UserUID cs; dc_started_at := startedAt;
                                                      dc_ended_at := None; dc_end_reason := None;
                                                      dc_status := "ingesting" |}]> (db_calls d) |>
                     else d in
            let acked := map_fold (fun (k : list u8 * Z) v acc =>
                           if bool_decide (k.1 = id) then <[k.2 := from_i32 v]> acc else acc) ∅ (db_watermarks d) in
            (d, Ok (negb fresh, acked))
      end
  end.

(** The object first, then the row that points at it. *)
Definition PutSegment (callID : string) (r : GoRecord) (d : Db) : Db * result unit string :=
  match parseULID callID with
  | None => (d, Err "call id is not a ULID")
  | Some id =>
      let key := SegmentKey tenant (db_today d) callID (go_Channel r) (go_Seq r) in
      let '(fails, d) := db_fault d in
      if fails then (d, Err "store segment audio")
      else
        let d := d <| db_blobs := <[key := go_Payload r]> (db_blobs d) |> in
        let '(fails, d) := db_fault d in
        if fails || bool_decide (db_calls d !! id = None) then (d, Err "database")
        else
          let row := {| ds_s3_key := key; ds_bytes := len (go_Payload r);
                        ds_timestamp_ms := as_i64 (go_TimestampMS r);
                        ds_foreign_audio := Foreign (go_Flags r);
                        ds_silence_inserted := SilenceInserted (go_Flags r) |} in
          let k := (id, go_Channel r, as_i32 (go_Seq r)) in
          match db_segments d !! k with
          | Some _ => (d, Ok tt)
          | None => (d <| db_segments := <[k := row]> (db_segments d) |>, Ok tt)
          end
  end.

Definition SetWatermark (callID : string) (channel throughSeq : Z) (d : Db) : Db * result unit string :=
  match parseULID callID with
  | None => (d, Err "call id is not a ULID")
  | Some id =>
      let '(fails, d) := db_fault d in
      if fails || bool_decide (db_calls d !! id = None) then (d, Err "database")
      else
        let v := match db_watermarks d !! (id, channel) with
                 | Some old => Z.max old (as_i32 throughSeq)
                 | None => as_i32 throughSeq
                 end in
        (d <| db_watermarks := <[(id, channel) := v]> (db_watermarks d) |>, Ok tt)
  end.

Definition FinishCall (ce : GoCallEnd) (d : Db) : Db * result unit string :=
  match parseULID (ge_CallID ce) with
  | None => (d, Err "call id is not a ULID")
  | Some id =>
      match parse_time (ge_EndedAt ce) with
      | None => (d, Err "bad ended_at")
      | Some endedAt =>
          let '(fails, d) := db_fault d in
          if fails then (d, Err "database")
          else match db_calls d !! id with
          | Some c =>
              match dc_ended_at c with
              | Some _ => (d, Ok tt)
              | None =>
                  let c := c <| dc_ended_at := Some endedAt |> <| dc_end_reason := Some (ge_Reason ce) |>
                             <| dc_status := "transcribing" |> in
                  let outbox := match db_outbox d !! id with
                                | Some _ => db_outbox d
                                | None => <[id := endedAt]> (db_outbox d)
                                end in
                  (d <| db_calls := <[id := c]> (db_calls d) |> <| db_outbox := outbox |>, Ok tt)
              end
          | None => (d, Ok tt)
          end
      end
  end.

(** *** session.go *)

Record Config := {
  AckInterval : Z; AckEverySegs : Z; IdleTimeout : Z; OrphanGrace : Z; MaxCallsPerConn : Z;
}.
Definition withDefaults (c : Config) : Config :=
  let or_ v dflt := if v =? 0 then dflt else v in
  {| AckInterval := or_ (AckInterval c) 2000; AckEverySegs := or_ (AckEverySegs c) 100;
     IdleTimeout := or_ (IdleTimeout c) 120000; OrphanGrace := or_ (OrphanGrace c) 30000;
     MaxCallsPerConn := or_ (MaxCallsPerConn c) 64 |}.

Record Peer := { UserUID : string; DeviceID : string }.

Record ChannelState := {
  through : Z; started : bool; ahead : gset Z; sinceAck : Z; lastAck : option Z; acked : Z; everAcked : bool;
}.
#[export] Instance ChannelState_rebuild : Rebuild ChannelState := fun c =>
  {| through := through c; started := started c; ahead := ahead c; sinceAck := sinceAck c;
     lastAck := lastAck c; acked := acked c; everAcked := everAcked c |}.
Definition ChannelState_new : ChannelState :=
  {| through := 0; started := false; ahead := ∅; sinceAck := 0; lastAck := None; acked := 0; everAcked := false |}.

Record callState := { cl_start : GoCallStart; channels : gmap Z ChannelState; ended : bool; firstSeen : Z }.
#[export] Instance callState_rebuild : Rebuild callState := fun c =>
  {| cl_start := cl_start c; channels := channels c; ended := ended c; firstSeen := firstSeen c |}.

Record Session := {
  peer : Peer;
  cfg : Config;
  sn_calls : gmap string callState;
  orphans : gmap string (list (GoRecord * Z));
  policyVer : Z;
  lastActivity : Z;
}.
#[export] Instance Session_rebuild : Rebuild Session := fun s =>
  {| peer := peer s; cfg := cfg s; sn_calls := sn_calls s; orphans := orphans s; policyVer := policyVer s;
     lastActivity := lastActivity s |}.
Definition NewSession (p : Peer) (c : Config) (policyVersion now : Z) : Session :=
  {| peer := p; cfg := withDefaults c; sn_calls := ∅; orphans := ∅; policyVer := policyVersion;
     lastActivity := now |}.

Record Outbound := {
  Acks : list GoAck; Resumes : list GoResume; Errors : list GoCallError; Heartbeats : list GoHeartbeatAck;
  Close : Z; CloseReason : string;
}.
#[export] Instance Outbound_rebuild : Rebuild Outbound := fun o =>
  {| Acks := Acks o; Resumes := Resumes o; Errors := Errors o; Heartbeats := Heartbeats o; Close := Close o;
     CloseReason := CloseReason o |}.
Definition Outbound_empty : Outbound :=
  {| Acks := []; Resumes := []; Errors := []; Heartbeats := []; Close := 0; CloseReason := "" |}.
Definition Outbound_is_empty (o : Outbound) : bool :=
  bool_decide (length (Acks o) = 0%nat) && bool_decide (length (Resumes o) = 0%nat) &&
  bool_decide (length (Errors o) = 0%nat) && bool_decide (length (Heartbeats o) = 0%nat) && (Close o =? 0).

(** The session, its sink and the [Outbound] under construction. *)
Record G := { g_s : Session; g_db : Db; g_out : Outbound }.
#[export] Instance G_rebuild : Rebuild G := fun g => {| g_s := g_s g; g_db := g_db g; g_out := g_out g |}.
Abbreviation M A := (G -> G * result A string).

Definition on_sink {A} (op : Db -> Db * result A string) : M A := fun g =>
  let '(d, r) := op (g_db g) in (g <| g_db := d |>, r).
Definition add_error (callID code message : string) (fatal : bool) (g : G) : G :=
  let e := {| gx_CallID := callID; gx_Code := code; gx_Message := message; gx_Fatal := fatal |} in
  g <| g_out := (g_out g) <| Errors := Errors (g_out g) ++ [e] |> |>.
Definition set_close (code : Z) (reason : string) (g : G) : G :=
  g <| g_out := (g_out g) <| Close := code |> <| CloseReason := reason |> |>.

(** [s.channel(st, ch)] of the call [callID]: found or created. *)
Definition channel_of (callID : string) (ch : Z) (s : Session) : ChannelState :=
  default ChannelState_new (st ← sn_calls s !! callID; channels st !! ch).
Definition set_channel (callID : string) (ch : Z) (c : ChannelState) (s : Session) : Session :=
  s <| sn_calls := alter (fun st => st <| channels := <[ch := c]> (channels st) |>) callID (sn_calls s) |>.
Definition put_channel (callID : string) (ch : Z) (c : ChannelState) (g : G) : G :=
  g <| g_s := set_channel callID ch c (g_s g) |>.

(** [for cst.ahead[cst.through+1]]; each turn takes one out of [ahead]. *)
Fixpoint absorb (fuel : nat) (c : ChannelState) : ChannelState :=
  match fuel with
  | O => c
  | S fuel' =>
      let next := wrap32 (through c + 1) in
      if bool_decide (next ∈ ahead c)
      then absorb fuel' (c <| ahead := ahead c ∖ {[next]} |> <| through := next |>)
      else c
  end.

Definition advance (c : ChannelState) (seq : Z) : ChannelState :=
  if negb (started c) then
    if seq =? 0 then absorb (size (ahead c)) (c <| through := 0 |> <| started := true |>)
    else c <| ahead := ahead c ∪ {[seq]} |>
  else if seq =? wrap32 (through c + 1) then absorb (size (ahead c)) (c <| through := seq |>)
  else c <| ahead := ahead c ∪ {[seq]} |>.

Definition checkIdentity (callID userUID deviceID : string) (g : G) : G * result unit string :=
  if negb (bool_decide (userUID = UserUID (peer (g_s g)))) then
    (add_error callID CodeUserMismatch "call.start user does not match the bearer token" true g, Err "user mismatch")
  else if negb (bool_decide (deviceID = DeviceID (peer (g_s g)))) then
    (add_error callID CodeDeviceMismatch "call.start device does not match the client certificate" true g,
     Err "device mismatch")
  else (g, Ok tt).

(** [storeRecord] of a record of the open call [callID]. *)
Definition storeRecord (callID : string) (rec : GoRecord) : M unit := fun g =>
  let ch := go_Channel rec in
  let c := channel_of callID ch (g_s g) in
  let g := put_channel callID ch c g in
  if started c && (go_Seq rec <=? through c) then
    (put_channel callID ch (c <| sinceAck := wrap32 (sinceAck c + 1) |>) g, Ok tt)
  else
    let '(g, r) := on_sink (PutSegment (formatULID (go_CallID rec)) rec) g in
    match r with
    | Err e => (add_error (formatULID (go_CallID rec)) CodeInternal "could not store the segment" false g, Err e)
    | Ok _ => (put_channel callID ch (advance (c <| sinceAck := wrap32 (sinceAck c + 1) |>) (go_Seq rec)) g, Ok tt)
    end.

Definition ackChannel (now : Z) (k : string * Z) (g : G) : G :=
  let '(callID, ch) := k in
  let c := (channel_of callID ch (g_s g)) <| lastAck := Some now |> <| sinceAck := 0 |> in
  let g := put_channel callID ch c g in
  if everAcked c && (acked c =? through c) then g
  else
    let '(g, r) := on_sink (SetWatermark callID ch (through c)) g in
    match r with
    | Err _ => g
    | Ok _ =>
        let g := put_channel callID ch (c <| acked := through c |> <| everAcked := true |>) g in
        let a := {| ga_CallID := callID; ga_Channel := ch; ga_ThroughSeq := through c |} in
        g <| g_out := (g_out g) <| Acks := Acks (g_out g) ++ [a] |> |>
    end.

(** Every channel of every call, in the order the two ranges visit them. *)
Definition all_channels (s : Session) : list (string * Z) :=
  flat_map (fun cs : string * callState => pair cs.1 <$> (map_to_list (channels cs.2)).*1)
    (map_to_list (sn_calls s)).

Section ranges.
Context (iter : list (string * Z) -> list (string * Z)).

Definition ack_due (now : Z) (c : ChannelState) (s : Session) : bool :=
  (AckEverySegs (cfg s) <=? sinceAck c) ||
  match lastAck c with Some t => AckInterval (cfg s) <=? now - t | None => true end.

Definition emitDueAcks (now : Z) (g : G) : G :=
  foldl (fun g k =>
    let c := channel_of k.1 k.2 (g_s g) in
    if negb (started c) then g else if ack_due now c (g_s g) then ackChannel now k g else g)
    g (iter (all_channels (g_s g))).

Definition flushAcks (now : Z) (g : G) : G :=
  foldl (fun g k => if started (channel_of k.1 k.2 (g_s g)) then ackChannel now k g else g)
    g (iter (all_channels (g_s g))).

Definition expireOrphans (now : Z) (g : G) : G :=
  foldl (fun g (o : string * Z) =>
    match orphans (g_s g) !! o.1 with
    | Some ((r, at_) :: _) =>
        if now - at_ <? OrphanGrace (cfg (g_s g)) then g
        else
          let g := g <| g_s := (g_s g) <| orphans := delete o.1 (orphans (g_s g)) |> |> in
          add_error o.1 CodeUnknownCall
            ("no call.start within " +:+ duration_string (OrphanGrace (cfg (g_s g)))) true g
    | _ => g
    end) g (iter ((fun cid => (cid, 0)) <$> (map_to_list (orphans (g_s g))).*1)).

Definition watermarkMap (st : callState) : gmap string Z :=
  map_fold (fun ch c acc => if started c then <[fmt_u ch := through c]> acc else acc) ∅ (channels st).

(** [for ch, through := range acked]. *)
Definition adopt_acked (callID : string) (marks : gmap Z Z) (g : G) : G :=
  map_fold (fun ch t g =>
    put_channel callID ch ((channel_of callID ch (g_s g)) <| through := t |> <| started := true |>
                             <| acked := t |> <| everAcked := true |>) g) g marks.

Fixpoint store_all (callID : string) (recs : list GoRecord) : M unit :=
  match recs with
  | [] => ret tt
  | rec :: recs' => let! _ := storeRecord callID rec in store_all callID recs'
  end.

Definition touch (now : Z) (g : G) : G := g <| g_s := (g_s g) <| lastActivity := now |> |>.

Definition OnCallStart (cs : GoCallStart) (now : Z) : M unit := fun g =>
  let g := touch now g in
  let '(g, r) := checkIdentity (gs_CallID cs) (gs_UserUID cs) (gs_DeviceID cs) g in
  match r with
  | Err _ => (g, Ok tt)
  | Ok _ =>
      if MaxCallsPerConn (cfg (g_s g)) <=? Z.of_nat (size (sn_calls (g_s g))) then
        (set_close CloseTooMany "too many concurrent calls on one connection" g, Ok tt)
      else
        let '(g, r) := on_sink (EnsureCall cs) g in
        match r with
        | Err e => (add_error (gs_CallID cs) CodeInternal "could not open the call" false g, Err e)
        | Ok (existed, marks) =>
            let fresh := {| cl_start := cs; channels := ∅; ended := false; firstSeen := now |} in
            let g := match sn_calls (g_s g) !! gs_CallID cs with
                     | Some _ => g
                     | None => g <| g_s := (g_s g) <| sn_calls := <[gs_CallID cs := fresh]> (sn_calls (g_s g)) |> |>
                     end in
            let g := adopt_acked (gs_CallID cs) marks g in
            let st := default fresh (sn_calls (g_s g) !! gs_CallID cs) in
            let g := if existed
                     then g <| g_out := (g_out g) <| Resumes := Resumes (g_out g) ++
                            [{| gr_CallID := gs_CallID cs; gr_Acked := watermarkMap st |}] |> |>
                     else g in
            let pending := default [] (orphans (g_s g) !! gs_CallID cs) in
            let g := if (0 <? length pending)%nat
                     then g <| g_s := (g_s g) <| orphans := delete (gs_CallID cs) (orphans (g_s g)) |> |>
                     else g in
            let '(g, r) := store_all (gs_CallID cs) pending.*1 g in
            match r with
            | Err e => (g, Err e)
            | Ok _ => (emitDueAcks now g, Ok tt)
            end
        end
  end.

Definition OnMedia (rec : GoRecord) (now : Z) : M unit := fun g =>
  let g := touch now g in
  let callID := formatULID (go_CallID rec) in
  match sn_calls (g_s g) !! callID with
  | None =>
      let held := default [] (orphans (g_s g) !! callID) ++ [(rec, now)] in
      (expireOrphans now (g <| g_s := (g_s g) <| orphans := <[callID := held]> (orphans (g_s g)) |> |>), Ok tt)
  | Some _ =>
      let '(g, r) := storeRecord callID rec g in
      match r with Err e => (g, Err e) | Ok _ => (emitDueAcks now g, Ok tt) end
  end.

Definition OnCallEnd (ce : GoCallEnd) (now : Z) : M unit := fun g =>
  let g := touch now g in
  match sn_calls (g_s g) !! ge_CallID ce with
  | None => (add_error (ge_CallID ce) CodeUnknownCall "no call.start for this call" true g, Ok tt)
  | Some st =>
      let '(g, r) := on_sink (FinishCall ce) g in
      match r with
      | Err e => (add_error (ge_CallID ce) CodeInternal "could not finalize the call" false g, Err e)
      | Ok _ =>
          let g := g <| g_s := (g_s g) <| sn_calls := <[ge_CallID ce := st <| ended := true |>]> (sn_calls (g_s g)) |> |> in
          (flushAcks now g, Ok tt)
      end
  end.

(** The orphans expired here are reported to nobody. *)
Definition OnHeartbeat (now : Z) (g : G) : G :=
  let g := touch now g in
  let g' := expireOrphans now g in
  let a := {| gh_ServerTime := format_time now; gh_PolicyVersion := policyVer (g_s g) |} in
  g' <| g_out := (g_out g) <| Heartbeats := Heartbeats (g_out g) ++ [a] |> |>.

Definition Tick (now : Z) (g : G) : G :=
  let g := expireOrphans now (emitDueAcks now g) in
  if IdleTimeout (cfg (g_s g)) <=? now - lastActivity (g_s g)
  then set_close CloseIdle "no frames received" g else g.

Definition Revoke (g : G) : G := set_close CloseForbidden "device revoked" g.

(** *** ws.go *)

Inductive Frame := FrText (data : string) | FrBinary (data : list u8).

Definition mergeOutbound (dst src : Outbound) : Outbound :=
  {| Acks := Acks dst ++ Acks src; Resumes := Resumes dst ++ Resumes src; Errors := Errors dst ++ Errors src;
     Heartbeats := Heartbeats dst ++ Heartbeats src;
     Close := if Close src =? 0 then Close dst else Close src;
     CloseReason := if Close src =? 0 then CloseReason dst else CloseReason src |}.

(** A handler with an [Outbound] of its own, merged into what is there. *)
Definition merged {A} (h : M A) : M A := fun g =>
  let '(g', r) := h (g <| g_out := Outbound_empty |>) in
  (g' <| g_out := mergeOutbound (g_out g) (g_out g') |>, r).

(** The loop over the records of a message; an error breaks it. *)
Fixpoint on_records (recs : list GoRecord) (now : Z) (g : G) : G :=
  match recs with
  | [] => g
  | rec :: recs' =>
      let '(g, r) := merged (OnMedia rec now) g in
      match r with Err _ => g | Ok _ => on_records recs' now g end
  end.

Definition dispatch (f : Frame) (now : Z) (g : G) : G :=
  let bad reason := set_close StatusInvalidFramePayloadData reason g in
  match f with
  | FrBinary data =>
      match wire_DecodeAll data with
      | Err _ => bad "bad media frame"
      | Ok records => on_records records now g
      end
  | FrText data =>
      match PeekKind data with
      | None => bad "bad control frame"
      | Some kind =>
          if bool_decide (kind = KindCallStart) then
            match UnmarshalCallStart data with
            | None => bad "bad call.start"
            | Some cs => (OnCallStart cs now g).1
            end
          else if bool_decide (kind = KindCallEnd) then
            match UnmarshalCallEnd data with
            | None => bad "bad call.end"
            | Some ce => (OnCallEnd ce now g).1
            end
          else if bool_decide (kind = KindHeartbeat) then OnHeartbeat now g
          else g
      end
  end.

(** The messages of an [Outbound] in the order they are written. *)
Definition messages (o : Outbound) : list GoMessage :=
  (GMResume <$> Resumes o) ++ (GMAck <$> Acks o) ++ (GMCallError <$> Errors o) ++ (GMHeartbeatAck <$> Heartbeats o).

(** [send]: [writes] of the messages get out before a write fails; the answer is
    whether the connection goes on. *)
Definition send (writes : nat) (o : Outbound) : list string * bool :=
  if Outbound_is_empty o then ([], true)
  else
    let texts := Marshal <$> messages o in
    if (writes <? length texts)%nat then (take writes texts, false)
    else (texts, Close o =? 0).

(** One turn of the [select] of [ServeHTTP]: what is left of the session, the stores,
    and what was written. *)
Inductive ServeEvent := EvFrame (f : Frame) | EvTicker | EvRevoked.

Definition serve (ev : ServeEvent) (now : Z) (writes : nat) (s : Session) (d : Db) : option Session * Db * list string :=
  let g := {| g_s := s; g_db := d; g_out := Outbound_empty |} in
  let g := match ev with
           | EvFrame f => dispatch f now g
           | EvTicker => Tick now g
           | EvRevoked => Revoke g
           end in
  let '(texts, goes_on) := send writes (g_out g) in
  (if goes_on && negb (match ev with EvRevoked => true | _ => false end) then Some (g_s g) else None, g_db g, texts).
End ranges.
End gateway.
