(* ===== verification/GatewayProps.v ===== *)
(** What the gateway's promises are worth: over any sequence of frames, ticks and
    store failures, on any number of connections at once, an acknowledgement or a resume
    point covers only segments that are in the database, and every row of the database
    points at an object holding the payload of a record that came in a frame. *)

From S2P Require Import Prelude Text Protocol GoWire Gateway.

(** ** Object names *)

Lemma as_from_i32 z : in_u32 z -> from_i32 (as_i32 z) = z.
Proof.
  unfold in_u32, from_i32, as_i32, wrap32. intros Hz. destruct (Z.ltb_spec z (2 ^ 31)).
  - rewrite Z.mod_small; ints; lia.
  - rewrite <- (Z.mod_add _ 1) by lia. rewrite Z.mod_small; ints; lia.
Qed.

Lemma sep_inj c a b a' b' :
  lacks c a -> lacks c a' -> a +:+ String c b = a' +:+ String c b' -> a = a' /\ b = b'.
Proof.
  intros Ha Ha' E. apply (f_equal (split_once c)) in E. rewrite !split_once_here in E by done.
  by simplify_eq.
Qed.

Lemma parse_digits_zeros m n l : 0 <= m -> parse_digits m 0 (replicate n "0"%char ++ l) = parse_digits m 0 l.
Proof.
  intros Hm. induction n as [|n IH]; [done|]. cbn [replicate app parse_digits is_ascii_digit].
  change (0 * 10 + (code "0" - 48)) with 0. by rewrite (proj2 (Z.ltb_ge m 0)) by lia.
Qed.

Lemma pad8_digits m z : 0 <= z <= m -> parse_digits m 0 (chars (pad8 z)) = Some z.
Proof.
  intros Hz. unfold pad8. rewrite chars_app, chars_str, parse_digits_zeros by lia.
  by destruct (fmt_u_digits m z Hz) as (c & ds & -> & _ & ->).
Qed.

Lemma pad8_inj z z' : 0 <= z -> 0 <= z' -> pad8 z = pad8 z' -> z = z'.
Proof.
  intros Hz Hz' E. pose proof (pad8_digits (Z.max z z') z ltac:(lia)) as H.
  rewrite E, pad8_digits in H by lia. by simplify_eq.
Qed.

Lemma fmt_u_inj z z' : 0 <= z -> 0 <= z' -> fmt_u z = fmt_u z' -> z = z'.
Proof.
  intros Hz Hz' E. pose proof (parse_fmt_u (Z.max z z') z ltac:(lia)) as H.
  rewrite E, parse_fmt_u in H by lia. by simplify_eq.
Qed.

Lemma append_inj_l a b b' : a +:+ b = a +:+ b' -> b = b'.
Proof. intros E. apply (f_equal chars) in E. rewrite !chars_app in E. by apply app_inv_head, chars_inj in E. Qed.
Lemma append_inj_r a a' b : a +:+ b = a' +:+ b -> a = a'.
Proof. intros E. apply (f_equal chars) in E. rewrite !chars_app in E. by apply app_inv_tail, chars_inj in E. Qed.

(** A name says which call, channel and sequence number it is for. *)
Lemma SegmentKey_inj tenant day day' cid cid' ch ch' q q' :
  lacks "/" day -> lacks "/" day' -> lacks "/" cid -> lacks "/" cid' ->
  0 <= ch -> 0 <= ch' -> 0 <= q -> 0 <= q' ->
  SegmentKey tenant day cid ch q = SegmentKey tenant day' cid' ch' q' -> cid = cid' /\ ch = ch' /\ q = q'.
Proof.
  intros Hd Hd' Hc Hc' ?? ?? E. unfold SegmentKey in E. apply append_inj_l, append_inj_l, append_inj_l in E.
  apply sep_inj in E as [_ E]; [|done|done]. apply sep_inj in E as [-> E]; [|done|done].
  apply sep_inj in E as [E1 E]; [|by apply lacks_fmt_u..].
  apply append_inj_r, pad8_inj in E; [|done|done]. apply fmt_u_inj in E1; done.
Qed.

(** ** The invariant *)

Section invariant.
Context {J : GoJson} (tenant : string).
Context (formatULID : list u8 -> string) (parseULID : string -> option (list u8)).
Context (parse_time : string -> option Z) (format_time : Z -> string) (duration_string : Z -> string).
(** Crockford base32 has no slash. *)
Context (format_plain : forall b, lacks "/" (formatULID b)).
(** The records that have come in frames. *)
Context (Sent : GoRecord -> Prop).

#[local] Abbreviation GPut := (PutSegment tenant parseULID).
#[local] Abbreviation GStore := (storeRecord tenant formatULID parseULID).

(** What Go's types say of a decoded record. *)
Definition record_typed (r : GoRecord) : Prop := 0 <= go_Channel r /\ in_u32 (go_Seq r).

Definition durable (d : Db) (cid : string) (ch q : Z) : Prop :=
  exists id, parseULID cid = Some id /\ is_Some (db_segments d !! (id, ch, as_i32 q)).
Definition durable_through (d : Db) (cid : string) (ch n : Z) : Prop :=
  forall q, 0 <= q <= n -> durable d cid ch q.

(** The row of [k] was written for a record that was sent, and its object holds the
    payload of one with the same call, channel and sequence number. *)
Definition row_backed (d : Db) (k : list u8 * Z * Z) (row : DbSegment) : Prop :=
  exists rec day, Sent rec /\ record_typed rec /\ lacks "/" day /\
    parseULID (formatULID (go_CallID rec)) = Some k.1.1 /\ go_Channel rec = k.1.2 /\ as_i32 (go_Seq rec) = k.2 /\
    ds_s3_key row = SegmentKey tenant day (formatULID (go_CallID rec)) (go_Channel rec) (go_Seq rec) /\
    db_blobs d !! ds_s3_key row = Some (go_Payload rec).

Record db_ok (d : Db) : Prop := {
  dk_marks : forall id ch v q, db_watermarks d !! (id, ch) = Some v -> 0 <= q <= from_i32 v ->
    is_Some (db_segments d !! (id, ch, as_i32 q));
  dk_rows : forall k row, db_segments d !! k = Some row -> row_backed d k row;
  dk_today : lacks "/" (db_today d);
}.

Definition chan_ok (d : Db) (cid : string) (ch : Z) (c : ChannelState) : Prop :=
  (started c = true -> durable_through d cid ch (through c)) /\
  (forall q, q ∈ ahead c -> durable d cid ch q) /\ in_u32 (through c).

Record session_ok (d : Db) (s : Session) : Prop := {
  sk_chans : forall cid st ch c, sn_calls s !! cid = Some st -> channels st !! ch = Some c -> chan_ok d cid ch c;
  sk_orphans : forall cid l, orphans s !! cid = Some l ->
    Forall (fun o => formatULID (go_CallID o.1) = cid /\ Sent o.1 /\ record_typed o.1) l;
}.

Record out_ok (d : Db) (o : Outbound) : Prop := {
  ok_acks : Forall (fun a => durable_through d (ga_CallID a) (ga_Channel a) (ga_ThroughSeq a)) (Acks o);
  ok_resumes : Forall (fun r => forall key n, gr_Acked r !! key = Some n ->
    exists ch, key = fmt_u ch /\ durable_through d (gr_CallID r) ch n) (Resumes o);
}.

(** What the database holds is never taken away. *)
Definition db_le (d d' : Db) : Prop :=
  forall k, is_Some (db_segments d !! k) -> is_Some (db_segments d' !! k).
#[export] Instance db_le_preorder : PreOrder db_le.
Proof. split; [by intros d k|]. intros d1 d2 d3 H1 H2 k Hk. by apply H2, H1. Qed.

Lemma durable_mono d d' cid ch q : db_le d d' -> durable d cid ch q -> durable d' cid ch q.
Proof. intros H (id & Hp & Hs). exists id. split; [done|by apply H]. Qed.
Lemma durable_through_mono d d' cid ch n : db_le d d' -> durable_through d cid ch n -> durable_through d' cid ch n.
Proof. intros H Hn q Hq. eapply durable_mono; eauto. Qed.
Lemma chan_ok_mono d d' cid ch c : db_le d d' -> chan_ok d cid ch c -> chan_ok d' cid ch c.
Proof. intros H (H1 & H2 & H3). split_and!; eauto using durable_mono, durable_through_mono. Qed.
Lemma session_ok_mono d d' s : db_le d d' -> session_ok d s -> session_ok d' s.
Proof. intros H [H1 H2]. split; eauto using chan_ok_mono. Qed.
Lemma out_ok_mono d d' o : db_le d d' -> out_ok d o -> out_ok d' o.
Proof.
  intros H [H1 H2]. split; eapply Forall_impl; try eassumption; cbn; eauto using durable_through_mono.
  intros r Hr key n Hk. destruct (Hr key n Hk) as (ch & ? & ?). eauto using durable_through_mono.
Qed.

(** *** The sink *)

(** An operation of the sink keeps the stores sound and only adds. *)
Definition sink_safe (d d' : Db) : Prop := db_ok d -> db_ok d' /\ db_le d d'.
#[export] Instance sink_safe_preorder : PreOrder sink_safe.
Proof.
  split; [done|]. intros d1 d2 d3 H1 H2 H. destruct (H1 H) as [K1 L1]. destruct (H2 K1) as [K2 L2].
  split; [done|by etrans].
Qed.

Lemma db_fault_safe d f d' : db_fault d = (f, d') -> sink_safe d d' /\
  db_segments d' = db_segments d /\ db_blobs d' = db_blobs d /\ db_watermarks d' = db_watermarks d /\
  db_today d' = db_today d /\ db_calls d' = db_calls d /\ db_outbox d' = db_outbox d.
Proof.
  unfold db_fault. intros E. destruct (db_faults d); simplify_eq; split_and!; try done.
  intros [H1 H2 H3]. split; [by split|by intros k].
Qed.

(** Rows stay backed when an object is written under the name of a sent record. *)
Lemma row_backed_put d k row rec :
  Sent rec -> record_typed rec -> lacks "/" (db_today d) -> row_backed d k row ->
  row_backed (d <| db_blobs := <[SegmentKey tenant (db_today d) (formatULID (go_CallID rec)) (go_Channel rec)
                                 (go_Seq rec) := go_Payload rec]> (db_blobs d) |>) k row.
Proof.
  intros Hs [Hc Hq] Ht (r0 & day & Hs0 & [Hc0 Hq0] & Hd & Hid & Hch & Hsq & Hkey & Hb).
  unfold row_backed. cbn. destruct (decide (SegmentKey tenant (db_today d) (formatULID (go_CallID rec))
    (go_Channel rec) (go_Seq rec) = ds_s3_key row)) as [E|Hne].
  - exists rec, day. assert (E' := E). rewrite Hkey in E'.
    apply SegmentKey_inj in E' as (E1 & E2 & E3); try done; [|ints; lia..].
    rewrite E, lookup_insert_eq, E1, E2, E3. split_and!; done.
  - rewrite lookup_insert_ne by done. exists r0, day. split_and!; done.
Qed.

Lemma PutSegment_safe rec d d' r :
  Sent rec -> record_typed rec -> GPut (formatULID (go_CallID rec)) rec d = (d', r) ->
  sink_safe d d' /\
  (r = Ok tt -> durable d' (formatULID (go_CallID rec)) (go_Channel rec) (go_Seq rec)).
Proof.
  intros Hs Ht. unfold PutSegment. destruct (parseULID (formatULID (go_CallID rec))) as [id|] eqn:Hid;
    [|intros [= <- <-]; by split].
  destruct (db_fault d) as [f1 d1] eqn:E1. apply db_fault_safe in E1 as (S1 & Es1 & Eb1 & Ew1 & Et1 & Ec1 & _).
  destruct f1; [intros [= <- <-]; by split|]. rewrite <- Et1.
  set (key := SegmentKey _ _ _ _ _). set (d2 := d1 <| db_blobs := _ |>).
  assert (sink_safe d1 d2) as S2.
  { intros [H1 H2 H3]. split; [|by intros k]. split; [done| |done]. intros k row Hk. by apply row_backed_put, H2. }
  destruct (db_fault d2) as [f2 d3] eqn:E2. apply db_fault_safe in E2 as (S3 & Es3 & Eb3 & Ew3 & Et3 & Ec3 & _).
  assert (sink_safe d d3) as S by (etrans; [exact S1|]; etrans; [exact S2|exact S3]).
  case_match; [intros [= <- <-]; by split|]. destruct (db_segments d3 !! _) as [row0|] eqn:El.
  { intros [= <- <-]. split; [done|]. intros _. exists id. rewrite El. split; [done|]. by eexists. }
  intros [= <- <-]. split; [|intros _; exists id; cbn; rewrite lookup_insert_eq; split; [done|by eexists]].
  intros Hok. destruct (S Hok) as [[H1 H2 H3] HL]. split.
  2: { intros k Hk. cbn. destruct (decide ((id, go_Channel rec, as_i32 (go_Seq rec)) = k)) as [<-|Hne];
       [by rewrite lookup_insert_eq|]. rewrite lookup_insert_ne by done. by apply HL. }
  split; cbn; [| |done].
  - intros id' ch v q Hv Hq. destruct (H1 id' ch v q Hv Hq) as [row Hrow].
    destruct (decide ((id, go_Channel rec, as_i32 (go_Seq rec)) = (id', ch, as_i32 q))) as [<-|Hne];
      [by rewrite lookup_insert_eq|]. rewrite lookup_insert_ne by done. by eexists.
  - intros k row Hk. destruct (decide ((id, go_Channel rec, as_i32 (go_Seq rec)) = k)) as [<-|Hne].
    + rewrite lookup_insert_eq in Hk. simplify_eq. exists rec, (db_today d1). cbn.
      rewrite Eb3. cbn. rewrite lookup_insert_eq. rewrite Et3 in H3. by split_and!.
    + rewrite lookup_insert_ne in Hk by done. by apply H2.
Qed.

Lemma SetWatermark_safe cid ch t d d' r :
  in_u32 t -> (db_ok d -> durable_through d cid ch t) -> SetWatermark parseULID cid ch t d = (d', r) -> sink_safe d d'.
Proof.
  intros Ht Hdur. unfold SetWatermark. destruct (parseULID cid) as [id|] eqn:Hid; [|by intros [= <- <-]].
  destruct (db_fault d) as [f d1] eqn:E1. apply db_fault_safe in E1 as (S1 & Es1 & Eb1 & Ew1 & Et1 & Ec1 & _).
  case_match; intros [= <- <-]; [done|]. intros Hok. destruct (S1 Hok) as [[H1 H2 H3] HL]. split; [|done].
  assert (forall q, 0 <= q <= t -> is_Some (db_segments d1 !! (id, ch, as_i32 q))) as Hnew.
  { intros q Hq. destruct (Hdur Hok q Hq) as (id' & Hp & Hs). simplify_eq. by rewrite Es1. }
  split; cbn; [|done|done]. intros id' ch' v q. destruct (decide ((id, ch) = (id', ch'))) as [E|Hne].
  - simplify_eq. rewrite lookup_insert_eq. intros [= <-] Hq. destruct (db_watermarks d1 !! (id', ch')) as [old|] eqn:Eo.
    + destruct (Z.max_spec old (as_i32 t)) as [[_ E]|[_ E]]; rewrite E in Hq;
        [rewrite as_from_i32 in Hq by done; by apply Hnew|by eapply H1].
    + rewrite as_from_i32 in Hq by done. by apply Hnew.
  - rewrite lookup_insert_ne by done. apply H1.
Qed.

Lemma map_fold_lookup {A B} `{Countable K} `{Countable K'} (P : K' -> B -> Prop) (f : K -> A -> gmap K' B -> gmap K' B)
    (m : gmap K A) :
  (forall k v acc, m !! k = Some v -> (forall i b, acc !! i = Some b -> P i b) ->
     forall i b, f k v acc !! i = Some b -> P i b) ->
  forall i b, map_fold f ∅ m !! i = Some b -> P i b.
Proof.
  intros Hf. rewrite map_fold_foldr.
  assert (Forall (fun kv => m !! kv.1 = Some kv.2) (map_to_list m)) as Hall.
  { apply Forall_forall. intros [k v]. apply elem_of_map_to_list. }
  induction Hall as [|[k v] l Hk _ IH]; cbn; [by intros i b; rewrite lookup_empty|]. by apply Hf.
Qed.

Lemma EnsureCall_safe cs d d' r :
  EnsureCall parseULID parse_time cs d = (d', r) -> sink_safe d d' /\
  (db_ok d -> forall existed marks ch t, r = Ok (existed, marks) -> marks !! ch = Some t ->
     in_u32 t /\ durable_through d' (gs_CallID cs) ch t).
Proof.
  unfold EnsureCall. destruct (parseULID (gs_CallID cs)) as [id|] eqn:Hid; [|by intros [= <- <-]].
  destruct (parse_time (gs_StartedAt cs)) as [st|]; [|by intros [= <- <-]].
  destruct (db_fault d) as [f d1] eqn:E1. apply db_fault_safe in E1 as (S1 & _).
  destruct (f || _); [by intros [= <- <-]|]. set (d2 := if _ && _ then _ else d1).
  assert (sink_safe d1 d2 /\ db_watermarks d2 = db_watermarks d1 /\ db_segments d2 = db_segments d1) as (S2 & Ew & Es).
  { unfold d2. destruct (_ && _); [|done]. split_and!; [|done..]. intros [H1 H2 H3]. by split; [split|intros k]. }
  intros [= <- <-]. split; [by etrans|]. intros Hok existed marks ch t [= _ <-].
  destruct (S1 Hok) as [Hok1 _]. destruct (S2 Hok1) as [[Hm _ _] _].
  apply (map_fold_lookup (fun ch t => in_u32 t /\ durable_through d2 (gs_CallID cs) ch t)).
  intros [id' ch'] v acc Hv Hacc i b. cbn. case_bool_decide as Hi; [|by apply Hacc]. subst id'.
  destruct (decide (ch' = i)) as [<-|Hne]; [|rewrite lookup_insert_ne by done; by apply Hacc].
  rewrite lookup_insert_eq. intros [= <-]. split.
  - unfold from_i32, wrap32, in_u32. pose proof (Z.mod_pos_bound v (2 ^ 32) ltac:(lia)). ints. lia.
  - intros q Hq. exists id. split; [done|]. by eapply Hm.
Qed.

Lemma FinishCall_safe ce d d' r : FinishCall parseULID parse_time ce d = (d', r) -> sink_safe d d'.
Proof.
  unfold FinishCall. destruct (parseULID _); [|by intros [= <- <-]]. destruct (parse_time _); [|by intros [= <- <-]].
  destruct (db_fault d) as [f d1] eqn:E1. apply db_fault_safe in E1 as (S1 & _).
  destruct f; [by intros [= <- <-]|]. repeat case_match; intros [= <- <-]; try done;
    (etrans; [exact S1|]; intros [K1 K2 K3]; by split; [split|intros k]).
Qed.

(** *** The session *)

Record g_ok (g : G) : Prop := {
  gk_s : session_ok (g_db g) (g_s g);
  gk_db : db_ok (g_db g);
  gk_out : out_ok (g_db g) (g_out g);
}.
Definition safe (g g' : G) : Prop := g_ok g -> g_ok g' /\ db_le (g_db g) (g_db g').
#[export] Instance safe_preorder : PreOrder safe.
Proof.
  split; [done|]. intros g1 g2 g3 H1 H2 H. destruct (H1 H) as [K1 L1]. destruct (H2 K1) as [K2 L2].
  split; [done|by etrans].
Qed.

Lemma safe_same g g' :
  g_db g' = g_db g -> (g_ok g -> session_ok (g_db g) (g_s g') /\ out_ok (g_db g) (g_out g')) -> safe g g'.
Proof. intros E H Hg. rewrite E. destruct (H Hg). by split; [split; rewrite E; try done; by destruct Hg|]. Qed.

Lemma on_sink_safe {A} (op : Db -> Db * result A string) g g' r :
  on_sink op g = (g', r) -> (g_ok g -> sink_safe (g_db g) (op (g_db g)).1) ->
  safe g g' /\ g' = g <| g_db := g_db g' |> /\ op (g_db g) = (g_db g', r).
Proof.
  unfold on_sink. intros E Hs. destruct (op (g_db g)) as [d' r'] eqn:Eo. simplify_eq. split_and!; try done.
  intros Hg. destruct (Hs Hg (gk_db g Hg)) as [Hd HL]. destruct Hg. cbn. split; [|done].
  split; cbn; eauto using session_ok_mono, out_ok_mono.
Qed.

Lemma add_error_safe cid code msg fatal g : safe g (add_error cid code msg fatal g).
Proof. apply safe_same; [done|]. intros [Hs Hd [H1 H2]]. split; [done|by split]. Qed.
Lemma set_close_safe code reason g : safe g (set_close code reason g).
Proof. apply safe_same; [done|]. intros [Hs Hd [H1 H2]]. split; [done|by split]. Qed.
Lemma touch_safe now g : safe g (touch now g).
Proof. apply safe_same; [done|]. intros [[H1 H2] Hd Ho]. split; [by split|done]. Qed.

Lemma chan_new_ok d cid ch : chan_ok d cid ch ChannelState_new.
Proof. split_and!; [done|set_solver|done]. Qed.

Lemma channel_of_ok d s cid ch : session_ok d s -> chan_ok d cid ch (channel_of cid ch s).
Proof.
  intros [H _]. unfold channel_of. destruct (sn_calls s !! cid) as [st|] eqn:E1; [|apply chan_new_ok].
  cbn. destruct (channels st !! ch) as [c|] eqn:E2; [|apply chan_new_ok]. by eapply H.
Qed.

Lemma put_channel_safe cid ch c g :
  (g_ok g -> chan_ok (g_db g) cid ch c) -> safe g (put_channel cid ch c g).
Proof.
  intros Hc. apply safe_same; [done|]. intros Hg. destruct (Hc Hg) as (C1 & C2 & C3). destruct Hg as [[H1 H2] Hd Ho].
  split; [|done]. split; [|done]. intros cid' st ch' c'. unfold put_channel, set_channel. cbn.
  rewrite lookup_alter_Some. intros [(<- & st0 & E0 & ->)|[_ E0]]; [cbn|by eapply H1].
  rewrite lookup_insert_Some. intros [[<- <-]|[_ E1]]; [done|by eapply H1].
Qed.

Lemma absorb_ok d cid ch fuel c :
  durable_through d cid ch (through c) -> (forall q, q ∈ ahead c -> durable d cid ch q) -> in_u32 (through c) ->
  chan_ok d cid ch (absorb fuel c).
Proof.
  revert c. induction fuel as [|fuel IH]; intros c H1 H2 H3; cbn [absorb]; [done|].
  case_bool_decide as Hn; [|done]. apply IH; cbn; [|set_solver|].
  - intros q Hq. unfold wrap32 in *. destruct (decide (through c = u32_max)) as [E|Hne].
    + rewrite E in Hn, Hq. change ((u32_max + 1) mod 2 ^ 32) with 0 in *. assert (q = 0) as -> by lia. by apply H2.
    + rewrite Z.mod_small in Hn, Hq by (ints; lia). destruct (decide (q = through c + 1)) as [->|]; [by apply H2|].
      apply H1. lia.
  - unfold wrap32, in_u32. pose proof (Z.mod_pos_bound (through c + 1) (2 ^ 32) ltac:(lia)). ints. lia.
Qed.

Lemma advance_ok d cid ch c q :
  chan_ok d cid ch c -> durable d cid ch q -> in_u32 q -> chan_ok d cid ch (advance c q).
Proof.
  intros (H1 & H2 & H3) Hd Hq. unfold advance. destruct (started c) eqn:Es; cbn [negb].
  - destruct (Z.eqb_spec q (wrap32 (through c + 1))) as [E|].
    + apply absorb_ok; cbn; [|done|done]. intros p Hp. unfold wrap32 in E.
      destruct (decide (through c = u32_max)) as [Et|Hne].
      * rewrite Et in E. change ((u32_max + 1) mod 2 ^ 32) with 0 in E. assert (p = q) as -> by lia. done.
      * rewrite Z.mod_small in E by (ints; lia). destruct (decide (p = q)) as [->|]; [done|].
        apply H1; [done|]. lia.
    + split_and!; cbn; [intros _; by apply H1| |done]. set_solver.
  - destruct (Z.eqb_spec q 0) as [->|].
    + apply absorb_ok; cbn; [|done|ints; lia]. intros p Hp. by assert (p = 0) as -> by lia.
    + split_and!; cbn; [intros E; congruence| |done]. set_solver.
Qed.

Lemma storeRecord_safe rec g g' r :
  Sent rec -> record_typed rec -> GStore (formatULID (go_CallID rec)) rec g = (g', r) -> safe g g'.
Proof.
  intros Hs Ht. unfold storeRecord. set (cid := formatULID (go_CallID rec)). set (c := channel_of _ _ _).
  set (g1 := put_channel cid (go_Channel rec) c g).
  assert (safe g g1) as S1. { apply put_channel_safe. intros [Hk _ _]. by apply channel_of_ok. }
  assert (forall c', (started c' = started c /\ through c' = through c /\ ahead c' = ahead c) ->
    g_ok g1 -> chan_ok (g_db g1) cid (go_Channel rec) c') as Hc'.
  { intros c' (E1 & E2 & E3) Hg1. unfold chan_ok. rewrite E1, E2, E3.
    assert (chan_ok (g_db g1) cid (go_Channel rec) (channel_of cid (go_Channel rec) (g_s g1))) as Hco
      by (apply channel_of_ok, Hg1).
    revert Hco. unfold g1, put_channel, set_channel, channel_of at 1. cbn.
    destruct (sn_calls (g_s g) !! cid) as [st|] eqn:E.
    - rewrite lookup_alter_eq, E. cbn. by rewrite lookup_insert_eq.
    - intros _. unfold c, channel_of. rewrite E. cbn. apply chan_new_ok. }
  destruct (started c && _); [intros [= <- <-]; etrans; [exact S1|]; by apply put_channel_safe, Hc'|].
  destruct (on_sink _ g1) as [g2 r2] eqn:Ek.
  destruct (PutSegment tenant parseULID cid rec (g_db g1)) as [d2 r2'] eqn:Ep.
  pose proof (PutSegment_safe rec _ _ _ Hs Ht Ep) as [Sp Hdur].
  apply on_sink_safe in Ek as (S2 & Eg2 & Er); [|by rewrite Ep]. rewrite Er in Ep. simplify_eq.
  assert (safe g g2) as S by by etrans.
  destruct r2' as [[]|e]; intros [= <- <-]; [|etrans; [exact S|apply add_error_safe]].
  intros Hg. destruct (S1 Hg) as [Hg1 _]. destruct (S2 Hg1) as [Hg2 L2].
  revert Hg. change (safe g (put_channel cid (go_Channel rec)
    (advance (c <| sinceAck := wrap32 (sinceAck c + 1) |>) (go_Seq rec)) g2)).
  etrans; [exact S|]. apply put_channel_safe. intros _. apply advance_ok; [|by apply Hdur|by apply Ht].
  eapply chan_ok_mono; [exact L2|]. by apply Hc'.
Qed.

Lemma ackChannel_safe now k g :
  started (channel_of k.1 k.2 (g_s g)) = true -> safe g (ackChannel parseULID now k g).
Proof.
  destruct k as [cid ch]. cbn [fst snd]. intros Hst.
  set (c := (channel_of cid ch (g_s g)) <| lastAck := Some now |> <| sinceAck := 0 |>).
  set (g1 := put_channel cid ch c g).
  assert (forall g0, g_db g0 = g_db g -> g_ok g0 -> g_ok g -> durable_through (g_db g0) cid ch (through c) /\ in_u32 (through c))
    as Hthr.
  { intros g0 E _ Hg. rewrite E. destruct (channel_of_ok _ _ cid ch (gk_s g Hg)) as (H1 & _ & H3). split; [by apply H1|done]. }
  assert (safe g g1) as S1.
  { apply put_channel_safe. intros Hg. exact (channel_of_ok _ _ cid ch (gk_s g Hg)). }
  set (c' := c <| acked := through c |> <| everAcked := true |>).
  assert (ackChannel parseULID now (cid, ch) g =
    if everAcked c && (acked c =? through c) then g1
    else let '(g2, r) := on_sink (SetWatermark parseULID cid ch (through c)) g1 in
         match r with
         | Err _ => g2
         | Ok _ =>
             let a := {| ga_CallID := cid; ga_Channel := ch; ga_ThroughSeq := through c |} in
             (put_channel cid ch c' g2) <| g_out := (g_out g2) <| Acks := Acks (g_out g2) ++ [a] |> |>
         end) as -> by reflexivity.
  case_match; [done|]. destruct (on_sink _ g1) as [g2 r2] eqn:Ek.
  intros Hg. destruct (S1 Hg) as [Hg1 L1]. destruct (Hthr g1 eq_refl Hg1 Hg) as [Hd Hu].
  apply on_sink_safe in Ek as (S2 & Eg2 & Er).
  2: { intros _. destruct (SetWatermark parseULID cid ch (through c) (g_db g1)) as [d r] eqn:Ep.
       eapply SetWatermark_safe; [exact Hu| |exact Ep]. by intros _. }
  destruct (S2 Hg1) as [Hg2 L2]. assert (db_le (g_db g) (g_db g2)) as L by by etrans.
  destruct r2; [|by split].
  set (g3 := put_channel cid ch c' g2).
  assert (safe g2 g3) as S3.
  { apply put_channel_safe. intros _. eapply chan_ok_mono; [exact L2|]. exact (channel_of_ok _ _ cid ch (gk_s g Hg)). }
  destruct (S3 Hg2) as [[K1 K2 [K3 K4]] _]. split; [|done]. split; [done|done|]. split; cbn; [|done].
  apply Forall_app. split; [done|]. constructor; [|done]. cbn. by eapply durable_through_mono.
Qed.

Lemma foldl_safe {A} (f : G -> A -> G) l g : (forall g a, safe g (f g a)) -> safe g (foldl f g l).
Proof. intros Hf. revert g. induction l as [|a l IH]; intros g; cbn; [done|]. etrans; [apply Hf|apply IH]. Qed.

Lemma emitDueAcks_safe iter now g : safe g (emitDueAcks parseULID iter now g).
Proof.
  apply foldl_safe. intros g' k. cbv zeta. destruct (started (channel_of k.1 k.2 (g_s g'))) eqn:E; cbn [negb]; [|done].
  case_match; [|done]. by apply ackChannel_safe.
Qed.

Lemma flushAcks_safe iter now g : safe g (flushAcks parseULID iter now g).
Proof. apply foldl_safe. intros g' k. destruct (started (channel_of k.1 k.2 (g_s g'))) eqn:E; [|done]. by apply ackChannel_safe. Qed.

Lemma delete_orphan_safe cid g :
  safe g (g <| g_s := (g_s g) <| orphans := delete cid (orphans (g_s g)) |> |>).
Proof.
  apply safe_same; [done|]. intros [[H1 H2] _ Ho]. split; [|done]. split; [done|].
  intros cid' l. cbn. rewrite lookup_delete_Some. intros [_ Hl]. by eapply H2.
Qed.

Lemma expireOrphans_safe iter now g : safe g (expireOrphans duration_string iter now g).
Proof.
  apply foldl_safe. intros g' o. destruct (orphans (g_s g') !! o.1) as [[|[r at_] l]|]; [done| |done].
  case_match; [done|]. etrans; [apply (delete_orphan_safe o.1)|apply add_error_safe].
Qed.

Lemma adopt_acked_safe cid marks g :
  (forall ch t, marks !! ch = Some t -> in_u32 t /\ durable_through (g_db g) cid ch t) ->
  safe g (adopt_acked cid marks g) /\ g_db (adopt_acked cid marks g) = g_db g.
Proof.
  intros Hm. unfold adopt_acked. rewrite map_fold_foldr.
  assert (Forall (fun kv => in_u32 kv.2 /\ durable_through (g_db g) cid kv.1 kv.2) (map_to_list marks)) as Hall.
  { apply Forall_forall. intros [ch t] Hin%elem_of_map_to_list. by apply Hm. }
  induction Hall as [|[ch t] l [Hu Hd] _ [IH IHd]]; cbn; [done|]. set (g1 := foldr _ g l) in *.
  split; [|exact IHd]. etrans; [exact IH|]. apply put_channel_safe. intros Hg1.
  destruct (channel_of_ok _ _ cid ch (gk_s g1 Hg1)) as (_ & H2 & _).
  split_and!; cbn; [intros _; by rewrite IHd|done|done].
Qed.

Lemma watermarkMap_ok d s cid st :
  session_ok d s -> sn_calls s !! cid = Some st ->
  forall key n, watermarkMap st !! key = Some n -> exists ch, key = fmt_u ch /\ durable_through d cid ch n.
Proof.
  intros [H1 _] Hst. apply (map_fold_lookup (fun key n => exists ch, key = fmt_u ch /\ durable_through d cid ch n)).
  intros ch c acc Hc Hacc i b. destruct (started c) eqn:E; [|by apply Hacc].
  destruct (H1 _ _ _ _ Hst Hc) as (Hd & _). rewrite lookup_insert_Some.
  intros [[<- <-]|[_ Hi]]; [|by apply Hacc]. exists ch. split; [done|by apply Hd].
Qed.

Lemma store_all_safe cid recs g g' r :
  Forall (fun rec => formatULID (go_CallID rec) = cid /\ Sent rec /\ record_typed rec) recs ->
  store_all tenant formatULID parseULID cid recs g = (g', r) -> safe g g'.
Proof.
  intros Hall. revert g. induction Hall as [|rec recs (<- & Hs & Ht) _ IH]; intros g; cbn [store_all];
    [by intros [= <- <-]|].
  unfold bindM. destruct (storeRecord _ _ _ _ _ _) as [g1 r1] eqn:E1. apply storeRecord_safe in E1; [|done|done].
  destruct r1; [|by intros [= <- <-]]. intros E. etrans; [exact E1|by eapply IH].
Qed.

Lemma OnMedia_safe iter rec now g :
  Sent rec -> record_typed rec ->
  safe g (OnMedia tenant formatULID parseULID duration_string iter rec now g).1.
Proof.
  intros Hs Ht. unfold OnMedia. set (cid := formatULID (go_CallID rec)). etrans; [apply (touch_safe now)|].
  set (g0 := touch now g). destruct (sn_calls (g_s g0) !! cid) eqn:E.
  - destruct (storeRecord _ _ _ _ _ _) as [g1 r1] eqn:E1. apply storeRecord_safe in E1; [|done|done].
    destruct r1; [|done]. cbn. etrans; [exact E1|apply emitDueAcks_safe].
  - cbn [fst]. etrans; [|apply expireOrphans_safe]. apply safe_same; [done|]. intros [[H1 H2] _ Ho].
    split; [|done]. split; [done|]. intros cid' l. cbn. rewrite lookup_insert_Some. intros [[<- <-]|[_ Hl]];
      [|by eapply H2]. apply Forall_app. split; [|by constructor].
    destruct (orphans (g_s g) !! cid) as [l|] eqn:El; [by eapply H2|done].
Qed.

Lemma checkIdentity_safe cid uid did g g' r : checkIdentity cid uid did g = (g', r) -> safe g g'.
Proof. unfold checkIdentity. repeat case_match; intros [= <- <-]; try done; apply add_error_safe. Qed.

Lemma open_call_safe cs (fresh : callState) g :
  channels fresh = ∅ ->
  safe g (match sn_calls (g_s g) !! gs_CallID cs with
          | Some _ => g
          | None => g <| g_s := (g_s g) <| sn_calls := <[gs_CallID cs := fresh]> (sn_calls (g_s g)) |> |>
          end).
Proof.
  intros Hf. destruct (sn_calls (g_s g) !! gs_CallID cs) eqn:E; [done|]. apply safe_same; [done|].
  intros [[H1 H2] _ Ho]. split; [|done]. split; [|done]. intros cid st ch c. cbn. rewrite lookup_insert_Some.
  intros [[<- <-]|[_ Hl]] Hc; [by rewrite Hf, lookup_empty in Hc|by eapply H1].
Qed.

(** The rest of [OnCallStart] once the call is open: the resume, the records that came
    ahead of it, and the acks that are due. *)
Lemma resumed_safe iter cs (fresh : callState) (existed : bool) now g :
  channels fresh = ∅ ->
  let st := default fresh (sn_calls (g_s g) !! gs_CallID cs) in
  let g1 := if existed
            then g <| g_out := (g_out g) <| Resumes := Resumes (g_out g) ++
                   [{| gr_CallID := gs_CallID cs; gr_Acked := watermarkMap st |}] |> |>
            else g in
  let pending := default [] (orphans (g_s g1) !! gs_CallID cs) in
  let g2 := if (0 <? length pending)%nat
            then g1 <| g_s := (g_s g1) <| orphans := delete (gs_CallID cs) (orphans (g_s g1)) |> |>
            else g1 in
  safe g (let '(g, r) := store_all tenant formatULID parseULID (gs_CallID cs) pending.*1 g2 in
          match r with Err e => (g, Err e) | Ok _ => (emitDueAcks parseULID iter now g, Ok tt) end).1.
Proof.
  intros Hf st g1 pending g2.
  assert (safe g g1) as S1.
  { unfold g1. destruct existed; [|done]. apply safe_same; [done|]. intros [Hs _ [H1 H2]]. split; [done|].
    split; [done|]. cbn. apply Forall_app. split; [done|]. constructor; [|done]. cbn.
    unfold st. destruct (sn_calls (g_s g) !! gs_CallID cs) as [st0|] eqn:E; [by eapply watermarkMap_ok|].
    cbn. unfold watermarkMap. rewrite Hf, map_fold_empty. intros key n. by rewrite lookup_empty. }
  assert (safe g1 g2) as S2. { unfold g2. case_match; [apply delete_orphan_safe|done]. }
  intros Hg. destruct (S1 Hg) as [Hg1 L1]. revert Hg.
  match goal with |- g_ok g -> g_ok ?g' /\ _ => change (safe g g') end.
  etrans; [exact S1|]. etrans; [exact S2|].
  destruct (store_all _ _ _ _ _ _) as [g3 r3] eqn:E3. apply store_all_safe in E3.
  - destruct r3; [|done]. etrans; [exact E3|apply emitDueAcks_safe].
  - apply Forall_fmap. unfold pending. destruct (orphans (g_s g1) !! gs_CallID cs) as [l|] eqn:El; [|done].
    by eapply (sk_orphans _ _ (gk_s _ Hg1)).
Qed.

Lemma OnCallStart_safe iter cs now g :
  safe g (OnCallStart tenant formatULID parseULID parse_time iter cs now g).1.
Proof.
  unfold OnCallStart. etrans; [apply (touch_safe now)|]. set (g0 := touch now g).
  destruct (checkIdentity _ _ _ g0) as [g1 r1] eqn:E1. apply checkIdentity_safe in E1.
  etrans; [exact E1|]. destruct r1 as [u1|]; [|done]. destruct (_ <=? _); [apply set_close_safe|].
  destruct (on_sink _ g1) as [g2 r2] eqn:E2.
  destruct (EnsureCall parseULID parse_time cs (g_db g1)) as [d2 r2'] eqn:Ee.
  pose proof (EnsureCall_safe _ _ _ _ Ee) as [Se Hmarks]. apply on_sink_safe in E2 as (S2 & _ & Er); [|by rewrite Ee].
  rewrite Ee in Er. simplify_eq. destruct r2 as [[existed marks]|e]; [|etrans; [exact S2|apply add_error_safe]].
  intros Hg1. specialize (Hmarks (gk_db _ Hg1) existed marks). revert Hg1. fold (safe g1).
  match goal with |- g_ok g1 -> g_ok ?g' /\ _ => change (safe g1 g') end. etrans; [exact S2|].
  set (fresh := {| cl_start := cs |}). etrans; [apply (open_call_safe cs fresh); done|]. set (g3 := match _ with Some _ => _ | None => _ end).
  assert (g_db g3 = g_db g2) as Ed3 by (unfold g3; by case_match).
  destruct (adopt_acked_safe (gs_CallID cs) marks g3) as [S4 Ed4].
  { intros ch t Hch. rewrite Ed3. by apply Hmarks. }
  etrans; [exact S4|]. set (g4 := adopt_acked _ _ _) in *. apply (resumed_safe iter cs fresh existed now g4). done.
Qed.

Lemma OnCallEnd_safe iter ce now g :
  safe g (OnCallEnd parseULID parse_time iter ce now g).1.
Proof.
  unfold OnCallEnd. etrans; [apply (touch_safe now)|]. set (g0 := touch now g).
  destruct (sn_calls (g_s g0) !! ge_CallID ce) as [st|] eqn:Est; [|apply add_error_safe].
  destruct (on_sink _ g0) as [g1 r1] eqn:E1.
  apply on_sink_safe in E1 as (S1 & Eg & _).
  2: { intros _. destruct (FinishCall _ _ _ _) as [d r] eqn:Ef. by eapply FinishCall_safe. }
  etrans; [exact S1|]. destruct r1 as [u1|]; [|apply add_error_safe]. cbn [fst].
  etrans; [|apply flushAcks_safe]. apply safe_same; [done|]. intros [[H1 H2] _ Ho]. split; [|done]. split; [|done].
  intros cid st' ch c. cbn. rewrite lookup_insert_Some. intros [[<- <-]|[_ Hl]] Hc; [|by eapply H1].
  eapply (H1 _ st); [|exact Hc]. rewrite Eg. exact Est.
Qed.

Lemma OnHeartbeat_safe iter now g : safe g (OnHeartbeat format_time duration_string iter now g).
Proof.
  unfold OnHeartbeat. etrans; [apply (touch_safe now)|]. set (g0 := touch now g). intros Hg.
  destruct (expireOrphans_safe iter now g0 Hg) as [[K1 K2 [K3 K4]] L]. split; [|done]. split; cbn; [done|done|].
  destruct (gk_out _ Hg). split; cbn; eapply Forall_impl; try eassumption; cbn; eauto using durable_through_mono.
  intros r Hr key n Hk. destruct (Hr key n Hk) as (ch & ? & ?). eauto using durable_through_mono.
Qed.

Lemma Tick_safe iter now g : safe g (Tick parseULID duration_string iter now g).
Proof.
  unfold Tick. set (g1 := expireOrphans _ _ _ _).
  assert (safe g g1) as S by (etrans; [apply emitDueAcks_safe|apply expireOrphans_safe]).
  case_match; [etrans; [exact S|apply set_close_safe]|done].
Qed.

(** *** Frames *)

Lemma merged_safe {A} (h : G -> G * result A string) g :
  (forall g, safe g (h g).1) -> safe g (merged h g).1.
Proof.
  intros Hh [Hs Hd [H1 H2]]. unfold merged. set (g0 := g <| g_out := Outbound_empty |>).
  assert (g_ok g0) as Hg0 by (split; [done|done|split; constructor]).
  destruct (Hh g0 Hg0) as [[K1 K2 [K3 K4]] L]. destruct (h g0) as [g' r]. cbn in *. split; [|done].
  split; cbn; [done|done|]. destruct (out_ok_mono (g_db g) (g_db g') (g_out g) L) as [M1 M2]; [by split|].
  split; cbn; by apply Forall_app.
Qed.

Lemma on_records_safe iter recs now g :
  Forall (fun rec => Sent rec /\ record_typed rec) recs ->
  safe g (on_records tenant formatULID parseULID duration_string iter recs now g).
Proof.
  intros Hall. revert g. induction Hall as [|rec recs [Hs Ht] _ IH]; intros g; cbn [on_records]; [done|].
  pose proof (merged_safe (OnMedia tenant formatULID parseULID duration_string iter rec now) g) as Hm.
  destruct (merged _ g) as [g1 r1]. cbn in Hm.
  assert (safe g g1) as S1 by (apply Hm; intros; by apply OnMedia_safe).
  destruct r1; [|done]. etrans; [exact S1|apply IH].
Qed.

Definition frame_sent (f : Frame) : Prop :=
  match f with
  | FrBinary data => forall recs, wire_DecodeAll data = Ok recs -> Forall (fun rec => Sent rec /\ record_typed rec) recs
  | FrText _ => True
  end.

Lemma dispatch_safe iter f now g :
  frame_sent f ->
  safe g (dispatch tenant formatULID parseULID parse_time format_time duration_string iter f now g).
Proof.
  intros Hf. unfold dispatch. destruct f as [data|data].
  - destruct (PeekKind data) as [kind|]; [|apply set_close_safe].
    case_bool_decide; [destruct (UnmarshalCallStart data); [apply OnCallStart_safe|apply set_close_safe]|].
    case_bool_decide; [destruct (UnmarshalCallEnd data); [apply OnCallEnd_safe|apply set_close_safe]|].
    case_bool_decide; [apply OnHeartbeat_safe|done].
  - destruct (wire_DecodeAll data) as [recs|] eqn:E; [|apply set_close_safe]. apply on_records_safe. by apply Hf.
Qed.

Lemma wire_typed data recs : wire_DecodeAll data = Ok recs -> Forall record_typed recs.
Proof.
  intros (rs & _ & -> & Ht)%wire_DecodeAll_Ok. apply Forall_fmap. eapply Forall_impl; [exact Ht|].
  intros r (Hs & _). split; cbn; [apply b2z_range|done].
Qed.

(** *** Connections

    The stores and the sessions of the connections that are open, in any number; each
    turn of one of them is a step, and the environment moves the date and decides which
    calls of the stores fail. [gw_texts] is everything ever written to a connection. *)
Record Gw := { gw_db : Db; gw_sessions : list Session; gw_texts : list string }.
#[export] Instance Gw_rebuild : Rebuild Gw := fun w =>
  {| gw_db := gw_db w; gw_sessions := gw_sessions w; gw_texts := gw_texts w |}.

#[local] Abbreviation Serve := (serve tenant formatULID parseULID parse_time format_time duration_string).

(** [Frames] are those that have been sent to the gateway. *)
Inductive gw_step (Frames : Frame -> Prop) : Gw -> Gw -> Prop :=
| gw_accept w p c pv now : gw_step Frames w (w <| gw_sessions := gw_sessions w ++ [NewSession p c pv now] |>)
| gw_serve w iter ev now writes l1 s l2 s' d' texts :
    gw_sessions w = l1 ++ s :: l2 ->
    match ev with EvFrame f => Frames f | _ => True end ->
    Serve iter ev now writes s (gw_db w) = (s', d', texts) ->
    gw_step Frames w {| gw_db := d'; gw_sessions := l1 ++ option_list s' ++ l2; gw_texts := gw_texts w ++ texts |}
| gw_lost w l1 s l2 :
    gw_sessions w = l1 ++ s :: l2 -> gw_step Frames w (w <| gw_sessions := l1 ++ l2 |>)
| gw_world w today faults :
    lacks "/" today ->
    gw_step Frames w (w <| gw_db := (gw_db w) <| db_today := today |> <| db_faults := faults |> |>).

(** A text that was written is of a message whose promise holds. *)
Definition text_ok (d : Db) (t : string) : Prop :=
  exists m, t = Marshal m /\
    match m with
    | GMAck a => durable_through d (ga_CallID a) (ga_Channel a) (ga_ThroughSeq a)
    | GMResume r => forall key n, gr_Acked r !! key = Some n ->
        exists ch, key = fmt_u ch /\ durable_through d (gr_CallID r) ch n
    | _ => True
    end.

Record gw_ok (w : Gw) : Prop := {
  wk_db : db_ok (gw_db w);
  wk_sessions : Forall (session_ok (gw_db w)) (gw_sessions w);
  wk_texts : Forall (text_ok (gw_db w)) (gw_texts w);
}.

Lemma text_ok_mono d d' t : db_le d d' -> text_ok d t -> text_ok d' t.
Proof.
  intros L (m & -> & Hm). exists m. split; [done|]. destruct m; eauto using durable_through_mono.
  intros key n Hk. destruct (Hm key n Hk) as (ch & ? & ?). eauto using durable_through_mono.
Qed.

Lemma messages_ok d o : out_ok d o -> Forall (text_ok d) (Marshal <$> messages o).
Proof.
  intros [H1 H2]. unfold messages. rewrite !fmap_app, !Forall_app, !Forall_fmap. split_and!.
  - eapply Forall_impl; [exact H2|]. intros r Hr. by exists (GMResume r).
  - eapply Forall_impl; [exact H1|]. intros a Ha. by exists (GMAck a).
  - apply Forall_forall. intros e _. by exists (GMCallError e).
  - apply Forall_forall. intros h _. by exists (GMHeartbeatAck h).
Qed.

Lemma send_texts_ok writes d o texts goes_on :
  out_ok d o -> send writes o = (texts, goes_on) -> Forall (text_ok d) texts.
Proof.
  intros Ho. unfold send. case_match; [intros [= <- <-]; constructor|].
  case_match; intros [= <- <-]; [apply Forall_take|]; by apply messages_ok.
Qed.

Lemma serve_safe iter ev now writes s d s' d' texts :
  match ev with EvFrame f => frame_sent f | _ => True end -> db_ok d -> session_ok d s ->
  Serve iter ev now writes s d = (s', d', texts) ->
  db_ok d' /\ db_le d d' /\ Forall (session_ok d') (option_list s') /\ Forall (text_ok d') texts.
Proof.
  intros Hev Hd Hs. unfold serve. set (g := {| g_s := s |}).
  assert (g_ok g) as Hg by (split; [done|done|split; constructor]).
  set (g' := match ev with EvFrame f => _ | _ => _ end).
  assert (safe g g') as S. { destruct ev; [by apply dispatch_safe|apply Tick_safe|apply set_close_safe]. }
  destruct (S Hg) as [[K1 K2 K3] L]. destruct (send writes (g_out g')) as [ts go] eqn:Es.
  intros [= <- <- <-]. split_and!; [done|done| |by eapply send_texts_ok]. destruct (go && _); cbn; [apply Forall_singleton; exact K1|constructor].
Qed.

Lemma gw_step_ok (Frames : Frame -> Prop) w w' :
  (forall f, Frames f -> frame_sent f) -> gw_step Frames w w' -> gw_ok w -> gw_ok w' /\ db_le (gw_db w) (gw_db w').
Proof.
  intros HF Hst [Hd Hs Ht]. destruct Hst as [w p c pv now|w iter ev now wr l1 s l2 s' d' texts El Hev Eq|w l1 s l2 El|w today faults Htd].
  - split; [|done]. split; cbn; [done| |done]. apply Forall_app. split; [done|]. constructor; [|done].
    split; cbn; [intros cid st ch c'|intros cid l]; by rewrite lookup_empty.
  - rewrite El, Forall_app, Forall_cons in Hs. destruct Hs as (Hs1 & Hs & Hs2).
    apply serve_safe in Eq as (K1 & L & K2 & K3); [|destruct ev; by auto|done..]. split; [|done]. split; cbn; [done| |].
    + rewrite !Forall_app. split_and!; [|done|]; (eapply Forall_impl; [eassumption|]); eauto using session_ok_mono.
    + rewrite Forall_app. split; [|done]. eapply Forall_impl; [exact Ht|]. eauto using text_ok_mono.
  - rewrite El, Forall_app, Forall_cons in Hs. split; [|done]. split; cbn; [done| |done].
    rewrite Forall_app. naive_solver.
  - split; [|by intros k]. destruct Hd as [H1 H2 H3]. split; cbn; [by split| |].
    + eapply Forall_impl; [exact Hs|]. intros s. apply session_ok_mono; by intros k.
    + eapply Forall_impl; [exact Ht|]. intros t. apply text_ok_mono; by intros k.
Qed.

Lemma gw_ok_new users today faults :
  lacks "/" today ->
  gw_ok {| gw_db := {| db_users := users; db_calls := ∅; db_segments := ∅; db_watermarks := ∅; db_outbox := ∅;
                       db_blobs := ∅; db_today := today; db_faults := faults |};
           gw_sessions := []; gw_texts := [] |}.
Proof.
  intros Ht. split; [|constructor..]. split; cbn; [|intros k row; by rewrite lookup_empty|done].
  intros id ch v q. by rewrite lookup_empty.
Qed.
End invariant.

(** More records sent keep what was established. *)
Lemma gw_ok_more {J : GoJson} tenant formatULID parseULID (Sent Sent' : GoRecord -> Prop) w :
  (forall r, Sent r -> Sent' r) -> gw_ok tenant formatULID parseULID Sent w -> gw_ok tenant formatULID parseULID Sent' w.
Proof.
  intros Hs [[H1 H2 H3] Hk Ht]. split; [split; [done| |done]| |done].
  - intros k row Hrow. destruct (H2 k row Hrow) as (rec & day & ? & ?). exists rec, day. split; [by apply Hs|done].
  - eapply Forall_impl; [exact Hk|]. intros s [K1 K2]. split; [done|]. intros cid l Hl.
    eapply Forall_impl; [by eapply K2|]. naive_solver.
Qed.

(** ** Properties *)

Section promises.
Context {J : GoJson} (tenant : string).
Context (formatULID : list u8 -> string) (parseULID : string -> option (list u8)).
Context (parse_time : string -> option Z) (format_time : Z -> string) (duration_string : Z -> string).
Context (format_plain : forall b, lacks "/" (formatULID b)).

(** Every run from an empty database; the frames are any whatever. *)
Inductive gw_run (users : gset string) : Gw -> Prop :=
| gw_run_new today faults :
    lacks "/" today ->
    gw_run users {| gw_db := {| db_users := users; db_calls := ∅; db_segments := ∅; db_watermarks := ∅;
                      db_outbox := ∅; db_blobs := ∅; db_today := today; db_faults := faults |};
                    gw_sessions := []; gw_texts := [] |}
| gw_run_step w w' :
    gw_run users w ->
    gw_step tenant formatULID parseULID parse_time format_time duration_string (fun _ => True) w w' ->
    gw_run users w'.

Lemma gw_run_ok users w :
  gw_run users w -> gw_ok tenant formatULID parseULID (fun _ => True) w.
Proof.
  induction 1 as [today faults Ht|w w' _ IH Hst]; [by apply gw_ok_new|].
  eapply gw_step_ok in Hst as [? _]; [done|done| |done]. intros [data|data] _; [done|].
  intros recs Hr. eapply Forall_impl; [by eapply wire_typed|]. done.
Qed.

(** C5: The gateway's word can be taken: whatever frames arrive on however many
    connections, in any order, cut off anywhere, and whichever calls of the object store
    and the database fail, an [ack] it writes covers only segments that are in the
    database, as does every watermark of a [resume]; and every row of the database points
    at an object that is there, holding the payload of a record of that call, channel and
    sequence number. *)
Theorem gateway_promises_are_durable users w :
  gw_run users w ->
  Forall (text_ok parseULID (gw_db w)) (gw_texts w) /\
  forall id ch q row, db_segments (gw_db w) !! (id, ch, q) = Some row ->
    exists rec, db_blobs (gw_db w) !! ds_s3_key row = Some (go_Payload rec) /\
      parseULID (formatULID (go_CallID rec)) = Some id /\ go_Channel rec = ch /\ as_i32 (go_Seq rec) = q.
Proof.
  intros Hr. destruct (gw_run_ok users w Hr) as [[_ H2 _] _ Ht]. split; [done|].
  intros id ch q row Hrow. destruct (H2 _ _ Hrow) as (rec & day & _ & _ & _ & ? & ? & ? & _ & ?). by exists rec.
Qed.
End promises.
