(* ===== verification/Delivery.v ===== *)
(** Client, network and gateway together: the uplink of Uplink.v pumping over any
    transport, the gateway of Gateway.v serving any number of connections, and nothing
    assumed of the network but that what the client reads was written by the gateway and
    what the gateway reads was sent by the client. Messages may be lost, late or seen on
    a connection the client has given up. The events the uplink raises go to the agent,
    from the agent into heartbeats, and may die with a restart on the way.

    A pass of [pump] is two steps, sending and reading, so that the gateway can answer
    in between; a message read was written before it was read, so the gateway's turns
    during the reading can be taken before it. *)

From S2P Require Import Prelude Text Protocol Config Spool SpoolProps Backoff Uplink UplinkProps Heartbeat.
From S2P Require Import GoWire Gateway GatewayProps.

(** How the client reads the gateway's messages. *)
Definition client_view (m : GoMessage) : ControlMessage :=
  match m with
  | GMAck a => MsgAck (ga_CallID a) (ga_Channel a) (ga_ThroughSeq a)
  | GMResume r => MsgResume (gr_CallID r) (gr_Acked r)
  | GMCallError e => MsgCallError (gx_CallID e) (gx_Code e) (gx_Message e) (gx_Fatal e)
  | GMHeartbeatAck h => MsgHeartbeatAck (gh_ServerTime h) (gh_PolicyVersion h)
  end.

(** encoding/json writes what serde reads: the fields have the same names on both sides
    (wire.go's tags, protocol.rs's fields), so a text that reads at all reads as the
    message it was written for. *)
Class JsonAgrees {Js : ControlJson} {J : GoJson} : Prop :=
  reads_as : forall m x, from_json (Marshal m) = Some x -> x = client_view m.

(** ** What the client sends *)

Definition to_frame (o : Outgoing) : Frame :=
  match o with OutText s => FrText s | OutBinary b => FrBinary b end.

Section sending.
Context {T F : Type} {Tr : Transport T} {Fa : TransportFactory F (Rec T)} {Js : ControlJson}.
Context (ulid_bytes : string -> option (list u8)).
Context (ulid_16 : forall s b, ulid_bytes s = Some b -> length b = 16%nat).
(** The segments ever pushed. *)
Context (Pushed : SegmentRow -> Prop).
Context (pushed_typed : forall g, Pushed g -> SegmentRow_typed g).
#[local] Abbreviation UL := (Uplink (Rec T) F).

(** A record of a segment that was pushed, as the gateway decodes it. *)
Definition sent_record (r : GoRecord) : Prop :=
  exists g, Pushed g /\ r = to_go (to_record g (call_id_bytes ulid_bytes (sg_call_id g))).

(** The spool holds pushed segments only. *)
Definition spool_pushed (s : Spool) : Prop :=
  forall k r, segments s !! k = Some r -> exists g, Pushed g /\ key_of g = k /\ row_of g = r.

(** Between two states of a pass, only good frames went out and the spool stayed. *)
Definition sends (st st' : UL * PumpOutcome) : Prop :=
  (spool st'.1 = spool st.1 /\ u_events st'.1 = u_events st.1) /\
  exists out, wire_of st'.1 = wire_of st.1 ++ out /\ Forall (fun o => frame_sent sent_record (to_frame o)) out.

#[export] Instance sends_preorder : PreOrder sends.
Proof.
  split.
  - intros st. split; [done|]. exists []. by rewrite app_nil_r.
  - intros st1 st2 st3 [[S1 E1] (o1 & W1 & F1)] [[S2 E2] (o2 & W2 & F2)]. split; [split; congruence|].
    exists (o1 ++ o2). rewrite W2, W1, app_assoc. split; [done|by apply Forall_app].
Qed.

(** A change that touches neither the spool nor the connection. *)
Lemma sends_same (u u' : UL) o o' :
  spool u' = spool u -> u_events u' = u_events u -> transport u' = transport u -> sends (u, o) (u', o').
Proof.
  intros E1 E3 E2. split; [done|]. exists []. unfold wire_of. cbn. by rewrite E2, app_nil_r.
Qed.

Lemma send_text_sends text (u : UL) o st r :
  with_transport (fun t => send_text t text) (u, o) = (st, r) -> sends (u, o) st.
Proof.
  unfold with_transport. destruct (transport u) as [t|] eqn:Et; [|by intros [= <- <-]].
  cbn. destruct (send_text (inner t) text) as [t' r']. intros [= <- <-]. split; [done|].
  exists [OutText text]. unfold wire_of. cbn. rewrite Et. split; [done|]. by repeat constructor.
Qed.

(** A batch of pushed rows of one call. *)
Definition batch_of (cid : string) (batch : list u8) (pre : list SegmentRow) : Prop :=
  batch = flat_map (record_bytes ulid_bytes cid) pre /\
  Forall (fun g => Pushed g /\ sg_call_id g = cid /\ fits_u16 g = true) pre.

Lemma batch_sent cid batch pre :
  batch_of cid batch pre -> group_ok pre -> frame_sent sent_record (FrBinary batch).
Proof.
  intros [-> Hall] Hg recs Hr. pose proof (wire_typed _ _ Hr) as Ht.
  apply wire_DecodeAll_Ok in Hr as (rs & Hd & -> & _).
  rewrite (message_decodes ulid_bytes ulid_16 cid pre Hg) in Hd.
  2: { eapply Forall_impl; [exact Hall|]. intros g (? & ? & ?). auto. }
  simplify_eq. apply Forall_forall. intros rec Hin. split; [|exact (proj1 (Forall_forall _ _) Ht rec Hin)].
  apply list_elem_of_fmap in Hin as (r & -> & (g & -> & Hg')%list_elem_of_fmap).
  destruct (proj1 (Forall_forall _ _) Hall g Hg') as (Hp & <- & _). by exists g.
Qed.

Lemma send_binary_sends cid batch pre (u : UL) o st r :
  batch_of cid batch pre -> group_ok pre ->
  with_transport (fun t => send_binary t batch) (u, o) = (st, r) -> sends (u, o) st.
Proof.
  intros Hb Hg. unfold with_transport. destruct (transport u) as [t|] eqn:Et; [|by intros [= <- <-]].
  cbn. destruct (send_binary (inner t) batch) as [t' r']. intros [= <- <-]. split; [done|].
  exists [OutBinary batch]. unfold wire_of. cbn. rewrite Et. split; [done|].
  apply Forall_singleton. by eapply batch_sent.
Qed.

Lemma send_rows_sends cid p now rows pre batch (u : UL) o st r :
  Forall (fun g => Pushed g /\ sg_call_id g = cid) rows -> batch_of cid batch pre ->
  (length pre < SEGMENTS_PER_MESSAGE)%nat ->
  send_rows ulid_bytes cid p now rows batch (length pre) (u, o) = (st, r) -> sends (u, o) st.
Proof.
  intros Hrows. revert pre batch u o. induction Hrows as [|row rows [Hp Hc] _ IH]; intros pre batch u o Hb Hlen Hs;
    cbn [send_rows] in Hs.
  - destruct (Nat.ltb_spec 0 (length pre)); [|unfold ret in Hs; by simplify_eq].
    eapply send_binary_sends; [exact Hb| |exact Hs]. unfold group_ok. lia.
  - destruct (wanted u cid p row); cbn [negb] in Hs; [|by eapply IH].
    rewrite encode_into_row in Hs. destruct (fits_u16 row) eqn:Hf; [|by eapply IH].
    assert (batch_of cid (batch ++ record_bytes ulid_bytes cid row) (pre ++ [row])) as Hb'.
    { destruct Hb as [-> Hall]. split; [rewrite flat_map_app; cbn; by rewrite app_nil_r|].
      apply Forall_app. split; [done|]. by constructor. }
    assert (S (length pre) = length (pre ++ [row])) as El by (rewrite length_app; cbn; lia). rewrite El in Hs.
    set (u1 := u <| sent_through := _ |> <| sent_at_ms := _ |>) in Hs. set (o1 := o <| sent := _ |>) in Hs.
    etrans; [apply (sends_same u u1 o o1); reflexivity|].
    case_bool_decide as Hten.
    + unfold bindM in Hs. destruct (with_transport _ _) as [[u2 o2] r2] eqn:Ew.
      apply (send_binary_sends cid _ (pre ++ [row])) in Ew; [|done|unfold group_ok; lia].
      etrans; [exact Ew|]. destruct r2; [|by simplify_eq].
      apply (IH [] []); [by split|unfold SEGMENTS_PER_MESSAGE; cbn; lia|exact Hs].
    + eapply (IH (pre ++ [row])); [done| |exact Hs]. lia.
Qed.

Lemma send_start_sends cid now (u : UL) o st r : send_start cid now (u, o) = (st, r) -> sends (u, o) st.
Proof.
  unfold send_start, bindM. intros H. case_bool_decide; [by simplify_eq|].
  destruct (call_start_json (spool u) cid); [|by simplify_eq].
  destruct (with_transport _ _) as [[u2 o2] r2] eqn:Ew. apply send_text_sends in Ew.
  etrans; [exact Ew|]. destruct r2; [|by simplify_eq]. repeat case_match; simplify_eq; by apply sends_same.
Qed.

Lemma send_end_sends cid (u : UL) o st r : send_end cid (u, o) = (st, r) -> sends (u, o) st.
Proof.
  unfold send_end, bindM. intros H. case_bool_decide; [by simplify_eq|].
  destruct (call_end_json (spool u) cid); [|by simplify_eq].
  destruct (with_transport _ _) as [[u2 o2] r2] eqn:Ew. apply send_text_sends in Ew.
  etrans; [exact Ew|]. destruct r2; simplify_eq; [by apply sends_same|done].
Qed.

Lemma take_pending_pushed s cid n :
  spool_pushed s -> Forall (fun g => Pushed g /\ sg_call_id g = cid) (take_pending s cid n).
Proof.
  intros Hs. unfold take_pending. apply Forall_fmap, Forall_take, Forall_forall. intros [k r].
  rewrite merge_sort_Permutation, elem_of_map_to_list, map_lookup_filter_Some. intros [Hk [Hc _]].
  destruct (Hs k r Hk) as (g & Hp & <- & <-). cbn [compose]. rewrite map_row_row_of by auto. by split.
Qed.

Lemma send_media_sends cid now (u : UL) o st r :
  spool_pushed (spool u) -> send_media ulid_bytes cid now (u, o) = (st, r) -> sends (u, o) st.
Proof.
  intros Hs. unfold send_media, bindM. intros H. destruct (send_rows _ _ _ _ _ _ _ _) as [[u1 o1] r1] eqn:Er.
  apply (send_rows_sends _ _ _ _ [] []) in Er; [|by apply take_pending_pushed|by split|unfold SEGMENTS_PER_MESSAGE; cbn; lia].
  etrans; [exact Er|]. destruct r1; [by eapply send_end_sends|by simplify_eq].
Qed.

Lemma send_call_sends now cid (u : UL) o st r :
  spool_pushed (spool u) -> send_call ulid_bytes now cid (u, o) = (st, r) -> sends (u, o) st.
Proof.
  intros Hs. unfold send_call, bindM. intros H. destruct (is_sealed (spool u) cid); [simplify_eq; by apply sends_same|].
  destruct (send_start _ _ _) as [[u1 o1] r1] eqn:Es. apply send_start_sends in Es.
  etrans; [exact Es|]. assert (spool_pushed (spool u1)) as Hs1. { destruct Es as [[E _] _]. cbn in E. by rewrite E. }
  destruct r1; [|by simplify_eq]. destruct (awaiting_resume u1 !! cid) as [dl|].
  - destruct (now <? dl); [by simplify_eq|]. etrans; [|eapply send_media_sends; [|exact H]; done]. by apply sends_same.
  - by eapply send_media_sends.
Qed.

Lemma send_pending_sends now (u : UL) o st r :
  spool_pushed (spool u) -> send_pending ulid_bytes now (u, o) = (st, r) -> sends (u, o) st.
Proof.
  intros Hs. unfold send_pending. set (u0 := u <| known_calls := _ |>). intros H.
  etrans; [apply (sends_same u u0 o o); reflexivity|]. assert (spool_pushed (spool u0)) as Hs0 by done.
  revert H. generalize dependent u0. intros u0 Hs0. generalize (btree_iter (known_calls u0)) as cids.
  intros cids. revert u0 o Hs0. induction cids as [|cid cids IH]; intros u0 o Hs0 H; cbn [send_calls] in H;
    [unfold ret in H; by simplify_eq|].
  unfold bindM in H. destruct (send_call _ _ _ _) as [[u1 o1] r1] eqn:Ec. apply send_call_sends in Ec; [|done].
  etrans; [exact Ec|]. destruct r1; [|by simplify_eq]. eapply IH; [|exact H].
  destruct Ec as [[E _] _]. cbn in E. by rewrite E.
Qed.
End sending.

(** ** The client's books *)

(** Segments the events admit to having lost. *)
Definition event_lost (e : ClientEvent) : Z :=
  if decide (ev_kind e = SpoolEviction) then default 0 (ev_count e) else 0.
Definition events_lost (l : list ClientEvent) : Z := foldr (fun e n => event_lost e + n) 0 l.

Lemma events_lost_app l l' : events_lost (l ++ l') = events_lost l + events_lost l'.
Proof. unfold events_lost. induction l as [|e l IH]; cbn; [done|]. rewrite IH. lia. Qed.

Lemma events_lost_one e : events_lost [e] = event_lost e.
Proof. unfold events_lost. cbn. lia. Qed.
Lemma event_lost_eviction e : ev_kind e = SpoolEviction -> event_lost e = reported (Some e).
Proof. intros E. unfold event_lost. by rewrite decide_True. Qed.
#[global] Arguments events_lost : simpl never.

#[export] Instance durable_dec parseULID d cid ch q : Decision (durable parseULID d cid ch q).
Proof.
  unfold durable. destruct (parseULID cid) as [id|] eqn:E.
  - destruct (decide (is_Some (db_segments d !! (id, ch, as_i32 q)))) as [H|H]; [left; by exists id|].
    right. intros (id' & ? & ?). by simplify_eq.
  - right. by intros (id' & ? & _).
Defined.

Section books.
Context {T F : Type} {Tr : Transport T} {Fa : TransportFactory F (Rec T)} {Js : ControlJson} {J : GoJson}.
Context {Ja : JsonAgrees}.
(** [channel: u8] of an ack. *)
Context (ack_channel : forall s cid c n, from_json s = Some (MsgAck cid c n) -> 0 <= c < 256).
Context (parseULID : string -> option (list u8)).
#[local] Abbreviation UL := (Uplink (Rec T) F).
#[local] Abbreviation stored d k := (durable parseULID d k.1.1 k.1.2 k.2).

Definition pushed_keys (pushed : list SegmentRow) : gset seg_key := list_to_set (key_of <$> pushed).

(** Segments that were pushed and are neither on the client's disk nor at the gateway. *)
Definition lost (d : Db) (pushed : list SegmentRow) (s : Spool) : gset seg_key :=
  filter (fun k => segments s !! k = None /\ ~ stored d k) (pushed_keys pushed).

(** [taken]: what the events that have left the uplink admit to. *)
Record client_ok (d : Db) (pushed : list SegmentRow) (taken : Z) (u : UL) : Prop := {
  ck_acks : forall cid z w, acks (spool u) !! (cid, z) = Some w -> durable_through parseULID d cid z w;
  ck_rows : spool_pushed (.∈ pushed) (spool u);
  ck_typed : Forall SegmentRow_typed pushed;
  ck_lost : Z.of_nat (size (lost d pushed (spool u))) <= taken + events_lost (u_events u);
  ck_cap : 0 <= max_bytes (limits (spool u));
}.

Lemma client_ok_mono d d' pushed taken u : db_le d d' -> client_ok d pushed taken u -> client_ok d' pushed taken u.
Proof.
  intros L [H1 H2 H3 H4 H5]. split; eauto using durable_through_mono.
  assert (lost d' pushed (spool u) ⊆ lost d pushed (spool u)) as Hsub.
  { intros k. unfold lost. rewrite !elem_of_filter. intros [[Hs Hn] Hk]. split; [split; [done|]|done].
    intros Hd. apply Hn. by eapply durable_mono. }
  apply subseteq_size in Hsub. lia.
Qed.

(** Rows that went, all of them counted. *)
Lemma lost_counted d pushed s s' :
  segments s' ⊆ segments s ->
  Z.of_nat (size (lost d pushed s')) <=
    Z.of_nat (size (lost d pushed s)) + (Z.of_nat (size (segments s)) - Z.of_nat (size (segments s'))).
Proof.
  intros Hsub.
  assert (lost d pushed s' ⊆ lost d pushed s ∪ (dom (segments s) ∖ dom (segments s'))) as Hl.
  { intros k. unfold lost. rewrite elem_of_union, elem_of_difference, !elem_of_filter, !elem_of_dom.
    intros [[Hs Hn] Hk]. destruct (segments s !! k) as [r|] eqn:E; [right|left; done].
    split; [by eexists|]. rewrite Hs. by intros []. }
  apply subseteq_size in Hl. etrans; [apply inj_le, Hl|].
  rewrite size_union_alt. set (gone := dom (segments s) ∖ dom (segments s')).
  assert (size (gone ∖ lost d pushed s) <= size gone)%nat by (apply subseteq_size; set_solver).
  assert (size gone = size (segments s) - size (segments s'))%nat as Hg.
  { unfold gone. rewrite size_difference by (by apply subseteq_dom). by rewrite !size_dom. }
  apply map_subseteq_size in Hsub. lia.
Qed.

(** Rows that went, all of them stored by the gateway. *)
Lemma lost_stored d pushed s s' :
  (forall k r, segments s !! k = Some r -> segments s' !! k = None -> stored d k) ->
  lost d pushed s' ⊆ lost d pushed s.
Proof.
  intros Hgone k. unfold lost. rewrite !elem_of_filter. intros [[Hs Hn] Hk]. split; [split; [|done]|done].
  destruct (segments s !! k) as [r|] eqn:E; [|done]. exfalso. by eapply Hn, Hgone.
Qed.

Lemma spool_pushed_subset (P : SegmentRow -> Prop) s s' :
  segments s' ⊆ segments s -> spool_pushed P s -> spool_pushed P s'.
Proof. intros Hs Hp k r Hk. apply Hp. by eapply lookup_weaken. Qed.

Lemma ack_ok d pushed taken (u : UL) cid ch n :
  durable_through parseULID d cid (chan_z ch) n -> client_ok d pushed taken u ->
  client_ok d pushed taken (u <| spool := (ack (spool u) cid ch n).1 |>).
Proof.
  intros Hn [H1 H2 H3 H4 H5]. unfold ack. set (w := match acks _ !! _ with Some _ => _ | None => _ end).
  set (P := fun kr : seg_key * Row => kr.1.1 = (cid, chan_z ch) /\ kr.1.2 <= w).
  assert (durable_through parseULID d cid (chan_z ch) w) as Hw.
  { unfold w. destruct (acks (spool u) !! (cid, chan_z ch)) as [old|] eqn:E; [|done].
    destruct (Z.max_spec old n) as [[_ ->]|[_ ->]]; [done|by eapply H1]. }
  pose proof (sql_delete_subseteq P (segments (spool u))) as Hsub.
  pose proof (sql_delete_gone P (segments (spool u))) as Hgone.
  destruct (sql_delete P (segments (spool u))) as [m c]. cbn [fst] in *. split; cbn; [| |done| |done].
  - intros cid' z v. rewrite lookup_insert_Some. intros [[[= <- <-] <-]|[_ Hv]]; [done|by eapply H1].
  - by eapply spool_pushed_subset.
  - etrans; [apply inj_le, subseteq_size, (lost_stored d pushed (spool u))|exact H4]. cbn.
    intros k r Hk Hm. destruct (Hgone k r Hk Hm) as [Hkey Hle]. cbn in Hkey, Hle. destruct k as [[? ?] q]. cbn in *.
    simplify_eq. apply Hw. split; [|done]. destruct (H2 _ _ Hk) as (g & Hg & Ekey & _).
    rewrite Forall_forall in H3. destruct (H3 g Hg) as (Hq & _). unfold key_of in Ekey. simplify_eq. ints. lia.
Qed.

Lemma seal_ok d pushed taken (u : UL) cid why now s ev :
  seal (spool u) cid why now = (s, ev) -> client_ok d pushed taken u ->
  client_ok d pushed taken (u <| spool := s |> <| u_events := u_events u ++ [ev] |>).
Proof.
  intros E [H1 H2 H3 H4 H5]. unfold seal in E. set (P := fun kr : seg_key * Row => kr.1.1.1 = cid) in *.
  pose proof (sql_delete_subseteq P (segments (spool u))) as Hsub.
  pose proof (sql_delete_size P (segments (spool u))) as Hsz.
  destruct (sql_delete P (segments (spool u))) as [m c]. simplify_eq. cbn [fst snd] in *.
  split; cbn; [done|by eapply spool_pushed_subset|done| |done].
  rewrite events_lost_app, events_lost_one. etrans; [by apply (lost_counted d pushed (spool u))|]. cbn.
  rewrite event_lost_eviction by done. cbn. lia.
Qed.

Lemma handle_control_ok d pushed taken text now (u : UL) o :
  text_ok parseULID d text -> client_ok d pushed taken u ->
  client_ok d pushed taken (handle_control text now (u, o)).1.
Proof.
  intros (m & -> & Hm) Hu. unfold handle_control. destruct (from_json (Marshal m)) as [x|] eqn:Ej; [|done].
  pose proof (reads_as _ _ Ej) as ->. destruct m as [a|r|e|h]; cbn [client_view] in *.
  - destruct (Channel_from_u8 (z2b (ga_Channel a))) as [ch|] eqn:Ec; [|done].
    assert (chan_z ch = ga_Channel a) as Ech.
    { unfold chan_z. rewrite (Channel_as_from_u8 _ _ Ec). apply b2z_z2b. by eapply ack_channel. }
    pose proof (ack_ok d pushed taken u (ga_CallID a) ch (ga_ThroughSeq a)) as Ha.
    destruct (ack (spool u) _ ch _) as [s n]. rewrite Ech in Ha. destruct (Ha Hm Hu). by split.
  - destruct Hu. by split.
  - destruct (gx_Fatal e); [|done]. destruct (seal _ _ _ _) as [s ev] eqn:Es.
    destruct (seal_ok d pushed taken u _ _ _ _ _ Es Hu). by split.
  - destruct Hu. case_match; by split.
Qed.

Lemma read_incoming_ok d pushed taken fuel now (u : UL) o u' o' r :
  read_incoming fuel now (u, o) = Some ((u', o'), r) ->
  (forall t, InText t ∈ heard_of u' -> text_ok parseULID d t) ->
  client_ok d pushed taken u -> client_ok d pushed taken u'.
Proof.
  revert u o. induction fuel as [|fuel IH]; intros u o Hr Hh Hu; [done|]. cbn [read_incoming] in Hr.
  destruct (with_transport _ _) as [[u1 o1] r1] eqn:Ew. pose proof Ew as Ew'.
  apply recv_frame in Ew as (Hf & _ & ->). apply with_transport_frame in Ew' as (t & -> & _ & _).
  set (u1 := u <| transport := t |>) in *. assert (client_ok d pushed taken u1) as Hu1 by (destruct Hu; by split).
  destruct r1 as [[[text|b|cc]|]|e]; cbv iota beta in Hr; simplify_eq; try done; [|by eapply IH].
  destruct (handle_control text now (u1, o)) as [u2 o2] eqn:Eh. eapply IH; [exact Hr|exact Hh|].
  pose proof (handle_control_ok d pushed taken text now u1 o) as Hc. rewrite Eh in Hc. apply Hc; [|done]. apply Hh.
  apply read_incoming_frame in Hr as [(msgs & Hmsgs) _]. rewrite (rf_heard _ _ _ Hmsgs).
  pose proof (handle_control_handled text now u1 o) as Hd. rewrite Eh in Hd. cbn in Hd.
  unfold heard_of at 1. rewrite (hd_transport _ _ _ Hd). fold (heard_of u1). rewrite (rf_heard _ _ _ Hf). set_solver.
Qed.

Lemma push_ok d pushed taken (u u' : UL) g :
  SegmentRow_typed g -> push_segment u g = Ok u' -> client_ok d pushed taken u ->
  client_ok d (pushed ++ [g]) taken u'.
Proof.
  intros Hg Hp [H1 H2 H3 H4 H5]. unfold push_segment in Hp. rewrite res_bind_Ok in Hp.
  destruct Hp as ([s ev] & Hp & [= <-]). unfold push in Hp. destruct (is_sealed _ _); [done|]. injection Hp as Hp.
  apply (enforce_limits_eviction (inserted (spool u) g)) in Hp as [(_ & Ea & El) Hsub _ _ _ Hc Hev]; [|done].
  assert (forall u1 : UL, spool u1 = s -> events_lost (u_events u1) = events_lost (u_events u) + reported ev ->
    client_ok d (pushed ++ [g]) taken u1) as Hgoal.
  { intros u1 E1 E2. split; rewrite ?E1.
    - rewrite Ea. exact H1.
    - intros k r Hk. apply (lookup_weaken _ _ _ _ Hk) in Hsub as Hk'. revert Hk'. unfold inserted. cbn.
      assert (forall k r, segments (spool u) !! k = Some r -> exists g0, g0 ∈ pushed ++ [g] /\ key_of g0 = k /\ row_of g0 = r) as Hold.
      { intros k' r' Hk'. destruct (H2 k' r' Hk') as (g0 & ? & ?). exists g0. split; [set_solver|done]. }
      destruct (segments (spool u) !! key_of g) eqn:E; [apply Hold|]. rewrite lookup_insert_Some.
      intros [[<- <-]|[_ Hk']]; [exists g; set_solver|by apply Hold].
    - apply Forall_app. split; [done|by constructor].
    - rewrite E2. etrans; [by apply (lost_counted d (pushed ++ [g]) (inserted (spool u) g))|].
      assert (lost d (pushed ++ [g]) (inserted (spool u) g) ⊆ lost d pushed (spool u)) as Hl.
      { intros k. unfold lost, pushed_keys. rewrite !elem_of_filter, fmap_app, list_to_set_app, elem_of_union.
        intros [[Hs Hn] Hk]. unfold inserted in Hs. cbn in Hs.
        destruct (segments (spool u) !! key_of g) as [r0|] eqn:E.
        - split; [done|]. destruct Hk as [Hk|Hk]; [done|]. cbn in Hk. assert (k = key_of g) by set_solver. congruence.
        - apply lookup_insert_None in Hs as [Hs Hne]. split; [done|]. destruct Hk as [Hk|Hk]; [done|]. cbn in Hk. set_solver. }
      apply subseteq_size in Hl. lia.
    - by rewrite El. }
  destruct Hev as [->|(n & Hn & ->)]; apply Hgoal; try done; cbn; rewrite ?events_lost_app, ?events_lost_one, ?event_lost_eviction by done; cbn; lia.
Qed.
End books.

(** ** The system *)

Section system.
Context {T F : Type} {Tr : Transport T} {Fa : TransportFactory F (Rec T)} {Js : ControlJson} {J : GoJson}.
Context (ulid_bytes : string -> option (list u8)).
Context (tenant : string) (formatULID : list u8 -> string) (parseULID : string -> option (list u8)).
Context (parse_time : string -> option Z) (format_time : Z -> string) (duration_string : Z -> string).
#[local] Abbreviation UL := (Uplink (Rec T) F).

(** The client between passes, or in one, having sent what it had to send. *)
Inductive Client :=
| CIdle (u : UL)
| CReading (now : Z) (st : UL * PumpOutcome) (r : result unit TransportError).
Definition uplink_of (c : Client) : UL := match c with CIdle u => u | CReading _ st _ => st.1 end.

(** The process ends: what it held in memory, here and in the uplink, is gone. *)
Definition forget (held : list ClientEvent) (b : Reports) : Reports :=
  {| rp_pending := []; rp_acked := rp_acked b; rp_gone := rp_gone b ++ rp_pending b ++ held |}.

Definition reports_lost (b : Reports) : Z :=
  events_lost (rp_acked b) + events_lost (rp_pending b) + events_lost (rp_gone b).

Lemma settle_lost r b : reports_lost (settle r b) = reports_lost b.
Proof. destruct r as [|[]]; unfold reports_lost; cbn; rewrite ?events_lost_app; change (events_lost []) with 0; lia. Qed.

Lemma forget_lost held b : reports_lost (forget held b) = reports_lost b + events_lost held.
Proof. unfold reports_lost; cbn; rewrite !events_lost_app; change (events_lost []) with 0; lia. Qed.

(** [y_frames]: every frame handed to a transport. [y_pushed]: every segment the spool
    accepted. *)
Record Sys := {
  y_client : Client;
  y_gw : Gw;
  y_frames : list Frame;
  y_pushed : list SegmentRow;
  y_reports : Reports;
}.
#[export] Instance Sys_rebuild : Rebuild Sys := fun y =>
  {| y_client := y_client y; y_gw := y_gw y; y_frames := y_frames y; y_pushed := y_pushed y;
     y_reports := y_reports y |}.

Definition with_client (u : UL) (y : Sys) : Sys := y <| y_client := CIdle u |>.

(** What the client has heard on its connection was written by the gateway. *)
Definition authentic (u : UL) (w : Gw) : Prop := forall t, InText t ∈ heard_of u -> t ∈ gw_texts w.

(** [mishaps]: whether the process may end while it holds events, and a heartbeat that
    carries some be refused with 403. *)
Context (mishaps : bool).

Inductive sys_step : Sys -> Sys -> Prop :=
| ys_push y u g u' :
    y_client y = CIdle u -> SegmentRow_typed g -> push_segment u g = Ok u' ->
    sys_step y (with_client u' y <| y_pushed := y_pushed y ++ [g] |>)
| ys_begin y u cid start now :
    y_client y = CIdle u -> sys_step y (with_client (Uplink_begin_call u cid start now) y)
| ys_end y u cid end_ :
    y_client y = CIdle u -> sys_step y (with_client (Uplink_end_call u cid end_) y)
| ys_take y u :
    y_client y = CIdle u ->
    sys_step y (with_client (take_events u).1 y
                  <| y_reports := {| rp_pending := rp_pending (y_reports y) ++ (take_events u).2;
                                     rp_acked := rp_acked (y_reports y); rp_gone := rp_gone (y_reports y) |} |>)
| ys_report y u r :
    y_client y = CIdle u -> mishaps = true \/ rp_gone (settle r (y_reports y)) = rp_gone (y_reports y) ->
    sys_step y (y <| y_reports := settle r (y_reports y) |>)
| ys_heartbeat y u sent_at state out :
    y_client y = CIdle u ->
    wire_of (send_socket_heartbeat u sent_at state).1 = wire_of u ++ (OutText <$> out) ->
    sys_step y (with_client (send_socket_heartbeat u sent_at state).1 y
                  <| y_frames := y_frames y ++ (to_frame <$> (OutText <$> out)) |>)
| ys_wait y u u1 draw now :
    y_client y = CIdle u -> try_connect draw now u = (u1, false) -> sys_step y (with_client u1 y)
| ys_send y u u1 draw now st r out :
    y_client y = CIdle u -> try_connect draw now u = (u1, true) ->
    send_pending ulid_bytes now (u1, PumpOutcome_default <| connected := true |>) = (st, r) ->
    wire_of st.1 = wire_of u1 ++ out ->
    sys_step y (y <| y_client := CReading now st r |> <| y_frames := y_frames y ++ (to_frame <$> out) |>)
| ys_send_failed y now st e draw :
    y_client y = CReading now st (Err e) -> sys_step y (with_client (drop_connection draw now st.1) y)
| ys_read y now st st' fuel :
    y_client y = CReading now st (Ok tt) -> read_incoming fuel now st = Some (st', Ok tt) ->
    authentic st'.1 (y_gw y) -> sys_step y (with_client st'.1 y)
| ys_read_failed y now st st' e fuel draw :
    y_client y = CReading now st (Ok tt) -> read_incoming fuel now st = Some (st', Err e) ->
    authentic st'.1 (y_gw y) -> sys_step y (with_client (drop_connection draw now st'.1) y)
| ys_network y u r t :
    y_client y = CIdle u -> transport u = Some r ->
    sys_step y (with_client (u <| transport := Some {| inner := t; wire := wire r; heard := heard r |} |>) y)
| ys_restart y f :
    let after := forget (u_events (uplink_of (y_client y))) (y_reports y) in
    mishaps = true \/ rp_gone after = rp_gone (y_reports y) ->
    sys_step y (with_client (Uplink_new (spool (uplink_of (y_client y))) f) y <| y_reports := after |>)
| ys_gateway y w :
    gw_step tenant formatULID parseULID parse_time format_time duration_string (.∈ y_frames y) (y_gw y) w ->
    sys_step y (y <| y_gw := w |>).

Inductive sys_run (users : gset string) : Sys -> Prop :=
| sr_new lim f today faults :
    0 <= max_bytes lim -> lacks "/" today ->
    sys_run users {|
      y_client := CIdle (Uplink_new (fresh_db lim) f);
      y_gw := {| gw_db := {| db_users := users; db_calls := ∅; db_segments := ∅; db_watermarks := ∅; db_outbox := ∅;
                             db_blobs := ∅; db_today := today; db_faults := faults |};
                 gw_sessions := []; gw_texts := [] |};
      y_frames := []; y_pushed := []; y_reports := {| rp_pending := []; rp_acked := []; rp_gone := [] |} |}
| sr_step y y' : sys_run users y -> sys_step y y' -> sys_run users y'.

(** A pass of the uplink is a [ys_wait], or a [ys_send] and one of the three that follow it. *)
Lemma pump_is_two_steps fuel draw now (u : UL) :
  pump ulid_bytes fuel draw now u =
    let '(u1, up) := try_connect draw now u in
    if up then
      let '(st, r) := send_pending ulid_bytes now (u1, PumpOutcome_default <| connected := true |>) in
      match r with
      | Err _ => Some (drop_connection draw now st.1, st.2 <| connected := false |>)
      | Ok _ =>
          match read_incoming fuel now st with
          | None => None
          | Some (st', Ok _) => Some st'
          | Some (st', Err _) => Some (drop_connection draw now st'.1, st'.2 <| connected := false |>)
          end
      end
    else Some (u1, PumpOutcome_default).
Proof.
  unfold pump. destruct (try_connect draw now u) as [u1 []]; [|done]. cbn [negb].
  destruct (send_pending _ _ _) as [[u2 o2] []]; [|done]. by destruct (read_incoming _ _ _) as [[[u3 o3] []]|].
Qed.

Context (ulid_16 : forall s b, ulid_bytes s = Some b -> length b = 16%nat).
Context (format_plain : forall b, lacks "/" (formatULID b)).
Context {Ja : JsonAgrees}.
Context (ack_channel : forall s cid c n, from_json s = Some (MsgAck cid c n) -> 0 <= c < 256).

#[local] Abbreviation Sent pushed := (sent_record ulid_bytes (.∈ pushed)).
#[local] Abbreviation GwOk pushed := (gw_ok tenant formatULID parseULID (Sent pushed)).
#[local] Abbreviation ClientOk := (client_ok parseULID).

Record sys_ok (y : Sys) : Prop := {
  yk_gw : GwOk (y_pushed y) (y_gw y);
  yk_frames : Forall (frame_sent (Sent (y_pushed y))) (y_frames y);
  yk_client : ClientOk (gw_db (y_gw y)) (y_pushed y) (reports_lost (y_reports y)) (uplink_of (y_client y));
}.

Lemma frame_sent_more (S S' : GoRecord -> Prop) f :
  (forall r, S r -> S' r) -> frame_sent S f -> frame_sent S' f.
Proof.
  intros H. destruct f as [t|b]; [done|]. intros Hf recs Hr. eapply Forall_impl; [by apply Hf|]. naive_solver.
Qed.

(** A step of the client that leaves the spool's tables and the events alone. *)
Lemma client_ok_same d pushed taken (u u' : UL) :
  spool u' = spool u -> events_lost (u_events u') = events_lost (u_events u) ->
  ClientOk d pushed taken u -> ClientOk d pushed taken u'.
Proof. intros E1 E2 [H1 H2 H3 H4 H5]. split; rewrite ?E1, ?E2; done. Qed.

Lemma drop_connection_ok d pushed taken draw now (u : UL) :
  ClientOk d pushed taken u -> ClientOk d pushed taken (drop_connection draw now u).
Proof.
  apply client_ok_same; unfold drop_connection; destruct (next_delay _ _); [done|]. cbn.
  rewrite events_lost_app, events_lost_one. unfold event_lost. cbn. by rewrite Z.add_0_r.
Qed.

Lemma begin_call_ok d pushed taken (u : UL) cid start now :
  ClientOk d pushed taken u -> ClientOk d pushed taken (Uplink_begin_call u cid start now).
Proof.
  destruct (begin_call_tables (spool u) cid (to_json start) now) as (E1 & E2 & E3).
  intros [H1 H2 H3 H4 H5]. split; cbn; rewrite ?E2, ?E3; try done.
  - intros k r. cbn. rewrite E1. apply H2.
  - unfold lost. rewrite E1. exact H4.
Qed.

Lemma end_call_ok d pushed taken (u : UL) cid end_ :
  ClientOk d pushed taken u -> ClientOk d pushed taken (Uplink_end_call u cid end_).
Proof. by intros [H1 H2 H3 H4 H5]. Qed.

Lemma try_connect_same draw now (u u1 : UL) up :
  try_connect draw now u = (u1, up) -> spool u1 = spool u /\ u_events u1 = u_events u.
Proof.
  unfold try_connect. intros E. destruct (transport u); [by simplify_eq|].
  destruct (now <? _); [by simplify_eq|]. destruct (connect (factory u)) as [f [t|e]]; [by simplify_eq|].
  destruct (next_delay _ _). by simplify_eq.
Qed.

(** A step of the client that changes nothing the gateway holds. *)
Lemma sys_ok_client y c reports frames :
  sys_ok y -> Forall (frame_sent (Sent (y_pushed y))) frames ->
  ClientOk (gw_db (y_gw y)) (y_pushed y) (reports_lost reports) (uplink_of c) ->
  sys_ok {| y_client := c; y_gw := y_gw y; y_frames := y_frames y ++ frames; y_pushed := y_pushed y;
            y_reports := reports |}.
Proof. intros [H1 H2 _] Hf Hc. split; cbn; [done|by apply Forall_app|done]. Qed.

Lemma sys_ok_idle y u :
  sys_ok y -> ClientOk (gw_db (y_gw y)) (y_pushed y) (reports_lost (y_reports y)) u -> sys_ok (with_client u y).
Proof. by intros [H1 H2 _] Hc. Qed.

Lemma authentic_ok y u :
  sys_ok y -> authentic u (y_gw y) -> forall t, InText t ∈ heard_of u -> text_ok parseULID (gw_db (y_gw y)) t.
Proof. intros [[_ _ Ht] _ _] Ha t Hin. rewrite Forall_forall in Ht. by apply Ht, Ha. Qed.

Lemma push_sys_ok y u g u' :
  sys_ok y -> y_client y = CIdle u -> SegmentRow_typed g -> push_segment u g = Ok u' ->
  sys_ok (with_client u' y <| y_pushed := y_pushed y ++ [g] |>).
Proof.
  intros [H1 H2 H3] Ec Hg Hp. rewrite Ec in H3.
  assert (forall r, Sent (y_pushed y) r -> Sent (y_pushed y ++ [g]) r) as Hmore.
  { intros r (g0 & Hg0 & ->). exists g0. split; [set_solver|done]. }
  split; cbn; [by eapply gw_ok_more| |by eapply push_ok].
  eapply Forall_impl; [exact H2|]. intros f. by apply frame_sent_more.
Qed.

Lemma send_sys_ok y u u1 draw now st r out :
  sys_ok y -> y_client y = CIdle u -> try_connect draw now u = (u1, true) ->
  send_pending ulid_bytes now (u1, PumpOutcome_default <| connected := true |>) = (st, r) ->
  wire_of st.1 = wire_of u1 ++ out ->
  sys_ok (y <| y_client := CReading now st r |> <| y_frames := y_frames y ++ (to_frame <$> out) |>).
Proof.
  intros Hy Ec Et Hs Hw. pose proof (yk_client y Hy) as Hc. rewrite Ec in Hc. cbn in Hc.
  apply try_connect_same in Et as [E1 E2].
  assert (ClientOk (gw_db (y_gw y)) (y_pushed y) (reports_lost (y_reports y)) u1) as Hc1 by (eapply client_ok_same; [|by rewrite E2|exact Hc]; done).
  apply (send_pending_sends ulid_bytes ulid_16 (.∈ y_pushed y)) in Hs as ((E3 & E4) & out' & Hw' & Hf);
    [|intros g Hg; by apply (proj1 (Forall_forall _ _) (ck_typed _ _ _ _ _ Hc1))|exact (ck_rows _ _ _ _ _ Hc1)].
  cbn in *. rewrite Hw in Hw'. apply app_inv_head in Hw'. subst out'.
  apply sys_ok_client; [done|by apply Forall_fmap|]. cbn. eapply client_ok_same; [done|by rewrite E4|done].
Qed.

Lemma read_client_ok y now st st' r fuel :
  sys_ok y -> y_client y = CReading now st (Ok tt) -> read_incoming fuel now st = Some (st', r) ->
  authentic st'.1 (y_gw y) -> ClientOk (gw_db (y_gw y)) (y_pushed y) (reports_lost (y_reports y)) st'.1.
Proof.
  intros Hy Ec Hr Ha. pose proof (yk_client y Hy) as Hc. rewrite Ec in Hc. destruct st as [u o], st' as [u' o'].
  eapply read_incoming_ok; [exact ack_channel|exact Hr|by apply authentic_ok|exact Hc].
Qed.

Lemma sys_step_ok y y' : sys_step y y' -> sys_ok y -> sys_ok y'.
Proof.
  intros Hst Hy. pose proof (yk_client y Hy) as Hc.
  destruct Hst as [y u g u' Ec Hg Hp|y u cid start now Ec|y u cid e Ec|y u Ec|y u r Ec Hr|y u sa cs out Ec Hw|y u u1 draw now Ec Et|
    y u u1 draw now st r out Ec Et Hs Hw|y now st e draw Ec|y now st st' fuel Ec Hr Ha|y now st st' e fuel draw Ec Hr Ha|
    y u r t Ec Et|y f after Hm|y w Hg].
  - by eapply push_sys_ok.
  - rewrite Ec in Hc. by apply sys_ok_idle, begin_call_ok.
  - rewrite Ec in Hc. by apply sys_ok_idle, end_call_ok.
  - rewrite Ec in Hc. destruct Hy as [H1 H2 _]. split; [done|done|]. destruct Hc as [K1 K2 K3 K4 K5]. split; try done.
    unfold reports_lost in *. cbn in *. rewrite events_lost_app. change (events_lost []) with 0. lia.
  - destruct Hy as [H1 H2 _]. split; [done|done|]. cbn. by rewrite settle_lost.
  - rewrite Ec in Hc. apply (sys_ok_client y (CIdle _) (y_reports y) (to_frame <$> (OutText <$> out)));
      [done|by rewrite !Forall_fmap; apply Forall_forall|]. cbn.
    eapply client_ok_same; [| |exact Hc]; unfold send_socket_heartbeat; destruct (transport u); try done;
      by destruct (send_text _ _).
  - rewrite Ec in Hc. apply try_connect_same in Et as [E1 E2]. apply sys_ok_idle; [done|].
    eapply client_ok_same; [done|by rewrite E2|done].
  - by eapply send_sys_ok.
  - rewrite Ec in Hc. by apply sys_ok_idle, drop_connection_ok.
  - apply sys_ok_idle; [done|by eapply read_client_ok].
  - apply sys_ok_idle; [done|]. apply drop_connection_ok. by eapply read_client_ok.
  - rewrite Ec in Hc. apply sys_ok_idle; [done|]. eapply client_ok_same; [| |exact Hc]; done.
  - destruct Hy as [H1 H2 _]. split; [done|done|]. destruct Hc as [K1 K2 K3 K4 K5]. split; try done.
    cbn in *. unfold after. rewrite forget_lost. change (events_lost []) with 0. lia.
  - destruct Hy as [H1 H2 _]. eapply gw_step_ok in Hg as [Hg L]; [|exact format_plain| |exact H1].
    + split; cbn; [done|done|]. by eapply client_ok_mono.
    + intros f Hf. by apply (proj1 (Forall_forall _ _) H2).
Qed.

Lemma sys_run_ok users y : sys_run users y -> sys_ok y.
Proof.
  induction 1 as [lim f today faults Hl Ht|y y' _ IH Hst]; [|by eapply sys_step_ok].
  split; cbn; [by apply gw_ok_new|constructor|]. split; cbn; try done; intros *; by rewrite lookup_empty.
Qed.

(** Without mishaps nothing is gone. *)
Lemma nothing_gone users y : sys_run users y -> mishaps = false -> rp_gone (y_reports y) = [].
Proof.
  intros Hr Hm. induction Hr as [|y y' _ IH Hst]; [done|].
  destruct Hst as [| | | |y u r Ec [Hx|Hx]| | | | | | | |y f after [Hx|Hx]|]; try exact IH;
    [congruence|exact (eq_trans Hx IH)|congruence|exact (eq_trans Hx IH)].
Qed.

(** C1: No audio goes missing unaccounted for, end to end. However passes, captures,
    reconnects, heartbeats and restarts of the client interleave with the gateway's
    turns, whatever the network loses or delays, and whichever calls of the stores fail:
    the segments the spool ever accepted that are neither still on the client's disk nor
    in the gateway's database number no more than is admitted to by the events the server
    has acknowledged with a heartbeat, those still waiting for one in the agent and in the
    uplink, and those gone unreported; and none are gone unless the process ended while it
    held them or the server refused their heartbeat with 403. Every row of the database
    points at an object that holds, byte for byte, the audio of a segment the client
    spooled for that call, channel and sequence number. *)
Theorem no_audio_unaccounted_for users y :
  sys_run users y ->
  let u := uplink_of (y_client y) in
  let rp := y_reports y in
  let db := gw_db (y_gw y) in
  Z.of_nat (size (lost parseULID db (y_pushed y) (spool u))) <=
    events_lost (rp_acked rp) + events_lost (rp_pending rp) + events_lost (u_events u) + events_lost (rp_gone rp) /\
  (mishaps = false -> rp_gone rp = []) /\
  forall id ch q row, db_segments db !! (id, ch, q) = Some row ->
    exists g, g ∈ y_pushed y /\ db_blobs db !! ds_s3_key row = Some (sg_payload g) /\
      parseULID (formatULID (call_id_bytes ulid_bytes (sg_call_id g))) = Some id /\
      chan_z (sg_channel g) = ch /\ as_i32 (sg_seq g) = q.
Proof.
  intros Hr u rp db. destruct (sys_run_ok users y Hr) as [[[_ Hrows _] _ _] _ [_ _ _ Hl _]].
  split; [etrans; [exact Hl|unfold reports_lost, rp, u; lia]|]. split; [by eapply nothing_gone|].
  intros id ch q row Hrow. destruct (Hrows _ _ Hrow) as (rec & day & (g & Hg & ->) & _ & _ & ? & ? & ? & _ & ?).
  by exists g.
Qed.

(** No ack passes a hole: a channel's mark stays below any sequence number the gateway
    does not hold, so once the spool has given one up nothing after it is ever
    acknowledged. *)
Theorem no_ack_passes_a_hole users y cid z h w :
  sys_run users y -> 0 <= h -> ~ durable parseULID (gw_db (y_gw y)) cid z h ->
  acks (spool (uplink_of (y_client y))) !! (cid, z) = Some w -> w < h.
Proof.
  intros Hr Hh Hn Hw. destruct (sys_run_ok users y Hr) as [_ _ [Ha _ _ _ _]].
  destruct (Z.lt_ge_cases w h) as [|Hge]; [done|]. exfalso. eapply Hn, Ha; [exact Hw|lia].
Qed.

(** The gateway's half of a run is a run of the gateway. *)
Lemma sys_run_gateway users y :
  sys_run users y -> gw_run tenant formatULID parseULID parse_time format_time duration_string users (y_gw y).
Proof.
  induction 1 as [|y y' _ IH Hst]; [by constructor|]. destruct Hst; try exact IH.
  econstructor; [exact IH|]. destruct H; [by constructor| |by econstructor|by constructor].
  econstructor; [done| |done]. by destruct ev.
Qed.
End system.
