(* ===== verification/Coded.v ===== *)
(** A text form for the values of any countable type, which reads back: the examples
    instantiate the JSON interfaces with it. *)

From S2P Require Import Prelude Text.

(** The binary digits of a positive number after its leading one. *)
Fixpoint pos_bits (p : positive) : string :=
  match p with
  | xH => EmptyString
  | xO p => String "0" (pos_bits p)
  | xI p => String "1" (pos_bits p)
  end.
Fixpoint bits_pos (s : string) : option positive :=
  match s with
  | EmptyString => Some xH
  | String a s => p ← bits_pos s; if bool_decide (a = "0"%char) then Some (xO p) else Some (xI p)
  end.
Lemma bits_pos_bits p : bits_pos (pos_bits p) = Some p.
Proof. induction p as [p IH|p IH|]; cbn; [by rewrite IH..|done]. Qed.

Definition text {A} `{Countable A} (a : A) : string := pos_bits (countable.encode a).
Definition untext {A} `{Countable A} (s : string) : option A := p ← bits_pos s; countable.decode p.
Lemma untext_text {A} `{Countable A} (a : A) : untext (text a) = Some a.
Proof. unfold untext, text. rewrite bits_pos_bits. apply countable.decode_encode. Qed.

(** Nothing of it is trimmed. *)
Lemma trim_text {A} `{Countable A} (a : A) : trim (text a) = text a.
Proof.
  unfold text. set (p := countable.encode a).
  assert (Forall (fun c => is_ascii_digit c = true) (chars (pos_bits p))) as Hd
    by (induction p; cbn; by constructor).
  destruct (chars (pos_bits p)) as [|c ds] eqn:E; [|by eapply trim_digits].
  by destruct p.
Qed.
