(* ===== verification/DeliveryRuns.v ===== *)
(** Runs of the whole system on concrete inputs: parameters that meet the hypotheses of
    Delivery.v, a scheduler whose moves are steps of the system, the runs that show what
    the two programs do to each other, and the general facts behind them. *)

From S2P Require Import Prelude Text Protocol Config Spool SpoolProps Backoff Uplink UplinkProps Heartbeat.
From S2P Require Import GoWire Gateway GatewayProps Delivery Coded.

(** ** Parameters *)

(** Ids as 32 letters, one per nibble. *)
Definition letter (n : Z) : ascii := chr (65 + n).
Definition demo_format (b : list u8) : string :=
  str (flat_map (fun x => [letter (b2z x / 16); letter (b2z x mod 16)]) b).
Fixpoint nibbles (l : list ascii) : option (list u8) :=
  match l with
  | [] => Some []
  | a :: b :: l' => rest ← nibbles l'; Some (z2b ((code a - 65) * 16 + (code b - 65)) :: rest)
  | _ => None
  end.
Definition demo_parse (s : string) : option (list u8) :=
  b ← nibbles (chars s); if bool_decide (length b = 16%nat) then Some b else None.

Lemma demo_parse_16 s b : demo_parse s = Some b -> length b = 16%nat.
Proof. unfold demo_parse. destruct (nibbles (chars s)); [|done]. cbn. case_bool_decide; [|done]. by intros [= <-]. Qed.

Lemma demo_format_plain b : lacks "/" (demo_format b).
Proof.
  unfold lacks, demo_format. rewrite chars_str. induction b as [|x b IH]; [constructor|].
  cbn [flat_map app]. assert (forall n, 0 <= n < 16 -> bool_decide (letter n = "/"%char) = false) as Hl.
  { intros n Hn. apply bool_decide_eq_false. intros E. apply (f_equal code) in E. unfold letter in E.
    rewrite code_chr in E by lia. change (code "/") with 47 in E. lia. }
  pose proof (b2z_range x). constructor; [apply Hl; split; [apply Z.div_pos|apply Z.div_lt_upper_bound]; lia|].
  constructor; [apply Hl, Z.mod_pos_bound; lia|]. exact IH.
Qed.

Definition Code : Type :=
  string * Z * Z + string * gmap string Z + string * string * string * bool + string * Z.
Definition message_code (m : GoMessage) : Code :=
  match m with
  | GMAck a => inl (inl (inl (ga_CallID a, ga_Channel a, ga_ThroughSeq a)))
  | GMResume r => inl (inl (inr (gr_CallID r, gr_Acked r)))
  | GMCallError e => inl (inr (gx_CallID e, gx_Code e, gx_Message e, gx_Fatal e))
  | GMHeartbeatAck h => inr (gh_ServerTime h, gh_PolicyVersion h)
  end.
Definition code_view (c : Code) : option ControlMessage :=
  match c with
  | inl (inl (inl (cid, ch, n))) => if (0 <=? ch) && (ch <? 256) then Some (MsgAck cid ch n) else None
  | inl (inl (inr (cid, m))) => Some (MsgResume cid m)
  | inl (inr (cid, k, why, fatal)) => Some (MsgCallError cid k why fatal)
  | inr (t, pv) => Some (MsgHeartbeatAck t pv)
  end.

Definition tier_letter (t : CaptureTier) : string := match t with TierA => "A" | TierB => "B" end.
Definition direction_name (d : Direction) : string := match d with Protocol.Outbound => "outbound" | Inbound => "inbound" end.

#[export] Instance demo_client_json : ControlJson := {|
  to_json m := match m with
    | MsgCallStart m => String "s" (text (cs_call_id m, cs_started_at m, cs_user_uid m, cs_device_id m,
                                          tier_letter (cs_tier m), direction_name (cs_direction m)))
    | MsgCallEnd m => String "e" (text (ce_call_id m, ce_ended_at m))
    | _ => "h"
    end;
  from_json s := c ← untext s; code_view c;
|}.

#[export] Instance demo_go_json : GoJson := {|
  probe s := match s with
    | String a _ => Some (if bool_decide (a = "s"%char) then KindCallStart
                          else if bool_decide (a = "e"%char) then KindCallEnd else KindHeartbeat)
    | EmptyString => None
    end;
  UnmarshalCallStart s := match s with
    | String _ s => '(cid, at_, uid, did, tier, dir) ← untext (A := string * string * string * string * string * string) s;
        Some {| gs_CallID := cid; gs_StartedAt := at_; gs_UserUID := uid; gs_DeviceID := did; gs_Tier := tier;
                gs_AccountRef := None; gs_DialerCallID := None; gs_Direction := dir; gs_Codec := "opus"; gs_Rate := 16000 |}
    | EmptyString => None
    end;
  UnmarshalCallEnd s := match s with
    | String _ s => '(cid, at_) ← untext (A := string * string) s;
        Some {| ge_CallID := cid; ge_EndedAt := at_; ge_Reason := "hangup"; ge_LastSeq := ∅ |}
    | EmptyString => None
    end;
  Marshal m := text (message_code m);
|}.

#[export] Instance demo_json_agrees : JsonAgrees.
Proof.
  intros m x. unfold from_json, Marshal, demo_client_json, demo_go_json. rewrite untext_text. cbn [mbind option_bind].
  destruct m as [a|r|e|h]; cbn; [case_match; [|done]|..]; by intros [= <-].
Qed.

Lemma demo_ack_channel s cid c n : from_json s = Some (MsgAck cid c n) -> 0 <= c < 256.
Proof.
  unfold from_json, demo_client_json. destruct (untext s) as [[[[[[cid' ch] k]|[]]|[[[] ?] ?]]|[]]|]; cbn; try done.
  destruct (Z.leb_spec 0 ch), (Z.ltb_spec ch 256); cbn; intros E; simplify_eq; lia.
Qed.

Definition demo_time (s : string) : option Z := parse_u u64_max s.

(** A connection that takes everything and answers what it has been given. *)
#[export] Instance demo_transport : Transport (list Incoming) := {|
  send_text q _ := (q, Ok tt);
  send_binary q _ := (q, Ok tt);
  recv q _ := match q with m :: q' => (q', Ok (Some m)) | [] => ([], Ok None) end;
  close q := (q, Ok tt);
|}.
#[export] Instance demo_factory : TransportFactory unit (Rec (list Incoming)) :=
  fun f => (f, Ok {| inner := []; wire := []; heard := [] |}).

(** ** The scheduler *)

Abbreviation DemoSys := (Sys (T := list Incoming) (F := unit)).
Abbreviation demo_step mishaps := (sys_step demo_parse "t" demo_format demo_parse demo_time fmt_u fmt_u mishaps).
Abbreviation demo_run mishaps := (sys_run demo_parse "t" demo_format demo_parse demo_time fmt_u fmt_u mishaps {["u"]}).

Inductive Move :=
| Push (g : SegmentRow)
| Begin (cid : string) (start : ControlMessage) (now : Z)
| End_ (cid : string) (end_ : ControlMessage)
| SendPass (now : Z)
| ReadPass
| Deliver (from : nat)               (** the gateway's texts from this one on reach the client *)
| Accept (now : Z)
| ServeFrame (k : nat) (now : Z)     (** frame [k] reaches the first connection *)
| Ticker (now : Z)
| Faults (l : list bool)
| Take                               (** the agent takes the uplink's events *)
| Answer (r : result HeartbeatAck ApiError)  (** a heartbeat carries what the agent holds *)
| Restart.

Definition demo_peer : Peer := {| UserUID := "u"; DeviceID := "d" |}.
Definition demo_config : Gateway.Config :=
  {| AckInterval := 0; AckEverySegs := 0; IdleTimeout := 0; OrphanGrace := 0; MaxCallsPerConn := 0 |}.

Definition gw_turn (ev : ServeEvent) (now : Z) (w : Gw) : option Gw :=
  match gw_sessions w with
  | s :: l =>
      let '(s', d, texts) := serve "t" demo_format demo_parse demo_time fmt_u fmt_u (fun l => l) ev now 1000 s (gw_db w) in
      Some {| gw_db := d; gw_sessions := option_list s' ++ l; gw_texts := gw_texts w ++ texts |}
  | [] => None
  end.

Definition authenticb (u : Uplink (Rec (list Incoming)) unit) (w : Gw) : bool :=
  forallb (fun m => match m with InText t => bool_decide (t ∈ gw_texts w) | _ => true end) (heard_of u).

(** A change of the reports that loses none, unless mishaps are in play. *)
Definition spared (mishaps : bool) (after : Reports) (y : DemoSys) (k : Reports -> DemoSys) : option DemoSys :=
  if decide (mishaps = true \/ length (rp_gone after) = length (rp_gone (y_reports y))) then Some (k after) else None.

Definition move (mishaps : bool) (m : Move) (y : DemoSys) : option DemoSys :=
  match m, y_client y with
  | Push g, CIdle u =>
      match push_segment u g with
      | Ok u' => if decide (SegmentRow_typed g) then Some (with_client u' y <| y_pushed := y_pushed y ++ [g] |>) else None
      | Err _ => None
      end
  | Begin cid start now, CIdle u => Some (with_client (Uplink_begin_call u cid start now) y)
  | End_ cid e, CIdle u => Some (with_client (Uplink_end_call u cid e) y)
  | SendPass now, CIdle u =>
      let '(u1, up) := try_connect (fun _ => 0) now u in
      if up then
        let '(st, r) := send_pending demo_parse now (u1, PumpOutcome_default <| connected := true |>) in
        let out := drop (length (wire_of u1)) (wire_of st.1) in
        Some (y <| y_client := CReading now st r |> <| y_frames := y_frames y ++ (to_frame <$> out) |>)
      else None
  | ReadPass, CReading now st (Ok tt) =>
      match read_incoming 1000 now st with
      | Some (st', Ok tt) => if authenticb st'.1 (y_gw y) then Some (with_client st'.1 y) else None
      | _ => None
      end
  | Deliver from, CIdle u =>
      match transport u with
      | Some r => Some (with_client (u <| transport := Some {| inner := InText <$> drop from (gw_texts (y_gw y));
                                                             wire := wire r; heard := heard r |} |>) y)
      | None => None
      end
  | Accept now, _ => Some (y <| y_gw := (y_gw y) <| gw_sessions := gw_sessions (y_gw y) ++ [NewSession demo_peer demo_config 1 now] |> |>)
  | ServeFrame k now, _ => f ← y_frames y !! k; w ← gw_turn (EvFrame f) now (y_gw y); Some (y <| y_gw := w |>)
  | Ticker now, _ => w ← gw_turn EvTicker now (y_gw y); Some (y <| y_gw := w |>)
  | Faults l, _ => Some (y <| y_gw := (y_gw y) <| gw_db := (gw_db (y_gw y)) <| db_today := "2026-09-01" |> <| db_faults := l |> |> |>)
  | Take, CIdle u =>
      Some (with_client (take_events u).1 y
              <| y_reports := {| rp_pending := rp_pending (y_reports y) ++ (take_events u).2;
                                 rp_acked := rp_acked (y_reports y); rp_gone := rp_gone (y_reports y) |} |>)
  | Answer r, CIdle u => spared mishaps (settle r (y_reports y)) y (fun after => y <| y_reports := after |>)
  | Restart, c =>
      spared mishaps (forget (u_events (uplink_of c)) (y_reports y)) y
        (fun after => with_client (Uplink_new (spool (uplink_of c)) tt) y <| y_reports := after |>)
  | _, _ => None
  end.

Fixpoint moves (mishaps : bool) (ms : list Move) (y : DemoSys) : option DemoSys :=
  match ms with [] => Some y | m :: ms' => move mishaps m y ≫= moves mishaps ms' end.

(** *** Moves are steps *)

Lemma authenticb_authentic u w : authenticb u w = true -> authentic u w.
Proof.
  unfold authenticb. intros H t Hin. rewrite forallb_forall in H.
  specialize (H (InText t) ltac:(by apply list_elem_of_In)). by apply bool_decide_eq_true in H.
Qed.

Lemma gw_turn_step mishaps y ev now w :
  match ev with EvFrame f => f ∈ y_frames y | _ => True end ->
  gw_turn ev now (y_gw y) = Some w -> demo_step mishaps y (y <| y_gw := w |>).
Proof.
  unfold gw_turn. intros Hev. destruct (gw_sessions (y_gw y)) as [|s l] eqn:Es; [done|].
  destruct (serve _ _ _ _ _ _ _ _ _ _ _ _) as [[s' d] texts] eqn:Ev. intros [= <-].
  apply ys_gateway. by eapply (gw_serve _ _ _ _ _ _ _ (y_gw y) _ ev _ _ [] s l).
Qed.

Lemma send_pass_step mishaps y u u1 now st r :
  y_client y = CIdle u -> Forall SegmentRow_typed (y_pushed y) -> spool_pushed (.∈ y_pushed y) (spool u) ->
  try_connect (fun _ => 0) now u = (u1, true) ->
  send_pending demo_parse now (u1, PumpOutcome_default <| connected := true |>) = (st, r) ->
  demo_step mishaps y (y <| y_client := CReading now st r |>
    <| y_frames := y_frames y ++ (to_frame <$> drop (length (wire_of u1)) (wire_of st.1)) |>).
Proof.
  intros Ec Ht Hp Et Hs. apply (ys_send _ _ _ _ _ _ _ _ y u u1 (fun _ => 0) now st r _ Ec Et Hs).
  apply try_connect_same in Et as [E1 _].
  apply (send_pending_sends demo_parse demo_parse_16 (.∈ y_pushed y)) in Hs as (_ & out & Hw & _);
    [|by rewrite Forall_forall in Ht|by rewrite E1].
  cbn [fst] in *. by rewrite Hw, drop_app_length.
Qed.

Lemma settle_spares r b : length (rp_gone (settle r b)) = length (rp_gone b) -> rp_gone (settle r b) = rp_gone b.
Proof.
  destruct r as [|[]]; cbn; try done. rewrite length_app. destruct (rp_pending b); cbn; [by rewrite app_nil_r|lia].
Qed.

Lemma forget_spares held b : length (rp_gone (forget held b)) = length (rp_gone b) -> rp_gone (forget held b) = rp_gone b.
Proof. cbn. rewrite length_app. destruct (rp_pending b ++ held); cbn; [by rewrite app_nil_r|lia]. Qed.

Lemma move_is_a_step mishaps m y y' : demo_run mishaps y -> move mishaps m y = Some y' -> demo_step mishaps y y'.
Proof.
  intros Hr. pose proof (sys_run_ok demo_parse "t" demo_format demo_parse demo_time fmt_u fmt_u mishaps demo_parse_16
    demo_format_plain demo_ack_channel _ _ Hr) as [_ _ Hc].
  destruct m as [g|cid start now|cid e|now| |from|now|k now|now|l| |rp| ]; unfold move; destruct (y_client y) as [u|now' st r] eqn:Ec;
    try done.
  - destruct (push_segment u g) as [u'|] eqn:Ep; [|done]. case_match; [|done]. intros [= <-]. by eapply ys_push.
  - intros [= <-]. by apply ys_begin.
  - intros [= <-]. by apply ys_end.
  - destruct (try_connect _ now u) as [u1 []] eqn:Et; [|done]. destruct (send_pending _ _ _) as [st r] eqn:Es.
    intros [= <-]. destruct Hc as [_ Hp Ht _ _]. by eapply send_pass_step.
  - destruct r as [[]|]; [|done]. destruct (read_incoming _ _ _) as [[st' [[]|]]|] eqn:Er; [|done..].
    destruct (authenticb _ _) eqn:Ea; [|done]. intros [= <-]. eapply ys_read; [done|done|by apply authenticb_authentic].
  - destruct (transport u) as [r|] eqn:Et; [|done]. intros [= <-]. by eapply ys_network.
  - intros [= <-]. apply ys_gateway, gw_accept.
  - intros [= <-]. apply ys_gateway, gw_accept.
  - intros (f & Hf & (w & Hw & [= <-])%bind_Some)%bind_Some. eapply gw_turn_step; [|exact Hw].
    by eapply list_elem_of_lookup_2.
  - intros (f & Hf & (w & Hw & [= <-])%bind_Some)%bind_Some. eapply gw_turn_step; [|exact Hw].
    by eapply list_elem_of_lookup_2.
  - intros (w & Hw & [= <-])%bind_Some. by eapply (gw_turn_step _ y EvTicker).
  - intros (w & Hw & [= <-])%bind_Some. by eapply (gw_turn_step _ y EvTicker).
  - intros [= <-]. apply ys_gateway, gw_world. lacks_lit.
  - intros [= <-]. apply ys_gateway, gw_world. lacks_lit.
  - intros [= <-]. by apply ys_take.
  - unfold spared. case_match eqn:Hd; [|done]. intros [= <-]. clear Hd. eapply ys_report; [done|].
    destruct_or?; [by left|right; by apply settle_spares].
  - unfold spared. case_match eqn:Hd; [|done]. intros [= <-]. clear Hd. pose proof (ys_restart demo_parse "t" demo_format demo_parse
      demo_time fmt_u fmt_u mishaps y tt) as Hq. rewrite Ec in Hq. apply Hq. destruct_or?; [by left|right; by apply forget_spares].
  - unfold spared. case_match eqn:Hd; [|done]. intros [= <-]. clear Hd. pose proof (ys_restart demo_parse "t" demo_format demo_parse
      demo_time fmt_u fmt_u mishaps y tt) as Hq. rewrite Ec in Hq. apply Hq. destruct_or?; [by left|right; by apply forget_spares].
Qed.

Definition demo_start (lim : SpoolLimits) : DemoSys := {|
  y_client := CIdle (Uplink_new (fresh_db lim) tt);
  y_gw := {| gw_db := {| db_users := {["u"]}; db_calls := ∅; db_segments := ∅; db_watermarks := ∅; db_outbox := ∅;
                         db_blobs := ∅; db_today := "2026-09-01"; db_faults := [] |};
             gw_sessions := []; gw_texts := [] |};
  y_frames := []; y_pushed := []; y_reports := {| rp_pending := []; rp_acked := []; rp_gone := [] |} |}.

Lemma moves_run mishaps lim ms y :
  0 <= max_bytes lim -> moves mishaps ms (demo_start lim) = Some y -> demo_run mishaps y.
Proof.
  intros Hl. assert (demo_run mishaps (demo_start lim)) as H0 by (apply sr_new; [done|lacks_lit]). revert H0.
  generalize (demo_start lim). induction ms as [|m ms IH]; intros y0 H0; cbn; [by intros [= <-]|].
  intros (y1 & E1 & E2)%bind_Some. eapply IH; [|exact E2]. econstructor; [exact H0|by eapply move_is_a_step].
Qed.

(** ** Runs *)

Definition call_id : string := Eval vm_compute in demo_format (repeat Byte.x01 16).
Definition demo_begin : ControlMessage := MsgCallStart {|
  cs_call_id := call_id; cs_started_at := "0"; cs_user_uid := "u"; cs_device_id := "d"; cs_tier := TierA;
  cs_account_ref := None; cs_dialer_call_id := None; cs_direction := Protocol.Outbound; cs_codec := "opus"; cs_rate := 16000 |}.
Definition demo_end : ControlMessage := MsgCallEnd {|
  ce_call_id := call_id; ce_ended_at := "9"; ce_reason := Hangup; ce_last_seq := ∅ |}.
Definition seg (sq : Z) : SegmentRow := sample_seg call_id Far sq (1000 + sq) 1.
Definition segs (n : nat) : list Move := Push ∘ seg ∘ Z.of_nat <$> seq 0 n.
Definition served (n : nat) (now : Z) : list Move := (fun k => ServeFrame k now) <$> seq 0 n.

Definition roomy : SpoolLimits := {| max_bytes := 1000; max_age_ms := 1000000 |}.

(** What is left on the client's disk and in the gateway's database, and what the
    client's events admit to having lost: those still in the uplink and the agent, those
    the server has acknowledged and those gone unreported. *)
Definition ledger (y : DemoSys) : nat * nat * (Z * Z * Z) :=
  (size (segments (spool (uplink_of (y_client y)))), size (db_segments (gw_db (y_gw y))),
   (events_lost (u_events (uplink_of (y_client y))) + events_lost (rp_pending (y_reports y)),
    events_lost (rp_acked (y_reports y)), events_lost (rp_gone (y_reports y)))).
Definition call_statuses (y : DemoSys) : list string := dc_status <$> (map_to_list (db_calls (gw_db (y_gw y)))).*2.

(** The course of things: a call of two segments, its end, and the acks. *)
Definition delivered : list Move :=
  [Begin call_id demo_begin 1] ++ segs 2 ++ [End_ call_id demo_end; SendPass 2000; Accept 2000] ++ served 3 2001 ++
  [ReadPass; Deliver 0; SendPass 2050; ReadPass].
Example delivered_all : ledger <$> moves false delivered (demo_start roomy) = Some (0%nat, 2%nat, (0, 0, 0)).
Proof. vm_compute. reflexivity. Qed.

(** The same call when the database fails once, as the call is opened: the gateway does
    not know the call, takes its end for an error of the client's and says so with
    [fatal]; the client does as it is told and deletes the audio. *)
Definition destroyed : list Move :=
  [Begin call_id demo_begin 1] ++ segs 2 ++
  [End_ call_id demo_end; SendPass 2000; Accept 2000; Faults [true]] ++ served 3 2001 ++
  [ReadPass; Deliver 0; SendPass 2050; ReadPass].
Example one_database_error_destroys_a_call :
  ledger <$> moves false destroyed (demo_start roomy) = Some (0%nat, 0%nat, (2, 0, 0)).
Proof. vm_compute. reflexivity. Qed.

(** A call with a backlog of 45 segments: its end goes out with the first 40, and the
    gateway hands it to the pipeline with five still on the client's disk. *)
Definition finalized_early : list Move :=
  [Begin call_id demo_begin 1] ++ segs 45 ++ [End_ call_id demo_end; SendPass 2000; Accept 2000] ++ served 6 2001.
Example call_finalized_before_its_audio :
  (fun y => (ledger y, call_statuses y, size (db_outbox (gw_db (y_gw y))))) <$> moves false finalized_early (demo_start roomy) =
    Some ((45%nat, 40%nat, (0, 0, 0)), ["transcribing"], 1%nat).
Proof. vm_compute. reflexivity. Qed.

(** The spool gave up segment 0 of a call before it was sent: the gateway stores the
    forty that follow and never acknowledges one, so the same forty fill every pass and
    the rest of the call is never sent. *)
Definition tight : SpoolLimits := {| max_bytes := 45; max_age_ms := 1000000 |}.
Definition hole : list Move :=
  [Begin call_id demo_begin 1] ++ segs 46 ++ [SendPass 2000; Accept 2000] ++ served 5 2001 ++
  [ReadPass; Ticker 10000; Deliver 0; SendPass 10000; ReadPass; Ticker 20000; Deliver 0; SendPass 20000; ReadPass].
Example hole_stalls_the_upload :
  (fun y => (ledger y, gw_texts (y_gw y), length (y_frames y))) <$> moves false hole (demo_start tight) =
    Some ((45%nat, 40%nat, (1, 0, 0)), [], 5%nat).
Proof. vm_compute. reflexivity. Qed.

(** The two segments of [destroyed] are admitted to: the agent takes the event, a
    heartbeat the server answers acknowledges it, and a restart loses nothing. *)
Definition ack_now : result HeartbeatAck ApiError := Ok {| ha_policy_version := 1; ha_server_time := "0"; ha_commands := [] |}.
Definition reported_run : list Move := destroyed ++ [Take; Answer (Err (ApiTransport "down")); Answer ack_now; Restart].
Example destroyed_call_is_reported :
  ledger <$> moves false reported_run (demo_start roomy) = Some (0%nat, 0%nat, (0, 2, 0)).
Proof. vm_compute. reflexivity. Qed.

(** The event is held in memory only: the process that ends before a heartbeat is
    answered, and the heartbeat refused with 403, lose the segments without a word. *)
Example restart_silences_an_eviction :
  ledger <$> moves true (destroyed ++ [Restart; Take; Answer ack_now]) (demo_start roomy) =
    Some (0%nat, 0%nat, (0, 0, 2)).
Proof. vm_compute. reflexivity. Qed.
Example refused_heartbeat_silences_an_eviction :
  ledger <$> moves true (destroyed ++ [Take; Answer (Err ApiForbidden); Answer ack_now]) (demo_start roomy) =
    Some (0%nat, 0%nat, (0, 0, 2)).
Proof. vm_compute. reflexivity. Qed.

(** ** The facts behind them *)

Section facts.
Context {J : GoJson} (tenant : string) (formatULID : list u8 -> string) (parseULID : string -> option (list u8)).
Context (parse_time : string -> option Z) (format_time : Z -> string) (duration_string : Z -> string).

(** Whenever the stores fail to open a call the gateway did not know, the call stays
    unknown, and the next [call.end] for it is answered with a fatal error. *)
Theorem failed_open_makes_the_end_fatal iter cs now g g1 e ce now' db :
  OnCallStart tenant formatULID parseULID parse_time iter cs now g = (g1, Err e) ->
  sn_calls (g_s g) !! gs_CallID cs = None -> orphans (g_s g) !! gs_CallID cs = None ->
  ge_CallID ce = gs_CallID cs ->
  let g2 := (OnCallEnd parseULID parse_time iter ce now' {| g_s := g_s g1; g_db := db; g_out := Outbound_empty |}).1 in
  Errors (g_out g2) = [{| gx_CallID := gs_CallID cs; gx_Code := CodeUnknownCall;
                          gx_Message := "no call.start for this call"; gx_Fatal := true |}] /\
  g_db g2 = db.
Proof.
  intros Ho Hc Hor Eid. unfold OnCallStart in Ho.
  destruct (checkIdentity _ _ _ _) as [g0 r0] eqn:E0.
  assert (sn_calls (g_s g0) = sn_calls (g_s g) /\ orphans (g_s g0) = orphans (g_s g)) as [Ec0 Eo0].
  { unfold checkIdentity in E0. repeat case_match; by simplify_eq. }
  destruct r0; [|done]. destruct (_ <=? _); [done|]. unfold on_sink in Ho.
  destruct (EnsureCall _ _ _ _) as [d [[existed marks]|e']].
  - exfalso. cbn in Ho. rewrite Ec0, Hc in Ho. revert Ho. set (ga := adopt_acked _ _ _).
    assert (orphans (g_s ga) = orphans (g_s g0)) as Ea.
    { unfold ga, adopt_acked. rewrite map_fold_foldr. induction (map_to_list marks) as [|[ch t] l IH]; cbn; [done|].
      exact IH. }
    set (gb := if existed then _ else _). assert (orphans (g_s gb) = orphans (g_s g0)) as Eb
      by (unfold gb; by destruct existed).
    rewrite Eb, Eo0, Hor. done.
  - simplify_eq. cbn. unfold OnCallEnd. cbn. rewrite Ec0, Eid, Hc. done.
Qed.
End facts.

(** ** Witnesses *)

Lemma reported_ends :
  exists y, moves false reported_run (demo_start roomy) = Some y /\ ledger y = (0%nat, 0%nat, (0, 2, 0)).
Proof.
  assert (ledger <$> moves false reported_run (demo_start roomy) = Some (0%nat, 0%nat, (0, 2, 0))) as H
    by (vm_compute; reflexivity).
  destruct (moves false reported_run (demo_start roomy)) as [y|]; [|discriminate H]. apply (inj Some) in H. eauto.
Qed.

Lemma no_audio_unaccounted_for_witness :
  match moves false reported_run (demo_start roomy) with
  | Some y =>
      ledger y = (0%nat, 0%nat, (0, 2, 0)) /\
      Z.of_nat (size (lost demo_parse (gw_db (y_gw y)) (y_pushed y) (spool (uplink_of (y_client y))))) <=
        events_lost (rp_acked (y_reports y)) + events_lost (rp_pending (y_reports y)) +
        events_lost (u_events (uplink_of (y_client y))) + events_lost (rp_gone (y_reports y)) /\
      (false = false -> rp_gone (y_reports y) = []) /\
      forall id ch q row, db_segments (gw_db (y_gw y)) !! (id, ch, q) = Some row ->
        exists g, g ∈ y_pushed y /\ db_blobs (gw_db (y_gw y)) !! ds_s3_key row = Some (sg_payload g) /\
          demo_parse (demo_format (call_id_bytes demo_parse (sg_call_id g))) = Some id /\
          chan_z (sg_channel g) = ch /\ as_i32 (sg_seq g) = q
  | None => False
  end.
Proof.
  destruct reported_ends as (y & E & Hl). rewrite E. split; [exact Hl|].
  refine (no_audio_unaccounted_for demo_parse "t" demo_format demo_parse demo_time fmt_u fmt_u false demo_parse_16
    demo_format_plain demo_ack_channel {["u"]} y _).
  apply (moves_run false roomy reported_run); [vm_compute; discriminate|exact E].
Defined.

Lemma delivered_ends : exists y, moves false delivered (demo_start roomy) = Some y /\ length (gw_texts (y_gw y)) = 2%nat.
Proof.
  assert ((fun y => length (gw_texts (y_gw y))) <$> moves false delivered (demo_start roomy) = Some 2%nat) as H
    by (vm_compute; reflexivity).
  destruct (moves false delivered (demo_start roomy)) as [y|]; [|discriminate H]. apply (inj Some) in H. eauto.
Qed.

Lemma gateway_promises_witness :
  match moves false delivered (demo_start roomy) with
  | Some y =>
      length (gw_texts (y_gw y)) = 2%nat /\
      Forall (text_ok demo_parse (gw_db (y_gw y))) (gw_texts (y_gw y)) /\
      forall id ch q row, db_segments (gw_db (y_gw y)) !! (id, ch, q) = Some row ->
        exists rec, db_blobs (gw_db (y_gw y)) !! ds_s3_key row = Some (go_Payload rec) /\
          demo_parse (demo_format (go_CallID rec)) = Some id /\ go_Channel rec = ch /\ as_i32 (go_Seq rec) = q
  | None => False
  end.
Proof.
  destruct delivered_ends as (y & E & Hl). rewrite E. split; [exact Hl|].
  refine (gateway_promises_are_durable "t" demo_format demo_parse demo_time fmt_u fmt_u demo_format_plain {["u"]} (y_gw y) _).
  eapply (sys_run_gateway demo_parse). apply (moves_run false roomy delivered); [vm_compute; discriminate|exact E].
Defined.
