(* ===== verification/Watermark.v ===== *)
(** What a channel's watermark means to the gateway's session (session.go): from the moment
    a connection opens a call, whatever it is sent then, the number it acknowledges is the
    end of the longest unbroken run, above what the database had acknowledged before, of
    the sequence numbers it has stored. The handlers are those of Gateway.v, with any
    iteration order, clock and store failures at each turn. *)

From S2P Require Import Prelude Text Protocol GoWire Gateway GatewayProps Delivery DeliveryRuns.

(** ** Channels and their numbers *)

(** The reference: a channel that was opened with everything through [base] acknowledged
    and has stored [seqs] since is started when it has a base or has stored 0, promises
    the longest run above the base of what it stored, and holds the rest. *)
Definition first_wanted (base : option Z) : Z := match base with Some b => b + 1 | None => 0 end.
Record watermark_of (base : option Z) (seqs : gset Z) (c : ChannelState) : Prop := {
  wm_started : started c = true <-> base <> None \/ 0 ∈ seqs;
  wm_base : started c = true -> first_wanted base <= through c + 1;
  wm_run : started c = true -> forall q, first_wanted base <= q <= through c -> q ∈ seqs;
  wm_longest : started c = true -> through c + 1 ∉ seqs;
  wm_ahead : forall q, q ∈ ahead c <-> q ∈ seqs /\ (started c = true -> through c < q);
  wm_bound : 0 <= through c < u32_max;
}.

Lemma absorb_run fuel c :
  (forall q, q ∈ ahead c -> through c < q < u32_max) -> (size (ahead c) <= fuel)%nat -> 0 <= through c < u32_max ->
  let c' := absorb fuel c in
  started c' = started c /\ through c <= through c' < u32_max /\
  (forall q, through c < q <= through c' -> q ∈ ahead c) /\ through c' + 1 ∉ ahead c /\
  (forall q, q ∈ ahead c' <-> q ∈ ahead c /\ through c' < q).
Proof.
  revert c. induction fuel as [|fuel IH]; intros c Ha Hsz Ht; cbn [absorb].
  - assert (ahead c ≡ ∅) as He by (apply size_empty_iff; lia). split_and!; try done; [lia|lia|set_solver|set_solver].
  - assert (wrap32 (through c + 1) = through c + 1) as -> by (unfold wrap32; rewrite Z.mod_small; ints; lia).
    case_bool_decide as Hn.
    + destruct (IH (c <| ahead := ahead c ∖ {[through c + 1]} |> <| through := through c + 1 |>)) as (H1 & H2 & H3 & H4 & H5).
      * cbn. intros q [Hq Hne]%elem_of_difference. specialize (Ha q Hq). split; [|lia].
        destruct (decide (q = through c + 1)); [set_solver|lia].
      * cbn. rewrite size_difference by set_solver. rewrite size_singleton. lia.
      * cbn. specialize (Ha _ Hn). lia.
      * cbn in *. split_and!; [done|lia|lia| | |].
        -- intros q Hq. destruct (decide (q = through c + 1)) as [->|]; [done|]. apply (elem_of_weaken _ (ahead c ∖ {[through c + 1]})); [|set_solver].
           apply H3. lia.
        -- intros Hin. apply H4. apply elem_of_difference. split; [done|]. rewrite elem_of_singleton. lia.
        -- intros q. rewrite H5, elem_of_difference, elem_of_singleton. split; [naive_solver|].
           intros [Hq Hlt]. split_and!; [done|lia|done].
    + split_and!; [done|lia|lia|lia|done|]. intros q. split; [|tauto]. intros Hq. split; [done|]. by apply Ha.
Qed.

Lemma wrap32_next z : 0 <= z < u32_max -> wrap32 (z + 1) = z + 1.
Proof. intros Hz. unfold wrap32. rewrite Z.mod_small; ints; lia. Qed.

(** A number already promised changes nothing. *)
Lemma watermark_again base seqs c q n :
  started c = true -> 0 <= q <= through c -> (forall b, base = Some b -> 0 <= b) ->
  watermark_of base seqs c -> watermark_of base (seqs ∪ {[q]}) (c <| sinceAck := n |>).
Proof.
  intros Es Hle Hb [W1 W0 W2 W3 W4 W5]. specialize (W0 Es). specialize (W3 Es). split; cbn; rewrite ?Es; try done.
  - split; [|done]. intros _. destruct base as [b|]; [left; congruence|]. right. apply elem_of_union_l, W2; [done|]. cbn in *. lia.
  - intros _ p Hp. apply elem_of_union_l. by apply W2.
  - intros _. rewrite elem_of_union, elem_of_singleton. intros [?|?]; [done|lia].
  - intros p. rewrite W4, elem_of_union, elem_of_singleton. split; [naive_solver|].
    intros [[Hp| ->] Hlt]; [naive_solver|]. specialize (Hlt eq_refl). lia.
Qed.

Lemma advance_started base seqs c q :
  started c = true -> through c < q < u32_max -> (forall p, p ∈ seqs -> 0 <= p < u32_max) ->
  watermark_of base seqs c -> watermark_of base (seqs ∪ {[q]}) (advance c q).
Proof.
  intros Es Hq Hseqs [W1 W0 W2 W3 W4 W5]. specialize (W0 Es). specialize (W3 Es).
  assert (base <> None \/ 0 ∈ seqs) as H0 by (by apply W1).
  unfold advance. rewrite Es. cbn [negb]. rewrite wrap32_next by done. destruct (Z.eqb_spec q (through c + 1)) as [->|Hne].
  - destruct (absorb_run (size (ahead c)) (c <| through := through c + 1 |>)) as (H1 & H2 & H3 & H4 & H5); cbn in *; [|done|lia|].
    { intros p Hp. apply W4 in Hp as [Hp Hlt]. specialize (Hlt Es). specialize (Hseqs p Hp).
      destruct (decide (p = through c + 1)) as [->|]; [done|lia]. }
    apply (fun E => eq_trans E Es) in H1. split; [rewrite H1; set_solver|intros _; lia| | | |lia].
    + intros _ p Hp. destruct (decide (p <= through c)) as [|Hnl]; [apply elem_of_union_l, W2; [done|lia]|].
      destruct (decide (p = through c + 1)) as [->|]; [set_solver|]. apply elem_of_union_l, W4, H3. lia.
    + intros _. rewrite elem_of_union, elem_of_singleton. intros [Hin|E]; [|lia]. apply H4, W4. split; [done|lia].
    + intros p. rewrite H5, W4, elem_of_union, elem_of_singleton. split; [naive_solver lia|].
      intros [[Hp| ->] Hlt]; specialize (Hlt H1); [split; [split; [done|lia]|done]|lia].
  - split; cbn; rewrite ?Es; try done; [set_solver|set_solver| |].
    + intros _. rewrite elem_of_union, elem_of_singleton. intros [?|?]; [done|lia].
    + intros p. rewrite !elem_of_union, elem_of_singleton, W4. naive_solver lia.
Qed.

Lemma advance_first base seqs c q :
  started c = false -> 0 <= q < u32_max -> (forall p, p ∈ seqs -> 0 <= p < u32_max) ->
  watermark_of base seqs c -> watermark_of base (seqs ∪ {[q]}) (advance c q).
Proof.
  intros Es Hq Hseqs [W1 W0 W2 W3 W4 W5].
  assert (~ (base <> None \/ 0 ∈ seqs)) as Hn by (rewrite <- W1; by rewrite Es).
  assert (base = None /\ 0 ∉ seqs) as [-> H0] by (destruct base; naive_solver).
  unfold advance. rewrite Es. cbn [negb]. destruct (Z.eqb_spec q 0) as [->|Hne].
  - destruct (absorb_run (size (ahead c)) (c <| through := 0 |> <| started := true |>)) as (H1 & H2 & H3 & H4 & H5);
      cbn in *; [|done|lia|].
    { intros p Hp. apply W4 in Hp as [Hp _]. specialize (Hseqs p Hp). destruct (decide (p = 0)) as [->|]; [done|lia]. }
    split; [rewrite H1; set_solver|intros _; cbn; lia| | | |lia].
    + intros _ p Hp. cbn in Hp. destruct (decide (p = 0)) as [->|]; [set_solver|]. apply elem_of_union_l, W4, H3. lia.
    + intros _. rewrite elem_of_union, elem_of_singleton. intros [Hin|E]; [|lia]. apply H4, W4. by split; [|rewrite Es].
    + intros p. rewrite H5, W4, elem_of_union, elem_of_singleton. rewrite Es. split; [naive_solver|].
      intros [[Hp| ->] Hlt]; specialize (Hlt H1); [by split; [split|]|lia].
  - split; cbn; rewrite ?Es; try done; [naive_solver set_solver|].
    intros p. rewrite !elem_of_union, elem_of_singleton, W4, Es. naive_solver.
Qed.

(** ** What leaves a channel alone *)

Section session.
Context {J : GoJson} (tenant : string) (formatULID : list u8 -> string) (parseULID : string -> option (list u8)).
Context (parse_time : string -> option Z) (format_time : Z -> string) (duration_string : Z -> string).
(** The call and the channel. *)
Context (cid : string) (ch : Z).

#[local] Abbreviation chan g := (channel_of cid ch (g_s g)).

(** What the promise rests on. *)
Definition mark (c : ChannelState) : Z * bool * gset Z := (through c, started c, ahead c).

Lemma watermark_mark base seqs c c' : mark c' = mark c -> watermark_of base seqs c -> watermark_of base seqs c'.
Proof. unfold mark. intros [= E1 E2 E3] [H1 H2 H3 H4 H5 H6]. split; by rewrite ?E1, ?E2, ?E3. Qed.

(** The call stays open and the channel's promise where it was. *)
Definition keeps (g g' : G) : Prop :=
  mark (chan g') = mark (chan g) /\ (is_Some (sn_calls (g_s g) !! cid) -> is_Some (sn_calls (g_s g') !! cid)).
#[local] Instance keeps_preorder : PreOrder keeps.
Proof. split; [done|]. intros g1 g2 g3 [M1 C1] [M2 C2]. split; [congruence|auto]. Qed.

Lemma keeps_calls g g' : sn_calls (g_s g') = sn_calls (g_s g) -> keeps g g'.
Proof. intros E. unfold keeps, channel_of. by rewrite E. Qed.

Lemma on_sink_keeps {A} (op : Db -> Db * result A string) g g' r : on_sink op g = (g', r) -> keeps g g'.
Proof. unfold on_sink. destruct (op (g_db g)). intros [= <- _]. by apply keeps_calls. Qed.

Lemma put_channel_open cid' ch' c g :
  is_Some (sn_calls (g_s g) !! cid) -> is_Some (sn_calls (g_s (put_channel cid' ch' c g)) !! cid).
Proof.
  intros [st Hst]. unfold put_channel, set_channel. cbn. destruct (decide (cid' = cid)) as [->|Hne].
  - rewrite lookup_alter_eq, Hst. by eexists.
  - rewrite lookup_alter_ne by done. by eexists.
Qed.

Lemma put_channel_chan c g : is_Some (sn_calls (g_s g) !! cid) -> chan (put_channel cid ch c g) = c.
Proof.
  intros [st Hst]. unfold channel_of, put_channel, set_channel. cbn. rewrite lookup_alter_eq, Hst. cbn.
  by rewrite lookup_insert_eq.
Qed.

Lemma put_channel_closed c g : sn_calls (g_s g) !! cid = None -> keeps g (put_channel cid ch c g).
Proof.
  intros Hn. unfold keeps, channel_of, put_channel, set_channel. cbn. rewrite lookup_alter_eq, Hn. cbn. by split.
Qed.

Lemma put_channel_other cid' ch' c g : (cid', ch') <> (cid, ch) -> keeps g (put_channel cid' ch' c g).
Proof.
  intros Hne. split; [|apply put_channel_open]. f_equal. unfold channel_of, put_channel, set_channel. cbn.
  destruct (decide (cid' = cid)) as [->|Hc]; [|by rewrite lookup_alter_ne].
  rewrite lookup_alter_eq. destruct (sn_calls (g_s g) !! cid) as [st|]; [|done]. cbn.
  rewrite lookup_insert_ne; [done|congruence].
Qed.

(** A change of a channel's acknowledgement bookkeeping. *)
Lemma put_channel_keeps cid' ch' c g :
  mark c = mark (channel_of cid' ch' (g_s g)) -> keeps g (put_channel cid' ch' c g).
Proof.
  intros Hc. destruct (decide ((cid', ch') = (cid, ch))) as [E|Hne]; [|by apply put_channel_other].
  injection E as -> ->. destruct (sn_calls (g_s g) !! cid) as [st|] eqn:E; [|by apply put_channel_closed].
  split; [|apply put_channel_open]. rewrite put_channel_chan; [done|by rewrite E].
Qed.

Lemma put_channel_known cid' ch' g : channel_of cid' ch' (g_s (put_channel cid' ch' (channel_of cid' ch' (g_s g)) g)) =
  channel_of cid' ch' (g_s g).
Proof.
  unfold channel_of at 1, put_channel, set_channel. cbn. rewrite lookup_alter_eq. unfold channel_of at 2.
  destruct (sn_calls (g_s g) !! cid') as [st|] eqn:E; [|done]. cbn. rewrite lookup_insert_eq. cbn.
  unfold channel_of. by rewrite E.
Qed.

Lemma ackChannel_keeps now k g : keeps g (ackChannel parseULID now k g).
Proof.
  destruct k as [cid' ch']. unfold ackChannel. set (c := (channel_of cid' ch' (g_s g)) <| lastAck := _ |> <| sinceAck := _ |>).
  assert (keeps g (put_channel cid' ch' c g)) as K1 by by apply put_channel_keeps.
  destruct (everAcked c && _); [exact K1|]. destruct (on_sink _ _) as [g2 r] eqn:Ek.
  unfold on_sink in Ek. destruct (SetWatermark _ _ _ _ _) as [d' r']. injection Ek as <- <-.
  destruct r'; [|etrans; [exact K1|by apply keeps_calls]]. etrans; [exact K1|].
  set (g1 := put_channel cid' ch' c g). set (g2 := g1 <| g_db := d' |>).
  etrans; [apply (keeps_calls g1 g2); done|].
  etrans; [|by apply keeps_calls]. apply put_channel_keeps. change (g_s g2) with (g_s g1).
  destruct (decide (is_Some (sn_calls (g_s g) !! cid'))) as [[st E]|E%eq_None_not_Some].
  - unfold g1, channel_of, put_channel, set_channel. cbn. rewrite lookup_alter_eq, E. cbn. by rewrite lookup_insert_eq.
  - unfold g1, c, channel_of, put_channel, set_channel. cbn. by rewrite lookup_alter_eq, E.
Qed.

Lemma foldl_keeps {A} (f : G -> A -> G) l g : (forall g a, keeps g (f g a)) -> keeps g (foldl f g l).
Proof. intros Hf. revert g. induction l as [|a l IH]; intros g; cbn; [done|]. etrans; [apply Hf|apply IH]. Qed.

Lemma emitDueAcks_keeps iter now g : keeps g (emitDueAcks parseULID iter now g).
Proof. apply foldl_keeps. intros g' k. cbv zeta. repeat case_match; by try apply ackChannel_keeps. Qed.
Lemma flushAcks_keeps iter now g : keeps g (flushAcks parseULID iter now g).
Proof. apply foldl_keeps. intros g' k. case_match; by try apply ackChannel_keeps. Qed.
Lemma expireOrphans_keeps iter now g : keeps g (expireOrphans duration_string iter now g).
Proof. apply foldl_keeps. intros g' o. repeat case_match; by try apply keeps_calls. Qed.

(** ** What a record does to it *)

Lemma storeRecord_other cid' rec g g' r :
  (cid', go_Channel rec) <> (cid, ch) ->
  storeRecord tenant formatULID parseULID cid' rec g = (g', r) -> keeps g g'.
Proof.
  intros Hne. unfold storeRecord. set (c := channel_of _ _ _). set (g1 := put_channel _ _ c g).
  assert (keeps g g1) as K1 by by apply put_channel_other.
  destruct (started c && _); [intros [= <- _]; etrans; [exact K1|by apply put_channel_other]|].
  destruct (on_sink _ g1) as [g2 r2] eqn:Ek. apply on_sink_keeps in Ek. destruct r2; intros [= <- _].
  - etrans; [exact K1|]. etrans; [exact Ek|by apply put_channel_other].
  - etrans; [exact K1|]. etrans; [exact Ek|by apply keeps_calls].
Qed.

(** A record of the channel: stored, its number counts; not stored, nothing changed. *)
Lemma storeRecord_chan base seqs rec g g' r :
  go_Channel rec = ch -> is_Some (sn_calls (g_s g) !! cid) -> (forall b, base = Some b -> 0 <= b) ->
  (is_ok r = true -> 0 <= go_Seq rec < u32_max) -> (forall q, q ∈ seqs -> 0 <= q < u32_max) ->
  storeRecord tenant formatULID parseULID cid rec g = (g', r) -> watermark_of base seqs (chan g) ->
  is_Some (sn_calls (g_s g') !! cid) /\
  watermark_of base (if is_ok r then seqs ∪ {[go_Seq rec]} else seqs) (chan g').
Proof.
  intros Hch Ho Hb Hq Hs. unfold storeRecord. rewrite Hch. set (c := chan g). set (g1 := put_channel cid ch c g).
  assert (keeps g g1) as K1 by by apply put_channel_keeps. assert (is_Some (sn_calls (g_s g1) !! cid)) as Ho1 by by apply K1.
  intros Est Hw. revert Est. destruct (started c && (go_Seq rec <=? through c)) eqn:Eold.
  { intros [= <- <-]. split; [by apply put_channel_open|]. rewrite put_channel_chan by done. bool_hyps.
    specialize (Hq eq_refl). apply watermark_again; [done|lia|done|done]. }
  destruct (on_sink _ g1) as [g2 r2] eqn:Ek. apply on_sink_keeps in Ek as K2. assert (is_Some (sn_calls (g_s g2) !! cid)) as Ho2
    by by apply K2. destruct r2 as [[]|e]; intros [= <- <-]; cbn [is_ok].
  - specialize (Hq eq_refl). split; [by apply put_channel_open|]. rewrite put_channel_chan by done. set (c' := c <| sinceAck := wrap32 (sinceAck c + 1) |>).
    assert (watermark_of base seqs c') as Hw' by (by eapply watermark_mark; [|exact Hw]).
    change (started c) with (started c') in Eold. change (through c) with (through c') in Eold.
    change (watermark_of base (seqs ∪ {[go_Seq rec]}) (advance c' (go_Seq rec))). clearbody c'.
    destruct (started c') eqn:Es; cbn [andb] in Eold; [|by apply advance_first].
    apply Z.leb_gt in Eold. by apply advance_started; [|lia|..].
  - split; [done|]. eapply watermark_mark; [|exact Hw]. etrans; [apply K2|apply K1].
Qed.

Lemma store_all_other cid' recs g g' r :
  cid' <> cid -> store_all tenant formatULID parseULID cid' recs g = (g', r) -> keeps g g'.
Proof.
  intros Hne. revert g. induction recs as [|rec recs IH]; intros g; cbn [store_all]; [by intros [= <- _]|].
  unfold bindM. destruct (storeRecord _ _ _ _ _ _) as [g1 r1] eqn:E1. apply storeRecord_other in E1; [|congruence].
  destruct r1; [|by intros [= <- _]]. intros E. etrans; [exact E1|by eapply IH].
Qed.

(** The numbers of the channel among records. *)
Definition numbers (recs : list GoRecord) : gset Z := list_to_set (go_Seq <$> filter (fun r => go_Channel r = ch) recs).

Lemma store_all_chan base seqs recs g g' :
  is_Some (sn_calls (g_s g) !! cid) -> (forall b, base = Some b -> 0 <= b) ->
  (forall q, q ∈ seqs ∪ numbers recs -> 0 <= q < u32_max) ->
  store_all tenant formatULID parseULID cid recs g = (g', Ok tt) -> watermark_of base seqs (chan g) ->
  is_Some (sn_calls (g_s g') !! cid) /\ watermark_of base (seqs ∪ numbers recs) (chan g').
Proof.
  intros Ho Hb. revert seqs g Ho. induction recs as [|rec recs IH]; intros seqs g Ho Hs; cbn [store_all].
  { intros [= <-] Hw. unfold numbers. cbn. by rewrite union_empty_r_L. }
  unfold bindM. destruct (storeRecord _ _ _ _ _ _) as [g1 [[]|e]] eqn:E1; [|done]. intros Est Hw.
  unfold numbers in *. rewrite filter_cons in Hs |- *. case_decide as Hch.
  - cbn [fmap list_fmap list_to_set] in *. rewrite union_assoc_L in Hs |- *.
    destruct (storeRecord_chan base seqs rec g g1 (Ok tt)) as [Ho1 Hw1]; [done|done|done|intros _; apply Hs; set_solver| |done|done|].
    { intros q Hq. apply Hs. set_solver. }
    by eapply IH.
  - apply storeRecord_other in E1; [|congruence]. eapply IH; [by apply E1|done|done|].
    eapply watermark_mark; [|exact Hw]. apply E1.
Qed.

(** ** Opening a call *)

(** What the database has acknowledged of the channel. *)
Definition acknowledged_before (d : Db) : option Z :=
  id ← parseULID cid; from_i32 <$> db_watermarks d !! (id, ch).

Lemma EnsureCall_marks cs d d' existed marks :
  gs_CallID cs = cid -> EnsureCall parseULID parse_time cs d = (d', Ok (existed, marks)) ->
  marks !! ch = acknowledged_before d.
Proof.
  intros Hid. unfold EnsureCall, acknowledged_before. rewrite Hid. destruct (parseULID cid) as [id|]; [|done].
  destruct (parse_time _); [|done]. destruct (db_fault d) as [f d1] eqn:Ef.
  assert (db_watermarks d1 = db_watermarks d) as <- by (unfold db_fault in Ef; by case_match; simplify_eq).
  destruct (f || _); [done|]. set (d2 := if _ && _ then _ else d1). intros [= _ _ <-]. cbn [mbind option_bind].
  assert (db_watermarks d2 = db_watermarks d1) as -> by (unfold d2; by destruct (_ && _)).
  apply (map_fold_weak_ind (fun (acc : gmap Z Z) (m : gmap (list u8 * Z) Z) => acc !! ch = from_i32 <$> m !! (id, ch))); [done|].
  intros [id' ch'] v m acc Hm IH. cbn [fst snd]. case_bool_decide as Hi; [subst id'|].
  - destruct (decide (ch' = ch)) as [->|Hne]; [by rewrite !lookup_insert_eq|].
    rewrite !lookup_insert_ne by congruence. exact IH.
  - rewrite lookup_insert_ne by congruence. exact IH.
Qed.

Lemma adopt_acked_other cid' marks g : cid' <> cid -> keeps g (adopt_acked cid' marks g).
Proof.
  intros Hne. unfold adopt_acked. apply (map_fold_weak_ind (fun acc _ => keeps g acc)); [done|].
  intros ch' t m acc _ IH. etrans; [exact IH|]. apply put_channel_other. congruence.
Qed.

Lemma adopt_acked_chan marks g :
  is_Some (sn_calls (g_s g) !! cid) ->
  is_Some (sn_calls (g_s (adopt_acked cid marks g)) !! cid) /\
  mark (chan (adopt_acked cid marks g)) =
    match marks !! ch with Some t => (t, true, ahead (chan g)) | None => mark (chan g) end.
Proof.
  intros Ho. unfold adopt_acked. apply (map_fold_weak_ind (fun acc (m : gmap Z Z) => is_Some (sn_calls (g_s acc) !! cid) /\
    mark (chan acc) = match m !! ch with Some t => (t, true, ahead (chan g)) | None => mark (chan g) end)); [done|].
  intros ch' t m acc Hm [Hoa IH]. destruct (decide (ch' = ch)) as [->|Hne].
  - split; [by apply put_channel_open|]. rewrite put_channel_chan, lookup_insert_eq by done. rewrite Hm in IH.
    unfold mark in *. injection IH as E1 E2 E3. cbn. by rewrite E3.
  - rewrite lookup_insert_ne, <- IH by done.
    destruct (put_channel_other cid ch' ((channel_of cid ch' (g_s acc)) <| through := t |> <| started := true |>
      <| acked := t |> <| everAcked := true |>) acc) as [Em Eo]; [congruence|]. split; [by apply Eo|exact Em].
Qed.

Lemma adopt_acked_orphans cid' marks g : orphans (g_s (adopt_acked cid' marks g)) = orphans (g_s g).
Proof. unfold adopt_acked. by apply (map_fold_weak_ind (fun acc _ => orphans (g_s acc) = orphans (g_s g))). Qed.

Lemma checkIdentity_same cid' u d g g' r :
  checkIdentity cid' u d g = (g', r) -> g_s g' = g_s g /\ g_db g' = g_db g.
Proof. unfold checkIdentity. repeat case_match; by intros [= <- _]. Qed.

(** A [call.start] refused leaves the calls alone; one accepted opens the call, adopts
    the database's marks and stores what was held for it. *)
Lemma OnCallStart_cases iter cs now g g' r :
  OnCallStart tenant formatULID parseULID parse_time iter cs now g = (g', r) ->
  sn_calls (g_s g') = sn_calls (g_s g) \/
  exists fresh d existed marks gA gB gC rC,
    channels fresh = ∅ /\
    EnsureCall parseULID parse_time cs (g_db g) = (d, Ok (existed, marks)) /\
    sn_calls (g_s gA) = match sn_calls (g_s g) !! gs_CallID cs with
                        | Some _ => sn_calls (g_s g)
                        | None => <[gs_CallID cs := fresh]> (sn_calls (g_s g))
                        end /\
    sn_calls (g_s gB) = sn_calls (g_s (adopt_acked (gs_CallID cs) marks gA)) /\
    store_all tenant formatULID parseULID (gs_CallID cs) (default [] (orphans (g_s g) !! gs_CallID cs)).*1 gB = (gC, rC) /\
    (r = rC /\ g' = match rC with Ok _ => emitDueAcks parseULID iter now gC | Err _ => gC end).
Proof.
  unfold OnCallStart. destruct (checkIdentity _ _ _ _) as [g1 r1] eqn:E1. apply checkIdentity_same in E1 as [Es1 Ed1].
  assert (sn_calls (g_s g1) = sn_calls (g_s g) /\ orphans (g_s g1) = orphans (g_s g)) as [Ec1 Eo1] by by rewrite Es1.
  assert (g_db g1 = g_db g) as Ed by exact Ed1. clear Es1 Ed1.
  destruct r1; [|by intros [= <- _]; left]. destruct (_ <=? _); [by intros [= <- _]; left|].
  unfold on_sink. rewrite Ed. destruct (EnsureCall parseULID parse_time cs (g_db g)) as [d [[existed marks]|e]] eqn:Ee;
    [|by intros [= <- _]; left].
  set (fresh := {| cl_start := cs |}). set (gA := match _ with Some _ => g1 <| g_db := d |> | None => _ end).
  set (gR := if existed then _ else adopt_acked (gs_CallID cs) marks gA). intros E. right.
  assert (sn_calls (g_s gR) = sn_calls (g_s (adopt_acked (gs_CallID cs) marks gA)) /\
    orphans (g_s gR) = orphans (g_s g)) as [Ec Eo].
  { assert (orphans (g_s gA) = orphans (g_s g)) as EA by (unfold gA; cbn; by destruct (sn_calls (g_s g1) !! _)).
    unfold gR. destruct existed; cbn; by rewrite adopt_acked_orphans, EA. }
  rewrite Eo in E. set (gB := if (0 <? _)%nat then _ else gR) in E.
  destruct (store_all _ _ _ _ _ gB) as [gC rC] eqn:Est.
  exists fresh, d, existed, marks, gA, gB, gC, rC. split_and!; try done.
  - unfold gA. cbn. rewrite Ec1. by destruct (sn_calls (g_s g) !! _).
  - unfold gB. by destruct (0 <? _)%nat.
  - by destruct rC as [[]|]; injection E as <- <-.
  - by destruct rC as [[]|]; injection E as <- <-.
Qed.

Lemma OnCallStart_other iter cs now g g' r :
  gs_CallID cs <> cid -> OnCallStart tenant formatULID parseULID parse_time iter cs now g = (g', r) -> keeps g g'.
Proof.
  intros Hne [E|(fresh & d & existed & marks & gA & gB & gC & rC & _ & _ & EA & EB & Est & _ & ->)]%OnCallStart_cases;
    [by apply keeps_calls|].
  apply store_all_other in Est; [|done].
  assert (keeps g gA) as KA.
  { unfold keeps, channel_of. rewrite EA. destruct (sn_calls (g_s g) !! gs_CallID cs); [done|]. by rewrite lookup_insert_ne. }
  assert (keeps g gC) as KC.
  { etrans; [exact KA|]. etrans; [by apply (adopt_acked_other (gs_CallID cs) marks)|]. etrans; [by apply keeps_calls|exact Est]. }
  destruct rC; [|done]. etrans; [exact KC|apply emitDueAcks_keeps].
Qed.

Lemma OnCallStart_opens iter cs now g g' :
  gs_CallID cs = cid -> sn_calls (g_s g) !! cid = None -> is_Some (sn_calls (g_s g') !! cid) ->
  let base := acknowledged_before (g_db g) in
  let held := numbers (default [] (orphans (g_s g) !! cid)).*1 in
  (forall b, base = Some b -> 0 <= b < u32_max) -> (forall q, q ∈ held -> 0 <= q < u32_max) ->
  OnCallStart tenant formatULID parseULID parse_time iter cs now g = (g', Ok tt) -> watermark_of base held (chan g').
Proof.
  intros Hid Hn Ho base held Hb Hh
    [E|(fresh & d & existed & marks & gA & gB & gC & rC & Hf & He & EA & EB & Est & <- & ->)]%OnCallStart_cases.
  { rewrite E, Hn in Ho. by destruct Ho. }
  rewrite Hid in *. rewrite Hn in EA. pose proof (EnsureCall_marks _ _ _ _ _ Hid He) as Hm. fold base in Hm.
  assert (is_Some (sn_calls (g_s gA) !! cid)) as HoA by (rewrite EA, lookup_insert_eq; by eexists).
  assert (chan gA = ChannelState_new) as HcA by (unfold channel_of; rewrite EA, lookup_insert_eq; cbn; by rewrite Hf).
  destruct (adopt_acked_chan marks gA HoA) as [HoB HmB]. rewrite Hm, HcA in HmB.
  assert (keeps (adopt_acked cid marks gA) gB) as [KB OB] by by apply keeps_calls.
  assert (watermark_of base ∅ (chan gB)) as HwB.
  { rewrite HmB in KB. unfold mark in KB. destruct base as [b|]; injection KB as K1 K2 K3; specialize (Hb b) || clear Hb.
    - specialize (Hb eq_refl). split; rewrite ?K1, ?K2, ?K3; cbn; try done; try lia; try set_solver.
    - split; rewrite ?K1, ?K2, ?K3; cbn; try done; ints; try lia; set_solver. }
  destruct (fun Hb' Hh' => store_all_chan base ∅ _ gB gC (OB HoB) Hb' Hh' Est HwB) as [HoC HwC];
    [intros b Eb; by apply Hb|rewrite union_empty_l_L; exact Hh|].
  rewrite union_empty_l_L in HwC. eapply watermark_mark; [apply emitDueAcks_keeps|exact HwC].
Qed.

(** ** A session's life *)

Inductive Input := InStart (cs : GoCallStart) | InMedia (rec : GoRecord) | InEnd (ce : GoCallEnd) | InHeartbeat | InTick.

Definition take_input (iter : list (string * Z) -> list (string * Z)) (i : Input) (now : Z) (g : G) : G * result unit string :=
  match i with
  | InStart cs => OnCallStart tenant formatULID parseULID parse_time iter cs now g
  | InMedia rec => OnMedia tenant formatULID parseULID duration_string iter rec now g
  | InEnd ce => OnCallEnd parseULID parse_time iter ce now g
  | InHeartbeat => (OnHeartbeat format_time duration_string iter now g, Ok tt)
  | InTick => (Tick parseULID duration_string iter now g, Ok tt)
  end.

(** The number an input added to what the channel has stored. *)
Definition stored_by (i : Input) (r : result unit string) : gset Z :=
  match i with
  | InMedia rec =>
      if is_ok r && bool_decide (formatULID (go_CallID rec) = cid /\ go_Channel rec = ch) then {[go_Seq rec]} else ∅
  | _ => ∅
  end.

(** The channel since the call was opened on this connection: what the database had
    acknowledged then, and what has been stored since. Between inputs the stores may
    change in any way, as other connections use them. *)
Inductive history : option Z -> gset Z -> G -> Prop :=
| hi_open iter cs now g g' :
    gs_CallID cs = cid -> sn_calls (g_s g) !! cid = None ->
    OnCallStart tenant formatULID parseULID parse_time iter cs now g = (g', Ok tt) ->
    is_Some (sn_calls (g_s g') !! cid) ->
    history (acknowledged_before (g_db g)) (numbers (default [] (orphans (g_s g) !! cid)).*1) g'
| hi_input iter i now base seqs g g' r :
    history base seqs g -> (forall cs, i = InStart cs -> gs_CallID cs <> cid) ->
    take_input iter i now g = (g', r) -> history base (seqs ∪ stored_by i r) g'
| hi_world base seqs g g' : history base seqs g -> g_s g' = g_s g -> history base seqs g'.

Lemma OnMedia_chan iter rec now base seqs g g' r :
  is_Some (sn_calls (g_s g) !! cid) -> (forall b, base = Some b -> 0 <= b) ->
  (forall q, q ∈ seqs ∪ stored_by (InMedia rec) r -> 0 <= q < u32_max) ->
  OnMedia tenant formatULID parseULID duration_string iter rec now g = (g', r) -> watermark_of base seqs (chan g) ->
  is_Some (sn_calls (g_s g') !! cid) /\ watermark_of base (seqs ∪ stored_by (InMedia rec) r) (chan g').
Proof.
  intros Ho Hb Hs E Hw. unfold OnMedia in E. set (g0 := touch now g) in *.
  assert (forall g1, keeps g0 g1 -> is_Some (sn_calls (g_s g1) !! cid) /\ watermark_of base seqs (chan g1)) as Hk.
  { intros g1 [Em Eo]. split; [by apply Eo|]. by eapply watermark_mark; [exact Em|]. }
  cbn [stored_by] in *. destruct (decide (formatULID (go_CallID rec) = cid /\ go_Channel rec = ch)) as [[Ec Ech]|Hne].
  - rewrite (bool_decide_eq_true_2 _ (conj Ec Ech)), andb_true_r in *. rewrite Ec in E.
    destruct (sn_calls (g_s g0) !! cid) as [st|] eqn:Est; [|by apply eq_None_not_Some in Est; destruct Est].
    destruct (storeRecord _ _ _ _ _ _) as [g1 r1] eqn:E1.
    assert (is_ok r1 = is_ok r) as Er by (by destruct r1; injection E as <- <-). rewrite <- Er in *.
    destruct (storeRecord_chan base seqs rec g0 g1 r1 Ech Ho Hb) as [Ho1 Hw1]; [| |exact E1|exact Hw|].
    + intros Hok. rewrite Hok in Hs. apply Hs. set_solver.
    + intros q Hq. apply Hs. set_solver.
    + assert (keeps g1 g') as [Em Eo].
      { destruct r1; injection E as <- <-; [apply emitDueAcks_keeps|done]. }
      split; [by apply Eo|]. eapply watermark_mark; [exact Em|]. destruct (is_ok r1); [done|by rewrite union_empty_r_L].
  - rewrite bool_decide_eq_false_2, andb_false_r, union_empty_r_L in * by done. apply Hk.
    destruct (sn_calls (g_s g0) !! formatULID (go_CallID rec)) eqn:Est.
    + destruct (storeRecord _ _ _ _ _ _) as [g1 r1] eqn:E1. apply storeRecord_other in E1; [|intros [= ? ?]; by apply Hne].
      destruct r1; injection E as <- _; [|exact E1]. etrans; [exact E1|apply emitDueAcks_keeps].
    + injection E as <- _. etrans; [|apply expireOrphans_keeps]. by apply keeps_calls.
Qed.

Lemma OnCallEnd_keeps iter ce now g g' r : OnCallEnd parseULID parse_time iter ce now g = (g', r) -> keeps g g'.
Proof.
  unfold OnCallEnd. change (sn_calls (g_s (touch now g))) with (sn_calls (g_s g)).
  destruct (sn_calls (g_s g) !! ge_CallID ce) as [st|] eqn:Est; [|intros [= <- _]; by apply keeps_calls].
  unfold on_sink. destruct (FinishCall _ _ _ _) as [d [[]|e]]; intros [= <- _]; [|by apply keeps_calls].
  etrans; [|apply flushAcks_keeps]. unfold keeps, channel_of. cbn. destruct (decide (ge_CallID ce = cid)) as [<-|Hne].
  - rewrite lookup_insert_eq, Est. by split.
  - by rewrite lookup_insert_ne.
Qed.

(** C16: What a channel's watermark means: from the moment a connection opens a call,
    whatever it is sent then (media of any call in any order and any number of times,
    call ends, heartbeats, ticks, starts of other calls), however the stores fail and
    whatever the other connections do to them, the number the session stands ready to
    acknowledge on a channel of the call is the end of the longest unbroken run of the
    numbers it has stored on that channel, beginning after what the database had
    acknowledged when the call was opened, or at 0; it holds back exactly the stored
    numbers past the first gap; and it acknowledges nothing before there is such a run. A
    second call.start for the same call on the same connection is not covered. *)
Theorem watermark_is_the_contiguous_prefix base seqs g :
  history base seqs g ->
  (forall b, base = Some b -> 0 <= b < u32_max) -> (forall q, q ∈ seqs -> 0 <= q < u32_max) ->
  watermark_of base seqs (chan g).
Proof.
  intros Hh Hb. enough ((forall q, q ∈ seqs -> 0 <= q < u32_max) ->
    is_Some (sn_calls (g_s g) !! cid) /\ watermark_of base seqs (chan g)) as H by (intros Hs; by apply H).
  induction Hh as [iter cs now g g' Hid Hn Est Ho|iter i now base seqs g g' r _ IH Hi Eh|base seqs g g' _ IH Es]; intros Hs.
  - split; [done|]. by eapply OnCallStart_opens.
  - destruct (IH Hb) as [Ho Hw]; [intros q Hq; apply Hs; set_solver|].
    assert (forall g1, stored_by i r = ∅ -> keeps g g1 ->
      is_Some (sn_calls (g_s g1) !! cid) /\ watermark_of base (seqs ∪ stored_by i r) (chan g1)) as Hk.
    { intros g1 -> [Em Eo]. rewrite union_empty_r_L. split; [by apply Eo|]. by eapply watermark_mark; [exact Em|]. }
    destruct i as [cs|rec|ce| |]; cbn [take_input] in Eh.
    + apply Hk; [done|]. eapply OnCallStart_other; [by apply Hi|exact Eh].
    + eapply OnMedia_chan; [exact Ho|intros b E; by apply Hb|exact Hs|exact Eh|exact Hw].
    + apply Hk; [done|]. by eapply OnCallEnd_keeps.
    + injection Eh as <- <-. apply Hk; [done|]. etrans; [|by apply keeps_calls; reflexivity].
      etrans; [apply (keeps_calls g (touch now g)); done|]. apply (expireOrphans_keeps iter now).
    + injection Eh as <- <-. apply Hk; [done|]. unfold Tick. etrans; [apply (emitDueAcks_keeps iter now)|].
      etrans; [apply (expireOrphans_keeps iter now)|]. case_match; [by apply keeps_calls|done].
  - rewrite Es. by apply IH.
Qed.
End session.

(** ** A channel of a call resumed *)

Abbreviation demo_history := (history "t" demo_format demo_parse demo_time fmt_u fmt_u call_id 0).
Abbreviation demo_handle i now := (take_input "t" demo_format demo_parse demo_time fmt_u fmt_u (fun l => l) i now).

Definition demo_id : list u8 := repeat Byte.x01 16.
Definition demo_start_frame : GoCallStart := {|
  gs_CallID := call_id; gs_StartedAt := "0"; gs_UserUID := "u"; gs_DeviceID := "d"; gs_Tier := "A";
  gs_AccountRef := None; gs_DialerCallID := None; gs_Direction := "outbound"; gs_Codec := "opus"; gs_Rate := 16000 |}.
Definition demo_record (q : Z) : GoRecord := {|
  go_Channel := 0; go_Flags := {| Foreign := false; SilenceInserted := false |}; go_Seq := q; go_TimestampMS := 1000 * q;
  go_CallID := demo_id; go_Payload := [Byte.x05] |}.

(** The database has acknowledged 0 and 1; segment 5 raced ahead of the [call.start]. *)
Definition demo_resumed : G := {|
  g_s := (NewSession demo_peer demo_config 1 0) <| orphans := {[call_id := [(demo_record 5, 0)]]} |>;
  g_db := {| db_users := {["u"]};
             db_calls := {[demo_id := {| dc_user_uid := "u"; dc_started_at := 0; dc_ended_at := None; dc_end_reason := None;
                                         dc_status := "ingesting" |}]};
             db_segments := ∅; db_watermarks := {[(demo_id, 0) := 1]}; db_outbox := ∅; db_blobs := ∅;
             db_today := "2026-09-01"; db_faults := [] |};
  g_out := Outbound_empty |}.
Definition demo_opened : G := (demo_handle (InStart demo_start_frame) 1 demo_resumed).1.
(** Segment 3, a failing store for segment 2, then segment 2 again and segment 3 again. *)
Definition failing (g : G) : G := g <| g_db := (g_db g) <| db_faults := [true] |> |>.
Definition demo_after_3 : G := (demo_handle (InMedia (demo_record 3)) 2 demo_opened).1.
Definition demo_after_failure : G := (demo_handle (InMedia (demo_record 2)) 3 (failing demo_after_3)).1.
Definition demo_after_2 : G := (demo_handle (InMedia (demo_record 2)) 4 demo_after_failure).1.
Definition demo_after_all : G := (demo_handle (InMedia (demo_record 3)) 5 demo_after_2).1.

Lemma demo_turn i now base seqs seqs' g r :
  (demo_handle i now g).2 = r -> (forall cs, i = InStart cs -> gs_CallID cs <> call_id) ->
  seqs ∪ stored_by demo_format call_id 0 i r = seqs' ->
  demo_history base seqs g -> demo_history base seqs' (demo_handle i now g).1.
Proof. intros <- Hi <- Hh. eapply hi_input; [exact Hh|exact Hi|apply surjective_pairing]. Qed.

Lemma demo_open_turn base seqs :
  acknowledged_before demo_parse call_id 0 (g_db demo_resumed) = base ->
  numbers 0 (default [] (orphans (g_s demo_resumed) !! call_id)).*1 = seqs -> demo_history base seqs demo_opened.
Proof.
  intros <- <-. eapply (hi_open _ _ _ _ _ _ _ _ (fun l => l) demo_start_frame 1 demo_resumed); [reflexivity|reflexivity| |].
  - assert ((demo_handle (InStart demo_start_frame) 1 demo_resumed).2 = Ok tt) as E by (vm_compute; reflexivity).
    rewrite <- E. apply surjective_pairing.
  - vm_compute. by eexists.
Qed.

Lemma demo_history_all : demo_history (Some 1) {[5; 3; 2]} demo_after_all.
Proof.
  apply (demo_turn _ _ _ {[5; 3; 2]} _ _ (Ok tt)); [vm_compute; reflexivity|done|vm_compute; reflexivity|].
  apply (demo_turn _ _ _ {[5; 3]} _ _ (Ok tt)); [vm_compute; reflexivity|done|vm_compute; reflexivity|].
  apply (demo_turn _ _ _ {[5; 3]} _ _ (Err "store segment audio")); [vm_compute; reflexivity|done|vm_compute; reflexivity|].
  apply (hi_world _ _ _ _ _ _ _ _ _ _ demo_after_3); [|reflexivity].
  apply (demo_turn _ _ _ {[5]} _ _ (Ok tt)); [vm_compute; reflexivity|done|vm_compute; reflexivity|].
  by apply demo_open_turn; vm_compute.
Qed.

Lemma watermark_witness :
  let c := channel_of call_id 0 (g_s demo_after_all) in
  demo_history (Some 1) {[5; 3; 2]} demo_after_all /\
  watermark_of (Some 1) {[5; 3; 2]} c /\ through c = 3 /\ ahead c = {[5]}.
Proof.
  intros c. split; [exact demo_history_all|]. split; [|by vm_compute].
  eapply watermark_is_the_contiguous_prefix; [exact demo_history_all| |].
  - intros b [= <-]. vm_compute. by split.
  - intros q Hq. rewrite !elem_of_union, !elem_of_singleton in Hq. destruct Hq as [[-> | ->]| ->]; vm_compute; by split.
Defined.

(** A second [call.start] on the same connection takes the mark back to what the database
    has acknowledged and not the numbers stored since: 2 and 3 were stored, 3 is promised
    no longer, and once more sent it is stored once more. *)
Example second_start_forgets :
  let g := (demo_handle (InStart demo_start_frame) 6 demo_after_all).1 in
  through (channel_of call_id 0 (g_s demo_after_all)) = 3 /\
  through (channel_of call_id 0 (g_s g)) = 1 /\ ahead (channel_of call_id 0 (g_s g)) = {[5]}.
Proof. by vm_compute. Qed.
