(* ===== verification/Loopback.v ===== *)
(** The sign-in listener on its sockets and its clock (sentinel-agent/src/auth/loopback.rs):
    the bounded read of a request line, the bytes of the answer, the accept loop against
    its deadline. Pkce.v has the loop over request lines that arrive in time; the wait
    here is shown to be that one.

    Times are milliseconds. The operating system's answers are arguments: the port it
    binds, what arrives on each turn of the loop, what each [read] gives and how long it
    blocks. *)

From S2P Require Import Prelude Text Utf8 Pkce.

Definition DEFAULT_TIMEOUT : Z := 300 * 1000.
Definition MAX_REQUEST_LINE : nat := Z.to_nat (8 * 1024).
Definition READ_TIMEOUT : Z := 10 * 1000.
Definition ACCEPT_SLEEP : Z := 25.

Definition quote : string := str [chr 34].
Definition SUCCESS_PAGE : string :=
  "<!doctype html><meta charset=utf-8><title>Signed in</title><body style=" +:+ quote +:+
  "font:16px system-ui;padding:3rem;text-align:center" +:+ quote +:+
  "><p>Signed in to MagickVoice Sentinel.</p><p>You can close this tab.</p>".
Definition FAILURE_PAGE : string :=
  "<!doctype html><meta charset=utf-8><title>Sign-in failed</title><body style=" +:+ quote +:+
  "font:16px system-ui;padding:3rem;text-align:center" +:+ quote +:+
  "><p>Sign-in did not complete.</p><p>Close this tab and try again from the widget.</p>".

(** ** Binding *)

Record LoopbackListener := { lb_address : Z * Z * Z * Z; lb_port : Z }.
Definition LOCALHOST : Z * Z * Z * Z := (127, 0, 0, 1).

(** [bind]: what the system answers to a bind of an address and port, and to asking
    the listener for its own address. *)
Definition bind (os_bind : Z * Z * Z * Z -> Z -> result unit string) (local_port : result Z string)
    : result LoopbackListener string :=
  match os_bind LOCALHOST 0 with
  | Err e => Err e
  | Ok _ => match local_port with
            | Err e => Err e
            | Ok p => Ok {| lb_address := LOCALHOST; lb_port := p |}
            end
  end.
Definition port (l : LoopbackListener) : Z := lb_port l.

(** ** One connection *)

(** One [read] of the socket: how long it blocked, then what it gave; no bytes is the
    end of the stream. A failed read is the 10 second timeout or a broken connection. *)
Inductive ReadAnswer :=
| RdBytes (blocked : Z) (bytes : list ascii)
| RdFails (blocked : Z) (why : string).

(** [read_line] of a [BufReader] under [take(limit)]: whole buffers are appended up to
    and with the newline; the limit, or the end of the stream, ends the line. *)
Fixpoint read_line (limit : nat) (reads : list ReadAnswer) (line : list ascii)
    : Z * result (list ascii) string :=
  if (limit =? 0)%nat then (0, Ok line)
  else match reads with
  | [] => (0, Ok line)
  | RdFails blocked why :: _ => (blocked, Err why)
  | RdBytes blocked bytes :: reads' =>
      let available := take limit bytes in
      match split_once_l (chr 10) available with
      | Some (upto, _) => (blocked, Ok (line ++ upto ++ [chr 10]))
      | None =>
          if (length available =? 0)%nat then (blocked, Ok line)
          else
            let '(t, r) := read_line (limit - length available) reads' (line ++ available) in
            (blocked + t, r)
      end
  end.

(** A connection: the first of the socket calls before the read that fails, if one
    does, and what the reads give. *)
Record Conn := { cn_setup : result unit string; cn_reads : list ReadAnswer }.

Definition response_body (r : result Callback CallbackError) : string :=
  match r with
  | Ok _ => SUCCESS_PAGE
  | Err (WrongPath _) => EmptyString
  | Err _ => FAILURE_PAGE
  end.
Definition response (status body : string) : string :=
  "HTTP/1.1 " +:+ status +:+ crlf +:+
  "Content-Type: text/html; charset=utf-8" +:+ crlf +:+
  "Content-Length: " +:+ fmt_u (str_len body) +:+ crlf +:+
  "Cache-Control: no-store" +:+ crlf +:+
  "Connection: close" +:+ crlf +:+ crlf +:+ body.

(** [serve_one]: how long it took, what it wrote, what it returned; [None] panics. *)
Definition serve_conn (c : Conn) : option (Z * option string * result Callback LoopbackError) :=
  match cn_setup c with
  | Err why => Some (0, None, Err (LbIo why))
  | Ok _ =>
      let '(t, r) := read_line MAX_REQUEST_LINE (cn_reads c) [] in
      match r with
      | Err why => Some (t, None, Err (LbIo why))
      | Ok line =>
          if negb (is_utf8 (str line)) then Some (t, None, Err (LbIo "stream did not contain valid UTF-8"))
          else match request_target (str line) with
          | None => Some (t, None, Err (LbCallback Malformed))
          | Some target =>
              r ← parse_callback target;
              Some (t, Some (response (response_status r) (response_body r)), map_err LbCallback r)
          end
      end
  end.

(** ** The wait *)

(** A turn of the loop: nothing to accept, and how long the sleep really took; a
    connection; a failed accept. *)
Inductive Turn :=
| TBlock (slept : Z)
| TConn (c : Conn)
| TFails (why : string).

(** [wait_for_callback]; after the turns listed nothing arrives any more. The answers
    are what was written to the browser, the time of the return, and the result. *)
Fixpoint wait_turns (deadline now : Z) (turns : list Turn) : option (list string * Z * result Callback LoopbackError) :=
  if deadline <=? now then Some ([], now, Err LbTimedOut)
  else match turns with
  | [] => Some ([], now + ACCEPT_SLEEP * ((deadline - now + (ACCEPT_SLEEP - 1)) / ACCEPT_SLEEP), Err LbTimedOut)
  | TBlock slept :: turns' => wait_turns deadline (now + slept) turns'
  | TFails why :: _ => Some ([], now, Err (LbIo why))
  | TConn c :: turns' =>
      '(t, w, r) ← serve_conn c;
      let out := match w with Some s => [s] | None => [] end in
      match r with
      | Ok cb => Some (out, now + t, Ok cb)
      | Err (LbCallback (WrongPath _)) =>
          '(more, t', r') ← wait_turns deadline (now + t) turns'; Some (out ++ more, t', r')
      | Err e => Some (out, now + t, Err e)
      end
  end.
Definition wait_for (timeout now : Z) (set_nonblocking : result unit string) (turns : list Turn) :=
  match set_nonblocking with
  | Err why => Some ([], now, Err (LbIo why))
  | Ok _ => wait_turns (now + timeout) now turns
  end.

(** ** The wait is the one of Pkce.v, cut at the deadline *)

(** The request line of a connection, as far as the listener gets to have one. *)
Definition conn_line (c : Conn) : result string string :=
  match cn_setup c with
  | Err why => Err why
  | Ok _ =>
      match (read_line MAX_REQUEST_LINE (cn_reads c) []).2 with
      | Err why => Err why
      | Ok line => if is_utf8 (str line) then Ok (str line) else Err "stream did not contain valid UTF-8"
      end
  end.
Definition conn_event (c : Conn) : AcceptEvent :=
  match conn_line c with Ok line => Accepted line | Err why => AcceptFailed why end.
Definition conn_time (c : Conn) : Z :=
  match cn_setup c with Err _ => 0 | Ok _ => (read_line MAX_REQUEST_LINE (cn_reads c) []).1 end.

Fixpoint reached (deadline now : Z) (turns : list Turn) : list AcceptEvent :=
  if deadline <=? now then []
  else match turns with
  | [] => []
  | TBlock slept :: turns' => WouldBlock :: reached deadline (now + slept) turns'
  | TFails why :: turns' => [AcceptFailed why]
  | TConn c :: turns' => conn_event c :: reached deadline (now + conn_time c) turns'
  end.

(** What a connection is told and its outcome, by its request line. *)
Lemma serve_conn_line c :
  serve_conn c =
  match conn_line c with
  | Err why => Some (conn_time c, None, Err (LbIo why))
  | Ok line =>
      match serve_one line with
      | None => None
      | Some (status, r) =>
          Some (conn_time c,
                match status with
                | Some st => Some (response st (match r with
                    | Ok _ => SUCCESS_PAGE | Err (LbCallback (WrongPath _)) => EmptyString | Err _ => FAILURE_PAGE end))
                | None => None
                end, r)
      end
  end.
Proof.
  unfold serve_conn, conn_line, conn_time. destruct (cn_setup c); [|done].
  destruct (read_line MAX_REQUEST_LINE (cn_reads c) []) as [t [line|why]]; [|done]. cbn [snd fst].
  destruct (is_utf8 (str line)); [|done]. cbn [negb]. unfold serve_one.
  destruct (request_target (str line)) as [target|]; [|done].
  destruct (parse_callback target) as [[cb|[]]|]; reflexivity.
Qed.

(** The socket-level wait returns what the wait over request lines returns on the lines
    that arrived before the deadline: nothing of the clock and the sockets but that
    cut-off decides the sign-in. *)
Lemma wait_turns_result deadline now turns :
  (snd <$> wait_turns deadline now turns) = wait_for_callback (reached deadline now turns).
Proof.
  revert now. induction turns as [|[slept|c|why] turns IH]; intros now; cbn [wait_turns reached];
    destruct (deadline <=? now); try reflexivity; [apply IH|].
  rewrite serve_conn_line. unfold conn_event. destruct (conn_line c) as [line|why]; [|done].
  cbn [wait_for_callback]. destruct (serve_one line) as [[status r]|]; [|done]. cbn -[wait_turns].
  destruct r as [cb|[|[]|]]; try done.
  rewrite <- IH. by destruct (wait_turns deadline (now + conn_time c) turns) as [[[??]?]|].
Qed.

(** ** How long it takes *)

(** What the timeout of a read, and a sleep of 25 ms that is at most ten seconds late,
    allow. *)
Definition read_timed (a : ReadAnswer) : Prop :=
  match a with RdBytes blocked _ | RdFails blocked _ => 0 <= blocked <= READ_TIMEOUT end.
Definition turn_timed (t : Turn) : Prop :=
  match t with
  | TBlock slept => ACCEPT_SLEEP <= slept <= READ_TIMEOUT
  | TConn c => Forall read_timed (cn_reads c)
  | TFails _ => True
  end.

(** A read that does not end the line takes at least a byte off the limit. *)
Lemma read_line_time limit reads line :
  Forall read_timed reads -> 0 <= (read_line limit reads line).1 <= Z.of_nat limit * READ_TIMEOUT.
Proof.
  intros H. revert limit line. induction H as [|a reads Ha _ IH]; intros limit line; cbn [read_line].
  - destruct (limit =? 0)%nat; cbn; unfold READ_TIMEOUT; lia.
  - destruct (Nat.eqb_spec limit 0) as [->|Hl]; [cbn; lia|]. unfold read_timed, READ_TIMEOUT in *.
    destruct a as [b bytes|b why]; [|cbn; lia].
    destruct (split_once_l (chr 10) (take limit bytes)) as [[??]|]; [cbn; lia|].
    destruct (Nat.eqb_spec (length (take limit bytes)) 0); [cbn; lia|].
    specialize (IH (limit - length (take limit bytes))%nat (line ++ take limit bytes)).
    destruct (read_line _ reads _) as [t r]. cbn [fst] in *. lia.
Qed.

Definition SLOWEST_CONN : Z := Z.of_nat MAX_REQUEST_LINE * READ_TIMEOUT.

Lemma conn_time_bound c : Forall read_timed (cn_reads c) -> 0 <= conn_time c <= SLOWEST_CONN.
Proof.
  intros H. unfold conn_time, SLOWEST_CONN. destruct (cn_setup c); [by apply read_line_time|vm_compute; intuition done].
Qed.

Lemma serve_conn_time c t w r : serve_conn c = Some (t, w, r) -> t = conn_time c.
Proof.
  rewrite serve_conn_line. destruct (conn_line c) as [line|]; [|congruence].
  destruct (serve_one line) as [[??]|]; congruence.
Qed.

Lemma serve_one_fails line status e : serve_one line = Some (status, Err e) -> exists ce, e = LbCallback ce.
Proof.
  unfold serve_one. destruct (request_target line) as [target|]; [|intros [= <- <-]; by eexists].
  destruct (parse_callback target) as [[cb|ce]|]; cbn; [done| |done]. intros [= <- <-]. by eexists.
Qed.

Lemma serve_conn_not_timed_out c t w : serve_conn c <> Some (t, w, Err LbTimedOut).
Proof.
  rewrite serve_conn_line. destruct (conn_line c) as [line|]; [|congruence].
  destruct (serve_one line) as [[st r]|] eqn:E; [|congruence]. intros [= _ _ ->].
  by apply serve_one_fails in E as [ce ?].
Qed.

Lemma wait_turns_time deadline now turns out t r :
  Forall turn_timed turns -> now <= deadline + SLOWEST_CONN ->
  wait_turns deadline now turns = Some (out, t, r) ->
  t <= deadline + SLOWEST_CONN /\ (r = Err LbTimedOut -> deadline <= t).
Proof.
  assert (READ_TIMEOUT <= SLOWEST_CONN) as Hs by (vm_compute; done).
  intros H. revert now out t r. induction H as [|tn turns Ht _ IH]; intros now out t r Hn; cbn [wait_turns];
    (destruct (Z.leb_spec deadline now); [intros [= <- <- <-]; lia|]).
  - intros [= <- <- <-]. unfold ACCEPT_SLEEP, READ_TIMEOUT in *.
    pose proof (Z.mul_div_le (deadline - now + 24) 25). pose proof (Z.mul_succ_div_gt (deadline - now + 24) 25).
    change (25 - 1) with 24. lia.
  - destruct tn as [s|c|why].
    + unfold turn_timed, READ_TIMEOUT, ACCEPT_SLEEP in *. apply IH. lia.
    + destruct (serve_conn c) as [[[tc w] rc]|] eqn:Ec; [|done].
      pose proof (serve_conn_time _ _ _ _ Ec) as ->. apply conn_time_bound in Ht. cbn -[wait_turns].
      destruct rc as [cb|[|[]|]]; try (intros [= <- <- <-]; split; [lia|done]).
      * by apply serve_conn_not_timed_out in Ec.
      * destruct (wait_turns deadline (now + conn_time c) turns) as [[[o t'] r']|] eqn:E; [|done].
        intros [= <- <- <-]. apply IH in E; [done|lia].
    + intros [= <- <- <-]. split; [lia|done].
Qed.

(** ** What the browser is told *)

(** An HTTP client's reading of an answer: the status line, the headers up to the empty
    line, and a body of exactly the announced length. *)
Fixpoint header_lines (fuel : nat) (l : list ascii) : option (list string * list ascii) :=
  match fuel with
  | O => None
  | S fuel' =>
      '(line, rest) ← split_once_l (chr 13) l;
      match rest with
      | lf :: rest =>
          if negb (bool_decide (lf = chr 10)) then None
          else if (length line =? 0)%nat then Some ([], rest)
          else '(more, body) ← header_lines fuel' rest; Some (str line :: more, body)
      | [] => None
      end
  end.
Definition read_response (s : string) : option (string * string) :=
  '(lines, body) ← header_lines (length (chars s)) (chars s);
  match lines with
  | status :: headers =>
      st ← strip_prefix "HTTP/1.1 " status;
      n ← head (omap (strip_prefix "Content-Length: ") headers) ≫= parse_u u64_max;
      if len body =? n then Some (st, str body) else None
  | [] => None
  end.

Definition answers (r : result Callback LoopbackError) : list (string * string) :=
  match r with
  | Ok _ => [("200 OK", SUCCESS_PAGE)]
  | Err (LbCallback (WrongPath _)) => [("404 Not Found", EmptyString)]
  | Err (LbCallback Malformed) | Err (LbIo _) | Err LbTimedOut => []
  | Err (LbCallback _) => [("400 Bad Request", FAILURE_PAGE)]
  end.

Lemma responses_read_back :
  read_response (response "200 OK" SUCCESS_PAGE) = Some ("200 OK", SUCCESS_PAGE) /\
  read_response (response "404 Not Found" EmptyString) = Some ("404 Not Found", EmptyString) /\
  read_response (response "400 Bad Request" FAILURE_PAGE) = Some ("400 Bad Request", FAILURE_PAGE).
Proof. split; [|split]; vm_compute; reflexivity. Qed.

Lemma parse_callback_not_malformed target : parse_callback target <> Some (Err Malformed).
Proof.
  unfold parse_callback. destruct (default _ _) as [path query]. case_bool_decide; [|done]. cbn [negb].
  destruct (callback_params _ _) as [q|]; [|done]. cbn. unfold callback_of.
  destruct (q_error q), (q_code q), (q_state q); cbn; try done; by repeat case_match.
Qed.

Lemma serve_conn_answers c t w r :
  serve_conn c = Some (t, w, r) ->
  read_response <$> (match w with Some s => [s] | None => [] end) = Some <$> answers r.
Proof.
  destruct responses_read_back as (E200 & E404 & E400).
  unfold serve_conn. destruct (cn_setup c); [|by intros [= <- <- <-]].
  destruct (read_line _ _ _) as [tc [line|why]]; [|by intros [= <- <- <-]].
  destruct (negb _); [by intros [= <- <- <-]|].
  destruct (request_target (str line)) as [target|]; [|by intros [= <- <- <-]].
  destruct (parse_callback target) as [pr|] eqn:Ep; [|done]. cbn [mbind option_bind]. intros [= <- <- <-].
  destruct pr as [cb|[]]; cbn -[read_response response SUCCESS_PAGE FAILURE_PAGE];
    rewrite ?E200, ?E404, ?E400; try reflexivity.
  by apply parse_callback_not_malformed in Ep.
Qed.

(** Every connection before the last was turned away with a 404; the last is told how
    the wait ended. *)
Lemma wait_turns_answers deadline now turns out t r :
  wait_turns deadline now turns = Some (out, t, r) ->
  exists n, read_response <$> out = Some <$> (replicate n ("404 Not Found", EmptyString) ++ answers r).
Proof.
  revert now out t r. induction turns as [|[s|c|why] turns IH]; intros now out t r; cbn [wait_turns];
    (destruct (deadline <=? now); [by intros [= <- <- <-]; exists O|]).
  1,4: by intros [= <- <- <-]; exists O.
  - apply IH.
  - destruct (serve_conn c) as [[[tc w] rc]|] eqn:Ec; [|done]. apply serve_conn_answers in Ec.
    cbn -[wait_turns read_response].
    destruct rc as [cb|[|[path| | | |p d|]|]]; try (intros [= <- <- <-]; by exists O).
    destruct (wait_turns deadline (now + tc) turns) as [[[o t'] r']|] eqn:E; [|done].
    intros [= <- <- <-]. apply IH in E as [n E]. exists (S n).
    rewrite fmap_app, Ec, E. reflexivity.
Qed.

(** C31: The sign-in wait on its sockets and its clock. Whatever connects, however slowly
    and with whatever bytes, and whenever reads and accepts fail: the result is that of
    the wait over the request lines that arrived before the deadline; it is returned no
    later than one slowest connection past the deadline, and never as a timeout before
    it; the browser reads whole HTTP answers, 404 for every request that was not the
    callback, then the page that says how the wait ended. *)
Theorem sign_in_wait_correct timeout now turns out t r :
  0 <= timeout -> Forall turn_timed turns ->
  wait_for timeout now (Ok tt) turns = Some (out, t, r) ->
  wait_for_callback (reached (now + timeout) now turns) = Some r /\
  t <= now + timeout + SLOWEST_CONN /\ (r = Err LbTimedOut -> now + timeout <= t) /\
  exists n, read_response <$> out = Some <$> (replicate n ("404 Not Found", EmptyString) ++ answers r).
Proof.
  intros Ht Hall E. unfold wait_for in E.
  pose proof (wait_turns_time (now + timeout) now turns out t r Hall) as Htime.
  assert (0 <= SLOWEST_CONN) by (vm_compute; done).
  destruct Htime as [H1 H2]; [lia|done|]. rewrite <- wait_turns_result, E. repeat split; [done..|].
  by eapply wait_turns_answers.
Qed.

(** A browser that asks for its icon first and then follows the redirect, in pieces. *)
Definition browser_turns : list Turn :=
  [TBlock 25; TConn {| cn_setup := Ok tt; cn_reads := [RdBytes 3 (chars ("GET /favicon.ico HTTP/1.1" +:+ crlf))] |};
   TBlock 26;
   TConn {| cn_setup := Ok tt; cn_reads := [RdBytes 1 (chars "GET /callback?code=a");
                                             RdBytes 40 (chars ("bc&state=xyz HTTP/1.1" +:+ crlf))] |}].

Lemma sign_in_wait_witness :
  exists out, wait_for DEFAULT_TIMEOUT 0 (Ok tt) browser_turns =
                Some (out, 95, Ok {| cb_code := "abc"; cb_state := "xyz" |}) /\
  exists n, read_response <$> out =
    Some <$> (replicate n ("404 Not Found", EmptyString) ++ [("200 OK", SUCCESS_PAGE)]).
Proof.
  eexists. split; [vm_compute; reflexivity|].
  eapply (sign_in_wait_correct DEFAULT_TIMEOUT 0 browser_turns _ 95 (Ok {| cb_code := "abc"; cb_state := "xyz" |}));
    [unfold DEFAULT_TIMEOUT; lia| |vm_compute; reflexivity].
  repeat constructor; cbn; unfold ACCEPT_SLEEP, READ_TIMEOUT; lia.
Defined.

(** The read timeout is per read: a local process that sends a byte every ten seconds
    holds the listener to its last byte, twenty-two hours past a five-minute deadline. *)
Definition drip : Turn :=
  TConn {| cn_setup := Ok tt; cn_reads := replicate MAX_REQUEST_LINE (RdBytes READ_TIMEOUT ["x"%char]) |}.

Lemma slow_connection_outlasts_the_deadline :
  turn_timed drip /\
  wait_for DEFAULT_TIMEOUT 0 (Ok tt) [drip] = Some ([], SLOWEST_CONN, Err (LbCallback Malformed)) /\
  22 * 3600 * 1000 < SLOWEST_CONN - DEFAULT_TIMEOUT.
Proof.
  split; [|split; [vm_compute; reflexivity|vm_compute; reflexivity]].
  cbn. apply Forall_replicate. unfold read_timed, READ_TIMEOUT. lia.
Qed.

(** Any process of the machine can end the wait: a callback of its own is answered with
    the success page before the sign-in compares the state. *)
Example forged_callback_ends_the_wait :
  wait_for DEFAULT_TIMEOUT 0 (Ok tt)
    (TConn {| cn_setup := Ok tt;
              cn_reads := [RdBytes 0 (chars ("GET /callback?code=x&state=forged HTTP/1.1" +:+ crlf))] |}
     :: browser_turns) =
  Some ([response "200 OK" SUCCESS_PAGE], 0, Ok {| cb_code := "x"; cb_state := "forged" |}).
Proof. vm_compute. reflexivity. Qed.
