(* ===== verification/Http.v ===== *)
(** The service's HTTP client (sentinel-service/src/http.rs): the configured agent, the
    enrollment transport and the OTLP shipper, and the export thread with that shipper
    under it. The ureq crate is the [HttpPost] class, serde_json two functions. *)

From S2P Require Import Prelude Text Files DeviceKey Enroll Service Telemetry TelemetryProps.

(** ** ureq *)

Record UreqAgent := { ua_timeout_global : option Z; ua_user_agent : string }.
Record Post := { po_agent : UreqAgent; po_url : string; po_headers : list (string * string); po_body : string }.
(** A response below 400, [Error::StatusCode], any other error. *)
Inductive Answer :=
| AnBody (body : string)
| AnStatus (status : Z)
| AnFailed (why : string).
Class HttpPost (N : Type) := ureq_post : N -> Post -> N * Answer.

Definition TIMEOUT : Z := 30 * 1000.
(** [env!("CARGO_PKG_VERSION")] of the build. *)
Definition CARGO_PKG_VERSION : string := "0.1.0".
Definition agent : UreqAgent :=
  {| ua_timeout_global := Some TIMEOUT; ua_user_agent := "SentinelService/" +:+ CARGO_PKG_VERSION |}.
Definition json_headers : list (string * string) := [("Content-Type", "application/json")].

Section http.
Context {N : Type} `{!HttpPost N}.
(** serde_json on the two bodies, and [Display] of [ureq::Error]. *)
Context (request_json : EnrollRequest -> string) (response_of_json : string -> result EnrollResponse string).
Context (status_display : Z -> string).

(** ** The enrollment transport *)

Record HttpEnrollTransport := { he_agent : UreqAgent; he_net : N }.
Definition HttpEnrollTransport_new (n : N) : HttpEnrollTransport := {| he_agent := agent; he_net := n |}.

(** [send_json] sets the content type. *)
Definition enroll_request_post (t : HttpEnrollTransport) (url : string) (body : EnrollRequest) : Post :=
  {| po_agent := he_agent t; po_url := url; po_headers := json_headers; po_body := request_json body |}.
Definition http_enroll_post (t : HttpEnrollTransport) (url : string) (body : EnrollRequest)
    : HttpEnrollTransport * result EnrollResponse EnrollError :=
  let '(n, a) := ureq_post (he_net t) (enroll_request_post t url body) in
  ({| he_agent := he_agent t; he_net := n |},
   post_result match a with
               | AnBody b => UreqBody (response_of_json b)
               | AnStatus s => UreqStatus s
               | AnFailed why => UreqFailed why
               end).
#[local] Instance http_enroll_transport : EnrollTransport HttpEnrollTransport := http_enroll_post.

(** ** The OTLP shipper *)

Record HttpOtlpShipper := { sp_agent : UreqAgent; sp_url : string; sp_net : N }.
Definition HttpOtlpShipper_new (url : string) (n : N) : HttpOtlpShipper :=
  {| sp_agent := agent; sp_url := url; sp_net := n |}.
Definition endpoint (s : HttpOtlpShipper) : string := sp_url s.

Definition otlp_post (s : HttpOtlpShipper) (payload : string) : Post :=
  {| po_agent := sp_agent s; po_url := sp_url s; po_headers := json_headers; po_body := payload |}.
Definition ship (payload : string) (s : HttpOtlpShipper) : HttpOtlpShipper * result unit string :=
  let '(n, a) := ureq_post (sp_net s) (otlp_post s payload) in
  ({| sp_agent := sp_agent s; sp_url := sp_url s; sp_net := n |},
   match a with
   | AnBody _ => Ok tt
   | AnStatus z => Err (status_display z)
   | AnFailed why => Err why
   end).

(** ** The export thread over it *)

Context {Fl : Type} (to_vec : Json Fl -> string) (resource : Resource).
Abbreviation Exporter := (Exporter Fl).

(** [flush] and [export_loop]'s turn with the shipper called. *)
Definition flush_http (now : Z) (s : HttpOtlpShipper) (x : Exporter) : HttpOtlpShipper * Exporter :=
  let x := if ex_reported_drops x <? ex_dropped x then
      x <| ex_batch := ex_batch x ++ [drop_report now (ex_dropped x - ex_reported_drops x)] |>
        <| ex_reported_drops := ex_dropped x |>
    else x in
  match ex_batch x with
  | [] => (s, x)
  | batch =>
      let payload := to_vec (encode_value resource batch) in
      let x := x <| ex_batch := [] |> in
      let '(s, r) := ship payload s in
      let ok := match r with Ok _ => true | Err _ => false end in
      (s, x <| ex_posts := ex_posts x ++ [(batch, ok)] |> <| ex_endpoint_failing := negb ok |>)
  end.
Definition http_turn (now : Z) (s : HttpOtlpShipper) (x : Exporter) : HttpOtlpShipper * Exporter * bool :=
  let '(x, r) := recv x in
  match r with
  | RecvOk r =>
      let x := x <| ex_batch := ex_batch x ++ [r] |> in
      if (length (ex_batch x) <? MAX_BATCH)%nat then (s, x, false) else (flush_http now s x, false)
  | RecvTimeout => (flush_http now s x, false)
  | RecvDisconnected => (flush_http now s x, true)
  end.
End http.

(** ** The thread over HTTP is the one of Telemetry.v *)

(** A network that remembers what was posted to it. *)
Record Seen (N : Type) := { se_net : N; se_log : list Post }.
Arguments se_net {N}.
Arguments se_log {N}.
#[export] Instance Seen_Ureq {N} `{!HttpPost N} : HttpPost (Seen N) := fun n p =>
  let '(m, a) := ureq_post (se_net n) p in ({| se_net := m; se_log := se_log n ++ [p] |}, a).

Section export.
Context {N : Type} `{!HttpPost N} (status_display : Z -> string) {Fl : Type} (to_vec : Json Fl -> string)
  (resource : Resource) (url : string).
Abbreviation Shipper := (HttpOtlpShipper (N := Seen N)).
Abbreviation Exporter := (Exporter Fl).

(** The steps of Telemetry.v, the shipper's answer in place of the step's. *)
Definition http_step (w : Shipper * Exporter) (st : TelStep (Fl := Fl)) : Shipper * Exporter :=
  match st with
  | Turn now _ => (http_turn status_display to_vec resource now w.1 w.2).1
  | st => (w.1, tel_step w.2 st)
  end.
Definition http_run (n : Seen N) (l : list TelStep) : Shipper * Exporter :=
  fold_left http_step l (HttpOtlpShipper_new url n, Exporter_new).

(** The steps with the answers the network gave. *)
Definition same_steps (l l' : list (TelStep (Fl := Fl))) : Prop :=
  Forall2 (fun a b => a = b \/ exists now ok ok', a = Turn now ok /\ b = Turn now ok') l l'.

Definition batch_post (b : list (TelRecord Fl)) : Post :=
  {| po_agent := agent; po_url := url; po_headers := json_headers;
     po_body := to_vec (encode_value resource b) |}.

(** The shipper is the configured one and has posted the batches shipped, in order. *)
Record http_ok (n0 : Seen N) (w : Shipper * Exporter) : Prop := {
  ho_agent : sp_agent w.1 = agent;
  ho_url : sp_url w.1 = url;
  ho_log : se_log (sp_net w.1) = se_log n0 ++ (batch_post <$> ex_shipped w.2);
}.

Lemma flush_http_flush n0 now s x :
  http_ok n0 (s, x) ->
  exists ok, (flush_http status_display to_vec resource now s x).2 = flush now ok x /\
    http_ok n0 (flush_http status_display to_vec resource now s x).
Proof.
  intros [Ha Hu Hl]. unfold flush_http, flush. cbn in Ha, Hu, Hl.
  set (y := if ex_reported_drops x <? ex_dropped x then _ else x).
  assert (ex_shipped y = ex_shipped x) as Hs by (unfold y; by destruct (_ <? _)).
  destruct (ex_batch y) as [|b bs] eqn:Eb; [exists true; split; [done|]; split; cbn; [done..|by rewrite Hs]|].
  unfold ship, ureq_post, Seen_Ureq. cbn.
  destruct (ureq_post (se_net (sp_net s)) _) as [m a].
  exists (match a with AnBody _ => true | _ => false end). cbn. split; [by destruct a|].
  split; cbn; [done..|]. unfold ex_shipped in *. cbn. rewrite Hl, fmap_app, fmap_app, Hs, app_assoc. do 2 f_equal.
  unfold otlp_post, batch_post. cbn. by rewrite Ha, Hu.
Qed.

Lemma http_ok_same n0 s x x' : ex_shipped x' = ex_shipped x -> http_ok n0 (s, x) -> http_ok n0 (s, x').
Proof. intros E [Ha Hu Hl]. split; cbn in *; by rewrite ?E. Qed.

Lemma http_turn_turn n0 now s x :
  http_ok n0 (s, x) ->
  exists ok, http_turn status_display to_vec resource now s x =
               ((http_turn status_display to_vec resource now s x).1.1, (export_turn now ok x).1,
                (export_turn now ok x).2) /\
    http_ok n0 (http_turn status_display to_vec resource now s x).1.
Proof.
  intros H. unfold http_turn, export_turn, recv.
  assert (forall y (b : bool), ex_shipped y = ex_shipped x -> exists ok,
    (flush_http status_display to_vec resource now s y, b) =
    ((flush_http status_display to_vec resource now s y).1, (flush now ok y, b).1, (flush now ok y, b).2) /\
    http_ok n0 (flush_http status_display to_vec resource now s y)) as Hf.
  { intros y b E. destruct (flush_http_flush n0 now s y) as (ok & E' & Hok); [by eapply http_ok_same|].
    exists ok. split; [|done]. rewrite <- E'. by destruct (flush_http _ _ _ _ _ _). }
  destruct (ex_queue x) as [|r q].
  - destruct (_ || _); by apply Hf.
  - cbn [fst snd]. destruct (_ <? _)%nat.
    + exists true. split; [done|]. by eapply http_ok_same; [|exact H].
    + by apply Hf.
Qed.

Lemma http_run_is_tel_run n l :
  exists l', same_steps l l' /\ (http_run n l).2 = tel_run l' /\ http_ok n (http_run n l).
Proof.
  unfold http_run, tel_run.
  enough (forall w, http_ok n w -> exists l', same_steps l l' /\
    (fold_left http_step l w).2 = fold_left tel_step l' w.2 /\ http_ok n (fold_left http_step l w)) as H.
  { apply H. split; cbn; [done..|]. by rewrite app_nil_r. }
  induction l as [|st l IH]; intros [s x] Hw; cbn [fold_left].
  { exists []. by split; [constructor|]. }
  assert (exists st', (st = st' \/ exists now ok ok', st = Turn now ok /\ st' = Turn now ok') /\
    (http_step (s, x) st).2 = tel_step x st' /\ http_ok n (http_step (s, x) st)) as (st' & Hst & E & Hok).
  { destruct st as [e|now ok| |].
    - exists (Emit e). split; [by left|]. split; [done|]. eapply http_ok_same; [|exact Hw]. cbn.
      unfold on_event. destruct (event_record e); [|done]. by destruct (_ <? _)%nat.
    - destruct (http_turn_turn n now s x Hw) as (ok' & E & Hok). exists (Turn now ok').
      split; [right; by repeat eexists|]. cbn [http_step tel_step fst snd]. split; [by rewrite E|done].
    - exists StopHandle. split; [by left|]. split; [done|]. by eapply http_ok_same; [|exact Hw].
    - exists DropLayer. split; [by left|]. split; [done|]. by eapply http_ok_same; [|exact Hw]. }
  destruct (IH _ Hok) as (l' & Hs & E' & Hok'). exists (st' :: l'). split; [by constructor|].
  split; [|done]. cbn [fold_left]. by rewrite E', E.
Qed.
End export.
