(* ===== verification/GatewayEnroll.v ===== *)
(** Enrollment on the gateway (server/gateway/internal/api/enroll.go, ca/ca.go, the token
    and device queries of store/admin.go with the SQL functions of
    db/migrations/0005_bootstrap_functions.up.sql).

    A handler is a sequence of three actions, the atomic statements of the database
    and the signing between them, so that handlers can be interleaved. Times are
    milliseconds. PEM, X.509, SHA-256, the random source, [Time.AddDate] and JSON are
    parameters; any statement of the database can fail. *)

From S2P Require Import Prelude Text Files DeviceKey Enroll.

(** ** ca.go *)

Definition DAY : Z := 24 * 3600 * 1000.
Definition RenewalLeadTime : Z := 30 * DAY.
Definition MinValidity : Z := RenewalLeadTime + 30 * DAY.
Definition MaxValidity : Z := 456 * DAY.

Inductive Curve := P224 | P256 | P384 | P521 | OtherCurve.
Inductive PublicKey :=
| PkEcdsa (c : Curve)
| PkRsa (bits exponent : Z)
| PkEd25519 (size : Z)
| PkNil
| PkOther.

Definition checkKeyStrength (k : PublicKey) : result unit string :=
  match k with
  | PkEcdsa (P256 | P384 | P521) => Ok tt
  | PkEcdsa _ => Err "elliptic curve is not permitted"
  | PkRsa bits e =>
      if bits <? 2048 then Err "RSA key is below the 2048-bit floor"
      else if (e <? 65537) || (e mod 2 =? 0) then Err "RSA public exponent is not permitted"
      else Ok tt
  | PkEd25519 size => if negb (size =? 32) then Err "malformed Ed25519 key" else Ok tt
  | PkNil => Err "no public key"
  | PkOther => Err "unsupported public key type"
  end.

(** The intermediate as far as signing reads it; the template of a device certificate. *)
Record FileCA := { ca_cert_NotAfter : Z; ca_chainPEM : string }.
Record CertTemplate := {
  ct_SerialNumber : Z; ct_CommonName : string; ct_OrganizationalUnit : string;
  ct_NotBefore : Z; ct_NotAfter : Z; ct_IsCA : bool; ct_clientAuth_only : bool;
}.

Definition checkValidityWindow (c : FileCA) (now notAfter : Z) : result unit string :=
  let validity := notAfter - now in
  if validity <? MinValidity then Err "refusing to issue: shorter than the renewal loop allows"
  else if MaxValidity <? validity then Err "refusing to issue: over the cap"
  else if ca_cert_NotAfter c <? notAfter then Err "refusing to issue: outlives the intermediate"
  else if ca_cert_NotAfter c <? now then Err "the issuing intermediate expired"
  else Ok tt.

(** ** The tables *)

(** The columns enrollment reads or writes. *)
Record TokenRow := { tk_tenant_id : string; tk_expires_at : Z; tk_consumed_at : option Z }.
Record DeviceRow := {
  dv_id : string; dv_hw_fingerprint : string; dv_cert_fingerprint : string; dv_cert_not_after : Z;
  dv_os_build : string; dv_capture_tier : string; dv_agent_version : string; dv_status : string;
}.
(** [enrollment_tokens] by hash, [devices] by tenant and machine; the draws of
    [gen_random_uuid] so far; what the next statements do ([true] fails). *)
Record EnrollDb := {
  eb_tokens : gmap string TokenRow;
  eb_devices : gmap (string * string) DeviceRow;
  eb_uuids : nat;
  eb_faults : list bool;
}.
#[export] Instance EnrollDb_rebuild : Rebuild EnrollDb := fun r =>
  {| eb_tokens := eb_tokens r; eb_devices := eb_devices r; eb_uuids := eb_uuids r; eb_faults := eb_faults r |}.

Definition eb_fault (d : EnrollDb) : bool * EnrollDb :=
  match eb_faults d with [] => (false, d) | f :: fs => (f, d <| eb_faults := fs |>) end.

Inductive PgError := ErrNoRows | ErrScanNull | ErrDatabase | ErrTokenUnusable.

(** [sentinel_consume_enrollment_token]: a scalar SQL function, null when the update
    touched no row. *)
Definition consume_sql (hash : string) (now : Z) (d : EnrollDb) : EnrollDb * option string :=
  match eb_tokens d !! hash with
  | Some t =>
      if bool_decide (tk_consumed_at t = None) && (now <? tk_expires_at t) then
        (d <| eb_tokens := <[hash := {| tk_tenant_id := tk_tenant_id t; tk_expires_at := tk_expires_at t;
                                        tk_consumed_at := Some now |}]> (eb_tokens d) |>, Some (tk_tenant_id t))
      else (d, None)
  | None => (d, None)
  end.
(** [QueryRow(...).Scan(&text)] on the rows of a query of one column. *)
Definition scan_text (rows : list (option string)) : result string PgError :=
  match rows with
  | [] => Err ErrNoRows
  | None :: _ => Err ErrScanNull
  | Some t :: _ => Ok t
  end.

(** [sentinel_register_device]: the fingerprint is unique over all rows. *)
Definition register_sql (uuid : nat -> string) (tenant guid : string) (row : string -> DeviceRow) (d : EnrollDb)
    : EnrollDb * option string :=
  let fp := dv_cert_fingerprint (row "") in
  if bool_decide (map_Exists (fun k r => k <> (tenant, guid) /\ dv_cert_fingerprint r = fp) (eb_devices d)) then (d, None)
  else
    let '(id, n) := match eb_devices d !! (tenant, guid) with
                    | Some old => (dv_id old, eb_uuids d)
                    | None => (uuid (eb_uuids d), S (eb_uuids d))
                    end in
    (d <| eb_devices := <[(tenant, guid) := row id]> (eb_devices d) |> <| eb_uuids := n |>, Some id).

Section enroll.
(** [HashEnrollmentToken]; [pem.Decode] as block type and bytes; [x509] parsing; hex of
    SHA-256; [CreateCertificate] with [pem.EncodeToMemory]; [gen_random_uuid];
    [AddDate(1, 0, 0)]. *)
Context (HashEnrollmentToken : string -> string) (pem_Decode : string -> option (string * list u8)).
Context {Csr : Type} (ParseCertificateRequest : list u8 -> option Csr) (CheckSignature : Csr -> bool)
  (csr_PublicKey : Csr -> PublicKey).
Context (ParseCertificate : list u8 -> bool) (sha256_hex : list u8 -> string).
Context (CreateCertificate : CertTemplate -> PublicKey -> option string).
Context (uuid : nat -> string) (AddYear : Z -> Z).
(** [Decode(&body)] and the two renderings of the answer. *)
Context (decode_body : string -> option EnrollRequest) (format_time : Z -> string).

Definition ConsumeEnrollmentToken (token : string) (now : Z) (d : EnrollDb) : EnrollDb * result string PgError :=
  let '(fails, d) := eb_fault d in
  if fails then (d, Err ErrDatabase)
  else
    let '(d, v) := consume_sql (HashEnrollmentToken token) now d in
    (d, match scan_text [v] with
        | Err ErrNoRows => Err ErrTokenUnusable
        | r => r
        end).

Definition RegisterDevice (tenant guid : string) (row : string -> DeviceRow) (d : EnrollDb)
    : EnrollDb * result string PgError :=
  let '(fails, d) := eb_fault d in
  if fails then (d, Err ErrDatabase)
  else
    let '(d', v) := register_sql uuid tenant guid row d in
    match v with
    | None => (d, Err ErrDatabase)
    | Some id => (d', scan_text [Some id])
    end.

(** [FileCA.Sign]; [serial] is what the random source gave. *)
Definition Sign (c : FileCA) (csr : Csr) (tenantID deviceID : string) (notAfter now : Z) (serial : option Z)
    : result (string * string) string :=
  if str_is_empty tenantID || str_is_empty deviceID then Err "refusing to sign a certificate with no tenant or device"
  else match csr_PublicKey csr with
  | PkNil => Err "certificate request carries no public key"
  | key =>
      match checkKeyStrength key with
      | Err e => Err e
      | Ok _ =>
          match checkValidityWindow c now notAfter with
          | Err e => Err e
          | Ok _ =>
              match serial with
              | None => Err "random"
              | Some n =>
                  match CreateCertificate {| ct_SerialNumber := n; ct_CommonName := deviceID;
                          ct_OrganizationalUnit := tenantID; ct_NotBefore := now - 5 * 60 * 1000;
                          ct_NotAfter := notAfter; ct_IsCA := false; ct_clientAuth_only := true |} key with
                  | None => Err "sign device certificate"
                  | Some certPEM => Ok (certPEM, ca_chainPEM c)
                  end
              end
          end
      end
  end.

Definition parseAndVerifyCSR (pemStr : string) : result Csr string :=
  match pem_Decode pemStr with
  | Some (ty, bytes) =>
      if negb (bool_decide (ty = "CERTIFICATE REQUEST")) then Err "expected a PKCS#10 CERTIFICATE REQUEST block"
      else match ParseCertificateRequest bytes with
      | None => Err "could not parse the certificate request"
      | Some csr =>
          if negb (CheckSignature csr) then Err "certificate request signature does not verify"
          else match csr_PublicKey csr with
               | PkEcdsa _ => Ok csr
               | _ => Err "device keys must be ECDSA P-256"
               end
      end
  | None => Err "expected a PKCS#10 CERTIFICATE REQUEST block"
  end.

Definition fingerprintOfPEM (certPEM : string) : result string string :=
  match pem_Decode certPEM with
  | None => Err "issued certificate is not valid PEM"
  | Some (_, der) => if ParseCertificate der then Ok (sha256_hex der) else Err "parse"
  end.

(** ** enroll.go: the handler *)

(** The answer: a status from 400 up, or 201 with the body. *)
Inductive HttpAnswer := Refused (status : Z) | Created (body : EnrollResponse).

Inductive Handler :=
| HArrived (body : string)
| HSpent (rq : EnrollRequest) (csr : Csr) (tenantID : string) (now : Z)
| HSigned (rq : EnrollRequest) (tenantID certPEM chainPEM fingerprint : string) (notAfter : Z)
| HDone (answer : HttpAnswer).

(** What an action takes from outside: the clock and the two random draws. *)
Record Outside := { ou_now : Z; ou_deviceID : string; ou_serial : option Z }.

Definition required (rq : EnrollRequest) : bool :=
  negb (str_is_empty (er_enrollment_token rq) || str_is_empty (er_csr_pem rq) ||
        str_is_empty (er_machine_guid rq) || str_is_empty (er_hw_fingerprint rq)).

(** Up to and with the token. *)
Definition arrive (CA : option FileCA) (o : Outside) (body : string) (d : EnrollDb) : EnrollDb * Handler :=
  let refuse s := (d, HDone (Refused s)) in
  match CA with
  | None => refuse 503
  | Some _ =>
      match decode_body body with
      | None => refuse 400
      | Some rq =>
          if negb (required rq) then refuse 400
          else if negb (bool_decide (er_capture_tier rq = "A") || bool_decide (er_capture_tier rq = "B")) then refuse 400
          else match parseAndVerifyCSR (er_csr_pem rq) with
          | Err _ => refuse 400
          | Ok csr =>
              let '(d, r) := ConsumeEnrollmentToken (er_enrollment_token rq) (ou_now o) d in
              (d, match r with
                  | Err ErrTokenUnusable => HDone (Refused 401)
                  | Err _ => HDone (Refused 500)
                  | Ok tenantID => HSpent rq csr tenantID (ou_now o)
                  end)
          end
      end
  end.

(** Signing, and the fingerprint of what was signed. *)
Definition sign_device (CA : option FileCA) (o : Outside) (rq : EnrollRequest) (csr : Csr) (tenantID : string) (now : Z)
    : Handler :=
  match CA with
  | None => HDone (Refused 500)
  | Some c =>
      let notAfter := AddYear now in
      match Sign c csr tenantID (ou_deviceID o) notAfter (ou_now o) (ou_serial o) with
      | Err _ => HDone (Refused 500)
      | Ok (certPEM, chainPEM) =>
          match fingerprintOfPEM certPEM with
          | Err _ => HDone (Refused 500)
          | Ok fingerprint => HSigned rq tenantID certPEM chainPEM fingerprint notAfter
          end
      end
  end.

Definition device_row (rq : EnrollRequest) (fingerprint : string) (notAfter : Z) (id : string) : DeviceRow := {|
  dv_id := id; dv_hw_fingerprint := er_hw_fingerprint rq; dv_cert_fingerprint := fingerprint;
  dv_cert_not_after := notAfter; dv_os_build := er_os_build rq; dv_capture_tier := er_capture_tier rq;
  dv_agent_version := er_agent_version rq; dv_status := "active" |}.

Definition register_device (rq : EnrollRequest) (tenantID certPEM chainPEM fingerprint : string) (notAfter : Z)
    (d : EnrollDb) : EnrollDb * Handler :=
  let '(d, r) := RegisterDevice tenantID (er_machine_guid rq) (device_row rq fingerprint notAfter) d in
  (d, HDone match r with
            | Err _ => Refused 500
            | Ok realID => Created {| rs_device_id := realID; rs_certificate_pem := certPEM;
                                      rs_ca_chain_pem := chainPEM; rs_not_after := format_time notAfter |}
            end).

Definition handler_step (CA : option FileCA) (o : Outside) (h : Handler) (d : EnrollDb) : EnrollDb * Handler :=
  match h with
  | HArrived body => arrive CA o body d
  | HSpent rq csr tenantID now => (d, sign_device CA o rq csr tenantID now)
  | HSigned rq tenantID certPEM chainPEM fingerprint notAfter =>
      register_device rq tenantID certPEM chainPEM fingerprint notAfter d
  | HDone a => (d, HDone a)
  end.

(** [enrollDevice] with nobody in between. *)
Definition enrollDevice (CA : option FileCA) (o : Outside) (body : string) (d : EnrollDb) : EnrollDb * HttpAnswer :=
  let '(d, h) := handler_step CA o (HArrived body) d in
  let '(d, h) := handler_step CA o h d in
  let '(d, h) := handler_step CA o h d in
  (d, match h with HDone a => a | _ => Refused 500 end).
End enroll.
