(* ===== verification/EnrollExchange.v ===== *)
(** The service's enrollment and the gateway's, together: what a token buys however
    requests interleave, and what a machine that counts as enrolled can rely on. *)

From S2P Require Import Prelude Text Files DeviceKey Csr ConfigSync SpoolKey Enroll EnrollProps Service Http GatewayEnroll.

Section exchange.
Context (HashEnrollmentToken : string -> string) (pem_Decode : string -> option (string * list u8)).
Context {Csr : Type} (ParseCertificateRequest : list u8 -> option Csr) (CheckSignature : Csr -> bool)
  (csr_PublicKey : Csr -> PublicKey).
Context (ParseCertificate : list u8 -> bool) (sha256_hex : list u8 -> string).
Context (CreateCertificate : CertTemplate -> PublicKey -> option string).
Context (uuid : nat -> string) (AddYear : Z -> Z).
Context (decode_body : string -> option EnrollRequest) (format_time : Z -> string).

Abbreviation Handler := (Handler (Csr := Csr)).
Abbreviation handler_step := (handler_step HashEnrollmentToken pem_Decode ParseCertificateRequest CheckSignature
  csr_PublicKey ParseCertificate sha256_hex CreateCertificate uuid AddYear decode_body format_time).
Abbreviation enrollDevice := (enrollDevice HashEnrollmentToken pem_Decode ParseCertificateRequest CheckSignature
  csr_PublicKey ParseCertificate sha256_hex CreateCertificate uuid AddYear decode_body format_time).
Abbreviation arrive := (arrive HashEnrollmentToken pem_Decode ParseCertificateRequest CheckSignature
  csr_PublicKey decode_body).
Abbreviation sign_device := (sign_device pem_Decode csr_PublicKey ParseCertificate sha256_hex CreateCertificate AddYear).

(** ** Any number of requests at once *)

(** The gateway, the handlers under way, and the certificates signed so far with the
    hash of the token each was signed for. *)
Record EnrollSys := { es_db : EnrollDb; es_handlers : list Handler; es_signed : list (string * string) }.

Definition hash_of (rq : EnrollRequest) : string := HashEnrollmentToken (er_enrollment_token rq).
(** The token a handler has spent and not yet signed for. *)
Definition spent_by (h : Handler) : option string :=
  match h with HSpent rq _ _ _ => Some (hash_of rq) | _ => None end.
Definition signed_in (h h' : Handler) : list (string * string) :=
  match h, h' with
  | HSpent rq _ _ _, HSigned _ _ certPEM _ _ _ => [(hash_of rq, certPEM)]
  | _, _ => []
  end.

(** A request arrives; a handler takes its next action; a handler goes away with its
    connection or the process; the portal mints a token. *)
Inductive es_step : EnrollSys -> EnrollSys -> Prop :=
| ESArrive d hs l body : es_step (Build_EnrollSys d hs l) (Build_EnrollSys d (hs ++ [HArrived body]) l)
| ESAct CA o d d' pre h h' post l :
    handler_step CA o h d = (d', h') ->
    es_step (Build_EnrollSys d (pre ++ h :: post) l) (Build_EnrollSys d' (pre ++ h' :: post) (l ++ signed_in h h'))
| ESGone d pre h post l : es_step (Build_EnrollSys d (pre ++ h :: post) l) (Build_EnrollSys d (pre ++ post) l)
| ESMint d hs l hash tenant expires :
    eb_tokens d !! hash = None ->
    es_step (Build_EnrollSys d hs l)
      (Build_EnrollSys (d <| eb_tokens := <[hash := {| tk_tenant_id := tenant; tk_expires_at := expires;
                                                       tk_consumed_at := None |}]> (eb_tokens d) |>) hs l).
Inductive es_run (d0 : EnrollDb) : EnrollSys -> Prop :=
| ESStart : es_run d0 (Build_EnrollSys d0 [] [])
| ESNext s s' : es_run d0 s -> es_step s s' -> es_run d0 s'.

Definition spent (d : EnrollDb) (hash : string) : Prop :=
  exists t at_, eb_tokens d !! hash = Some t /\ tk_consumed_at t = Some at_.
(** Tokens whose spending is behind a certificate, or a handler about to sign. *)
Definition claimed (s : EnrollSys) : list string := (es_signed s).*1 ++ omap spent_by (es_handlers s).
Record es_ok (s : EnrollSys) : Prop := {
  eo_once : NoDup (claimed s);
  eo_spent : Forall (spent (es_db s)) (claimed s);
}.

Lemma eb_fault_tokens d f d' : eb_fault d = (f, d') -> eb_tokens d' = eb_tokens d.
Proof. unfold eb_fault. destruct (eb_faults d); by intros [= <- <-]. Qed.

(** Consuming succeeds on a token nobody had spent, and spends it. *)
Lemma ConsumeEnrollmentToken_spec token now d d' r :
  ConsumeEnrollmentToken HashEnrollmentToken token now d = (d', r) ->
  (forall h, spent d h -> spent d' h) /\ r <> Err ErrTokenUnusable /\
  (forall tenant, r = Ok tenant ->
     ~ spent d (HashEnrollmentToken token) /\
     exists t, eb_tokens d !! HashEnrollmentToken token = Some t /\ tk_tenant_id t = tenant /\
       now < tk_expires_at t /\
       eb_tokens d' !! HashEnrollmentToken token = Some {| tk_tenant_id := tenant;
         tk_expires_at := tk_expires_at t; tk_consumed_at := Some now |}).
Proof.
  unfold ConsumeEnrollmentToken. destruct (eb_fault d) as [f d1] eqn:Ef. apply eb_fault_tokens in Ef.
  assert (forall h, spent d h <-> spent d1 h) as Hs by (intros; unfold spent; by rewrite Ef).
  destruct f; [intros [= <- <-]; split; [by intros; apply Hs|done]|].
  unfold consume_sql. destruct (eb_tokens d1 !! HashEnrollmentToken token) as [t|] eqn:Et;
    [|intros [= <- <-]; split; [by intros; apply Hs|done]].
  case_bool_decide as Hc; [destruct (Z.ltb_spec now (tk_expires_at t)); cbn [andb]|];
    intros [= <- <-]; (split; [|split; [done|]]); try (by intros; apply Hs); try done.
  - intros h (t' & at_ & Ht & Ha). rewrite <- Ef in Ht. unfold spent. cbn.
    destruct (decide (h = HashEnrollmentToken token)) as [->|]; [rewrite lookup_insert_eq; by repeat eexists|].
    rewrite lookup_insert_ne by done. by exists t', at_.
  - intros tenant [= <-]. rewrite Ef in Et. split.
    + intros (t' & at_ & Ht & Ha). rewrite Et in Ht. simplify_eq.
    + exists t. cbn. by rewrite lookup_insert_eq.
Qed.

Lemma RegisterDevice_tokens tenant guid row d d' r :
  RegisterDevice uuid tenant guid row d = (d', r) -> eb_tokens d' = eb_tokens d.
Proof.
  unfold RegisterDevice. destruct (eb_fault d) as [f d1] eqn:Ef. apply eb_fault_tokens in Ef.
  destruct f; [by intros [= <- <-]|]. unfold register_sql. case_bool_decide; [by intros [= <- <-]|].
  destruct (eb_devices d1 !! _); intros [= <- <-]; done.
Qed.

(** What an action does to the claims: the arrival that spends a token adds one that
    was not there; signing moves one to the certificates; nothing else adds any. *)
Lemma handler_step_claims CA o h d d' h' :
  handler_step CA o h d = (d', h') ->
  (forall x, spent d x -> spent d' x) /\
  (spent_by h = None -> signed_in h h' = [] /\ forall x, spent_by h' = Some x -> ~ spent d x /\ spent d' x) /\
  (forall x, spent_by h = Some x -> spent_by h' = None /\ forall p, p ∈ signed_in h h' -> signed_in h h' = [p] /\ p.1 = x).
Proof.
  destruct h as [body|rq csr tenant now|rq tenant cert chain fp na|a]; cbn [GatewayEnroll.handler_step spent_by].
  - unfold GatewayEnroll.arrive. intros H. split; [|split; [|done]].
    + repeat case_match; simplify_eq; try done.
      all: by eapply ConsumeEnrollmentToken_spec.
    + intros _. split; [done|]. intros x Hx.
      destruct CA; [|by simplify_eq]. destruct (decode_body body) as [rq|]; [|by simplify_eq].
      destruct (negb (required rq)); [by simplify_eq|]. destruct (negb (_ || _)); [by simplify_eq|].
      destruct (parseAndVerifyCSR _ _ _ _ _) as [csr|]; [|by simplify_eq].
      destruct (ConsumeEnrollmentToken _ _ _ d) as [d1 r] eqn:E. apply ConsumeEnrollmentToken_spec in E as (_ & _ & E).
      injection H as <- <-. destruct r as [tenant|[]]; try done. cbn in Hx. injection Hx as <-.
      destruct (E tenant eq_refl) as (Hn & t & _ & _ & _ & Ht). split; [done|]. by eexists _, _.
  - intros [= <- <-]. split; [done|]. split; [done|]. intros x [= <-]. unfold GatewayEnroll.sign_device.
    destruct CA as [c|]; [|by split; [|intros p ?%elem_of_nil]].
    destruct (Sign _ _ _ _ _ _ _ _ _) as [[cert chain]|]; [|by split; [|intros p ?%elem_of_nil]].
    destruct (fingerprintOfPEM _ _ _ _); [|by split; [|intros p ?%elem_of_nil]].
    split; [done|]. intros p ->%list_elem_of_singleton. done.
  - unfold register_device. destruct (RegisterDevice _ _ _ _ d) as [d1 r] eqn:E.
    apply RegisterDevice_tokens in E. intros [= <- <-]. unfold spent. rewrite E. repeat split; done.
  - intros [= <- <-]. repeat split; done.
Qed.

Lemma spent_mint d hash tenant expires x :
  eb_tokens d !! hash = None -> spent d x ->
  spent (d <| eb_tokens := <[hash := {| tk_tenant_id := tenant; tk_expires_at := expires;
                                       tk_consumed_at := None |}]> (eb_tokens d) |>) x.
Proof.
  intros Hn (t & at_ & Ht & Ha). exists t, at_. split; [|done]. cbn.
  rewrite lookup_insert_ne; [done|]. intros ->. congruence.
Qed.

(** The claims of a system, with one handler's set apart. *)
Lemma claimed_split d pre h post l :
  claimed (Build_EnrollSys d (pre ++ h :: post) l) ≡ₚ
  option_list (spent_by h) ++ (l.*1 ++ omap spent_by pre ++ omap spent_by post).
Proof.
  unfold claimed. cbn. rewrite omap_app. cbn. destruct (spent_by h) as [x|]; cbn; [|done]. solve_Permutation.
Qed.

Lemma es_ok_perm s s' :
  (forall x, spent (es_db s) x -> spent (es_db s') x) -> claimed s' ⊆+ claimed s -> es_ok s -> es_ok s'.
Proof.
  intros Hm Hsub [H1 H2]. split.
  - apply submseteq_Permutation in Hsub as [k Hk]. rewrite Hk in H1. by apply NoDup_app in H1 as [? _].
  - apply Forall_forall. intros x Hx. apply Hm, (proj1 (Forall_forall _ _) H2). by eapply elem_of_submseteq.
Qed.

Lemma es_act_ok CA o d d' pre h h' post l :
  handler_step CA o h d = (d', h') ->
  es_ok (Build_EnrollSys d (pre ++ h :: post) l) ->
  es_ok (Build_EnrollSys d' (pre ++ h' :: post) (l ++ signed_in h h')).
Proof.
  intros (Hm & Hnone & Hsome)%handler_step_claims Hok.
  destruct (spent_by h) as [x|] eqn:Eh.
  - destruct (Hsome x eq_refl) as [E' Hp]. refine (es_ok_perm _ _ _ _ Hok); [exact Hm|].
    rewrite !claimed_split, Eh, E', fmap_app. cbn [option_list app].
    destruct (signed_in h h') as [|p ps] eqn:Es; cbn; [rewrite app_nil_r; by apply submseteq_cons|].
    destruct (Hp p) as [Heq <-]; [left|]. injection Heq as ->. cbn. apply Permutation_submseteq. solve_Permutation.
  - destruct (Hnone eq_refl) as [-> Hnew]. rewrite app_nil_r.
    destruct (spent_by h') as [x|] eqn:Eh'.
    + destruct (Hnew x eq_refl) as [Hns Hsp]. destruct Hok as [H1 H2]. rewrite claimed_split, Eh in H1, H2.
      cbn [option_list app] in H1, H2. split; rewrite claimed_split, Eh'; cbn [option_list app].
      * constructor; [|done]. intros Hin. by apply Hns, (proj1 (Forall_forall _ _) H2).
      * constructor; [done|]. eapply Forall_impl; [exact H2|exact Hm].
    + refine (es_ok_perm _ _ _ _ Hok); [exact Hm|]. by rewrite !claimed_split, Eh, Eh'.
Qed.

Lemma es_step_ok s s' : es_step s s' -> es_ok s -> es_ok s'.
Proof.
  intros [d hs l body|CA o d d' pre h h' post l E|d pre h post l|d hs l hash tenant expires Hn].
  - apply es_ok_perm; [done|]. unfold claimed. cbn. rewrite omap_app. cbn. by rewrite app_nil_r.
  - by apply es_act_ok with CA o.
  - apply es_ok_perm; [done|]. rewrite claimed_split. unfold claimed. cbn. rewrite omap_app.
    apply submseteq_inserts_l. done.
  - apply es_ok_perm; [|done]. intros x. by apply spent_mint.
Qed.

Lemma es_run_ok d0 s : es_run d0 s -> es_ok s.
Proof. induction 1 as [|s s' _ IH Hs]; [by split; constructor|by eapply es_step_ok]. Qed.

(** C17: A single-use token buys at most one device certificate, however many requests
    present it, however their handlers interleave, and whatever fails: no two
    certificates were signed for the same token, and the token behind each is marked
    consumed. *)
Theorem token_buys_one_certificate d0 s :
  es_run d0 s -> NoDup (es_signed s).*1 /\ Forall (spent (es_db s)) (es_signed s).*1.
Proof.
  intros [H1 H2]%es_run_ok. unfold claimed in *. apply NoDup_app in H1 as [H1 _].
  apply Forall_app in H2 as [H2 _]. done.
Qed.

(** No request is ever told that its token is unusable: the SQL function answers null,
    which the query reports as an error of its own. *)
Theorem unusable_token_is_not_401 CA o body d : (enrollDevice CA o body d).2 <> Refused 401.
Proof.
  unfold GatewayEnroll.enrollDevice. cbn [GatewayEnroll.handler_step].
  destruct (arrive CA o body d) as [d1 h1] eqn:Ea.
  assert (h1 <> HDone (Refused 401)) as H1.
  { revert Ea. unfold GatewayEnroll.arrive. destruct CA; [|congruence]. destruct (decode_body body); [|congruence].
    destruct (negb (required _)); [congruence|]. destruct (negb (_ || _)); [congruence|].
    destruct (parseAndVerifyCSR _ _ _ _ _); [|congruence].
    destruct (ConsumeEnrollmentToken _ _ _ d) as [d2 r] eqn:E. apply ConsumeEnrollmentToken_spec in E as (_ & Hr & _).
    intros [= <- <-]. destruct r as [|[]]; congruence. }
  destruct h1 as [b|rq csr tenant now|rq tenant cert chain fp na|a]; cbn [GatewayEnroll.handler_step].
  - exfalso. revert Ea. unfold GatewayEnroll.arrive. intros Ea. repeat case_match; simplify_eq.
  - destruct (sign_device CA o rq csr tenant now) as [| |rq' te ce ch fp na|a] eqn:Es; cbn [GatewayEnroll.handler_step].
    1,2: exfalso; revert Es; unfold GatewayEnroll.sign_device; repeat case_match; congruence.
    + unfold register_device. by destruct (RegisterDevice _ _ _ _ d1) as [d2 [|]].
    + revert Es. unfold GatewayEnroll.sign_device. repeat case_match; try congruence; by intros [= <-].
  - exfalso. revert Ea. unfold GatewayEnroll.arrive. intros Ea. repeat case_match; simplify_eq.
  - cbn. congruence.
Qed.

(** ** The service's request over a network *)

(** What becomes of a request: it never arrives, its answer is lost, or neither. *)
Inductive Fate := RequestLost (why : string) | AnswerLost (why : string) | Delivered.
(** The gateway as the service's HTTP client sees it; the fate of each request to come
    and what the gateway takes from outside while it handles it. *)
Record GwNet := { gn_db : EnrollDb; gn_CA : option FileCA; gn_next : list (Fate * Outside) }.

Context (request_json : EnrollRequest -> string) (answer_json : EnrollResponse -> string)
  (response_of_json : string -> result EnrollResponse string).

Definition gw_post (n : GwNet) (p : Post) : GwNet * Answer :=
  match gn_next n with
  | [] => (n, AnFailed "unreachable")
  | (fate, o) :: rest =>
      let '(d, a) := match fate with
                     | RequestLost _ => (gn_db n, Refused 0)
                     | _ => enrollDevice (gn_CA n) o (po_body p) (gn_db n)
                     end in
      ({| gn_db := d; gn_CA := gn_CA n; gn_next := rest |},
       match fate with
       | RequestLost why | AnswerLost why => AnFailed why
       | Delivered => match a with Refused s => AnStatus s | Created b => AnBody (answer_json b) end
       end)
  end.
#[local] Instance gw_ureq : HttpPost GwNet := gw_post.
#[local] Instance gw_transport : EnrollTransport (HttpEnrollTransport (N := GwNet)) :=
  http_enroll_post request_json response_of_json.

(** A certificate that was handed out: its row, its fingerprint and its token. *)
Definition registered (o : Outside) (rq : EnrollRequest) (d : EnrollDb) (b : EnrollResponse) : Prop :=
  exists tenant row ty der t,
    eb_devices d !! (tenant, er_machine_guid rq) = Some row /\
    dv_id row = rs_device_id b /\ dv_status row = "active" /\ dv_capture_tier row = er_capture_tier rq /\
    format_time (dv_cert_not_after row) = rs_not_after b /\ MinValidity <= dv_cert_not_after row - ou_now o /\
    pem_Decode (rs_certificate_pem b) = Some (ty, der) /\ sha256_hex der = dv_cert_fingerprint row /\
    eb_tokens d !! hash_of rq = Some t /\ tk_tenant_id t = tenant /\
    tk_consumed_at t = Some (ou_now o) /\ ou_now o < tk_expires_at t.

Lemma RegisterDevice_Ok tenant guid row d d' id :
  RegisterDevice uuid tenant guid row d = (d', Ok id) -> eb_devices d' !! (tenant, guid) = Some (row id).
Proof.
  unfold RegisterDevice. destruct (eb_fault d) as [[|] d1]; [done|]. unfold register_sql.
  case_bool_decide; [done|]. destruct (eb_devices d1 !! _); intros [= <- <-]; cbn; by rewrite lookup_insert_eq.
Qed.

Lemma Sign_Ok c csr tenant did na now serial cert chain :
  Sign csr_PublicKey CreateCertificate c csr tenant did na now serial = Ok (cert, chain) -> MinValidity <= na - now.
Proof.
  unfold Sign. destruct (_ || _); [done|]. intros H.
  assert (is_Some (res_ok (checkValidityWindow c now na))) as Hv.
  { destruct (checkValidityWindow c now na); [by eexists|]. exfalso. by repeat case_match. }
  unfold checkValidityWindow in Hv. destruct (Z.ltb_spec (na - now) MinValidity); [by destruct Hv|done].
Qed.

(** What a 201 means. *)
Lemma enrollDevice_Created CA o body d d' b :
  enrollDevice CA o body d = (d', Created b) -> exists rq, decode_body body = Some rq /\ registered o rq d' b.
Proof.
  unfold GatewayEnroll.enrollDevice. cbn [GatewayEnroll.handler_step]. unfold GatewayEnroll.arrive.
  destruct CA as [c|]; [|done]. destruct (decode_body body) as [rq|]; [|done].
  destruct (negb (required rq)); [done|]. destruct (negb (_ || _)); [done|].
  destruct (parseAndVerifyCSR _ _ _ _ _) as [csr|]; [|done].
  destruct (ConsumeEnrollmentToken _ _ _ d) as [d1 r] eqn:Ec. apply ConsumeEnrollmentToken_spec in Ec as (_ & _ & Ec).
  destruct r as [tenant|[]]; [|done..]. destruct (Ec tenant eq_refl) as (_ & t & _ & _ & Hexp & Ht).
  cbn [GatewayEnroll.handler_step]. unfold GatewayEnroll.sign_device.
  destruct (Sign _ _ _ _ _ _ _ _ _) as [[cert chain]|] eqn:Es; [|done]. apply Sign_Ok in Es.
  unfold fingerprintOfPEM. destruct (pem_Decode cert) as [[ty der]|] eqn:Ed; [|done].
  destruct (ParseCertificate der); [|done]. cbn [GatewayEnroll.handler_step]. unfold register_device.
  destruct (RegisterDevice _ _ _ _ d1) as [d2 r] eqn:Er. pose proof (RegisterDevice_tokens _ _ _ _ _ _ Er) as Htk.
  destruct r as [id|]; [|done]. apply RegisterDevice_Ok in Er. intros [= <- <-]. exists rq. split; [done|].
  exists tenant, (device_row rq (sha256_hex der) (AddYear (ou_now o)) id), ty, der.
  exists {| tk_tenant_id := tenant; tk_expires_at := tk_expires_at t; tk_consumed_at := Some (ou_now o) |}.
  cbn. rewrite Er, Htk, Ed. unfold hash_of. rewrite Ht. by split_and!.
Qed.

Context (decode_request : forall rq, decode_body (request_json rq) = Some rq)
  (decode_answer : forall b, response_of_json (answer_json b) = Ok b).

(** What the service's transport hands back was issued by the gateway, in this request. *)
Lemma gw_post_Ok (t t' : HttpEnrollTransport) url rq b :
  enroll_post t url rq = (t', Ok b) -> exists o, registered o rq (gn_db (he_net t')) b.
Proof.
  unfold enroll_post, gw_transport, http_enroll_post, ureq_post, gw_ureq, gw_post.
  destruct (gn_next (he_net t)) as [|[fate o] rest]; [done|]. cbn [po_body enroll_request_post].
  destruct fate as [why|why|]; cbn.
  - done.
  - by destruct (enrollDevice _ _ _ _).
  - destruct (enrollDevice (gn_CA (he_net t)) o (request_json rq) (gn_db (he_net t))) as [d a] eqn:E.
    destruct a as [s|b']; cbn.
    + intros [= <- H]. exfalso. revert H. clear. unfold post_result. repeat case_match; done.
    + rewrite decode_answer. intros [= <- <-]. apply enrollDevice_Created in E as (rq' & Hd & Hr).
      rewrite decode_request in Hd. injection Hd as <-. by exists o.
Qed.

Context {K R W : Type} `{!DeviceKey K} `{!OsRng R} `{!KeyWrapper W} `{!FileJson DeviceIdentity}
  `{!FileJsonLaws DeviceIdentity}.
Context (b64 : list u8 -> string) (rfc3339_ms : string -> option Z) (display : EnrollError -> string).
Abbreviation Env := (Env K (HttpEnrollTransport (N := GwNet)) R).
Context (time_reads_back : forall t, rfc3339_ms (trim (format_time t)) = Some t).

(** C10: The two sides of an enrollment agree. When the service reports a machine as newly
    enrolled, over a network that may have lost anything else, the gateway has an active
    row for that machine under the device id the service recorded, of the tenant whose
    token was presented and is now consumed; the certificate on the machine's disk is
    the one whose fingerprint the row has, so the gateway will know it; and the
    certificate runs long enough that no check of the next thirty days asks for another.
    (The token goes out trimmed, by the check and again by the exchange.) *)
Theorem enrolled_machine_is_registered api facts now token (w : W) (e e' : Env) id na renewed kk :
  ensure_enrolled b64 rfc3339_ms display api facts now token w e = (e', Some (EnrolledNow id na renewed kk)) ->
  exists o tenant row t cert ty der,
    let d := gn_db (he_net (e_transport e')) in
    eb_devices d !! (tenant, mf_machine_guid facts) = Some row /\ dv_id row = id /\ dv_status row = "active" /\
    files (e_disk e') !! CERT_FILE = Some cert /\ pem_Decode cert = Some (ty, der) /\
    sha256_hex der = dv_cert_fingerprint row /\
    (exists token', token = Some token' /\ eb_tokens d !! HashEnrollmentToken (trim (trim token')) = Some t) /\
    tk_tenant_id t = tenant /\ tk_consumed_at t = Some (ou_now o) /\
    (faults (e_disk e') = [] -> forall now', now' < ou_now o + 30 * DAY ->
       ensure_enrolled b64 rfc3339_ms display api facts now' token w e' = (e', Some (AlreadyEnrolled id na))).
Proof.
  intros H. apply ensure_enrolls in H as [(_ & _ & _ & H)|(tk & tier & k & csr & r0 & Htk & _ & _ & _ & Hx & Ho)];
    [by destruct (H id na renewed kk)|].
  destruct r0 as [out|x]; [|done]. injection Ho as -> -> -> ->.
  apply exchange_spec in Hx as (Htr & _ & Hx). cbn [e_transport e_disk e_rng e_key] in Htr, Hx.
  set (post := enroll_post _ _ _) in Htr, Hx. destruct post as [t' [b|x]] eqn:Ep; cbn [fst snd] in Htr, Hx;
    [|by destruct Hx]. subst post. apply gw_post_Ok in Ep as (o & Hreg). rewrite <- Htr in Hreg.
  destruct Hx as (ep & [idn|x] & Hp & Hx); [|by destruct Hx]. destruct Hx as (Honly & Hout & _).
  apply persist_spec in Hp as (_ & _ & _ & Hc & _ & Hid & Hna & _ & Hi). rewrite Hout.
  rewrite <- (Honly CERT_FILE) in Hc by not_in. rewrite <- (Honly IDENTITY_FILE) in Hi by not_in.
  destruct Hreg as (tenant & row & ty & der & t & Hrow & Hdid & Hact & _ & Hfmt & Hval & Hpem & Hfp & Ht & Hten & Hcon & _).
  exists o, tenant, row, t, (rs_certificate_pem b), ty, der. cbn zeta.
  assert (exists token', token = Some token' /\ tk = trim token') as (token' & -> & ->).
  { unfold the_token in Htk. destruct token as [token'|]; [|done]. cbn in Htk.
    destruct (str_is_empty (trim token')); [done|]. exists token'. by simplify_eq. }
  split_and!; try done; [congruence|by eexists|].
  intros Hf now' Hn. apply load_identity_stored in Hi as Hload; [|done].
  unfold ensure_enrolled. rewrite Hload. cbn [res_ok default from_option id mbind option_bind].
  unfold renewal_decision, not_after_ms. rewrite Hna, <- Hfmt, time_reads_back. unfold needs_renewal.
  destruct (Z.leb_spec (dv_cert_not_after row - now') RENEW_WHEN_REMAINING_MS) as [Hle|_].
  { exfalso. unfold MinValidity, RenewalLeadTime, DAY, RENEW_WHEN_REMAINING_MS in *. lia. }
  cbn. destruct e'; done.
  Unshelve. all: exact rfc3339_ms.
Qed.
End exchange.
