(* ===== verification/EnrollRuns.v ===== *)
(** Enrollments on concrete inputs: parameters that meet the hypotheses of
    EnrollExchange.v, a machine that enrolls, a race for one token, and a lost answer. *)

From S2P Require Import Prelude Text Files DeviceKey Csr Update ConfigSync SpoolKey Enroll EnrollProps Service.
From S2P Require Import Http GatewayEnroll EnrollExchange Coded.

(** ** Parameters *)

Definition demo_hash (token : string) : string := "sha256:" +:+ token.
Definition demo_bytes (s : string) : list u8 := (fun a => z2b (code a)) <$> chars s.
Definition demo_pem (s : string) : option (string * list u8) :=
  if starts_with "-----BEGIN CERTIFICATE REQUEST-----" s then Some ("CERTIFICATE REQUEST", demo_bytes s)
  else if starts_with "-----BEGIN CERTIFICATE-----" s then Some ("CERTIFICATE", demo_bytes s)
  else None.
Definition demo_csr_of (b : list u8) : option (list u8) := Some b.
Definition demo_key_of (_ : list u8) : PublicKey := PkEcdsa P256.
Definition demo_create (t : CertTemplate) (_ : PublicKey) : option string :=
  Some ("-----BEGIN CERTIFICATE-----" +:+ fmt_u (ct_SerialNumber t) +:+ "-----END CERTIFICATE-----").
Definition demo_uuid (n : nat) : string := "device-" +:+ fmt_u (Z.of_nat n).
Definition demo_year (t : Z) : Z := t + 365 * DAY.
Definition demo_request_json (r : EnrollRequest) : string :=
  text (er_enrollment_token r, er_csr_pem r, er_machine_guid r, er_hw_fingerprint r, er_os_build r,
        er_capture_tier r, er_agent_version r).
Definition demo_request_of (s : string) : option EnrollRequest :=
  '(a, b, c, d, f, g, h) ← untext (A := string * string * string * string * string * string * string) s;
  Some {| er_enrollment_token := a; er_csr_pem := b; er_machine_guid := c; er_hw_fingerprint := d;
          er_os_build := f; er_capture_tier := g; er_agent_version := h |}.
Definition demo_answer_json (r : EnrollResponse) : string :=
  text (rs_device_id r, rs_certificate_pem r, rs_ca_chain_pem r, rs_not_after r).
Definition demo_answer_of (s : string) : result EnrollResponse string :=
  match untext (A := string * string * string * string) s with
  | Some (a, b, c, d) => Ok {| rs_device_id := a; rs_certificate_pem := b; rs_ca_chain_pem := c; rs_not_after := d |}
  | None => Err "json"
  end.

Lemma demo_request_reads_back r : demo_request_of (demo_request_json r) = Some r.
Proof. unfold demo_request_of, demo_request_json. rewrite untext_text. by destruct r. Qed.
Lemma demo_answer_reads_back r : demo_answer_of (demo_answer_json r) = Ok r.
Proof. unfold demo_answer_of, demo_answer_json. rewrite untext_text. by destruct r. Qed.
Lemma demo_time_reads_back (t : Z) : untext (trim (text t)) = Some t.
Proof. by rewrite trim_text, untext_text. Qed.

Definition demo_CA : option FileCA := Some {| ca_cert_NotAfter := 10000 * DAY; ca_chainPEM := "chain" |}.
Definition demo_db (faults : list bool) : EnrollDb := {|
  eb_tokens := {[demo_hash "token" := {| tk_tenant_id := "acme"; tk_expires_at := 1000000; tk_consumed_at := None |}]};
  eb_devices := ∅; eb_uuids := 0; eb_faults := faults |}.
Definition demo_outside (now serial : Z) : Outside :=
  {| ou_now := now; ou_deviceID := "f00d"; ou_serial := Some serial |}.

Abbreviation DemoNet := (HttpEnrollTransport (N := GwNet)).
#[local] Instance demo_gw_ureq : HttpPost GwNet :=
  gw_post demo_hash demo_pem demo_csr_of (fun _ => true) demo_key_of (fun _ => true)
    String.string_of_list_byte demo_create demo_uuid demo_year demo_request_of text demo_answer_json.
#[local] Instance demo_gw_transport : EnrollTransport DemoNet :=
  http_enroll_post demo_request_json demo_answer_of.

Definition demo_machine (next : list (Fate * Outside)) : Env unit DemoNet Z :=
  {| e_disk := {| files := ∅; faults := [] |}; e_rng := 7; e_key := tt;
     e_transport := HttpEnrollTransport_new {| gn_db := demo_db []; gn_CA := demo_CA; gn_next := next |} |}.
Definition demo_display (e : EnrollError) : string :=
  match e with
  | Unreachable _ => "unreachable"
  | TokenUnusable => "token unusable"
  | EnrollRejected s _ => "rejected " +:+ fmt_u s
  | _ => "failed"
  end.
Definition demo_check (now : Z) (e : Env unit DemoNet Z) :=
  ensure_enrolled demo.b64 (untext (A := Z)) demo_display "https://gw" demo.facts now (Some " token ") demo.wrapper e.

(** ** A machine enrolls *)

Definition demo_enrolled : Env unit DemoNet Z * option EnsureOutcome :=
  Eval vm_compute in demo_check 5000 (demo_machine [(Delivered, demo_outside 6000 77)]).

Lemma enrolled_machine_is_registered_witness :
  demo_check 5000 (demo_machine [(Delivered, demo_outside 6000 77)]) =
    (demo_enrolled.1, Some (EnrolledNow "device-0" (text (6000 + 365 * DAY)) false Cng)) /\
  exists tenant row,
    eb_devices (gn_db (he_net (e_transport demo_enrolled.1))) !! (tenant, mf_machine_guid demo.facts) = Some row /\
    dv_id row = "device-0".
Proof.
  assert (H : demo_check 5000 (demo_machine [(Delivered, demo_outside 6000 77)]) =
    (demo_enrolled.1, Some (EnrolledNow "device-0" (text (6000 + 365 * DAY)) false Cng)))
    by (vm_compute; reflexivity).
  split; [exact H|].
  destruct (enrolled_machine_is_registered demo_hash demo_pem demo_csr_of (fun _ => true) demo_key_of
    (fun _ => true) String.string_of_list_byte demo_create demo_uuid demo_year demo_request_of text
    demo_request_json demo_answer_json demo_answer_of demo_request_reads_back demo_answer_reads_back
    demo.b64 (untext (A := Z)) demo_display demo_time_reads_back "https://gw" demo.facts 5000 (Some " token ")
    demo.wrapper _ _ _ _ _ _ H) as (o & tenant & row & t & cert & ty & der & Hrow & Hid & _).
  exists tenant, row. exact (conj Hrow Hid).
Defined.

(** ** A lost answer *)

(** The answer to the first request is lost: the service reports the gateway as
    unreachable, the gateway has an active device and a spent token, and the next check,
    with the same token, is refused as an internal error rather than as a used token. *)
Example lost_answer_spends_the_token :
  let '(e1, o1) := demo_check 5000 (demo_machine [(AnswerLost "timeout", demo_outside 6000 77);
                                                  (Delivered, demo_outside 9000 78)]) in
  let '(e2, o2) := demo_check 8000 e1 in
  o1 = Some (EnrollFailed "unreachable") /\ files (e_disk e1) = ∅ /\
  dv_status <$> eb_devices (gn_db (he_net (e_transport e1))) !! ("acme", mf_machine_guid demo.facts) = Some "active" /\
  o2 = Some (EnrollFailed "rejected 500").
Proof. vm_compute. done. Qed.

(** ** A race *)

Definition demo_body : string :=
  Eval vm_compute in demo_request_json (enroll_request "token" "-----BEGIN CERTIFICATE REQUEST-----x" "A" demo.facts).

Abbreviation demo_sys := (EnrollSys (Csr := list u8)).
Abbreviation demo_run := (es_run demo_hash demo_pem demo_csr_of (fun _ => true) demo_key_of (fun _ => true)
  String.string_of_list_byte demo_create demo_uuid demo_year demo_request_of text (demo_db [])).
Definition demo_act (i : nat) (now serial : Z) (s : demo_sys) : demo_sys :=
  match es_handlers s !! i with
  | Some h =>
      let '(d, h') := handler_step demo_hash demo_pem demo_csr_of (fun _ => true) demo_key_of (fun _ => true)
        String.string_of_list_byte demo_create demo_uuid demo_year demo_request_of text demo_CA
        (demo_outside now serial) h (es_db s) in
      Build_EnrollSys d (<[i := h']> (es_handlers s)) (es_signed s ++ signed_in demo_hash h h')
  | None => s
  end.
Definition demo_request (s : demo_sys) : demo_sys :=
  Build_EnrollSys (es_db s) (es_handlers s ++ [HArrived demo_body]) (es_signed s).

Lemma demo_act_run i now serial s : demo_run s -> demo_run (demo_act i now serial s).
Proof.
  intros Hs. unfold demo_act. destruct (es_handlers s !! i) as [h|] eqn:Hi; [|done].
  destruct (handler_step _ _ _ _ _ _ _ _ _ _ _ _ _ _ _ _) as [d h'] eqn:E.
  eapply ESNext; [exact Hs|]. destruct s as [d0 hs l]. cbn in *.
  pose proof (take_drop_middle _ _ _ Hi) as Hm. rewrite <- Hm at 1.
  rewrite insert_take_drop by (by eapply lookup_lt_Some). eapply ESAct. exact E.
Qed.
Lemma demo_request_run s : demo_run s -> demo_run (demo_request s).
Proof. intros Hs. eapply ESNext; [exact Hs|]. destruct s. constructor. Qed.

(** Two requests with one token, their actions interleaved. *)
Definition demo_race : demo_sys :=
  demo_act 1 8 5 (demo_act 0 7 4 (demo_act 1 6 3 (demo_act 0 5 2 (demo_act 1 4 1
    (demo_request (demo_request (Build_EnrollSys (demo_db []) [] []))))))).

Lemma token_buys_one_certificate_witness :
  es_signed demo_race = [(demo_hash "token", "-----BEGIN CERTIFICATE-----3-----END CERTIFICATE-----")] /\
  (NoDup (es_signed demo_race).*1 /\ Forall (spent (es_db demo_race)) (es_signed demo_race).*1).
Proof.
  split; [vm_compute; reflexivity|].
  apply (token_buys_one_certificate demo_hash demo_pem demo_csr_of (fun _ => true) demo_key_of (fun _ => true)
    String.string_of_list_byte demo_create demo_uuid demo_year demo_request_of text (demo_db [])).
  unfold demo_race. repeat first [apply demo_act_run | apply demo_request_run]. constructor.
Defined.
