(* ===== verification/LocalHeap.v ===== *)
(** Buffers Windows allocates for the programs and the programs must give back: with
    [LocalFree], DPAPI's output blobs around the refresh token
    (sentinel-agent/src/auth/store.rs) and the spool key (sentinel-service/src/spoolkey.rs),
    and the pipe's security descriptor (sentinel-service/src/windows/pipe.rs); with
    [CredFree], the credential [CredReadW] returns (store.rs).

    The heap is a map from addresses to bytes for each of the two, and remembers what each
    block held when it was freed; DPAPI's results are those of Desktop.v's and Main.v's classes, of which the
    functions here are shown to be the implementation. *)

From stdpp Require Import fin_sets infinite.
From S2P Require Import Prelude Text Utf8 Auth Ipc SpoolKey Desktop Main.

Record LocalHeap := {
  lh_blocks : gmap Z (list u8); lh_freed : list (list u8);
  lh_creds : gmap Z (list u8); lh_cred_freed : list (list u8);
}.
#[export] Instance LocalHeap_rebuild : Rebuild LocalHeap := fun h =>
  {| lh_blocks := lh_blocks h; lh_freed := lh_freed h; lh_creds := lh_creds h; lh_cred_freed := lh_cred_freed h |}.
Definition new_address (h : LocalHeap) : Z := stdpp.base.fresh (dom (lh_blocks h) ∪ dom (lh_creds h) ∪ {[0]}).

(** [LocalAlloc] inside an API call: an address that is not null and not in use. *)
Definition LocalAlloc (bytes : list u8) (h : LocalHeap) : LocalHeap * Z :=
  let a := new_address h in (h <| lh_blocks := <[a := bytes]> (lh_blocks h) |>, a).
Definition LocalFree (a : Z) (h : LocalHeap) : LocalHeap :=
  match lh_blocks h !! a with
  | Some bytes => h <| lh_blocks := delete a (lh_blocks h) |> <| lh_freed := lh_freed h ++ [bytes] |>
  | None => h
  end.
(** [ptr::write_bytes(a, 0, n)] *)
Definition write_zeros (a : Z) (n : nat) (h : LocalHeap) : LocalHeap :=
  h <| lh_blocks := alter (fun b => replicate n Byte.x00 ++ drop n b) a (lh_blocks h) |>.

(** The [CREDENTIALW] of [CredReadW], of which the program reads [CredentialBlob], and
    [CredFree]. *)
Definition cred_alloc (blob : list u8) (h : LocalHeap) : LocalHeap * Z :=
  let a := new_address h in (h <| lh_creds := <[a := blob]> (lh_creds h) |>, a).
Definition CredentialBlob (ptr : Z) (h : LocalHeap) : list u8 := default [] (lh_creds h !! ptr).
Definition CredFree (ptr : Z) (h : LocalHeap) : LocalHeap :=
  match lh_creds h !! ptr with
  | Some blob => h <| lh_creds := delete ptr (lh_creds h) |> <| lh_cred_freed := lh_cred_freed h ++ [blob] |>
  | None => h
  end.

(** [CRYPT_INTEGER_BLOB]; [DpapiBlob] and [OwnedBlob] wrap one. *)
Record Blob := { pbData : Z; cbData : nat }.
Definition Blob_default : Blob := {| pbData := 0; cbData := 0 |}.

Definition as_slice (b : Blob) (h : LocalHeap) : list u8 :=
  if pbData b =? 0 then [] else take (cbData b) (default [] (lh_blocks h !! pbData b)).
Definition to_vec (b : Blob) (h : LocalHeap) : list u8 :=
  if (pbData b =? 0) || (cbData b =? 0)%nat then [] else take (cbData b) (default [] (lh_blocks h !! pbData b)).
Definition drop_blob (b : Blob) (h : LocalHeap) : LocalHeap :=
  if pbData b =? 0 then h else LocalFree (pbData b) (write_zeros (pbData b) (cbData b) h).

(** A DPAPI call that answers [r]: on success the output blob is a fresh block. *)
Definition crypt_call (r : result (list u8) string) (h : LocalHeap) : LocalHeap * result Blob string :=
  match r with
  | Err e => (h, Err e)
  | Ok bytes => let '(h, a) := LocalAlloc bytes h in (h, Ok {| pbData := a; cbData := length bytes |})
  end.

Section vault.
Context {W : Type} `{!CredVault W}.

Definition protect_heap (w : W) (plain : list u8) (h : LocalHeap) : LocalHeap * result Blob StoreError :=
  let '(h, r) := crypt_call (CryptProtectData w plain) h in (h, map_err SePlatform r).
Definition unprotect_heap (w : W) (wrapped : list u8) (h : LocalHeap) : LocalHeap * result Blob StoreError :=
  let '(h, r) := crypt_call (CryptUnprotectData w wrapped) h in (h, map_err (fun _ => SeCorrupt) r).

Definition save_heap (w : W) (token : string) (h : LocalHeap) : LocalHeap * (W * result unit StoreError) :=
  let '(h, r) := protect_heap w (as_bytes token) h in
  match r with
  | Err e => (h, (w, Err e))
  | Ok wrapped =>
      let '(w, r) := CredWriteW w CREDENTIAL_TARGET (as_slice wrapped h) in
      (drop_blob wrapped h, (w, map_err SePlatform r))
  end.

(** The closure of [load_refresh_token]; its [plain] is dropped when it returns. *)
Definition unwrap_token (w : W) (wrapped : list u8) (h : LocalHeap) : LocalHeap * result string StoreError :=
  let '(h, r) := unprotect_heap w wrapped h in
  match r with
  | Err e => (h, Err e)
  | Ok plain => (drop_blob plain h, from_utf8 (as_slice plain h))
  end.
(** [ptr] stays null when [CredReadW] fails. *)
Definition cred_read (w : W) (h : LocalHeap) : LocalHeap * Z :=
  match CredReadW w CREDENTIAL_TARGET with
  | Err _ => (h, 0)
  | Ok blob => cred_alloc blob h
  end.
Definition load_heap (w : W) (h : LocalHeap) : LocalHeap * (W * result (option string) StoreError) :=
  let '(h, ptr) := cred_read w h in
  if ptr =? 0 then (h, (w, Ok None))
  else
      let '(h, result) := unwrap_token w (CredentialBlob ptr h) h in
      let h := CredFree ptr h in
      (h, match result with
          | Ok t => (w, Ok (Some t))
          | Err SeCorrupt => ((vault_clear w).1, Ok None)
          | Err e => (w, Err e)
          end).
End vault.

Section machine.
Context {D : Type} `{!Dpapi D}.

(** [wrap] and [unwrap_blob]: the copy is returned, the block dropped. *)
Definition wrap_heap (d : D) (plaintext : list u8) (h : LocalHeap) : LocalHeap * result (list u8) SpoolKeyError :=
  let '(h, r) := crypt_call (dp_protect d CRYPTPROTECT_LOCAL_MACHINE BLOB_DESCRIPTION plaintext) h in
  match r with
  | Err e => (drop_blob Blob_default h, Err (Wrap e))
  | Ok out => (drop_blob out h, Ok (to_vec out h))
  end.
Definition unwrap_heap (d : D) (blob : list u8) (h : LocalHeap) : LocalHeap * result (list u8) SpoolKeyError :=
  let '(h, r) := crypt_call (dp_unprotect d 0 blob) h in
  match r with
  | Err e => (drop_blob Blob_default h, Err (Unwrap e))
  | Ok out => (drop_blob out h, Ok (to_vec out h))
  end.
End machine.

(** ** Clean calls *)

(** Every block is given back, DPAPI's holding nothing but zeros when it was, and the
    credentials given back are [creds]. *)
Definition clean_but (creds : list (list u8)) (h h' : LocalHeap) : Prop :=
  lh_blocks h' = lh_blocks h /\ lh_creds h' = lh_creds h /\ lh_cred_freed h' = lh_cred_freed h ++ creds /\
  exists freed, lh_freed h' = lh_freed h ++ freed /\ Forall (Forall (eq Byte.x00)) freed.
Abbreviation clean := (clean_but []).

Lemma clean_refl h : clean h h.
Proof. split_and!; [done|done|by rewrite app_nil_r|]. exists []. by rewrite app_nil_r. Qed.

Lemma new_address_spec h :
  new_address h <> 0 /\ lh_blocks h !! new_address h = None /\ lh_creds h !! new_address h = None.
Proof.
  unfold new_address. set (X := dom (lh_blocks h) ∪ dom (lh_creds h) ∪ {[0]}).
  assert (stdpp.base.fresh X ∉ X) as Hf by apply is_fresh. revert Hf. generalize (stdpp.base.fresh X) as a.
  intros a. unfold X. rewrite !not_elem_of_union, not_elem_of_singleton, !not_elem_of_dom. tauto.
Qed.

(** A credential that was read and freed around a clean call. *)
Lemma cred_clean blob h h1 ptr h2 :
  cred_alloc blob h = (h1, ptr) -> clean h1 h2 ->
  (ptr =? 0) = false /\ CredentialBlob ptr h1 = blob /\ clean_but [blob] h (CredFree ptr h2).
Proof.
  unfold cred_alloc. destruct (new_address_spec h) as (H0 & _ & Hd). intros [= <- <-].
  revert H0 Hd. generalize (new_address h) as a. intros a H0 Hd (Hb & Hc & Hcf & freed & Hfr & Hz). cbn in *.
  split; [by apply Z.eqb_neq|]. split; [unfold CredentialBlob; cbn; by rewrite lookup_insert_eq|].
  unfold CredFree. rewrite Hc, lookup_insert_eq. unfold clean_but. cbn. rewrite Hcf, app_nil_r.
  split_and!; [done|by rewrite delete_insert_id|done|by exists freed].
Qed.

Lemma LocalAlloc_spec bytes h h1 a :
  LocalAlloc bytes h = (h1, a) ->
  (a =? 0) = false /\ lh_blocks h !! a = None /\
  h1 = {| lh_blocks := <[a := bytes]> (lh_blocks h); lh_freed := lh_freed h; lh_creds := lh_creds h;
          lh_cred_freed := lh_cred_freed h |}.
Proof.
  unfold LocalAlloc. destruct (new_address_spec h) as (H0 & Hd & _). intros [= <- <-].
  by rewrite (proj2 (Z.eqb_neq _ 0) H0).
Qed.

(** A block that was allocated, read and dropped. *)
Lemma alloc_drop_clean bytes h h1 a :
  LocalAlloc bytes h = (h1, a) ->
  let b := {| pbData := a; cbData := length bytes |} in
  as_slice b h1 = bytes /\ to_vec b h1 = bytes /\ clean h (drop_blob b h1).
Proof.
  intros (H0 & Hd & ->)%LocalAlloc_spec.
  unfold as_slice, to_vec, drop_blob. cbn [pbData cbData lh_blocks]. rewrite H0, lookup_insert_eq.
  cbn [orb default from_option]. split; [apply firstn_all|]. split.
  { destruct bytes as [|x l]; [done|]. cbn [length Nat.eqb]. apply (firstn_all (x :: l)). }
  unfold LocalFree, write_zeros. cbn. rewrite lookup_alter_eq, lookup_insert_eq. cbn.
  unfold clean_but. cbn. split_and!.
  - rewrite delete_alter_eq, delete_insert_id; done.
  - done.
  - by rewrite app_nil_r.
  - exists [replicate (length bytes) Byte.x00]. rewrite drop_all, app_nil_r. split; [done|].
    apply Forall_singleton, Forall_replicate. done.
Qed.

(** A call whose only use of the blob is to read it. *)
Lemma crypt_call_clean r h h1 x :
  crypt_call r h = (h1, x) ->
  match x with
  | Ok b => exists bytes, r = Ok bytes /\ as_slice b h1 = bytes /\ to_vec b h1 = bytes /\ clean h (drop_blob b h1)
  | Err e => r = Err e /\ h1 = h
  end.
Proof.
  unfold crypt_call. destruct r as [bytes|e]; [|by intros [= <- <-]].
  destruct (LocalAlloc bytes h) as [h2 a] eqn:E. intros [= <- <-].
  exists bytes. split; [done|]. by apply alloc_drop_clean.
Qed.

Section secrets.
Context {W D : Type} `{!CredVault W} `{!Dpapi D}.

Lemma save_heap_clean (w : W) token h :
  (save_heap w token h).2 = vault_save w token /\ clean h (save_heap w token h).1.
Proof.
  unfold save_heap, vault_save, protect_heap, protect.
  destruct (crypt_call _ h) as [h1 [b|e]] eqn:E; apply crypt_call_clean in E.
  - destruct E as (bytes & -> & Hs & _ & Hc). cbn. rewrite Hs. by destruct (CredWriteW w _ bytes).
  - destruct E as [-> ->]. split; [done|apply clean_refl].
Qed.

Lemma unwrap_token_clean (w : W) wrapped h :
  (unwrap_token w wrapped h).2 = res_bind (unprotect w wrapped) from_utf8 /\ clean h (unwrap_token w wrapped h).1.
Proof.
  unfold unwrap_token, unprotect_heap, unprotect.
  destruct (crypt_call _ h) as [h1 [b|e]] eqn:E; apply crypt_call_clean in E.
  - destruct E as (bytes & -> & Hs & _ & Hc). cbn. by rewrite Hs.
  - destruct E as [-> ->]. split; [done|apply clean_refl].
Qed.

(** What [CredReadW] finds under the program's name. *)
Definition credential (w : W) : list (list u8) :=
  match CredReadW w CREDENTIAL_TARGET with Ok blob => [blob] | Err _ => [] end.

Lemma load_heap_clean (w : W) h : (load_heap w h).2 = vault_load w /\ clean_but (credential w) h (load_heap w h).1.
Proof.
  unfold load_heap, vault_load, cred_read, credential.
  destruct (CredReadW w CREDENTIAL_TARGET) as [wrapped|]; [|split; [done|apply clean_refl]].
  destruct (cred_alloc wrapped h) as [h1 ptr] eqn:Ea. destruct (unwrap_token_clean w wrapped h1) as [Er Hc].
  destruct (cred_clean _ _ _ _ _ Ea Hc) as (H0 & Hb & Hf). rewrite H0, Hb.
  destruct (unwrap_token w wrapped h1) as [h2 r]. cbn [fst snd] in *. rewrite Er. by split.
Qed.

Lemma wrap_heap_clean (d : D) m h :
  (wrap_heap d m h).2 = map_err Wrap (dp_protect d CRYPTPROTECT_LOCAL_MACHINE BLOB_DESCRIPTION m) /\
  clean h (wrap_heap d m h).1.
Proof.
  unfold wrap_heap. destruct (crypt_call _ h) as [h1 [b|e]] eqn:E; apply crypt_call_clean in E.
  - destruct E as (bytes & -> & _ & -> & Hc). done.
  - destruct E as [-> ->]. split; [done|apply clean_refl].
Qed.

Lemma unwrap_heap_clean (d : D) b h :
  (unwrap_heap d b h).2 = map_err Unwrap (dp_unprotect d 0 b) /\ clean h (unwrap_heap d b h).1.
Proof.
  unfold unwrap_heap. destruct (crypt_call _ h) as [h1 [bl|e]] eqn:E; apply crypt_call_clean in E.
  - destruct E as (bytes & -> & _ & -> & Hc). done.
  - destruct E as [-> ->]. split; [done|apply clean_refl].
Qed.

(** C33: No key and no token is left behind in freed memory: saving and loading the refresh
    token, wrapping and unwrapping the spool key, whichever call of Windows fails, return
    what the vault and the wrapper of the other theorems return and give back every block
    they were handed. The blocks of DPAPI, which hold what it encrypted or decrypted, were
    all zeros when they were given back; the credential that loading the token reads was
    given back once and as it was, holding the encrypted blob of the vault and nothing
    else; the other calls are handed no credential. *)
Theorem secrets_are_scrubbed (w : W) (d : D) token m b h :
  ((save_heap w token h).2 = vault_save w token /\ clean h (save_heap w token h).1) /\
  ((load_heap w h).2 = vault_load w /\ clean_but (credential w) h (load_heap w h).1) /\
  ((wrap_heap d m h).2 = map_err Wrap (dp_protect d CRYPTPROTECT_LOCAL_MACHINE BLOB_DESCRIPTION m) /\
   clean h (wrap_heap d m h).1) /\
  ((unwrap_heap d b h).2 = map_err Unwrap (dp_unprotect d 0 b) /\ clean h (unwrap_heap d b h).1).
Proof.
  split; [apply save_heap_clean|]. split; [apply load_heap_clean|]. split; [apply wrap_heap_clean|apply unwrap_heap_clean].
Qed.
End secrets.

(** ** The pipe's security descriptor *)

(** [PipeSecurity]; 0 is the invalid descriptor. *)
Definition PipeSecurity : Type := Z.
Record SECURITY_ATTRIBUTES := { sa_nLength : Z; sa_lpSecurityDescriptor : Z; sa_bInheritHandle : bool }.

(** [ConvertStringSecurityDescriptorToSecurityDescriptorW] gives the binary form of the
    text, or fails. *)
Definition from_sddl (convert : string -> result (list u8) string) (sddl : string) (h : LocalHeap)
    : LocalHeap * result PipeSecurity string :=
  match convert sddl with
  | Err e => (h, Err e)
  | Ok bytes => let '(h, a) := LocalAlloc bytes h in (h, Ok a)
  end.
Definition attributes (s : PipeSecurity) : SECURITY_ATTRIBUTES :=
  {| sa_nLength := 24; sa_lpSecurityDescriptor := s; sa_bInheritHandle := false |}.
Definition drop_security (s : PipeSecurity) (h : LocalHeap) : LocalHeap :=
  if s =? 0 then h else LocalFree s h.

(** While the host serves, the attributes it creates instances with point at the
    descriptor of the text; dropping it leaves the heap as it was. *)
Theorem pipe_security_lives_and_is_freed convert sddl h h1 s :
  from_sddl convert sddl h = (h1, Ok s) ->
  exists bytes, convert sddl = Ok bytes /\
    lh_blocks h1 !! sa_lpSecurityDescriptor (attributes s) = Some bytes /\
    lh_blocks (drop_security s h1) = lh_blocks h.
Proof.
  unfold from_sddl. destruct (convert sddl) as [bytes|]; [|done].
  destruct (LocalAlloc bytes h) as [h2 a] eqn:E. intros [= <- <-]. apply LocalAlloc_spec in E as (H0 & Hd & ->).
  exists bytes. split; [done|]. cbn. rewrite lookup_insert_eq. split; [done|].
  unfold drop_security. rewrite H0. unfold LocalFree. cbn. rewrite lookup_insert_eq. cbn. by rewrite delete_insert_id.
Qed.
